(* ===== verification/_CoqProject ===== *)
-Q . S2P
Prelude.v
GoText.v
ApiTypes.v
ConsumerTypes.v
Kube.v
MemServer.v
Effects.v
Chunk.v
Wire.v
AgentClient.v
Catalog.v
Registry.v
Placement.v
PlacementProofs.v
Prober.v
Selection.v
Prompt.v
ReservationApi.v
InstructionsApi.v
AdvertisementApi.v
Brain.v
LocalApi.v
GrpcServer.v
LoopbackClient.v
AgentHandlers.v
Poller.v
Signals.v
Publisher.v
Heartbeater.v
Gateway.v
ReservationController.v
ResourceRequestController.v
VirtualNodeStateController.v
Housekeeping.v
BrokerInvariant.v
BrokerSafety.v
Ledger.v
ReservationProofs.v
ReconcileProofs.v
CredentialProofs.v
Progress.v
InstructionProofs.v
HousekeepingProofs.v
Divergences.v
BrainProofs.v
BrainEquivalence.v
LocalApiProofs.v
GrpcProofs.v
ResourceRequestProofs.v
VirtualNodeStateProofs.v
PollerProofs.v
HandlerProofs.v
ReportingProofs.v
GatewayProofs.v
MockServices.v
LocalRoutes.v
EndToEnd.v
Stack.v
ScaleUp.v
ScaleDown.v
Dashboard.v
DashboardProofs.v
Console.v
ConsoleProofs.v
Listeners.v
Binaries.v
BinaryProofs.v
AgentWitnesses.v
Experiment.v
Evaluation.v
