(* ===== verification/Prelude.v ===== *)
(** * Verification of the federation-autoscaler

    The federation-autoscaler lets the Kubernetes clusters of a federation lend
    each other capacity.  Providers advertise free resources to a central
    Broker, which cuts them into _chunks_; the Cluster Autoscaler of a consumer
    asks for node groups and reserves chunks; the Broker then drives the two
    clusters through the peering with _instructions_ their agents poll, execute
    and report on.  This development models the Broker (REST handlers and
    controllers), the consumer and provider agents, the consumer's own
    controllers, the gRPC server the Cluster Autoscaler talks to, and the
    binaries that put them together, as they are written under [src/internal] and
    [src/cmd] over the custom resources of [src/api], and the part of the
    experiments under [src/federation-tests] that decides and evaluates.

    ** The parts and how they interact

    The Cluster Autoscaler calls the gRPC server ([src/internal/grpcserver]),
    which calls the consumer agent's loopback API
    ([src/internal/agent/consumer/localapi]), which answers from the Broker or
    from the agent's own _brain_ and forwards reservations to the Broker
    ([src/internal/broker/api]) through a retrying client
    ([src/internal/agent/client]).  The Broker's controllers
    ([src/internal/controller]) move each Reservation through its life cycle by
    storing instructions; the agents' pollers fetch them, run a handler and post
    the result.  On the consumer, two more controllers keep manual reservations
    (ResourceRequest) and mirror borrowed nodes (VirtualNodeState).  Beside this,
    a provider's publisher advertises its capacity, a consumer's heartbeat tells
    the Broker its policy and place, both asking a geolocation and a carbon
    service; a dashboard shows the Broker's state and a console sets an agent's.

    All durable state is Kubernetes objects, read and written through a
    controller-runtime client: ClusterAdvertisement (what a provider offers and
    the counters total / reserved / available), Reservation (a consumer's claim
    and its phase), ProviderInstruction and ReservationInstruction (work for an
    agent), the Secrets that stage peering kubeconfigs, and on the consumer
    ResourceRequest, VirtualNodeState, ConsumerPolicy and Liqo's objects.  State
    in memory is small: the Broker's consumer registry, the agent's offer
    catalog, probe cache, refusal marks and model cache, the gRPC server's
    two-second cache, the health probe.  Within the Broker, handlers and
    reconcilers meet only through stored objects, each request being one atomic
    step of the API server; optimistic concurrency on [resourceVersion] and
    loops of at most three attempts are the only synchronisation.

    A handler or reconciler is therefore a _program_ ([Kube.prog]): a tree of
    API requests and clock readings.  The API server is not part of the
    repository, so the proofs never fix one: they quantify over every server
    that meets a contract, a relation between the stored objects before and
    after one request.

    - [Kube.cached]: reads may be stale or fail, writes may fail, but a returned
      object was stored once and an accepted write had the current version.
      The theorems about it are rely-guarantee statements about any number of
      programs interleaved at every request.
    - [Kube.reliable]: reads are fresh, nobody interferes and a request fails
      only for a documented reason.  The theorems about it say what a single
      call achieves.
    - [Kube.serves]: reads are fresh but any request may fail for any reason.

    [MemServer] is an executable server that meets [reliable] (and hence is an
    instance of the interface); witnesses run the programs on it.

    Agents also talk to the world outside Kubernetes: the Broker over HTTP, the
    network they probe, the language model, [liqoctl], the disk, the loopback
    API.  [Effects.eff] extends programs with such questions; a component names
    its questions and the type of their answers ([http_call], [agent_call],
    [tool_call], [poll_call], ...), and a theorem quantifies over the answers.
    Histories of questions and answers ([Effects.traced]) are what "asks once",
    "releases exactly" and "reports every" are stated about.

    ** Files

    - [Prelude]: Go's int32/int64, binary64 floats ([GoFloat], on SpecFloat),
      strings and formatting ([GoStr]), [sort.SliceStable] ([GoSort]), results
      and error classes, the shared tactics and hint database.  [GoText]:
      trimming, searching and parsing of strings.
    - [ApiTypes], [ConsumerTypes]: the custom resources (api/broker/v1alpha1,
      api/autoscaling/v1alpha1), the upstream objects the consumer reads, and
      the classes [Platform] / [PlatformLaws] for third-party code (quantities,
      DNS-1123 validation, trigonometry).
    - [Kube], [MemServer], [Effects]: programs, contracts, weakest
      preconditions, the rely-guarantee logic, the executable server, questions
      to the outside.
    - [Chunk]: broker/chunk/chunk.go.
    - [Wire]: broker/api/types.go and the configuration of server.go.
    - [Registry]: broker/api/registry.go and heartbeat.go.
    - [Placement], [PlacementProofs]: broker/api/placement.go, nodegroups.go
      (policies), pricing.go, geo.go.
    - [ReservationApi], [InstructionsApi], [AdvertisementApi]: the REST handlers
      of broker/api/reservation.go, instructions.go, advertisement.go and the
      handler half of nodegroups.go.
    - [ReservationController], [Housekeeping]:
      controller/broker/reservation_controller.go and
      clusteradvertisement_controller.go; controller/autoscaling/instruction.go,
      providerinstruction_controller.go and reservationinstruction_controller.go.
    - [BrokerInvariant], [BrokerSafety], [Ledger], [ReservationProofs],
      [ReconcileProofs], [CredentialProofs], [InstructionProofs],
      [HousekeepingProofs]: the Broker's invariant under concurrency, the
      accounts, functional correctness of the handlers and reconcilers.
      [Progress]: what a reconciliation round leaves a Reservation waiting for.
    - [Divergences]: executions in which the code departs from its comments.
    - [AgentClient]: agent/client (errors, requests, endpoints).
    - [Catalog], [Prober], [Selection], [Prompt], [Brain], [BrainProofs],
      [BrainEquivalence]: agent/consumer/brain, agent/consumer/latency and
      agent/ollama (client.go and prompt.go).
    - [LocalApi], [LocalApiProofs]: the handlers of agent/consumer/localapi.
      [LocalRoutes]: its routes, what they write, and that the gRPC server's
      client reaches the handler it means.
    - [GrpcServer], [GrpcProofs], [LoopbackClient]: grpcserver and
      grpcserver/agentclient.
    - [AgentHandlers], [HandlerProofs]: agent/consumer/instructions,
      agent/provider/instructions, agent/provider/snapshot.
    - [Poller], [PollerProofs]: agent/poller and agent/health/probe.go.
    - [Signals], [Publisher], [Heartbeater], [ReportingProofs]: agent/nodeip,
      agent/geo, agent/eco; agent/provider/advertise/publisher.go and
      agent/consumer/heartbeat/heartbeat.go.
    - [MockServices]: internal/mockgeo and internal/mockeco, the services the
      two ask.
    - [Gateway], [GatewayProofs]: the routes of broker/api/server.go,
      middleware.go and the identity in tls.go.  [EndToEnd]: the agent's client,
      an unreliable network and this front end in one program.
    - [Stack], [ScaleUp], [ScaleDown]: the whole path of a request of the
      Cluster Autoscaler.  The outside of the gRPC server is answered by its
      client over a lossy network to the loopback server, whose outside is
      answered by the agent's client over another one to the Broker's front end
      ([agent_link], [loopback], [broker_link]); no other process of the Broker
      acts in between.
    - [Dashboard], [DashboardProofs]: broker/api/dashboard.go.
    - [Console], [ConsoleProofs]: agent/console.
    - [ResourceRequestController], [ResourceRequestProofs],
      [VirtualNodeStateController], [VirtualNodeStateProofs]:
      controller/autoscaling/resourcerequest_controller.go and
      virtualnodestate_controller.go.
    - [Listeners]: the TLS configurations (broker/api/tls.go, grpcserver/tls.go,
      agent/client/tls.go) and the serve-and-drain loops (broker/api/runnable.go,
      dashboard_runnable.go, grpcserver/server.go, the [Run] of localapi and
      console, health/probe.go).  [Binaries]: agent/consumer/consumer.go,
      agent/provider/provider.go, internal/manager and the three binaries of
      [src/cmd].  [BinaryProofs]: what comes up when they start.
    - [AgentWitnesses]: concrete inputs for the theorems on the consumer side.
    - [Experiment], [Evaluation]: federation-tests: consumerchoice/decision.go,
      evaluate.go and metrics.go, testlib/selection.go, scalability/metrics.go
      and summary.go.

    Definitions keep the source's names; a Go function that is long, or whose
    loop has to be a recursive definition, is split into named pieces (for
    example [handleReservationCreate] into itself, [admitReservation] and
    [persistReservation]) composed in the source's order.  A loop
    [for attempt := 0; attempt < 3; attempt++] is a structural recursion on the
    number of attempts left, with the source's bound; the client's retry loop
    recurses on the configured number of retries.  Only the endless loops of the
    poller, the publisher and the heartbeat take fuel (their number of ticks),
    and the theorems about them are stated for one tick, which always ends:
    every program is a finite tree.

    ** What the theorems show

    - C1, C2, C10 (any interleaving, stale reads, failures): counters stay
      consistent, no provider is over-committed, Reservations follow their life
      cycle, released markers are never taken back; and when callers are
      authenticated and registered through validated heartbeats (the class
      [BrokerInvariant.Discipline]), everything the Broker stores satisfies the
      schema of its custom resource.
    - C3, C11, C12: the ledger balances and ended reservations give their chunks
      back.  C9: a live reservation is never left waiting for nobody.
    - C4, C5: a scale-up or scale-down of the Cluster Autoscaler, run through all
      processes on its way, refines booking and releasing: it changes the
      Broker's store by those steps alone, each at most once, and when it reports
      success by all of them.  C36: refusals come back with their meaning.
    - C6-C8: the reservation endpoints answer as documented on every branch;
      client, lossy network, front end and handler together book once.
    - C14, C24, C25: the credential a pair of clusters shares is torn down with
      its last reservation and not before, and reaches only its addressee.
    - C16, C26, C27: who may do what: the API serves only callers the client CA
      vouches for, the open dashboard writes nothing and reveals no Secret, the
      open console touches only its own settings.
    - C23: the agent binary starts whole or not at all.
    - C21, C22, C28, C37: what agents report is what the cluster and the operator
      say, and the Broker records it as it came.
    - C29, C30, C38: placement, for every map iteration order and random draw;
      sizing.
    - C19, C20, C31-C33: the offer catalog refines the history of operations; the
      consumer's own decision is the Broker's; the language model reads exact
      figures, and whatever it says only providers with capacity are ranked; its
      cache never serves a ranking for another prompt.
    - C13, C34: manual reservations: never two at a time, and each fits.
    - C15: Cleanup undoes Peer.  C35: the mirror of a borrowed node shows the
      node as it is.
    - C17, C18: every delivered instruction is reported; a client call ends
      within its retry budget.
    - C39, C40: where the code departs from what its comments promise: a late
      Peer result revives a released Reservation, credential names of two pairs
      can coincide.

    Theorems without a number are further properties of the same definitions
    (for example [handleOverview_exact], [Ready_iff_alive],
    [MiddlewareChain_authenticated], [discovered_place_has_carbon],
    [drains_before_returning], [agent_ready_window], [loopback_routes_agree],
    [garbled_answer_passes_as_success]; and of the experiments
    [decideChoice_sound], [rankAscending_correct], [computeMetrics_honest],
    [computeStats_partition]).

    ** What is not modelled

    Logging; JSON and YAML, which are parameters of the components that use them,
    as are crypto/tls, crypto/x509 and golang.org/x/time/rate.  The CRD schema checks of the API server: a proof
    that needs them assumes [BrokerInvariant.valid] of the store it starts from
    (counters consistent, chunk counts positive int32 values), which C1 shows is
    kept.  Times are nanoseconds although [metav1.Time] keeps seconds when
    stored.  Float expressions are rounded after each operation (Go may fuse them
    on some targets).  [liqoctl], the network, the language model and the
    scheduler's choice in a [select] are outside: their answers are arbitrary
    values of the answer type.  Controller registration ([SetupWithManager]) and
    the controller-runtime manager are library calls.  Generated code (protoc,
    controller-gen) and the tests are left out.  Of [src/federation-tests] only
    the pure decisions and statistics are modelled: the rest provisions clusters,
    runs [kubectl] and [docker], samples resource usage and writes reports, and
    what it computes is what those tools answer.  The scale-up and scale-down
    theorems let no other process act between the steps of the RPC; what holds
    under interference is C1, C2 and C10.  Progress is shown for one
    reconciliation round: that the agents answer is their side of the protocol
    (C17), and that rounds come is the controller runtime's. *)
From Stdlib Require Import SpecFloat.
From stdpp Require Import base gmap strings list pretty sorting relations.
From Stdlib Require Import ZArith Lia.

(** ** Machine integers

    Go's [int32] and [int64] are modelled by [Z] kept at their width: every
    arithmetic operation of the source that can leave the range is wrapped
    explicitly. *)
Module GoInt.

Open Scope Z_scope.

Definition int32_min : Z := - 2 ^ 31.
Definition int32_max : Z := 2 ^ 31 - 1.
Definition int64_min : Z := - 2 ^ 63.
Definition int64_max : Z := 2 ^ 63 - 1.

Definition is_int32 (z : Z) : Prop := int32_min <= z <= int32_max.
Definition is_int64 (z : Z) : Prop := int64_min <= z <= int64_max.

(** Two's complement truncation, [int32(x)] in Go. *)
Definition to_int32 (z : Z) : Z := (z + 2 ^ 31) mod 2 ^ 32 - 2 ^ 31.

Definition add32 (a b : Z) : Z := to_int32 (a + b).
Definition sub32 (a b : Z) : Z := to_int32 (a - b).
Definition neg32 (a : Z) : Z := to_int32 (- a).

Lemma to_int32_id z : is_int32 z → to_int32 z = z.
Proof.
  unfold is_int32, int32_min, int32_max, to_int32. intros [Hl Hu].
  rewrite Z.mod_small; lia.
Qed.

Lemma to_int32_range z : is_int32 (to_int32 z).
Proof.
  unfold is_int32, int32_min, int32_max, to_int32.
  pose proof (Z.mod_pos_bound (z + 2 ^ 31) (2 ^ 32)). lia.
Qed.

(** The 64-bit counterpart: the result of an [int64] operation. *)
Definition to_int64 (z : Z) : Z := (z + 2 ^ 63) mod 2 ^ 64 - 2 ^ 63.

Lemma to_int64_id z : is_int64 z → to_int64 z = z.
Proof.
  unfold is_int64, int64_min, int64_max, to_int64. intros [Hl Hu].
  rewrite Z.mod_small; lia.
Qed.

(** Wrapping along the way or once at the end is the same. *)
Lemma to_int32_add a b : to_int32 (to_int32 a + b) = to_int32 (a + b).
Proof.
  unfold to_int32. f_equal.
  replace ((a + 2 ^ 31) mod 2 ^ 32 - 2 ^ 31 + b + 2 ^ 31) with ((a + 2 ^ 31) mod 2 ^ 32 + b) by lia.
  rewrite Zplus_mod_idemp_l. f_equal. lia.
Qed.

Lemma add32_id a b : is_int32 (a + b) → add32 a b = a + b.
Proof. apply to_int32_id. Qed.

Lemma sub32_id a b : is_int32 (a - b) → sub32 a b = a - b.
Proof. apply to_int32_id. Qed.

Lemma neg32_id a : is_int32 (- a) → neg32 a = - a.
Proof. apply to_int32_id. Qed.

End GoInt.

(** ** Weak orders and Go's [sort.SliceStable]

    Go sorts with a [less] callback.  For up to 20 elements
    [sort.SliceStable] is the insertion sort below (each element is moved left
    while it is [less] than its neighbour); for longer slices it merges blocks
    sorted that way, and under a strict weak order both produce the unique
    stable arrangement. *)
Module GoSort.

Section Sort.
Context {A : Type} (less : A → A → bool).

(** [ins_back x rp] inserts [x] at the end of the sorted prefix whose
    reversal is [rp]. *)
Fixpoint ins_back (x : A) (rp : list A) : list A :=
  match rp with
  | [] => [x]
  | y :: rp' => if less x y then y :: ins_back x rp' else x :: rp
  end.

Definition SliceStable (l : list A) : list A :=
  rev (foldl (λ rp x, ins_back x rp) [] l).

(** [less] is a strict weak order on the elements satisfying [P]. *)
Class StrictWeak (P : A → Prop) : Prop := {
  sw_asym : ∀ a b, P a → P b → less a b = true → less b a = false;
  sw_cotrans : ∀ a b c, P a → P b → P c →
    less a b = true → less a c = true ∨ less c b = true
}.

Definition sorted_by (l : list A) : Prop :=
  StronglySorted (λ a b, less b a = false) l.

Lemma ins_back_perm x rp : ins_back x rp ≡ₚ x :: rp.
Proof.
  induction rp as [|y rp IH]; simpl; [done|].
  destruct (less x y); [|done]. rewrite IH. apply Permutation_swap.
Qed.

Lemma SliceStable_perm l : SliceStable l ≡ₚ l.
Proof.
  unfold SliceStable. rewrite <-Permutation_rev.
  assert (∀ acc, foldl (λ rp x, ins_back x rp) acc l ≡ₚ acc ++ l) as H.
  { induction l as [|x l IH]; intros acc; simpl; [by rewrite app_nil_r|].
    rewrite IH, ins_back_perm. simpl. apply Permutation_middle. }
  apply (H []).
Qed.

Lemma SliceStable_length l : length (SliceStable l) = length l.
Proof. by rewrite SliceStable_perm. Qed.

Lemma SliceStable_elem x l : x ∈ SliceStable l ↔ x ∈ l.
Proof. by rewrite SliceStable_perm. Qed.

Context (P : A → Prop) `{!StrictWeak P}.

Lemma less_irrefl a : P a → less a a = false.
Proof.
  intros Ha. destruct (less a a) eqn:E; [|done].
  pose proof (sw_asym a a Ha Ha E). congruence.
Qed.

Lemma not_less_trans a b c :
  P a → P b → P c → less b a = false → less c b = false → less c a = false.
Proof.
  intros Ha Hb Hc Hba Hcb. destruct (less c a) eqn:E; [|done].
  destruct (sw_cotrans c a b Hc Ha Hb E); congruence.
Qed.

(** A loop that keeps the least element seen so far ends with a least one. *)
Lemma fold_least c l :
  P c → Forall P l →
  let r := foldl (λ c q, if less q c then q else c) c l in
  (r = c ∨ r ∈ l) ∧ less c r = false ∧ ∀ q, q ∈ l → less q r = false.
Proof.
  intros Hc Hl. revert c Hc. induction Hl as [|q0 l Hq0 Hl IH]; intros c Hc; cbn [foldl].
  { split_and!; [by left|by apply less_irrefl|]. by intros q ?%not_elem_of_nil. }
  assert (P (if less q0 c then q0 else c)) as Hs by by destruct (less q0 c).
  destruct (IH _ Hs) as (Hin & Hle & Hall). set (r := foldl _ _ l) in *.
  assert (P r) as Hr by (destruct Hin as [-> |Hin]; [done|]; rewrite Forall_forall in Hl; auto).
  destruct (less q0 c) eqn:E; split_and!.
  - right. destruct Hin as [-> |Hin]; [by left|by right].
  - apply (not_less_trans r q0 c); [done..|]. by apply sw_asym.
  - intros q [-> |Hq]%elem_of_cons; [done|by apply Hall].
  - destruct Hin as [-> |Hin]; [by left|right; by right].
  - done.
  - intros q [-> |Hq]%elem_of_cons; [by apply (not_less_trans r c q0)|by apply Hall].
Qed.

Lemma ins_back_sorted x rp :
  P x → Forall P rp → StronglySorted (λ a b, less a b = false) rp →
  StronglySorted (λ a b, less a b = false) (ins_back x rp).
Proof.
  intros Hx. induction rp as [|y rp IH]; simpl; intros HP Hs; [repeat constructor|].
  inversion HP as [|? ? Hy HP']; subst. inversion Hs as [|? ? Hs' Hle]; subst.
  destruct (less x y) eqn:E.
  - constructor; [by apply IH|].
    rewrite ins_back_perm. constructor; [by apply sw_asym|done].
  - constructor; [done|]. constructor; [done|].
    rewrite Forall_forall in Hle, HP' |- *. intros z Hz.
    apply (not_less_trans z y x); auto.
Qed.

Lemma StronglySorted_snoc (R : relation A) l x :
  StronglySorted R l → Forall (λ y, R y x) l → StronglySorted R (l ++ [x]).
Proof.
  induction l as [|y l IH]; simpl; intros Hs HF; [repeat constructor|].
  inversion Hs; inversion HF; subst. constructor; [by apply IH|].
  apply Forall_app; split; [done|]. by constructor.
Qed.

Lemma StronglySorted_rev (R : relation A) l :
  StronglySorted R l → StronglySorted (flip R) (rev l).
Proof.
  induction 1 as [|x l Hs IH HF]; simpl; [constructor|].
  apply StronglySorted_snoc; [done|].
  apply Forall_forall. intros y Hy. rewrite Forall_forall in HF.
  apply HF. apply list_elem_of_In. apply in_rev. by apply list_elem_of_In.
Qed.

Lemma SliceStable_sorted l : Forall P l → sorted_by (SliceStable l).
Proof.
  intros HP. unfold sorted_by, SliceStable.
  apply (StronglySorted_rev (λ a b, less a b = false)).
  assert (∀ acc, Forall P acc → StronglySorted (λ a b, less a b = false) acc →
    StronglySorted (λ a b, less a b = false)
      (foldl (λ rp x, ins_back x rp) acc l)) as H.
  { induction HP as [|x l Hx HP IH]; intros acc Hacc Hs; simpl; [done|].
    apply IH; [|by apply ins_back_sorted].
    rewrite ins_back_perm. by constructor. }
  apply H; constructor.
Qed.

(** The first element of a sorted list passing a test is minimal among those
    that pass it. *)
Lemma sorted_first_min (f : A → bool) l1 x l2 :
  P x → sorted_by (l1 ++ x :: l2) → (∀ y, y ∈ l1 → f y = false) →
  ∀ y, y ∈ l1 ++ x :: l2 → f y = true → less y x = false.
Proof.
  intros Hx Hs Hl1 y Hy Hf. apply elem_of_app in Hy as [Hy|Hy].
  - rewrite Hl1 in Hf; done.
  - apply elem_of_cons in Hy as [->|Hy]; [by apply less_irrefl|].
    unfold sorted_by in Hs. induction l1 as [|z l1 IH]; simpl in Hs.
    + inversion Hs as [|? ? _ HF]; subst. rewrite Forall_forall in HF. auto.
    + inversion Hs; subst. apply IH; [done|].
      intros w Hw. apply Hl1. by constructor.
Qed.

(** When the order separates the elements, the result does not depend on the
    order they came in. *)
Lemma SliceStable_unique l1 l2 :
  l1 ≡ₚ l2 → Forall P l1 →
  (∀ a b, a ∈ l1 → b ∈ l1 → less a b = false → less b a = false → a = b) →
  SliceStable l1 = SliceStable l2.
Proof.
  intros Hp HP Hsep. apply (StronglySorted_unique_strong (λ a b, less b a = false)).
  - intros a b Ha Hb H1 H2. rewrite SliceStable_elem in Ha, Hb. rewrite <-Hp in Hb. auto.
  - by apply SliceStable_sorted.
  - apply SliceStable_sorted. by rewrite <-Hp.
  - by rewrite !SliceStable_perm.
Qed.

End Sort.

Lemma SliceStable_less_ext {A} (less less' : A → A → bool) l :
  (∀ a b, less a b = less' a b) → SliceStable less l = SliceStable less' l.
Proof.
  intros E. unfold SliceStable. f_equal. generalize (@nil A).
  assert (∀ x acc, ins_back less x acc = ins_back less' x acc) as Hins.
  { intros x acc. induction acc as [|y acc IH]; simpl; [done|]. by rewrite E, IH. }
  induction l as [|x l IH]; intros acc; simpl; [done|]. by rewrite IH, Hins.
Qed.

(** Comparing by a key inherits the order of the keys. *)
Lemma StrictWeak_key {A B} (f : A → B) (less : B → B → bool) (P : A → Prop) (Q : B → Prop) :
  StrictWeak less Q → (∀ a, P a → Q (f a)) → StrictWeak (λ a b, less (f a) (f b)) P.
Proof.
  intros Hw HPQ. split.
  - intros a b Ha Hb. apply (sw_asym less (P:=Q)); auto.
  - intros a b c Ha Hb Hc. apply (sw_cotrans less (P:=Q)); auto.
Qed.

(** Sorting by a key no two elements share. *)
Lemma SliceStable_key_unique {A B} (f : A → B) (less : B → B → bool) l1 l2 :
  StrictWeak less (λ _, True) →
  (∀ x y, less x y = false → less y x = false → x = y) →
  l1 ≡ₚ l2 → NoDup (f <$> l1) →
  SliceStable (λ a b, less (f a) (f b)) l1 = SliceStable (λ a b, less (f a) (f b)) l2.
Proof.
  intros Hw Htot Hp Hnd.
  pose proof (StrictWeak_key f less (λ _, True) (λ _, True) Hw (λ _ _, I)) as Hw'.
  apply (SliceStable_unique _ (λ _, True)); [done|by apply Forall_true|].
  intros a b Ha Hb H1 H2. pose proof (Htot _ _ H1 H2) as E.
  apply list_elem_of_lookup in Ha as [i Hi], Hb as [j Hj].
  assert (i = j) as ->; [|congruence].
  eapply (NoDup_lookup _ _ _ _ Hnd); rewrite list_lookup_fmap; [by rewrite Hi|by rewrite Hj, E].
Qed.

End GoSort.

(** ** Go strings *)
Module GoStr.

(** Go compares strings bytewise. *)
Definition str_lt (a b : string) : bool := String.ltb a b.

Lemma str_compare_refl s : String.compare s s = Eq.
Proof.
  induction s as [|c s IH]; simpl; [done|].
  unfold Ascii.compare. by rewrite N.compare_refl.
Qed.

Lemma str_compare_trans a b c :
  String.compare a b = Lt → String.compare b c = Lt → String.compare a c = Lt.
Proof.
  revert b c. induction a as [|x a IH]; intros [|y b] [|z c]; simpl; try done.
  unfold Ascii.compare.
  destruct (N.compare_spec (Ascii.N_of_ascii x) (Ascii.N_of_ascii y)) as [Exy|Exy|];
    destruct (N.compare_spec (Ascii.N_of_ascii y) (Ascii.N_of_ascii z)) as [Eyz|Eyz|];
    intros H1 H2; try done;
    destruct (N.compare_spec (Ascii.N_of_ascii x) (Ascii.N_of_ascii z)); try lia; eauto.
Qed.

Lemma str_lt_total a b : str_lt a b = false → str_lt b a = false → a = b.
Proof.
  unfold str_lt, String.ltb. rewrite (String.compare_antisym b a).
  destruct (String.compare a b) eqn:E; simpl; try done.
  intros _ _. by apply String.compare_eq_iff.
Qed.

#[global] Instance str_lt_weak : GoSort.StrictWeak str_lt (λ _, True).
Proof.
  split; unfold str_lt, String.ltb.
  - intros a b _ _. rewrite (String.compare_antisym b a).
    by destruct (String.compare a b).
  - intros a b c _ _ _ H. destruct (String.compare a b) eqn:Eab; try done.
    destruct (String.compare a c) eqn:Eac; [|by left|].
    + apply String.compare_eq_iff in Eac as ->. right. by rewrite Eab.
    + right. rewrite (str_compare_trans c a b); [done| |done].
      rewrite String.compare_antisym, Eac. done.
Qed.

Definition dquote : string := String (Ascii.ascii_of_nat 34) EmptyString.

Definition hex_digit (n : nat) : string :=
  String.substring n 1 "0123456789abcdef".

(** [strconv.Quote] one byte at a time.  Bytes from 128 up are kept: Go keeps
    the printable runes they encode. *)
Definition quote_byte (c : Ascii.ascii) : string :=
  let n := Ascii.nat_of_ascii c in
  if (n =? 34)%nat then "\" +:+ dquote
  else if (n =? 92)%nat then "\\"
  else if (n =? 7)%nat then "\a" else if (n =? 8)%nat then "\b"
  else if (n =? 12)%nat then "\f" else if (n =? 10)%nat then "\n"
  else if (n =? 13)%nat then "\r" else if (n =? 9)%nat then "\t"
  else if (n =? 11)%nat then "\v"
  else if (n <? 32)%nat || (n =? 127)%nat then
    "\x" +:+ hex_digit (n / 16) +:+ hex_digit (n mod 16)
  else String c EmptyString.

Fixpoint quote_bytes (s : string) : string :=
  match s with
  | EmptyString => EmptyString
  | String c s' => quote_byte c +:+ quote_bytes s'
  end.

(** The [%q] verb. *)
Definition fmt_q (s : string) : string := dquote +:+ quote_bytes s +:+ dquote.

(** The [%d] verb. *)
Definition fmt_d (z : Z) : string := pretty z.

(** [strings.ToLower] on ASCII. *)
Definition to_lower_byte (c : Ascii.ascii) : Ascii.ascii :=
  let n := Ascii.nat_of_ascii c in
  if ((65 <=? n) && (n <=? 90))%nat then Ascii.ascii_of_nat (n + 32) else c.

Fixpoint to_lower (s : string) : string :=
  match s with
  | EmptyString => EmptyString
  | String c s' => String (to_lower_byte c) (to_lower s')
  end.

End GoStr.

(** ** IEEE 754 binary64

    Go's [float64] is the binary64 format; the operations are the executable
    ones of the Standard Library's [SpecFloat], so a witness can compute
    them. *)
Module GoFloat.

Open Scope Z_scope.

Abbreviation float64 := spec_float.

Definition prec : Z := 53.
Definition emax : Z := 1024.

Definition fzero : float64 := S754_zero false.
Definition fadd : float64 → float64 → float64 := SFadd prec emax.
Definition fsub : float64 → float64 → float64 := SFsub prec emax.
Definition fmul : float64 → float64 → float64 := SFmul prec emax.
Definition fdiv : float64 → float64 → float64 := SFdiv prec emax.
Definition fsqrt : float64 → float64 := SFsqrt prec emax.
Definition flt (x y : float64) : bool := SFltb x y.
Definition fle (x y : float64) : bool := SFleb x y.
Definition feq (x y : float64) : bool := SFeqb x y.

(** [float64(z)] for an integer [z]. *)
Definition fof_Z (z : Z) : float64 := binary_normalize prec emax z 0 false.

(** The literal [n/d]: both integers are exact below [2 ^ 53] and the division
    is correctly rounded, so this is the nearest binary64 value. *)
Definition flit (n d : Z) : float64 := fdiv (fof_Z n) (fof_Z d).

Definition is_nan (x : float64) : bool :=
  match x with S754_nan => true | _ => false end.

Definition is_finite (x : float64) : bool :=
  match x with S754_nan | S754_infinity _ => false | _ => true end.

(** Position of a non-NaN value in the order of the extended reals. *)
Definition fkey (x : float64) : Z * Z * Z :=
  match x with
  | S754_nan => (0, 0, 0)
  | S754_zero _ => (0, 0, 0)
  | S754_infinity s => (if s then -2 else 2, 0, 0)
  | S754_finite true m e => (-1, - e, - Zpos m)
  | S754_finite false m e => (1, e, Zpos m)
  end.

Definition lex_ltb (k1 k2 : Z * Z * Z) : bool :=
  match k1, k2 with
  | (a1, b1, c1), (a2, b2, c2) =>
      (a1 <? a2) || ((a1 =? a2) && ((b1 <? b2) || ((b1 =? b2) && (c1 <? c2))))
  end.

Definition lex_eqb (k1 k2 : Z * Z * Z) : bool :=
  match k1, k2 with
  | (a1, b1, c1), (a2, b2, c2) => (a1 =? a2) && (b1 =? b2) && (c1 =? c2)
  end.

Lemma fcompare_key x y :
  is_nan x = false → is_nan y = false →
  SFcompare x y = Some (if lex_ltb (fkey x) (fkey y) then Lt
                        else if lex_eqb (fkey x) (fkey y) then Eq else Gt).
Proof.
  unfold lex_ltb, lex_eqb.
  assert (∀ p q, Pos.compare_cont Eq p q = Pos.compare p q) as Hc by done.
  destruct x as [[]|[]| |[] mx ex], y as [[]|[]| |[] my ey];
    intros Hx Hy; cbn in Hx, Hy; try discriminate;
    cbn [SFcompare fkey]; rewrite ?Hc; try reflexivity;
    f_equal; cbv beta iota;
    destruct (Z.compare_spec ex ey), (Pos.compare_spec mx my); subst; cbv beta iota;
    repeat case_match; try reflexivity; exfalso; lia.
Qed.

Lemma flt_key x y :
  is_nan x = false → is_nan y = false → flt x y = lex_ltb (fkey x) (fkey y).
Proof.
  intros Hx Hy. unfold flt, SFltb. rewrite fcompare_key by done.
  destruct (lex_ltb _ _); [done|]. by destruct (lex_eqb _ _).
Qed.

Lemma feq_key x y :
  is_nan x = false → is_nan y = false → feq x y = lex_eqb (fkey x) (fkey y).
Proof.
  intros Hx Hy. unfold feq, SFeqb. rewrite fcompare_key by done.
  destruct (lex_ltb (fkey x) (fkey y)) eqn:E.
  - destruct (fkey x) as [[??]?], (fkey y) as [[??]?]. unfold lex_ltb, lex_eqb in *. lia.
  - by destruct (lex_eqb _ _).
Qed.

(** Ranking by a float, ties broken by a second strict weak order, is a strict
    weak order away from NaN. *)
Lemma flt_lex_weak {A : Type} (metric : A → float64) (tie : A → A → bool) (P : A → Prop) :
  GoSort.StrictWeak tie P → (∀ a, P a → is_nan (metric a) = false) →
  GoSort.StrictWeak
    (λ a b, if feq (metric a) (metric b) then tie a b else flt (metric a) (metric b)) P.
Proof.
  intros Htie Hnan.
  assert (∀ a b, P a → P b →
    (if feq (metric a) (metric b) then tie a b else flt (metric a) (metric b)) =
    (if lex_eqb (fkey (metric a)) (fkey (metric b)) then tie a b
     else lex_ltb (fkey (metric a)) (fkey (metric b)))) as Heq.
  { intros a b Ha Hb. by rewrite feq_key, flt_key by auto. }
  split.
  - intros a b Ha Hb. rewrite !Heq by done.
    pose proof (GoSort.sw_asym tie (P:=P) a b Ha Hb).
    destruct (fkey (metric a)) as [[a1 a2] a3], (fkey (metric b)) as [[b1 b2] b3].
    unfold lex_eqb, lex_ltb. repeat case_match; auto; intros; lia.
  - intros a b c Ha Hb Hc. rewrite !Heq by done.
    pose proof (GoSort.sw_cotrans tie (P:=P) a b c Ha Hb Hc).
    destruct (fkey (metric a)) as [[a1 a2] a3], (fkey (metric b)) as [[b1 b2] b3],
      (fkey (metric c)) as [[c1 c2] c3].
    unfold lex_eqb, lex_ltb. repeat case_match; auto; intros; lia.
Qed.

End GoFloat.

(** ** Errors

    [apierrors.IsNotFound] and its siblings look at the reason a Kubernetes
    API error carries, through any number of [fmt.Errorf("...: %w")] wrappers;
    an error is therefore its reason and its text. *)
Inductive ErrKind := ENotFound | EAlreadyExists | EConflict | EOther.

#[global] Instance ErrKind_eq_dec : EqDecision ErrKind.
Proof. solve_decision. Defined.

Record Err := mkErr { e_kind : ErrKind; e_msg : string }.

Inductive Res (A : Type) : Type :=
| Ok (a : A)
| Fail (e : Err).
Arguments Ok {A} a.
Arguments Fail {A} e.

Definition errors_New (msg : string) : Err := mkErr EOther msg.
Definition wrapf (prefix : string) (e : Err) : Err :=
  mkErr (e_kind e) (prefix +:+ ": " +:+ e_msg e).

Definition IsNotFound (e : Err) : bool := bool_decide (e_kind e = ENotFound).
Definition IsAlreadyExists (e : Err) : bool := bool_decide (e_kind e = EAlreadyExists).
Definition IsConflict (e : Err) : bool := bool_decide (e_kind e = EConflict).

(** ** Lists *)
Lemma foldl_ext {A B} (f g : A → B → A) l a :
  (∀ a b, f a b = g a b) → foldl f a l = foldl g a l.
Proof. intros E. revert a. induction l as [|b l IH]; intros a; simpl; [done|]. by rewrite E. Qed.

(** ** Shared automation *)
Create HintDb fed discriminated.

(** Split boolean guards and options that block the goal. *)
Ltac fed_case :=
  repeat (case_match; simplify_eq/=).

Ltac fed_bools :=
  repeat match goal with
  | H : (_ && _) = true |- _ => apply andb_prop in H as [? ?]
  | H : bool_decide _ = true |- _ => apply bool_decide_eq_true_1 in H
  | H : bool_decide _ = false |- _ => apply bool_decide_eq_false_1 in H
  | H : negb _ = true |- _ => apply negb_true_iff in H
  | H : negb _ = false |- _ => apply negb_false_iff in H
  | H : (_ <? _)%Z = true |- _ => apply Z.ltb_lt in H
  | H : (_ <? _)%Z = false |- _ => apply Z.ltb_ge in H
  | H : (_ <=? _)%Z = true |- _ => apply Z.leb_le in H
  | H : (_ <=? _)%Z = false |- _ => apply Z.leb_gt in H
  | H : (_ =? _)%Z = true |- _ => apply Z.eqb_eq in H
  | H : (_ =? _)%Z = false |- _ => apply Z.eqb_neq in H
  end.
