(* ===== verification/GoText.v ===== *)
(** * Text: the parts of [strings], [strconv] and [net/url] the agents use

    [strings.TrimSpace], [Contains] and [CutSuffix], [strconv.ParseInt] in base
    10, [strconv.Itoa], [net.JoinHostPort] and the query parameters of a URL,
    with the round trip between the two conversions. *)
From stdpp Require Import base gmap strings list pretty.
From Stdlib Require Import ZArith Lia.
From S2P Require Import Prelude.

Open Scope Z_scope.

(** [strings.TrimSpace] on ASCII text. *)
Definition is_space (c : Ascii.ascii) : bool :=
  existsb (Nat.eqb (Ascii.nat_of_ascii c)) [9; 10; 11; 12; 13; 32]%nat.

Fixpoint trim_left (s : string) : string :=
  match s with
  | String c s' => if is_space c then trim_left s' else s
  | EmptyString => EmptyString
  end.

Definition TrimSpace (s : string) : string := String.rev (trim_left (String.rev (trim_left s))).

(** *** Trimming, on lists of characters *)
Abbreviation chars := String.list_ascii_of_string.

Fixpoint drop_spaces (l : list Ascii.ascii) : list Ascii.ascii :=
  match l with
  | c :: l' => if is_space c then drop_spaces l' else l
  | [] => []
  end.

Lemma append_assoc a b c : (a +:+ b) +:+ c = a +:+ b +:+ c.
Proof. induction a as [|x a IH]; [done|].
  change (String x ((a +:+ b) +:+ c) = String x (a +:+ b +:+ c)). by rewrite IH.
Qed.

Lemma chars_inj s s' : chars s = chars s' → s = s'.
Proof.
  intros E. rewrite <-(String.string_of_list_ascii_of_string s), E. apply String.string_of_list_ascii_of_string.
Qed.

Lemma chars_rev s : chars (String.rev s) = reverse (chars s).
Proof.
  assert (∀ s1 s2, chars (String.rev_app s1 s2) = reverse (chars s1) ++ chars s2) as Hr.
  { induction s1 as [|c s1 IH]; intros s2; [done|]. simpl.
    rewrite IH, reverse_cons, <-(assoc_L (++)). done. }
  unfold String.rev. by rewrite Hr, app_nil_r.
Qed.

Lemma chars_trim_left s : chars (trim_left s) = drop_spaces (chars s).
Proof. induction s as [|c s IH]; simpl; [done|]. by destruct (is_space c). Qed.

Lemma chars_TrimSpace s :
  chars (TrimSpace s) = reverse (drop_spaces (reverse (drop_spaces (chars s)))).
Proof. unfold TrimSpace. by rewrite chars_rev, chars_trim_left, chars_rev, chars_trim_left. Qed.

Definition starts_solid (l : list Ascii.ascii) : Prop :=
  match l with [] => True | c :: _ => is_space c = false end.

Lemma drop_spaces_solid l : starts_solid (drop_spaces l).
Proof. induction l as [|c l IH]; simpl; [done|]. by destruct (is_space c) eqn:E. Qed.

Lemma drop_spaces_id l : starts_solid l → drop_spaces l = l.
Proof. destruct l as [|c l]; simpl; [done|]. by intros ->. Qed.

Lemma drop_spaces_suffix l : ∃ p, l = p ++ drop_spaces l.
Proof.
  induction l as [|c l [p Hp]]; simpl; [by exists []|].
  destruct (is_space c); [|by exists []]. exists (c :: p). by rewrite Hp at 1.
Qed.

(** Trimming twice is trimming once. *)
Lemma TrimSpace_idemp s : TrimSpace (TrimSpace s) = TrimSpace s.
Proof.
  apply chars_inj. rewrite (chars_TrimSpace (TrimSpace s)), !chars_TrimSpace.
  set (u := drop_spaces (chars s)). destruct (drop_spaces_suffix (reverse u)) as [p Hp].
  set (w := drop_spaces (reverse u)) in *.
  assert (starts_solid (reverse w)) as Hs.
  { assert (u = reverse w ++ reverse p) as Hu
      by (rewrite <-reverse_app, <-Hp; by rewrite reverse_involutive).
    pose proof (drop_spaces_solid (chars s)) as Hu'. fold u in Hu'. rewrite Hu in Hu'.
    by destruct (reverse w). }
  rewrite (drop_spaces_id _ Hs), reverse_involutive.
  f_equal. apply drop_spaces_id, drop_spaces_solid.
Qed.

(** Text that starts with a visible character is not blank. *)
Lemma TrimSpace_solid c s : is_space c = false → TrimSpace (String c s) ≠ "".
Proof.
  intros Hc E. apply (f_equal chars) in E. rewrite chars_TrimSpace in E.
  cbn [String.list_ascii_of_string drop_spaces] in E. rewrite Hc in E.
  assert (∀ l, c ∈ l → drop_spaces l ≠ []) as Hne.
  { induction l as [|d l IH]; [by intros ?%not_elem_of_nil|]. simpl. intros Hin.
    destruct (is_space d) eqn:Hd; [|done]. apply IH.
    apply elem_of_cons in Hin as [->|Hin]; [congruence|done]. }
  apply (Hne (reverse (c :: chars s))); [apply elem_of_reverse; by left|].
  destruct (drop_spaces _) as [|d l]; [done|]. by rewrite reverse_cons in E; destruct (reverse l).
Qed.

(** [strings.Contains]. *)
Definition Contains (s sub : string) : bool :=
  match String.index 0 sub s with Some _ => true | None => false end.

(** [strings.CutSuffix]; [None] is [ok = false]. *)
Definition CutSuffix (s suffix : string) : option string :=
  if String.prefix (String.rev suffix) (String.rev s)
  then Some (String.substring 0 (String.length s - String.length suffix) s) else None.

(** A decimal digit's value. *)
Definition digit_value (c : Ascii.ascii) : option Z :=
  let n := Z.of_nat (Ascii.nat_of_ascii c) in
  if (48 <=? n) && (n <=? 57) then Some (n - 48) else None.

(** The digits of [s] read after those worth [acc]. *)
Fixpoint parse_digits (s : string) (acc : Z) : option Z :=
  match s with
  | EmptyString => Some acc
  | String c s' =>
      match digit_value c with
      | Some d => parse_digits s' (10 * acc + d)
      | None => None
      end
  end.

Definition ParseUint (s : string) : option Z :=
  if decide (s = "") then None else parse_digits s 0.

Definition plus_sign : Ascii.ascii := Ascii.ascii_of_nat 43.
Definition minus_sign : Ascii.ascii := Ascii.ascii_of_nat 45.

(** [strconv.ParseInt(s, 10, bits)]; [None] is a syntax or range error. *)
Definition ParseInt (bits : Z) (s : string) : option Z :=
  let '(neg, body) :=
    match s with
    | String c s' =>
        if Ascii.eqb c plus_sign then (false, s')
        else if Ascii.eqb c minus_sign then (true, s') else (false, s)
    | EmptyString => (false, s)
    end in
  match ParseUint body with
  | None => None
  | Some n =>
      let cutoff := 2 ^ (bits - 1) in
      if neg then (if cutoff <? n then None else Some (- n))
      else if cutoff <=? n then None else Some n
  end.

Definition newline : string := String (Ascii.ascii_of_nat 10) EmptyString.

(** [strconv.Atoi]; an [int] has 64 bits. *)
Definition Atoi (s : string) : option Z := ParseInt 64 s.

(** [net.JoinHostPort]. *)
Definition JoinHostPort (host port : string) : string :=
  (if Contains host ":" then "[" +:+ host +:+ "]" else host) +:+ ":" +:+ port.

(** [strconv.Itoa]. *)
Definition Itoa (z : Z) : string := pretty z.

(** [url.Values]; [Get] returns the first value, "" when there is none. *)
Abbreviation url_Values := (gmap string (list string)).
Definition values_Get (q : url_Values) (key : string) : string :=
  match q !! key with Some (v :: _) => v | _ => "" end.

Lemma parse_digits_nonneg s acc n : 0 ≤ acc → parse_digits s acc = Some n → 0 ≤ n.
Proof.
  revert acc. induction s as [|c s IH]; simpl; intros acc Ha; [by intros [= <-]|].
  destruct (digit_value c) as [d|] eqn:E; [|done]. apply IH.
  unfold digit_value in E. case_match; simplify_eq. lia.
Qed.

(** An accepted number is within the bit size. *)
Lemma ParseInt_range bits s n :
  ParseInt bits s = Some n → - 2 ^ (bits - 1) ≤ n < 2 ^ (bits - 1) ∨ n = 0.
Proof.
  unfold ParseInt. destruct (match s with EmptyString => _ | _ => _ end) as [neg body].
  destruct (ParseUint body) as [k|] eqn:E; [|done].
  assert (0 ≤ k) as Hk.
  { unfold ParseUint in E. case_decide; [done|]. by apply parse_digits_nonneg in E. }
  destruct neg; case_match; intros [= <-]; fed_bools; lia.
Qed.

Lemma digit_value_char x : (x < 10)%N → digit_value (pretty_N_char x) = Some (Z.of_N x).
Proof.
  intros Hx. assert (x = 0 ∨ x = 1 ∨ x = 2 ∨ x = 3 ∨ x = 4 ∨ x = 5 ∨ x = 6 ∨ x = 7 ∨ x = 8 ∨ x = 9)%N
    as Hc by lia. destruct_or! Hc; by subst.
Qed.

Lemma parse_pretty_go x s : parse_digits (pretty_N_go x s) 0 = parse_digits s (Z.of_N x).
Proof.
  revert s. induction (N.lt_wf_0 x) as [x _ IH]; intros s.
  destruct (decide (x = 0%N)) as [->|Hx]; [by rewrite pretty_N_go_0|].
  rewrite pretty_N_go_step by lia. rewrite IH by (apply N.div_lt; lia). simpl.
  rewrite digit_value_char by (by apply N.mod_lt). f_equal.
  rewrite <-(N2Z.inj_mul 10), <-N2Z.inj_add. f_equal. symmetry. apply N.div_mod. done.
Qed.

(** The first character of a positive number is a digit. *)
Lemma pretty_go_head x s c s' :
  (0 < x)%N → pretty_N_go x s = String c s' → is_Some (digit_value c).
Proof.
  revert s. induction (N.lt_wf_0 x) as [x _ IH]; intros s Hx E.
  rewrite pretty_N_go_step in E by done. destruct (decide (x `div` 10 = 0)%N) as [Hd|Hd].
  - rewrite Hd, pretty_N_go_0 in E. injection E as <- _.
    rewrite digit_value_char by (by apply N.mod_lt). done.
  - apply (λ Hlt Hp, IH (x `div` 10)%N Hlt _ Hp E); [apply N.div_lt; lia|by apply N.neq_0_lt_0].
Qed.

Lemma pretty_pos_parse p :
  ParseUint (pretty (N.pos p)) = Some (Zpos p) ∧
  ∀ c s, pretty (N.pos p) = String c s → is_Some (digit_value c).
Proof.
  unfold pretty, pretty_N. rewrite decide_False by done. split.
  - unfold ParseUint. rewrite decide_False; [by rewrite parse_pretty_go|].
    intros E. pose proof (parse_pretty_go (N.pos p) "") as Hp. by rewrite E in Hp.
  - intros c s. by apply pretty_go_head.
Qed.

Lemma digit_not_sign c : is_Some (digit_value c) → Ascii.eqb c plus_sign = false ∧ Ascii.eqb c minus_sign = false.
Proof.
  intros [d Hd]. split; destruct (Ascii.eqb_spec c plus_sign), (Ascii.eqb_spec c minus_sign); subst; done.
Qed.

(** Reading back what was printed. *)
Lemma ParseInt_Itoa bits z :
  0 < bits → - 2 ^ (bits - 1) ≤ z < 2 ^ (bits - 1) → ParseInt bits (Itoa z) = Some z.
Proof.
  intros Hb Hz. unfold ParseInt, Itoa.
  assert (0 < 2 ^ (bits - 1)) as Hpow by (apply Z.pow_pos_nonneg; lia).
  destruct z as [|p|p].
  - change (pretty 0) with "0". cbv beta iota zeta. change (Ascii.eqb _ plus_sign) with false.
    change (Ascii.eqb _ minus_sign) with false. cbv iota. change (ParseUint "0") with (Some 0).
    cbv iota beta. destruct (Z.leb_spec (2 ^ (bits - 1)) 0); [lia|done].
  - change (pretty (Zpos p)) with (pretty (N.pos p)).
    destruct (pretty_pos_parse p) as [Hp Hh].
    destruct (pretty (N.pos p)) as [|c s] eqn:E; [done|].
    destruct (digit_not_sign c (Hh c s eq_refl)) as [-> ->]. rewrite Hp.
    destruct (Z.leb_spec (2 ^ (bits - 1)) (Zpos p)); [lia|done].
  - change (pretty (Zneg p)) with ("-" +:+ pretty (N.pos p)). simpl.
    change (""%string +:+ pretty (N.pos p)) with (pretty (N.pos p)).
    rewrite (proj1 (pretty_pos_parse p)).
    destruct (Z.ltb_spec (2 ^ (bits - 1)) (Zpos p)); [lia|done].
Qed.
