(* ===== verification/ApiTypes.v ===== *)
(** * CRD and wire types

    The custom resources of [api/broker/v1alpha1] and
    [api/autoscaling/v1alpha1] and the parts of the Kubernetes object model they
    use.  Third-party code the sources only call (quantities, the DNS-1123
    validator, the transcendental functions of the maths library) is the class
    [Platform]; its documented behaviour is the class [PlatformLaws]. *)
From stdpp Require Import base gmap strings list pretty.
From Stdlib Require Import ZArith Lia.
From S2P Require Import Prelude.
Import GoFloat.

Open Scope Z_scope.

(** Times are nanoseconds since the Unix epoch and durations nanoseconds. *)
Abbreviation Time := Z (only parsing).
Abbreviation Duration := Z (only parsing).

Definition Second : Duration := 1000000000.
Definition Minute : Duration := 60 * Second.
Definition Hour : Duration := 60 * Minute.

(** What the sources use of packages that are not part of the repository. *)
Class Platform := {
  Quantity : Type;                       (* k8s.io/apimachinery resource.Quantity *)
  q_zero : Quantity;                     (* resource.Quantity{} *)
  q_Value : Quantity → Z;                (* Quantity.Value() : int64 *)
  q_MilliValue : Quantity → Z;           (* Quantity.MilliValue() : int64 *)
  q_Sign : Quantity → Z;                 (* Quantity.Sign() *)
  q_AsApproximateFloat64 : Quantity → float64;
  q_Add : Quantity → Quantity → Quantity;
  q_Cmp : Quantity → Quantity → Z;
  NewQuantity : Z → Quantity;            (* resource.NewQuantity(v, _) *)
  NewMilliQuantity : Z → Quantity;       (* resource.NewMilliQuantity(v, _) *)
  IsDNS1123Subdomain : string → list string;   (* util/validation *)
  math_Pi : float64;
  math_Sin : float64 → float64;
  math_Cos : float64 → float64;
  math_Atan2 : float64 → float64 → float64;
  float_to_int64 : float64 → Z;          (* the conversion int64(x) *)
  format_RFC3339 : Z → string;           (* t.UTC().Format(time.RFC3339) *)
  DeepEqual : ∀ {A : Type}, A → A → bool (* equality.Semantic.DeepEqual *)
}.

(** Documented behaviour the proofs rely on: the accessors return int64
    values, a quantity built from an integer reads back as that integer, and
    [Cmp] is an order the milli-values follow. *)
Class PlatformLaws `{Platform} : Prop := {
  q_Value_int64 : ∀ q, GoInt.is_int64 (q_Value q);
  q_MilliValue_int64 : ∀ q, GoInt.is_int64 (q_MilliValue q);
  q_Value_zero : q_Value q_zero = 0;
  q_MilliValue_zero : q_MilliValue q_zero = 0;
  q_Value_New : ∀ n, GoInt.is_int64 n → q_Value (NewQuantity n) = n;
  q_MilliValue_New : ∀ n, GoInt.is_int64 (1000 * n) →
    q_MilliValue (NewQuantity n) = 1000 * n;
  q_MilliValue_NewMilli : ∀ n, GoInt.is_int64 n → q_MilliValue (NewMilliQuantity n) = n;
  q_Cmp_refl : ∀ q, q_Cmp q q = 0;
  q_Cmp_milli : ∀ a b, q_Cmp a b < 0 → q_MilliValue a ≤ q_MilliValue b
}.

(** ** Kubernetes object metadata *)
Record ObjectMeta := mkMeta {
  m_Name : string;
  m_Namespace : string;
  m_UID : string;
  m_ResourceVersion : Z;            (* 0 on an object not yet stored *)
  m_Generation : Z;
  m_CreationTimestamp : Time;
  m_DeletionTimestamp : option Time;
  m_Finalizers : list string;
  m_Annotations : gmap string string;
  m_Labels : gmap string string;
  m_ControllerOwner : option string  (* UID of the controller owner reference *)
}.

(** Metadata of a literal [metav1.ObjectMeta{Name: n, Namespace: ns}]. *)
Definition meta_named (n ns : string) : ObjectMeta :=
  mkMeta n ns "" 0 0 0 None [] ∅ ∅ None.

Definition meta_set_finalizers (f : list string) (m : ObjectMeta) : ObjectMeta :=
  mkMeta (m_Name m) (m_Namespace m) (m_UID m) (m_ResourceVersion m) (m_Generation m)
    (m_CreationTimestamp m) (m_DeletionTimestamp m) f (m_Annotations m) (m_Labels m)
    (m_ControllerOwner m).

Definition meta_set_annotations (a : gmap string string) (m : ObjectMeta) : ObjectMeta :=
  mkMeta (m_Name m) (m_Namespace m) (m_UID m) (m_ResourceVersion m) (m_Generation m)
    (m_CreationTimestamp m) (m_DeletionTimestamp m) (m_Finalizers m) a (m_Labels m)
    (m_ControllerOwner m).

Definition meta_set_labels (l : gmap string string) (m : ObjectMeta) : ObjectMeta :=
  mkMeta (m_Name m) (m_Namespace m) (m_UID m) (m_ResourceVersion m) (m_Generation m)
    (m_CreationTimestamp m) (m_DeletionTimestamp m) (m_Finalizers m) (m_Annotations m) l
    (m_ControllerOwner m).

Definition meta_set_owner (uid : string) (m : ObjectMeta) : ObjectMeta :=
  mkMeta (m_Name m) (m_Namespace m) (m_UID m) (m_ResourceVersion m) (m_Generation m)
    (m_CreationTimestamp m) (m_DeletionTimestamp m) (m_Finalizers m) (m_Annotations m)
    (m_Labels m) (Some uid).

Definition meta_set_version (rv : Z) (uid : string) (m : ObjectMeta) : ObjectMeta :=
  mkMeta (m_Name m) (m_Namespace m) uid rv (m_Generation m)
    (m_CreationTimestamp m) (m_DeletionTimestamp m) (m_Finalizers m) (m_Annotations m)
    (m_Labels m) (m_ControllerOwner m).

(** A custom resource: metadata, spec, status. *)
Record CR (S T : Type) := mkCR { cr_meta : ObjectMeta; cr_spec : S; cr_status : T }.
Arguments mkCR {S T} _ _ _.
Arguments cr_meta {S T} _.
Arguments cr_spec {S T} _.
Arguments cr_status {S T} _.

Definition cr_set_meta {S T} (m : ObjectMeta) (c : CR S T) : CR S T :=
  mkCR m (cr_spec c) (cr_status c).
Definition cr_set_spec {S T} (s : S) (c : CR S T) : CR S T :=
  mkCR (cr_meta c) s (cr_status c).
Definition cr_set_status {S T} (t : T) (c : CR S T) : CR S T :=
  mkCR (cr_meta c) (cr_spec c) t.

Definition cr_Name {S T} (c : CR S T) : string := m_Name (cr_meta c).
Definition cr_Namespace {S T} (c : CR S T) : string := m_Namespace (cr_meta c).

(** [metav1.Condition]. *)
Record Condition := mkCondition {
  cond_Type : string; cond_Status : string; cond_Reason : string;
  cond_Message : string; cond_LastTransitionTime : Time
}.

(** [corev1.Taint]. *)
Record Taint := mkTaint { tn_Key : string; tn_Value : string; tn_Effect : string }.

(** ** Shared enums *)

(** [ChunkType] is a string type; requests may carry any string. *)
Abbreviation ChunkType := string (only parsing).
Definition ChunkTypeStandard : ChunkType := "standard".
Definition ChunkTypeGPU : ChunkType := "gpu".

(** [ReservationPhase]: the CRD's enum plus the empty value of a status that
    was never written. *)
Inductive ReservationPhase :=
| PhaseEmpty
| ReservationPhasePending
| ReservationPhaseGeneratingKubeconfig
| ReservationPhaseKubeconfigReady
| ReservationPhasePeering
| ReservationPhasePeered
| ReservationPhaseUnpeering
| ReservationPhaseReleased
| ReservationPhaseExpired
| ReservationPhaseFailed.

#[global] Instance ReservationPhase_eq_dec : EqDecision ReservationPhase.
Proof. solve_decision. Defined.

(** The string each phase is. *)
Definition phase_string (p : ReservationPhase) : string :=
  match p with
  | PhaseEmpty => ""
  | ReservationPhasePending => "Pending"
  | ReservationPhaseGeneratingKubeconfig => "GeneratingKubeconfig"
  | ReservationPhaseKubeconfigReady => "KubeconfigReady"
  | ReservationPhasePeering => "Peering"
  | ReservationPhasePeered => "Peered"
  | ReservationPhaseUnpeering => "Unpeering"
  | ReservationPhaseReleased => "Released"
  | ReservationPhaseExpired => "Expired"
  | ReservationPhaseFailed => "Failed"
  end.

Inductive ProviderInstructionKind :=
| ProviderInstructionGenerateKubeconfig
| ProviderInstructionCleanup
| ProviderInstructionReconcile.

#[global] Instance ProviderInstructionKind_eq_dec : EqDecision ProviderInstructionKind.
Proof. solve_decision. Defined.

Definition provider_kind_string (k : ProviderInstructionKind) : string :=
  match k with
  | ProviderInstructionGenerateKubeconfig => "GenerateKubeconfig"
  | ProviderInstructionCleanup => "Cleanup"
  | ProviderInstructionReconcile => "Reconcile"
  end.

Inductive ReservationInstructionKind :=
| ReservationInstructionPeer
| ReservationInstructionUnpeer
| ReservationInstructionCleanup
| ReservationInstructionReconcile.

#[global] Instance ReservationInstructionKind_eq_dec : EqDecision ReservationInstructionKind.
Proof. solve_decision. Defined.

Definition reservation_kind_string (k : ReservationInstructionKind) : string :=
  match k with
  | ReservationInstructionPeer => "Peer"
  | ReservationInstructionUnpeer => "Unpeer"
  | ReservationInstructionCleanup => "Cleanup"
  | ReservationInstructionReconcile => "Reconcile"
  end.

(** [PlacementStrategy] is a string type as well. *)
Abbreviation PlacementStrategy := string (only parsing).
Definition PlacementStrategyStandard : PlacementStrategy := "Standard".
Definition PlacementStrategyPrice : PlacementStrategy := "Price".
Definition PlacementStrategyEco : PlacementStrategy := "Eco".
Definition PlacementStrategyLatency : PlacementStrategy := "Latency".
Definition PlacementStrategyConsumerChoice : PlacementStrategy := "ConsumerChoice".
Definition PlacementStrategyRandom : PlacementStrategy := "Random".

Record PlacementPolicy := mkPolicy { pp_Type : PlacementStrategy }.

(** [corev1.ResourceList]. *)
Abbreviation ResourceList := (gmap string Quantity) (only parsing).

Section Types.
Context `{Platform}.

Definition ResourceCPU : string := "cpu".
Definition ResourceMemory : string := "memory".
Definition gpuResourceName : string := "nvidia.com/gpu".

(** Go's map read [rl[name]]: the zero quantity when the key is absent. *)
Definition rl_get (rl : ResourceList) (name : string) : Quantity :=
  default q_zero (rl !! name).

(** ** broker.federation-autoscaler.io *)
Record Topology := mkTopology {
  tp_Zone : string; tp_Region : string; tp_City : string;
  tp_Latitude : float64; tp_Longitude : float64
}.

Record ClusterAdvertisementSpec := mkCadvSpec {
  cs_ClusterID : string;
  cs_LiqoClusterID : string;
  cs_ClusterType : ChunkType;
  cs_Allocatable : ResourceList;          (* Resources.Allocatable *)
  cs_Topology : option Topology;
  cs_UnitPrices : ResourceList;
  cs_CarbonIntensity : option float64;
  cs_CarbonForecast : list float64;
  cs_CapacityScalePercent : gmap string Z;
  cs_CapacityFixed : ResourceList;
  cs_Renewable : bool;
  cs_ProbeEndpoint : string
}.

Record ClusterAdvertisementStatus := mkCadvStatus {
  ca_ObservedGeneration : Z;
  ca_LastSeen : option Time;
  ca_Available : bool;
  ca_TotalChunks : Z;                     (* int32 *)
  ca_ReservedChunks : Z;                  (* int32 *)
  ca_AvailableChunks : Z;                 (* int32 *)
  ca_Conditions : list Condition
}.

Definition ClusterAdvertisement : Type :=
  CR ClusterAdvertisementSpec ClusterAdvertisementStatus.

Definition cadv_status_zero : ClusterAdvertisementStatus :=
  mkCadvStatus 0 None false 0 0 0 [].

Record ReservationSpec := mkResvSpec {
  rs_ConsumerClusterID : string;
  rs_ConsumerLiqoClusterID : string;
  rs_ProviderClusterID : string;
  rs_ProviderLiqoClusterID : string;
  rs_ChunkCount : Z;                      (* int32 *)
  rs_ChunkType : ChunkType;
  rs_Resources : ResourceList;
  rs_Namespaces : list string
}.

Record ReservationStatus := mkResvStatus {
  rt_ObservedGeneration : Z;
  rt_Phase : ReservationPhase;
  rt_CreatedAt : option Time;
  rt_ExpiresAt : option Time;
  rt_VirtualNodeNames : list string;
  rt_TerminatedAt : option Time;
  rt_Message : string;
  rt_Conditions : list Condition
}.

Definition Reservation : Type := CR ReservationSpec ReservationStatus.

Definition resv_status_zero : ReservationStatus :=
  mkResvStatus 0 PhaseEmpty None None [] None "" [].

(** ** autoscaling.federation-autoscaler.io *)
Record ProviderInstructionSpec := mkPISpec {
  pi_ReservationID : string;
  pi_Kind : ProviderInstructionKind;
  pi_TargetClusterID : string;
  pi_ConsumerClusterID : string;
  pi_ConsumerLiqoClusterID : string;
  pi_ChunkCount : Z;
  pi_LastChunk : bool;
  pi_ExpiresAt : option Time
}.

Record ReservationInstructionSpec := mkRISpec {
  ri_ReservationID : string;
  ri_Kind : ReservationInstructionKind;
  ri_TargetClusterID : string;
  ri_ProviderClusterID : string;
  ri_ProviderLiqoClusterID : string;
  ri_ResourceSliceNames : list string;
  ri_ChunkCount : Z;
  ri_LastChunk : bool;
  ri_KubeconfigRef : string;
  ri_ExpiresAt : option Time
}.

(** [ProviderInstructionStatus] and [ReservationInstructionStatus] declare the
    same fields. *)
Record InstructionStatus := mkInstrStatus {
  is_ObservedGeneration : Z;
  is_Enforced : bool;
  is_IssuedAt : option Time;
  is_LastDeliveredAt : option Time;
  is_LastUpdateTime : option Time;
  is_Attempts : Z;                        (* int32 *)
  is_Message : string
}.

Definition instr_status_zero : InstructionStatus :=
  mkInstrStatus 0 false None None None 0 "".

Definition ProviderInstruction : Type := CR ProviderInstructionSpec InstructionStatus.
Definition ReservationInstruction : Type := CR ReservationInstructionSpec InstructionStatus.

(** [corev1.Secret]: no status subresource. *)
Definition Secret : Type := CR (gmap string string) unit.

(** ** Field updates of the status records *)
Definition rt_set_phase (p : ReservationPhase) (s : ReservationStatus) : ReservationStatus :=
  mkResvStatus (rt_ObservedGeneration s) p (rt_CreatedAt s) (rt_ExpiresAt s)
    (rt_VirtualNodeNames s) (rt_TerminatedAt s) (rt_Message s) (rt_Conditions s).
Definition rt_set_message (msg : string) (s : ReservationStatus) : ReservationStatus :=
  mkResvStatus (rt_ObservedGeneration s) (rt_Phase s) (rt_CreatedAt s) (rt_ExpiresAt s)
    (rt_VirtualNodeNames s) (rt_TerminatedAt s) msg (rt_Conditions s).
Definition rt_set_observed (g : Z) (s : ReservationStatus) : ReservationStatus :=
  mkResvStatus g (rt_Phase s) (rt_CreatedAt s) (rt_ExpiresAt s)
    (rt_VirtualNodeNames s) (rt_TerminatedAt s) (rt_Message s) (rt_Conditions s).
Definition rt_set_lifetime (c e : option Time) (s : ReservationStatus) : ReservationStatus :=
  mkResvStatus (rt_ObservedGeneration s) (rt_Phase s) c e
    (rt_VirtualNodeNames s) (rt_TerminatedAt s) (rt_Message s) (rt_Conditions s).
Definition rt_set_vnodes (l : list string) (s : ReservationStatus) : ReservationStatus :=
  mkResvStatus (rt_ObservedGeneration s) (rt_Phase s) (rt_CreatedAt s) (rt_ExpiresAt s)
    l (rt_TerminatedAt s) (rt_Message s) (rt_Conditions s).
Definition rt_set_terminated (t : option Time) (s : ReservationStatus) : ReservationStatus :=
  mkResvStatus (rt_ObservedGeneration s) (rt_Phase s) (rt_CreatedAt s) (rt_ExpiresAt s)
    (rt_VirtualNodeNames s) t (rt_Message s) (rt_Conditions s).

(** [cadv.Status.ReservedChunks = r; cadv.Status.AvailableChunks = a]. *)
Definition ca_set_chunks (r a : Z) (s : ClusterAdvertisementStatus) : ClusterAdvertisementStatus :=
  mkCadvStatus (ca_ObservedGeneration s) (ca_LastSeen s) (ca_Available s)
    (ca_TotalChunks s) r a (ca_Conditions s).

Definition is_set_delivered (t : option Time) (s : InstructionStatus) : InstructionStatus :=
  mkInstrStatus (is_ObservedGeneration s) (is_Enforced s) (is_IssuedAt s) t
    (is_LastUpdateTime s) (is_Attempts s) (is_Message s).
Definition is_set_issued (t : option Time) (g : Z) (s : InstructionStatus) : InstructionStatus :=
  mkInstrStatus g (is_Enforced s) t (is_LastDeliveredAt s)
    (is_LastUpdateTime s) (is_Attempts s) (is_Message s).

(** ** Reservation markers (api/broker/v1alpha1/common_types.go) *)
Definition ChunksReleasedAnnotation : string := "federation-autoscaler.io/chunks-released".
Definition chunksReleasedAnnotationValue : string := "true".

(** Reading a missing key of a Go map gives the empty string, which is not the
    marker's value. *)
Definition IsChunksReleased (resv : Reservation) : bool :=
  bool_decide (m_Annotations (cr_meta resv) !! ChunksReleasedAnnotation =
               Some chunksReleasedAnnotationValue).

Definition MarkChunksReleased (resv : Reservation) : Reservation :=
  cr_set_meta
    (meta_set_annotations
       (<[ChunksReleasedAnnotation := chunksReleasedAnnotationValue]>
          (m_Annotations (cr_meta resv))) (cr_meta resv)) resv.

Lemma IsChunksReleased_Mark resv : IsChunksReleased (MarkChunksReleased resv) = true.
Proof.
  unfold IsChunksReleased, MarkChunksReleased. simpl.
  rewrite lookup_insert_eq. by rewrite bool_decide_eq_true_2.
Qed.

(** [isReservationTerminal]
    (internal/controller/broker/reservation_controller.go). *)
Definition isReservationTerminal (p : ReservationPhase) : bool :=
  match p with
  | ReservationPhaseReleased | ReservationPhaseExpired | ReservationPhaseFailed => true
  | _ => false
  end.

End Types.

#[export] Hint Resolve IsChunksReleased_Mark : fed.

(** ** A concrete platform

    Quantities in thousandths with the saturating, rounding-up accessors of the
    documentation.  It shows that the laws above can hold and lets witnesses
    compute; the trigonometric functions are the first terms of their series. *)
Module MilliPlatform.

Definition saturate (z : Z) : Z := Z.max GoInt.int64_min (Z.min GoInt.int64_max z).
Definition ceil_milli (q : Z) : Z := - ((- q) / 1000).

Definition trunc_int64 (x : float64) : Z :=
  match x with
  | SpecFloat.S754_finite s m e =>
      let a := Z.shiftl (Zpos m) e in
      let v := if s then - a else a in
      if (GoInt.int64_min <=? v) && (v <=? GoInt.int64_max) then v else GoInt.int64_min
  | SpecFloat.S754_zero _ => 0
  | _ => GoInt.int64_min
  end.

Definition platform : Platform := {|
  Quantity := Z;
  q_zero := 0;
  q_Value := λ q, saturate (ceil_milli q);
  q_MilliValue := saturate;
  q_Sign := Z.sgn;
  q_AsApproximateFloat64 := λ q, flit q 1000;
  q_Add := Z.add;
  q_Cmp := λ a b, Z.sgn (a - b);
  NewQuantity := λ n, 1000 * n;
  NewMilliQuantity := λ n, n;
  IsDNS1123Subdomain := λ s, if decide (s = "") then ["must not be empty"] else [];
  math_Pi := flit 3141592653589793 1000000000000000;
  math_Sin := λ x, fsub x (fdiv (fmul x (fmul x x)) (fof_Z 6));
  math_Cos := λ x, fsub (fof_Z 1) (fdiv (fmul x x) (fof_Z 2));
  math_Atan2 := λ y x, fdiv y x;
  float_to_int64 := trunc_int64;
  format_RFC3339 := λ t, pretty t;
  DeepEqual := λ _ _ _, false
|}.

Lemma saturate_int64 z : GoInt.is_int64 (saturate z).
Proof. unfold GoInt.is_int64, saturate. unfold GoInt.int64_min, GoInt.int64_max. lia. Qed.

Lemma saturate_id z : GoInt.is_int64 z → saturate z = z.
Proof. unfold GoInt.is_int64, saturate. unfold GoInt.int64_min, GoInt.int64_max. lia. Qed.

Lemma ceil_milli_mul n : ceil_milli (1000 * n) = n.
Proof.
  unfold ceil_milli. replace (- (1000 * n)) with (- n * 1000) by lia.
  rewrite Z.div_mul by lia. lia.
Qed.

Lemma platform_laws : @PlatformLaws platform.
Proof.
  split; simpl; intros.
  - apply saturate_int64.
  - apply saturate_int64.
  - done.
  - done.
  - rewrite ceil_milli_mul. by apply saturate_id.
  - by apply saturate_id.
  - by apply saturate_id.
  - by rewrite Z.sub_diag.
  - unfold saturate. destruct (Z.sgn_spec (a - b)) as [[? ?]|[[? ?]|[? ?]]]; lia.
Qed.

End MilliPlatform.
