(* ===== verification/ConsumerTypes.v ===== *)
(** * Objects of the consumer and provider clusters

    The custom resources that live on a consumer cluster
    (api/autoscaling/v1alpha1: ConsumerPolicy, ResourceRequest,
    VirtualNodeState), the parts of [corev1.Node] and [corev1.Namespace] the
    agents read, the two Liqo objects the consumer agent creates and deletes,
    and the ConfigMaps and the Deployment an agent's console writes. *)
From stdpp Require Import base gmap strings list.
From Stdlib Require Import ZArith.
From S2P Require Import Prelude ApiTypes.
Import GoFloat.

Open Scope Z_scope.

(** ** Enums *)
Inductive VirtualNodeStatePhase :=
| VNSPhaseEmpty                       (* a status that was never written *)
| VirtualNodeStatePhaseCreating
| VirtualNodeStatePhaseRunning
| VirtualNodeStatePhaseDeleting
| VirtualNodeStatePhaseFailed.

#[global] Instance VirtualNodeStatePhase_eq_dec : EqDecision VirtualNodeStatePhase.
Proof. solve_decision. Defined.

Inductive ResourceRequestPhase :=
| RRPhaseEmpty
| ResourceRequestPending
| ResourceRequestReserved
| ResourceRequestActive
| ResourceRequestMigrating
| ResourceRequestFailed.

#[global] Instance ResourceRequestPhase_eq_dec : EqDecision ResourceRequestPhase.
Proof. solve_decision. Defined.

Definition VirtualNodeStateConditionReady : string := "Ready".
Definition VirtualNodeStateConditionFailed : string := "Failed".

(** [corev1.NodeReady], [corev1.ConditionTrue] and [metav1.ConditionFalse]. *)
Definition NodeReady : string := "Ready".
Definition ConditionTrue : string := "True".
Definition ConditionFalse : string := "False".

(** [corev1.NodeExternalIP], [corev1.NodeInternalIP]. *)
Definition NodeExternalIP : string := "ExternalIP".
Definition NodeInternalIP : string := "InternalIP".

Record LatencyBound := mkBound { lb_MaxLatencyMs : Z (* int32 *) }.

#[global] Instance LatencyBound_eq_dec : EqDecision LatencyBound.
Proof. solve_decision. Defined.

Record ConsumerPolicySpec := mkPolicySpec {
  cp_Placement : PlacementPolicy;
  cp_UserPrompt : string;
  cp_LatencyBound : option LatencyBound
}.

Definition policy_spec_zero : ConsumerPolicySpec := mkPolicySpec (mkPolicy "") "" None.

Definition ConsumerPolicy : Type := CR ConsumerPolicySpec unit.

Section ConsumerTypes.
Context `{Platform}.

Record ResourceRequestSpec := mkRRSpec {
  rrs_Resources : ResourceList;
  rrs_Duration : string;
  rrs_Priority : Z;
  rrs_LatencyBound : option LatencyBound
}.

Record ResourceRequestStatus := mkRRStatus {
  rrt_Phase : ResourceRequestPhase;
  rrt_ReservationID : string;
  rrt_ProviderClusterID : string;
  rrt_ChunkCount : Z;                     (* int32 *)
  rrt_MigrationCount : Z;                 (* int32 *)
  rrt_Message : string;
  rrt_LastTransitionTime : option Time
}.

Definition ResourceRequest : Type := CR ResourceRequestSpec ResourceRequestStatus.
Definition rr_status_zero : ResourceRequestStatus := mkRRStatus RRPhaseEmpty "" "" 0 0 "" None.

Record VirtualNodeStateSpec := mkVNSSpec {
  vs_ProviderClusterID : string;
  vs_ProviderLiqoClusterID : string;
  vs_ResourceSliceName : string;
  vs_NodeGroupID : string;
  vs_ChunkIndex : Z;                      (* int32 *)
  vs_ReservationID : string;
  vs_Resources : ResourceList
}.

Record VirtualNodeStateStatus := mkVNSStatus {
  vt_ObservedGeneration : Z;
  vt_Phase : VirtualNodeStatePhase;
  vt_VirtualNodeName : string;
  vt_ProviderID : string;
  vt_ResourceSliceName : string;
  vt_Allocatable : ResourceList;
  vt_LastTransitionTime : option Time;
  vt_Message : string;
  vt_Conditions : list Condition
}.

Definition VirtualNodeState : Type := CR VirtualNodeStateSpec VirtualNodeStateStatus.
Definition vns_status_zero : VirtualNodeStateStatus :=
  mkVNSStatus 0 VNSPhaseEmpty "" "" "" ∅ None "" [].

(** [corev1.Node]: the fields the agents read, and those of the template the
    gRPC server builds. *)
Record NodeSpec := mkNodeSpec {
  no_ProviderID : string;
  no_Unschedulable : bool;
  no_Taints : list Taint
}.
Record NodeCondition := mkNodeCondition {
  nc_Type : string; nc_Status : string; nc_Reason : string
}.
Record NodeStatus := mkNodeStatus {
  no_Capacity : ResourceList;
  no_Allocatable : ResourceList;
  no_Conditions : list NodeCondition;
  no_Addresses : list (string * string);  (* type, address *)
  no_OperatingSystem : string;
  no_Architecture : string
}.
Definition Node : Type := CR NodeSpec NodeStatus.
Definition node_status_zero : NodeStatus := mkNodeStatus ∅ ∅ [] [] "" "".

(** [corev1.Namespace]: only its labels are read.  The first component keeps
    the object types apart. *)
Record NamespaceSpec := mkNamespaceSpec {}.
Definition KNamespaceObj : Type := CR NamespaceSpec unit.

(** The Liqo objects are unstructured; a ResourceSlice carries this spec. *)
Record ResourceSliceSpec := mkSliceSpec {
  sl_ProviderClusterID : string;
  sl_Class : string;
  sl_Resources : ResourceList
}.
Definition ResourceSlice : Type := CR ResourceSliceSpec unit.

Record ForeignClusterSpec := mkForeignClusterSpec {}.
Definition ForeignCluster : Type := CR ForeignClusterSpec unit.

(** [corev1.ConfigMap]; its data takes the place of a spec. *)
Record ConfigMapData := mkConfigMapData { cm_Data : gmap string string }.
Definition ConfigMap : Type := CR ConfigMapData unit.

(** [appsv1.Deployment]: the fields the console shows, that is the replicas and
    the requests and limits of its containers. *)
Record DeploymentSpec := mkDeploymentSpec {
  dp_Replicas : option Z;                 (* int32 *)
  dp_Containers : list (ResourceList * ResourceList)
}.
Definition Deployment : Type := CR DeploymentSpec unit.

End ConsumerTypes.
