(* ===== verification/Kube.v ===== *)
(** * Programs over the Kubernetes API

    Every component of the Broker reads and writes custom resources through a
    controller-runtime client.  The API server behind that client is not part of
    the repository, so a handler or reconciler is modelled as a program: a tree
    whose nodes are the API calls it issues ([req]) and whose branches are the
    answers it may get.  A server is any type [W] with a function answering
    requests ([ApiServer]); what the proofs use about it is a [contract]
    relating the stored objects before and after one call.

    - [serves] is the documented behaviour of a successful or failed request:
      optimistic concurrency on [resourceVersion], the status subresource,
      finalizers, no effect of a failed request;
    - [cached] is what a client reading through an informer cache may rely on:
      a read may be stale or fail, but an object it returns is a version that
      was stored once, and a write still meets [serves];
    - [reliable] is a server that reads fresh objects, suffers no interference
      and fails only for a documented reason.

    [wp C p Q m] is the weakest precondition of program [p] under contract [C];
    [wp_adequate] transfers it to every server that meets [C].  [rg R G p Q m]
    is its rely-guarantee counterpart for [cached]: before every request other
    writers may have moved the store by [R], and every request of [p] moves it
    by [G].  [pool_safe] composes it over any number of concurrent programs. *)
From stdpp Require Import base gmap strings list relations countable.
From Stdlib Require Import ZArith Lia.
From S2P Require Import Prelude ApiTypes ConsumerTypes.

Open Scope Z_scope.

Inductive Kind :=
| KClusterAdvertisement
| KReservation
| KProviderInstruction
| KReservationInstruction
| KSecret
| KResourceRequest
| KVirtualNodeState
| KConsumerPolicy
| KNode
| KNamespace
| KResourceSlice
| KForeignCluster
| KConfigMap
| KDeployment.

#[global] Instance Kind_eq_dec : EqDecision Kind.
Proof. solve_decision. Defined.

Definition kind_to_nat (k : Kind) : nat :=
  match k with
  | KClusterAdvertisement => 0 | KReservation => 1 | KProviderInstruction => 2
  | KReservationInstruction => 3 | KSecret => 4 | KResourceRequest => 5
  | KVirtualNodeState => 6 | KConsumerPolicy => 7 | KNode => 8 | KNamespace => 9
  | KResourceSlice => 10 | KForeignCluster => 11 | KConfigMap => 12 | KDeployment => 13
  end%nat.

Definition nat_to_kind (n : nat) : Kind :=
  match n with
  | 0 => KClusterAdvertisement | 1 => KReservation | 2 => KProviderInstruction
  | 3 => KReservationInstruction | 4 => KSecret | 5 => KResourceRequest
  | 6 => KVirtualNodeState | 7 => KConsumerPolicy | 8 => KNode | 9 => KNamespace
  | 10 => KResourceSlice | 11 => KForeignCluster | 12 => KConfigMap | _ => KDeployment
  end%nat.

#[global] Instance Kind_countable : Countable Kind.
Proof. apply (inj_countable' kind_to_nat nat_to_kind). by intros []. Defined.

(** Kind, namespace, name. *)
Abbreviation Key := (Kind * string * string)%type (only parsing).

Section Kube.
Context `{Platform}.

Inductive Obj :=
| OCadv (c : ClusterAdvertisement)
| OResv (r : Reservation)
| OPI (p : ProviderInstruction)
| ORI (r : ReservationInstruction)
| OSecret (s : Secret)
| ORR (r : ResourceRequest)
| OVNS (v : VirtualNodeState)
| OPolicy (p : ConsumerPolicy)
| ONode (n : Node)
| ONamespace (n : KNamespaceObj)
| OSlice (s : ResourceSlice)
| OForeign (f : ForeignCluster)
| OConfig (c : ConfigMap)
| ODeploy (d : Deployment).

Definition obj_kind (o : Obj) : Kind :=
  match o with
  | OCadv _ => KClusterAdvertisement | OResv _ => KReservation
  | OPI _ => KProviderInstruction | ORI _ => KReservationInstruction
  | OSecret _ => KSecret | ORR _ => KResourceRequest | OVNS _ => KVirtualNodeState
  | OPolicy _ => KConsumerPolicy | ONode _ => KNode | ONamespace _ => KNamespace
  | OSlice _ => KResourceSlice | OForeign _ => KForeignCluster
  | OConfig _ => KConfigMap | ODeploy _ => KDeployment
  end.

Definition obj_meta (o : Obj) : ObjectMeta :=
  match o with
  | OCadv c => cr_meta c | OResv r => cr_meta r | OPI p => cr_meta p
  | ORI r => cr_meta r | OSecret s => cr_meta s | ORR r => cr_meta r
  | OVNS v => cr_meta v | OPolicy p => cr_meta p | ONode n => cr_meta n
  | ONamespace n => cr_meta n | OSlice s => cr_meta s | OForeign f => cr_meta f
  | OConfig c => cr_meta c | ODeploy d => cr_meta d
  end.

Definition obj_key (o : Obj) : Key :=
  (obj_kind o, m_Namespace (obj_meta o), m_Name (obj_meta o)).

Definition obj_rv (o : Obj) : Z := m_ResourceVersion (obj_meta o).

(** ** What the server does to a stored object *)

(** A created object gets a version, a UID, a creation time and generation 1;
    its status is dropped (status is a subresource of every CRD here). *)
Definition meta_on_create (rv : Z) (uid : string) (t : Time) (m : ObjectMeta) : ObjectMeta :=
  mkMeta (m_Name m) (m_Namespace m) uid rv 1 t None (m_Finalizers m)
    (m_Annotations m) (m_Labels m) (m_ControllerOwner m).

(** An update takes the client-owned metadata and keeps the server-owned. *)
Definition meta_on_update (rv gen : Z) (cur new : ObjectMeta) : ObjectMeta :=
  mkMeta (m_Name cur) (m_Namespace cur) (m_UID cur) rv gen (m_CreationTimestamp cur)
    (m_DeletionTimestamp cur) (m_Finalizers new) (m_Annotations new) (m_Labels new)
    (m_ControllerOwner new).

Definition meta_on_status (rv : Z) (cur : ObjectMeta) : ObjectMeta :=
  meta_set_version rv (m_UID cur) cur.

(** A merge patch that sets one annotation leaves everything else. *)
Definition meta_on_annotate (rv : Z) (key value : string) (cur : ObjectMeta) : ObjectMeta :=
  mkMeta (m_Name cur) (m_Namespace cur) (m_UID cur) rv (m_Generation cur)
    (m_CreationTimestamp cur) (m_DeletionTimestamp cur) (m_Finalizers cur)
    (<[key := value]> (m_Annotations cur)) (m_Labels cur) (m_ControllerOwner cur).

(** Deleting an object that carries finalizers only marks it. *)
Definition meta_on_delete (rv : Z) (t : Time) (cur : ObjectMeta) : ObjectMeta :=
  mkMeta (m_Name cur) (m_Namespace cur) (m_UID cur) rv (m_Generation cur)
    (m_CreationTimestamp cur) (Some (default t (m_DeletionTimestamp cur)))
    (m_Finalizers cur) (m_Annotations cur) (m_Labels cur) (m_ControllerOwner cur).

Definition cr_on_create {S T} (z : T) (rv : Z) (uid : string) (t : Time) (c : CR S T) : CR S T :=
  mkCR (meta_on_create rv uid t (cr_meta c)) (cr_spec c) z.
Definition cr_on_update {S T} (rv gen : Z) (cur new : CR S T) : CR S T :=
  mkCR (meta_on_update rv gen (cr_meta cur) (cr_meta new)) (cr_spec new) (cr_status cur).
Definition cr_on_status {S T} (rv : Z) (cur new : CR S T) : CR S T :=
  mkCR (meta_on_status rv (cr_meta cur)) (cr_spec cur) (cr_status new).
Definition cr_on_delete {S T} (rv : Z) (t : Time) (cur : CR S T) : CR S T :=
  mkCR (meta_on_delete rv t (cr_meta cur)) (cr_spec cur) (cr_status cur).

Definition obj_on_create (rv : Z) (uid : string) (t : Time) (o : Obj) : Obj :=
  match o with
  | OCadv c => OCadv (cr_on_create cadv_status_zero rv uid t c)
  | OResv r => OResv (cr_on_create resv_status_zero rv uid t r)
  | OPI p => OPI (cr_on_create instr_status_zero rv uid t p)
  | ORI r => ORI (cr_on_create instr_status_zero rv uid t r)
  | OSecret s => OSecret (cr_on_create tt rv uid t s)
  | ORR x => ORR (cr_on_create rr_status_zero rv uid t x)
  | OVNS x => OVNS (cr_on_create vns_status_zero rv uid t x)
  | OPolicy x => OPolicy (cr_on_create tt rv uid t x)
  | ONode x => ONode (cr_on_create node_status_zero rv uid t x)
  | ONamespace x => ONamespace (cr_on_create tt rv uid t x)
  | OSlice x => OSlice (cr_on_create tt rv uid t x)
  | OForeign x => OForeign (cr_on_create tt rv uid t x)
  | OConfig x => OConfig (cr_on_create tt rv uid t x)
  | ODeploy x => ODeploy (cr_on_create tt rv uid t x)
  end.

Definition obj_on_update (rv gen : Z) (cur new : Obj) : Obj :=
  match cur, new with
  | OCadv c, OCadv n => OCadv (cr_on_update rv gen c n)
  | OResv c, OResv n => OResv (cr_on_update rv gen c n)
  | OPI c, OPI n => OPI (cr_on_update rv gen c n)
  | ORI c, ORI n => ORI (cr_on_update rv gen c n)
  | OSecret c, OSecret n => OSecret (cr_on_update rv gen c n)
  | ORR c, ORR n => ORR (cr_on_update rv gen c n)
  | OVNS c, OVNS n => OVNS (cr_on_update rv gen c n)
  | OPolicy c, OPolicy n => OPolicy (cr_on_update rv gen c n)
  | ONode c, ONode n => ONode (cr_on_update rv gen c n)
  | ONamespace c, ONamespace n => ONamespace (cr_on_update rv gen c n)
  | OSlice c, OSlice n => OSlice (cr_on_update rv gen c n)
  | OForeign c, OForeign n => OForeign (cr_on_update rv gen c n)
  | OConfig c, OConfig n => OConfig (cr_on_update rv gen c n)
  | ODeploy c, ODeploy n => ODeploy (cr_on_update rv gen c n)
  | _, _ => cur
  end.

Definition obj_on_status (rv : Z) (cur new : Obj) : Obj :=
  match cur, new with
  | OCadv c, OCadv n => OCadv (cr_on_status rv c n)
  | OResv c, OResv n => OResv (cr_on_status rv c n)
  | OPI c, OPI n => OPI (cr_on_status rv c n)
  | ORI c, ORI n => ORI (cr_on_status rv c n)
  | OSecret c, OSecret n => OSecret (cr_on_status rv c n)
  | ORR c, ORR n => ORR (cr_on_status rv c n)
  | OVNS c, OVNS n => OVNS (cr_on_status rv c n)
  | OPolicy c, OPolicy n => OPolicy (cr_on_status rv c n)
  | ONode c, ONode n => ONode (cr_on_status rv c n)
  | ONamespace c, ONamespace n => ONamespace (cr_on_status rv c n)
  | OSlice c, OSlice n => OSlice (cr_on_status rv c n)
  | OForeign c, OForeign n => OForeign (cr_on_status rv c n)
  | OConfig c, OConfig n => OConfig (cr_on_status rv c n)
  | ODeploy c, ODeploy n => ODeploy (cr_on_status rv c n)
  | _, _ => cur
  end.

Definition obj_on_delete (rv : Z) (t : Time) (cur : Obj) : Obj :=
  match cur with
  | OCadv c => OCadv (cr_on_delete rv t c)
  | OResv r => OResv (cr_on_delete rv t r)
  | OPI p => OPI (cr_on_delete rv t p)
  | ORI r => ORI (cr_on_delete rv t r)
  | OSecret s => OSecret (cr_on_delete rv t s)
  | ORR x => ORR (cr_on_delete rv t x)
  | OVNS x => OVNS (cr_on_delete rv t x)
  | OPolicy x => OPolicy (cr_on_delete rv t x)
  | ONode x => ONode (cr_on_delete rv t x)
  | ONamespace x => ONamespace (cr_on_delete rv t x)
  | OSlice x => OSlice (cr_on_delete rv t x)
  | OForeign x => OForeign (cr_on_delete rv t x)
  | OConfig x => OConfig (cr_on_delete rv t x)
  | ODeploy x => ODeploy (cr_on_delete rv t x)
  end.

(** The metadata of an object replaced. *)
Definition obj_set_meta (mm : ObjectMeta) (o : Obj) : Obj :=
  match o with
  | OCadv c => OCadv (cr_set_meta mm c)
  | OResv r => OResv (cr_set_meta mm r)
  | OPI p => OPI (cr_set_meta mm p)
  | ORI r => ORI (cr_set_meta mm r)
  | OSecret s => OSecret (cr_set_meta mm s)
  | ORR x => ORR (cr_set_meta mm x)
  | OVNS x => OVNS (cr_set_meta mm x)
  | OPolicy x => OPolicy (cr_set_meta mm x)
  | ONode x => ONode (cr_set_meta mm x)
  | ONamespace x => ONamespace (cr_set_meta mm x)
  | OSlice x => OSlice (cr_set_meta mm x)
  | OForeign x => OForeign (cr_set_meta mm x)
  | OConfig x => OConfig (cr_set_meta mm x)
  | ODeploy x => ODeploy (cr_set_meta mm x)
  end.

(** ** The store

    The current objects, the revision every new version exceeds, and every
    version ever stored (etcd's history, which a stale cache reads from). *)
Record store := mkStore { objs : gmap Key Obj; rev : Z; hist : list Obj }.

Definition put (k : Key) (o : Obj) (m : store) : store :=
  mkStore (<[k := o]> (objs m)) (obj_rv o) (o :: hist m).
Definition drop (k : Key) (rv : Z) (m : store) : store :=
  mkStore (delete k (objs m)) rv (hist m).

(** An update of an object marked for deletion that leaves no finalizer
    removes it; the version written is its last one. *)
Definition retire (k : Key) (o : Obj) (m : store) : store :=
  mkStore (delete k (objs m)) (obj_rv o) (o :: hist m).

Definition put_or_drop (k : Key) (o : Obj) (m : store) : store :=
  match m_DeletionTimestamp (obj_meta o), m_Finalizers (obj_meta o) with
  | Some _, [] => retire k o m
  | _, _ => put k o m
  end.

(** Objects are stored under their own key, and a version of a key identifies
    one object of the history for ever. *)
Record store_wf (m : store) : Prop := {
  wf_key : ∀ k o, objs m !! k = Some o → obj_key o = k ∧ o ∈ hist m;
  wf_rev : ∀ o, o ∈ hist m → obj_rv o ≤ rev m;
  wf_version : ∀ o o', o ∈ hist m → o' ∈ hist m → obj_key o = obj_key o' →
    obj_rv o = obj_rv o' → o = o'
}.

(** [m'] is a later state than [m]. *)
Definition evolves (m m' : store) : Prop :=
  store_wf m' ∧ rev m ≤ rev m' ∧ hist m ⊆ hist m'.

Definition list_of (kd : Kind) (ns : string) (m : store) : list Obj :=
  (map_to_list (filter (λ p : Key * Obj, p.1.1 = (kd, ns)) (objs m))).*2.

(** The objects of a kind in every namespace. *)
Definition list_all_of (kd : Kind) (m : store) : list Obj :=
  (map_to_list (filter (λ p : Key * Obj, p.1.1.1 = kd) (objs m))).*2.

(** ** Requests and answers *)
Inductive req :=
| Get (k : Key)
| ListReq (kd : Kind) (ns : string)
| ListAll (kd : Kind)
| Create (o : Obj)
| Update (o : Obj)
| StatusUpdate (o : Obj)
| Delete (k : Key)
| Annotate (k : Key) (key value : string)   (* merge patch of one annotation *)
| Now                        (* time.Now() *)
| NewUUID.                   (* uuid.NewString() *)

Definition resp (r : req) : Type :=
  match r with
  | Get _ => Res Obj
  | ListReq _ _ | ListAll _ => Res (list Obj)
  | Create _ | Update _ | StatusUpdate _ | Annotate _ _ _ => Res Obj
  | Delete _ => Res unit
  | Now => Time
  | NewUUID => string
  end.

(** One request served from state [m]: the answer and the next state. *)
Definition serves (m : store) (r : req) : resp r → store → Prop :=
  match r with
  | Get k => λ x m', m' = m ∧
      match x with
      | Ok o => objs m !! k = Some o
      | Fail e => e_kind e = ENotFound → objs m !! k = None
      end
  | ListReq kd ns => λ x m', m' = m ∧
      match x with Ok l => l ≡ₚ list_of kd ns m | Fail _ => True end
  | ListAll kd => λ x m', m' = m ∧
      match x with Ok l => l ≡ₚ list_all_of kd m | Fail _ => True end
  | Create o => λ x m',
      match x with
      | Ok o' => objs m !! obj_key o = None ∧
          ∃ rv uid t, rev m < rv ∧ o' = obj_on_create rv uid t o ∧ m' = put (obj_key o) o' m
      | Fail e => m' = m ∧ (e_kind e = EAlreadyExists → is_Some (objs m !! obj_key o))
      end
  | Update o => λ x m',
      match x with
      | Ok o' => ∃ cur rv gen, objs m !! obj_key o = Some cur ∧ obj_rv cur = obj_rv o ∧
          rev m < rv ∧ o' = obj_on_update rv gen cur o ∧ m' = put_or_drop (obj_key o) o' m
      | Fail e => m' = m ∧ (e_kind e = ENotFound → objs m !! obj_key o = None) ∧
          (e_kind e = EConflict →
             ∃ cur, objs m !! obj_key o = Some cur ∧ obj_rv cur ≠ obj_rv o)
      end
  | StatusUpdate o => λ x m',
      match x with
      | Ok o' => ∃ cur rv, objs m !! obj_key o = Some cur ∧ obj_rv cur = obj_rv o ∧
          rev m < rv ∧ o' = obj_on_status rv cur o ∧ m' = put (obj_key o) o' m
      | Fail e => m' = m ∧ (e_kind e = ENotFound → objs m !! obj_key o = None) ∧
          (e_kind e = EConflict →
             ∃ cur, objs m !! obj_key o = Some cur ∧ obj_rv cur ≠ obj_rv o)
      end
  | Delete k => λ x m',
      match x with
      | Ok _ => ∃ cur rv t, objs m !! k = Some cur ∧ rev m < rv ∧
          m' = match m_Finalizers (obj_meta cur) with
               | [] => drop k rv m
               | _ => put k (obj_on_delete rv t cur) m
               end
      | Fail e => m' = m ∧ (e_kind e = ENotFound → objs m !! k = None)
      end
  | Annotate k key value => λ x m',
      match x with
      | Ok o' => ∃ cur rv, objs m !! k = Some cur ∧ rev m < rv ∧
          o' = obj_set_meta (meta_on_annotate rv key value (obj_meta cur)) cur ∧ m' = put k o' m
      | Fail e => m' = m ∧ (e_kind e = ENotFound → objs m !! k = None)
      end
  | Now => λ _ m', m' = m
  | NewUUID => λ _ m', m' = m
  end.

(** A request fails only for its documented reason. *)
Definition prompt (m : store) (r : req) : resp r → Prop :=
  match r with
  | Get _ => λ x, ∀ e, x = Fail e → e_kind e = ENotFound
  | ListReq _ _ | ListAll _ => λ x, ∀ e, x ≠ Fail e
  | Create _ => λ x, ∀ e, x = Fail e → e_kind e = EAlreadyExists
  | Update _ | StatusUpdate _ => λ x, ∀ e, x = Fail e → e_kind e = ENotFound ∨ e_kind e = EConflict
  | Delete _ | Annotate _ _ _ => λ x, ∀ e, x = Fail e → e_kind e = ENotFound
  | Now | NewUUID => λ _, True
  end.

Definition contract : Type := store → ∀ r : req, resp r → store → Prop.

(** [o] is a version of object [k] stored at or before [m]. *)
Definition seen (m : store) (k : Key) (o : Obj) : Prop := obj_key o = k ∧ o ∈ hist m.

Definition cached : contract := λ m r,
  match r return resp r → store → Prop with
  | Get k => λ x m', m' = m ∧ match x with Ok o => seen m k o | Fail _ => True end
  | ListReq kd ns => λ x m', m' = m ∧
      match x with
      | Ok l => ∀ o, o ∈ l → (obj_key o).1 = (kd, ns) ∧ seen m (obj_key o) o
      | Fail _ => True
      end
  | ListAll kd => λ x m', m' = m ∧
      match x with
      | Ok l => ∀ o, o ∈ l → (obj_key o).1.1 = kd ∧ seen m (obj_key o) o
      | Fail _ => True
      end
  | r => serves m r
  end.

Definition reliable : contract :=
  λ m r x m', serves m r x m' ∧ prompt m r x.

(** ** Programs *)
Inductive prog (A : Type) : Type :=
| Ret (a : A)
| Call (r : req) (k : resp r → prog A).
Arguments Ret {A} a.
Arguments Call {A} r k.

Fixpoint prog_bind {A B} (f : A → prog B) (p : prog A) : prog B :=
  match p with
  | Ret a => f a
  | Call r k => Call r (λ x, prog_bind f (k x))
  end.

#[global] Instance prog_ret : MRet prog := @Ret.
#[global] Instance prog_mbind : MBind prog := @prog_bind.

Definition call (r : req) : prog (resp r) := Call r Ret.

(** A server answers requests from its own state. *)
Class ApiServer (W : Type) := {
  srv : ∀ r : req, W → resp r * W;
  view : W → store
}.

Class ServerMeets (W : Type) `{ApiServer W} (C : contract) : Prop := {
  server_meets : ∀ r w, C (view w) r (srv r w).1 (view (srv r w).2)
}.

Fixpoint run {W} `{ApiServer W} {A} (p : prog A) (w : W) : A * W :=
  match p with
  | Ret a => (a, w)
  | Call r k => let '(x, w') := srv r w in run (k x) w'
  end.

Fixpoint wp {A} (C : contract) (p : prog A) (Q : A → store → Prop) (m : store) : Prop :=
  match p with
  | Ret a => Q a m
  | Call r k => ∀ x m', C m r x m' → wp C (k x) Q m'
  end.

Lemma wp_adequate {W} `{ApiServer W} C `{!ServerMeets W C} {A} (p : prog A) Q w :
  wp C p Q (view w) → Q (run p w).1 (view (run p w).2).
Proof.
  revert w. induction p as [a|r k IH]; intros w Hwp; simpl; [done|].
  destruct (srv r w) as [x w'] eqn:E. apply IH, Hwp.
  pose proof (server_meets r w) as Hm. by rewrite E in Hm.
Qed.

Lemma wp_mono {A} C (p : prog A) (Q Q' : A → store → Prop) m :
  (∀ a m', Q a m' → Q' a m') → wp C p Q m → wp C p Q' m.
Proof.
  intros HQ. revert m. induction p as [a|r k IH]; intros m; simpl; [auto|].
  intros Hwp x m' HC. by apply IH, Hwp.
Qed.

Lemma wp_bind {A B} C (p : prog A) (f : A → prog B) Q m :
  wp C p (λ a m', wp C (f a) Q m') m → wp C (p ≫= f) Q m.
Proof.
  revert m. induction p as [a|r k IH]; intros m; simpl; [done|].
  intros Hwp x m' HC. by apply IH, Hwp.
Qed.

Lemma wp_ret {A} C (a : A) (Q : A → store → Prop) m : Q a m → wp C (mret a) Q m.
Proof. done. Qed.

(** The runs of a program, as a relation. *)
Fixpoint runs {A} (C : contract) (p : prog A) (m : store) (a : A) (m' : store) : Prop :=
  match p with
  | Ret b => a = b ∧ m' = m
  | Call r k => ∃ x m1, C m r x m1 ∧ runs C (k x) m1 a m'
  end.

Lemma wp_runs {A} C (p : prog A) (Q : A → store → Prop) m a m' :
  wp C p Q m → runs C p m a m' → Q a m'.
Proof.
  revert m. induction p as [b|r k IH]; intros m Hp; simpl.
  - by intros [-> ->].
  - intros (x & m1 & HC & Hr). by apply (IH x m1); [apply Hp|].
Qed.

(** A contract that allows less proves more. *)
Lemma wp_contract {A} (C C' : contract) (p : prog A) Q m :
  (∀ m r x m', C' m r x m' → C m r x m') → wp C p Q m → wp C' p Q m.
Proof.
  intros HC. revert m. induction p as [a|r k IH]; intros m; simpl; [done|].
  intros Hwp x m' HC'. apply IH, Hwp. by apply HC.
Qed.
(** ** Versions *)
Lemma put_wf k o m :
  store_wf m → obj_key o = k → rev m < obj_rv o → store_wf (put k o m).
Proof.
  intros Hwf Hk Hrv. split; unfold put; simpl.
  - intros k' o'. rewrite lookup_insert_Some.
    intros [[<- <-]|[_ Hl]]; [split; [done|constructor]|].
    destruct (wf_key _ Hwf k' o' Hl). split; [done|by constructor].
  - intros o' [->|Ho]%elem_of_cons; [done|]. pose proof (wf_rev _ Hwf _ Ho). lia.
  - intros o1 o2 H1 H2 E Ev. apply elem_of_cons in H1 as [->|H1], H2 as [->|H2]; [done|..].
    + pose proof (wf_rev _ Hwf _ H2). lia.
    + pose proof (wf_rev _ Hwf _ H1). lia.
    + by apply (wf_version _ Hwf).
Qed.

Lemma drop_wf k rv m : store_wf m → rev m < rv → store_wf (drop k rv m).
Proof.
  intros Hwf Hrv. split; unfold drop; simpl.
  - intros k' o'. rewrite lookup_delete_Some. intros [_ Hl]. by apply (wf_key _ Hwf).
  - intros o' Ho. pose proof (wf_rev _ Hwf _ Ho). lia.
  - apply (wf_version _ Hwf).
Qed.

Lemma retire_wf k o m :
  store_wf m → obj_key o = k → rev m < obj_rv o → store_wf (retire k o m).
Proof.
  intros Hwf Hk Hrv. pose proof (put_wf k o m Hwf Hk Hrv) as Hp. split; unfold retire; simpl.
  - intros k' o'. rewrite lookup_delete_Some. intros [_ Hl].
    destruct (wf_key _ Hwf k' o' Hl). split; [done|by constructor].
  - apply (wf_rev _ Hp).
  - apply (wf_version _ Hp).
Qed.

Lemma retire_evolves k o m :
  store_wf m → obj_key o = k → rev m < obj_rv o → evolves m (retire k o m).
Proof.
  intros Hwf Hk Hrv. split_and!; [by apply retire_wf|simpl; lia|]. simpl. set_solver.
Qed.

Lemma put_evolves k o m :
  store_wf m → obj_key o = k → rev m < obj_rv o → evolves m (put k o m).
Proof.
  intros Hwf Hk Hrv. split_and!; [by apply put_wf|simpl; lia|]. simpl. set_solver.
Qed.

Lemma drop_evolves k rv m : store_wf m → rev m < rv → evolves m (drop k rv m).
Proof. intros Hwf Hrv. split_and!; [by apply drop_wf|simpl; lia|done]. Qed.

Lemma evolves_refl m : store_wf m → evolves m m.
Proof. intros. split_and!; [done|lia|done]. Qed.

Lemma evolves_trans m1 m2 m3 : evolves m1 m2 → evolves m2 m3 → evolves m1 m3.
Proof. intros (W2 & R2 & H2) (W3 & R3 & H3). split_and!; [done|lia|set_solver]. Qed.

Lemma seen_evolves m m' k o : evolves m m' → seen m k o → seen m' k o.
Proof. intros (_ & _ & Hh) (Hk & Ho). split; [done|]. by apply Hh. Qed.

Lemma lookup_seen m k o : store_wf m → objs m !! k = Some o → seen m k o.
Proof. intros Hwf Hk. by apply (wf_key _ Hwf). Qed.

(** A version read once identifies its object for ever. *)
Lemma seen_current m k o cur :
  store_wf m → seen m k o → objs m !! k = Some cur → obj_rv cur = obj_rv o → cur = o.
Proof.
  intros Hwf [Hk Ho] Hc Hv. destruct (wf_key _ Hwf _ _ Hc) as [Hck Hch].
  apply (wf_version _ Hwf); [done..|congruence|done].
Qed.

Lemma obj_on_create_facts rv uid t o :
  obj_key (obj_on_create rv uid t o) = obj_key o ∧ obj_rv (obj_on_create rv uid t o) = rv.
Proof. by destruct o. Qed.

Lemma obj_on_update_facts rv gen cur o :
  obj_kind cur = obj_kind o →
  obj_key (obj_on_update rv gen cur o) = obj_key cur ∧ obj_rv (obj_on_update rv gen cur o) = rv.
Proof. by destruct cur, o. Qed.

Lemma obj_on_status_facts rv cur o :
  obj_kind cur = obj_kind o →
  obj_key (obj_on_status rv cur o) = obj_key cur ∧ obj_rv (obj_on_status rv cur o) = rv.
Proof. by destruct cur, o. Qed.

Lemma obj_on_delete_facts rv t o :
  obj_key (obj_on_delete rv t o) = obj_key o ∧ obj_rv (obj_on_delete rv t o) = rv.
Proof. by destruct o. Qed.

Lemma obj_set_meta_facts mm o :
  obj_key (obj_set_meta mm o) = (obj_kind o, m_Namespace mm, m_Name mm) ∧
  obj_meta (obj_set_meta mm o) = mm.
Proof. by destruct o. Qed.

Lemma wf_kind m k o cur :
  store_wf m → objs m !! obj_key o = Some cur → k = obj_key o →
  obj_key cur = k ∧ obj_kind cur = obj_kind o.
Proof. intros Hwf Hl ->. destruct (wf_key _ Hwf _ _ Hl) as [E _]. split; [done|]. by inversion E. Qed.

Lemma put_or_drop_evolves k o m :
  store_wf m → obj_key o = k → rev m < obj_rv o → evolves m (put_or_drop k o m).
Proof.
  intros. unfold put_or_drop. repeat case_match; eauto using put_evolves, retire_evolves.
Qed.

(** Whatever a request does, the store stays well formed and evolves. *)
Lemma serves_evolves m r x m' : store_wf m → serves m r x m' → evolves m m'.
Proof.
  intros Hwf. destruct r as [k|kd ns|kd|o|o|o|k|k key value| |]; simpl.
  - intros [-> _]. by apply evolves_refl.
  - intros [-> _]. by apply evolves_refl.
  - intros [-> _]. by apply evolves_refl.
  - destruct x as [o'|e].
    + intros (Hn & rv & uid & t & Hrv & -> & ->).
      destruct (obj_on_create_facts rv uid t o) as [Hk Hv]. apply put_evolves; [done..|lia].
    + intros [-> _]. by apply evolves_refl.
  - destruct x as [o'|e].
    + intros (cur & rv & gen & Hl & _ & Hrv & -> & ->).
      destruct (wf_kind _ _ _ _ Hwf Hl eq_refl) as [Hk Hkd].
      destruct (obj_on_update_facts rv gen cur o Hkd) as [Hk' Hv].
      apply put_or_drop_evolves; [done|congruence|lia].
    + intros [-> _]. by apply evolves_refl.
  - destruct x as [o'|e].
    + intros (cur & rv & Hl & _ & Hrv & -> & ->).
      destruct (wf_kind _ _ _ _ Hwf Hl eq_refl) as [Hk Hkd].
      destruct (obj_on_status_facts rv cur o Hkd) as [Hk' Hv].
      apply put_evolves; [done|congruence|lia].
    + intros [-> _]. by apply evolves_refl.
  - destruct x as [[]|e].
    + intros (cur & rv & t & Hl & Hrv & ->). destruct (wf_key _ Hwf _ _ Hl) as [Hk _].
      destruct (obj_on_delete_facts rv t cur) as [Hk' Hv].
      case_match; [by apply drop_evolves|apply put_evolves; [done|congruence|lia]].
    + intros [-> _]. by apply evolves_refl.
  - destruct x as [o'|e].
    + intros (cur & rv & Hl & Hrv & -> & ->). destruct (wf_key _ Hwf _ _ Hl) as [Hk _].
      destruct (obj_set_meta_facts (meta_on_annotate rv key value (obj_meta cur)) cur) as [Hk' Hm].
      apply put_evolves; [done|by rewrite Hk', <-Hk|unfold obj_rv; by rewrite Hm].
    + intros [-> _]. by apply evolves_refl.
  - intros ->. by apply evolves_refl.
  - intros ->. by apply evolves_refl.
Qed.

Lemma elem_of_list_all_of kd m o :
  o ∈ list_all_of kd m ↔ ∃ k, objs m !! k = Some o ∧ k.1.1 = kd.
Proof.
  unfold list_all_of. rewrite list_elem_of_fmap. split.
  - intros ([k o'] & -> & Hin). apply elem_of_map_to_list, map_lookup_filter_Some in Hin as [??].
    by exists k.
  - intros (k & Hl & Hk). exists (k, o). split; [done|].
    apply elem_of_map_to_list, map_lookup_filter_Some. done.
Qed.

Lemma elem_of_list_of kd ns m o :
  o ∈ list_of kd ns m ↔ ∃ k, objs m !! k = Some o ∧ k.1 = (kd, ns).
Proof.
  unfold list_of. rewrite list_elem_of_fmap. split.
  - intros ([k o'] & -> & Hin). apply elem_of_map_to_list, map_lookup_filter_Some in Hin as [??].
    by exists k.
  - intros (k & Hl & Hk). exists (k, o). split; [done|].
    apply elem_of_map_to_list, map_lookup_filter_Some. done.
Qed.

(** A fresh read is also a cached one. *)
Lemma serves_cached m r x m' : store_wf m → serves m r x m' → cached m r x m'.
Proof.
  intros Hwf. destruct r; simpl; try done.
  - intros [-> Hx]. split; [done|]. destruct x; [|done]. by apply lookup_seen.
  - intros [-> Hx]. split; [done|]. destruct x as [l|]; [|done]. intros o Ho.
    rewrite Hx, elem_of_list_of in Ho. destruct Ho as (k & Hl & Hk).
    destruct (wf_key _ Hwf _ _ Hl) as [E _]. subst k. split; [exact Hk|]. by apply lookup_seen.
  - intros [-> Hx]. split; [done|]. destruct x as [l|]; [|done]. intros o Ho.
    rewrite Hx, elem_of_list_all_of in Ho. destruct Ho as (k & Hl & Hk).
    destruct (wf_key _ Hwf _ _ Hl) as [E _]. subst k. split; [exact Hk|]. by apply lookup_seen.
Qed.

Lemma cached_evolves m r x m' : store_wf m → cached m r x m' → evolves m m'.
Proof.
  intros Hwf. destruct r; try apply (serves_evolves _ _ _ _ Hwf);
    intros [-> _]; by apply evolves_refl.
Qed.

Lemma wp_and {A} C (p : prog A) (Q Q' : A → store → Prop) m :
  wp C p Q m → wp C p Q' m → wp C p (λ a m', Q a m' ∧ Q' a m') m.
Proof.
  revert m. induction p as [a|r k IH]; intros m; simpl; [done|].
  intros H1 H2 x m' HC. apply IH; auto.
Qed.

Lemma wp_always {A} C (p : prog A) (Q : A → store → Prop) m : (∀ a m', Q a m') → wp C p Q m.
Proof. intros HQ. revert m. induction p as [a|r k IH]; intros m; simpl; auto. Qed.

(** ** The results a program can produce, whatever it is answered *)
Fixpoint pleaves {A} (P : A → Prop) (p : prog A) : Prop :=
  match p with
  | Ret a => P a
  | Call r k => ∀ x, pleaves P (k x)
  end.

Lemma pleaves_bind {A B} (P : A → Prop) (Q : B → Prop) (p : prog A) (f : A → prog B) :
  pleaves P p → (∀ a, P a → pleaves Q (f a)) → pleaves Q (p ≫= f).
Proof.
  intros Hp Hf. induction p as [a|r k IH]; simpl in *; [by apply Hf|]. intros x. by apply IH.
Qed.

Lemma pleaves_any {A} (p : prog A) : pleaves (λ _, True) p.
Proof. by induction p. Qed.

(** ** Programs that leave some keys alone *)
Definition req_spares (P : Key → Prop) (r : req) : Prop :=
  match r with
  | Create o | Update o | StatusUpdate o => ¬ P (obj_key o)
  | Delete k | Annotate k _ _ => ¬ P k
  | _ => True
  end.

Fixpoint spares {A} (P : Key → Prop) (p : prog A) : Prop :=
  match p with
  | Ret _ => True
  | Call r k => req_spares P r ∧ ∀ x, spares P (k x)
  end.

Definition same_on (P : Key → Prop) (m m' : store) : Prop :=
  store_wf m' ∧ ∀ k, P k → objs m' !! k = objs m !! k.

Lemma same_on_refl P m : store_wf m → same_on P m m.
Proof. by intros. Qed.

Lemma same_on_trans P m1 m2 m3 : same_on P m1 m2 → same_on P m2 m3 → same_on P m1 m3.
Proof. intros [_ H12] [Hwf H23]. split; [done|]. intros k Hk. by rewrite H23, H12. Qed.

Lemma spares_bind {A B} P (p : prog A) (f : A → prog B) :
  spares P p → (∀ a, spares P (f a)) → spares P (p ≫= f).
Proof.
  intros Hp Hf. induction p as [a|r k IH]; simpl; [apply Hf|].
  destruct Hp as [Hr Hk]. split; [done|]. intros x. by apply IH.
Qed.

Lemma spares_step P m r x m' : store_wf m → req_spares P r → serves m r x m' → same_on P m m'.
Proof.
  intros Hwf Hn Hs. split; [by apply (serves_evolves _ _ _ _ Hwf Hs)|]. intros k Hb.
  destruct r as [k'|kd ns|kd|o|o|o|k'|k' key value| |]; simpl in *.
  1-3: by destruct Hs as [-> _].
  6,7: by subst m'.
  - destruct x; [|by destruct Hs as [-> _]]. destruct Hs as (_ & rv & uid & t & _ & _ & ->).
    unfold put; simpl. apply lookup_insert_ne. by intros <-.
  - destruct x; [|by destruct Hs as [-> _]]. destruct Hs as (cur & rv & gen & _ & _ & _ & _ & ->).
    unfold put_or_drop, put, retire. repeat case_match; simpl;
      by (apply lookup_insert_ne || apply lookup_delete_ne); intros <-.
  - destruct x; [|by destruct Hs as [-> _]]. destruct Hs as (cur & rv & _ & _ & _ & _ & ->).
    unfold put; simpl. apply lookup_insert_ne. by intros <-.
  - destruct x; [|by destruct Hs as [-> _]]. destruct Hs as (cur & rv & t & _ & _ & ->).
    unfold put, drop. repeat case_match; simpl;
      by (apply lookup_insert_ne || apply lookup_delete_ne); intros <-.
  - destruct x; [|by destruct Hs as [-> _]]. destruct Hs as (cur & rv & _ & _ & _ & ->).
    unfold put; simpl. apply lookup_insert_ne. by intros <-.
Qed.

Lemma wps_spares {A} P (p : prog A) m :
  store_wf m → spares P p → wp serves p (λ _ m', same_on P m m') m.
Proof.
  revert m. induction p as [a|r k IH]; intros m Hwf Hn; simpl; [by apply same_on_refl|].
  destruct Hn as [Hr Hk]. intros x m' Hs.
  pose proof (spares_step _ _ _ _ _ Hwf Hr Hs) as Hb.
  eapply wp_mono; [|apply IH; [apply Hb|apply Hk]]. intros a m2. by apply same_on_trans.
Qed.

Lemma wp_spares {A} P (p : prog A) m :
  store_wf m → spares P p → wp reliable p (λ _ m', same_on P m m') m.
Proof.
  intros Hwf Hp. eapply wp_contract; [|by apply wps_spares]. by intros m1 r x m2 [Hs _].
Qed.

(** ** Rely-guarantee over cached reads *)
Fixpoint rg {A} (R G : store → store → Prop) (p : prog A) (Q : A → store → Prop) (m : store) : Prop :=
  match p with
  | Ret a => Q a m
  | Call r k => ∀ m1 x m2, R m m1 → cached m1 r x m2 → G m1 m2 ∧ rg R G (k x) Q m2
  end.

(** What a rely and a guarantee have to satisfy: interference evolves the
    store, doing nothing is allowed, and one program's guarantee is within what
    the others rely on. *)
Class RelyGuarantee (R G : store → store → Prop) : Prop := {
  rely_evolves : ∀ m m', R m m' → evolves m m';
  rely_trans : ∀ m1 m2 m3, R m1 m2 → R m2 m3 → R m1 m3;
  guar_refl : ∀ m, store_wf m → G m m;
  guar_rely : ∀ m m', G m m' → R m m'
}.

Lemma rg_mono {A} R G (p : prog A) (Q Q' : A → store → Prop) m :
  (∀ a m', Q a m' → Q' a m') → rg R G p Q m → rg R G p Q' m.
Proof.
  intros HQ. revert m. induction p as [a|r k IH]; intros m; simpl; [auto|].
  intros Hwp m1 x m2 HR HC. destruct (Hwp _ _ _ HR HC). split; [done|]. by apply IH.
Qed.

Lemma rg_bind {A B} R G (p : prog A) (f : A → prog B) Q m :
  rg R G p (λ a m', rg R G (f a) Q m') m → rg R G (p ≫= f) Q m.
Proof.
  revert m. induction p as [a|r k IH]; intros m; simpl; [done|].
  intros Hwp m1 x m2 HR HC. destruct (Hwp _ _ _ HR HC). split; [done|]. by apply IH.
Qed.

(** Interference before a program starts is covered by its rely. *)
Lemma rg_stable {A} R G `{!RelyGuarantee R G} (p : prog A) m m' :
  R m m' → rg R G p (λ _ _, True) m → rg R G p (λ _ _, True) m'.
Proof.
  intros HR. destruct p as [a|r k]; simpl; [done|].
  intros Hp m1 x m2 HR1. apply Hp. by eapply rely_trans.
Qed.

(** *** Concurrent programs

    A pool of running programs over one store.  A step serves the next request
    of one of them, lets the environment act, or starts a program. *)
Inductive pool_step (env : store → store → Prop) (startable : prog unit → Prop) :
  list (prog unit) * store → list (prog unit) * store → Prop :=
| step_request ts m i r k x m' :
    ts !! i = Some (Call r k) → cached m r x m' →
    pool_step env startable (ts, m) (<[i := k x]> ts, m')
| step_env ts m m' : env m m' → pool_step env startable (ts, m) (ts, m')
| step_start ts m p : startable p → pool_step env startable (ts, m) (p :: ts, m).

Definition pool_ok (R G : store → store → Prop) (c : list (prog unit) * store) : Prop :=
  store_wf c.2 ∧ ∀ p, p ∈ c.1 → rg R G p (λ _ _, True) c.2.

Section Pool.
Context (R G : store → store → Prop) `{!RelyGuarantee R G}.
Context (startable : prog unit → Prop).
Hypothesis startable_ok :
  ∀ p m, startable p → store_wf m → rg R G p (λ _ _, True) m.

Lemma pool_step_ok c c' :
  pool_ok R G c → pool_step R startable c c' → pool_ok R G c' ∧ R c.2 c'.2.
Proof.
  intros [Hwf Hall]. destruct 1 as [ts m i r k x m' Hi Hc|ts m m' Henv|ts m p Hs]; simpl in *.
  - pose proof (Hall _ (list_elem_of_lookup_2 _ _ _ Hi)) as Hp. simpl in Hp.
    destruct (Hp m x m') as [HG Hk]; [by apply guar_rely, guar_refl|done|].
    split; [split|by apply guar_rely].
    + apply (cached_evolves _ _ _ _ Hwf Hc).
    + simpl. intros p [j Hj]%list_elem_of_lookup_1.
      apply list_lookup_insert_Some in Hj as [(-> & <- & _)|[_ Hj]]; [done|].
      apply (rg_stable R G p m); [by apply guar_rely|].
      apply Hall. by eapply list_elem_of_lookup_2.
  - split; [split|done].
    + by apply (rely_evolves m m').
    + simpl. intros p Hp. apply (rg_stable R G p m); auto.
  - split; [split|by apply guar_rely, guar_refl]; [done|].
    simpl. intros p' Hp'. apply elem_of_cons in Hp' as [->|]; auto.
Qed.

(** Every state a pool reaches from a well-formed store is related to the
    first by the rely, whatever the interleaving. *)
Lemma pool_safe m c :
  store_wf m → rtc (pool_step R startable) ([], m) c → pool_ok R G c ∧ R m c.2.
Proof.
  intros Hwf Hrtc.
  assert (pool_ok R G ([], m)) as Hok by (split; [done|]; simpl; by intros p ?%elem_of_nil).
  assert (∀ c0, rtc (pool_step R startable) c0 c → pool_ok R G c0 →
    pool_ok R G c ∧ R c0.2 c.2) as Hgen; [|by apply (Hgen ([], m))].
  clear Hrtc Hok m Hwf. induction 1 as [c|c1 c2 c3 H1 _ IH]; intros Hok.
  - split; [done|]. apply guar_rely, guar_refl, Hok.
  - destruct (pool_step_ok _ _ Hok H1) as [Hok2 HR]. destruct (IH Hok2) as [Hok3 HR3].
    split; [done|]. by eapply rely_trans.
Qed.

(** Every request a pool serves meets the guarantee. *)
Lemma pool_request_guarantee m ts m1 i r k x m2 :
  store_wf m → rtc (pool_step R startable) ([], m) (ts, m1) →
  ts !! i = Some (Call r k) → cached m1 r x m2 → G m1 m2.
Proof.
  intros Hwf Hrtc Hi Hc. destruct (pool_safe _ _ Hwf Hrtc) as [[Hwf1 Hall] _].
  pose proof (Hall _ (list_elem_of_lookup_2 _ _ _ Hi)) as Hp. simpl in Hp.
  destruct (Hp m1 x m2); [by apply guar_rely, guar_refl|done|done].
Qed.
End Pool.

(** ** Typed access

    [Resource S T] ties a custom resource type to its kind. *)
Class Resource (S T : Type) := {
  res_kind : Kind;
  to_obj : CR S T → Obj;
  of_obj : Obj → option (CR S T);
  res_zero : T;
  of_to_obj : ∀ a, of_obj (to_obj a) = Some a;
  to_of_obj : ∀ o a, of_obj o = Some a → o = to_obj a;
  of_obj_kind : ∀ o, obj_kind o = res_kind → is_Some (of_obj o);
  to_obj_kind : ∀ a, obj_kind (to_obj a) = res_kind;
  to_obj_meta : ∀ a, obj_meta (to_obj a) = cr_meta a;
  on_create_typed : ∀ rv uid t a,
    obj_on_create rv uid t (to_obj a) = to_obj (cr_on_create res_zero rv uid t a);
  on_update_typed : ∀ rv gen a b,
    obj_on_update rv gen (to_obj a) (to_obj b) = to_obj (cr_on_update rv gen a b);
  on_status_typed : ∀ rv a b,
    obj_on_status rv (to_obj a) (to_obj b) = to_obj (cr_on_status rv a b);
  on_delete_typed : ∀ rv t a, obj_on_delete rv t (to_obj a) = to_obj (cr_on_delete rv t a);
  set_meta_typed : ∀ mm a, obj_set_meta mm (to_obj a) = to_obj (cr_set_meta mm a)
}.

#[global] Program Instance cadv_resource : Resource ClusterAdvertisementSpec ClusterAdvertisementStatus := {|
  res_kind := KClusterAdvertisement; to_obj := OCadv; res_zero := cadv_status_zero;
  of_obj := λ o, match o with OCadv c => Some c | _ => None end |}.
Solve All Obligations with try (intros []; simpl; intros; simplify_eq; eauto).

#[global] Program Instance resv_resource : Resource ReservationSpec ReservationStatus := {|
  res_kind := KReservation; to_obj := OResv; res_zero := resv_status_zero;
  of_obj := λ o, match o with OResv c => Some c | _ => None end |}.
Solve All Obligations with try (intros []; simpl; intros; simplify_eq; eauto).

#[global] Program Instance pi_resource : Resource ProviderInstructionSpec InstructionStatus := {|
  res_kind := KProviderInstruction; to_obj := OPI; res_zero := instr_status_zero;
  of_obj := λ o, match o with OPI c => Some c | _ => None end |}.
Solve All Obligations with try (intros []; simpl; intros; simplify_eq; eauto).

#[global] Program Instance ri_resource : Resource ReservationInstructionSpec InstructionStatus := {|
  res_kind := KReservationInstruction; to_obj := ORI; res_zero := instr_status_zero;
  of_obj := λ o, match o with ORI c => Some c | _ => None end |}.
Solve All Obligations with try (intros []; simpl; intros; simplify_eq; eauto).

#[global] Program Instance secret_resource : Resource (gmap string string) unit := {|
  res_kind := KSecret; to_obj := OSecret; res_zero := tt;
  of_obj := λ o, match o with OSecret c => Some c | _ => None end |}.
Solve All Obligations with try (intros []; simpl; intros; simplify_eq; eauto).

#[global] Program Instance rr_resource : Resource ResourceRequestSpec ResourceRequestStatus := {|
  res_kind := KResourceRequest; to_obj := ORR; res_zero := rr_status_zero;
  of_obj := λ o, match o with ORR c => Some c | _ => None end |}.
Solve All Obligations with try (intros []; simpl; intros; simplify_eq; eauto).

#[global] Program Instance vns_resource : Resource VirtualNodeStateSpec VirtualNodeStateStatus := {|
  res_kind := KVirtualNodeState; to_obj := OVNS; res_zero := vns_status_zero;
  of_obj := λ o, match o with OVNS c => Some c | _ => None end |}.
Solve All Obligations with try (intros []; simpl; intros; simplify_eq; eauto).

#[global] Program Instance policy_resource : Resource ConsumerPolicySpec unit := {|
  res_kind := KConsumerPolicy; to_obj := OPolicy; res_zero := tt;
  of_obj := λ o, match o with OPolicy c => Some c | _ => None end |}.
Solve All Obligations with try (intros []; simpl; intros; simplify_eq; eauto).

#[global] Program Instance node_resource : Resource NodeSpec NodeStatus := {|
  res_kind := KNode; to_obj := ONode; res_zero := node_status_zero;
  of_obj := λ o, match o with ONode c => Some c | _ => None end |}.
Solve All Obligations with try (intros []; simpl; intros; simplify_eq; eauto).

#[global] Program Instance namespace_resource : Resource NamespaceSpec unit := {|
  res_kind := KNamespace; to_obj := ONamespace; res_zero := tt;
  of_obj := λ o, match o with ONamespace c => Some c | _ => None end |}.
Solve All Obligations with try (intros []; simpl; intros; simplify_eq; eauto).

#[global] Program Instance slice_resource : Resource ResourceSliceSpec unit := {|
  res_kind := KResourceSlice; to_obj := OSlice; res_zero := tt;
  of_obj := λ o, match o with OSlice c => Some c | _ => None end |}.
Solve All Obligations with try (intros []; simpl; intros; simplify_eq; eauto).

#[global] Program Instance foreign_resource : Resource ForeignClusterSpec unit := {|
  res_kind := KForeignCluster; to_obj := OForeign; res_zero := tt;
  of_obj := λ o, match o with OForeign c => Some c | _ => None end |}.
Solve All Obligations with try (intros []; simpl; intros; simplify_eq; eauto).

#[global] Program Instance config_resource : Resource ConfigMapData unit := {|
  res_kind := KConfigMap; to_obj := OConfig; res_zero := tt;
  of_obj := λ o, match o with OConfig c => Some c | _ => None end |}.
Solve All Obligations with try (intros []; simpl; intros; simplify_eq; eauto).

#[global] Program Instance deploy_resource : Resource DeploymentSpec unit := {|
  res_kind := KDeployment; to_obj := ODeploy; res_zero := tt;
  of_obj := λ o, match o with ODeploy c => Some c | _ => None end |}.
Solve All Obligations with try (intros []; simpl; intros; simplify_eq; eauto).

Section Typed.
Context {S T : Type} `{!Resource S T}.

Definition cr_key (a : CR S T) : Key := (res_kind (S:=S) (T:=T), cr_Namespace a, cr_Name a).

Definition decode (x : Res Obj) : Res (CR S T) :=
  match x with
  | Ok o =>
      match of_obj o with
      | Some a => Ok a
      | None => Fail (errors_New "unexpected object kind")
      end
  | Fail e => Fail e
  end.

(** [client.Get], [List] in a namespace, [Create], [Update],
    [Status().Update] and [Delete].  The object a successful write returns is
    what the client copies back into its argument. *)
Definition get (ns name : string) : prog (Res (CR S T)) :=
  Call (Get (res_kind (S:=S) (T:=T), ns, name)) (λ x, Ret (decode x)).
Definition list_in (ns : string) : prog (Res (list (CR S T))) :=
  Call (ListReq (res_kind (S:=S) (T:=T)) ns)
    (λ x, Ret (match x with Ok l => Ok (omap of_obj l) | Fail e => Fail e end)).
Definition list_all : prog (Res (list (CR S T))) :=
  Call (ListAll (res_kind (S:=S) (T:=T)))
    (λ x, Ret (match x with Ok l => Ok (omap of_obj l) | Fail e => Fail e end)).
Definition annotate (a : CR S T) (key value : string) : prog (Res (CR S T)) :=
  Call (Annotate (cr_key a) key value) (λ x, Ret (decode x)).
Definition create (a : CR S T) : prog (Res (CR S T)) :=
  Call (Create (to_obj a)) (λ x, Ret (decode x)).
Definition update (a : CR S T) : prog (Res (CR S T)) :=
  Call (Update (to_obj a)) (λ x, Ret (decode x)).
Definition status_update (a : CR S T) : prog (Res (CR S T)) :=
  Call (StatusUpdate (to_obj a)) (λ x, Ret (decode x)).
Definition delete_cr (a : CR S T) : prog (Res unit) :=
  Call (Delete (cr_key a)) Ret.

Lemma obj_key_typed (a : CR S T) : obj_key (to_obj a) = cr_key a.
Proof. unfold obj_key. by rewrite to_obj_kind, to_obj_meta. Qed.

Lemma obj_rv_typed (a : CR S T) : obj_rv (to_obj a) = m_ResourceVersion (cr_meta a).
Proof. unfold obj_rv. by rewrite to_obj_meta. Qed.

Lemma decode_typed (a : CR S T) : decode (Ok (to_obj a)) = Ok a.
Proof. unfold decode. by rewrite of_to_obj. Qed.

Lemma to_obj_inj (a b : CR S T) : to_obj a = to_obj b → a = b.
Proof. intros E. apply (f_equal of_obj) in E. rewrite !of_to_obj in E. by simplify_eq. Qed.

Lemma typed_of_key o ns n :
  obj_key o = (res_kind (S:=S) (T:=T), ns, n) →
  ∃ a : CR S T, o = to_obj a ∧ cr_Namespace a = ns ∧ cr_Name a = n.
Proof.
  intros E. destruct (of_obj_kind (S:=S) (T:=T) o) as [a Ha]; [by inversion E|].
  apply to_of_obj in Ha as ->. exists a. rewrite obj_key_typed in E. by inversion E.
Qed.

(** [typed_list] is the typed content of a namespace. *)
Definition typed_list (ns : string) (m : store) : list (CR S T) :=
  omap of_obj (list_of (res_kind (S:=S) (T:=T)) ns m).

Lemma elem_of_typed_list ns m a :
  store_wf m →
  a ∈ typed_list ns m ↔ cr_Namespace a = ns ∧ objs m !! cr_key a = Some (to_obj a).
Proof.
  intros Hwf. unfold typed_list. rewrite list_elem_of_omap. split.
  - intros (o & Ho & Ha). apply to_of_obj in Ha as ->.
    apply elem_of_list_of in Ho as (k & Hl & Hk).
    destruct (wf_key _ Hwf _ _ Hl) as [E _]. rewrite obj_key_typed in E. subst k.
    split; [by inversion Hk|done].
  - intros [Hns Hl]. exists (to_obj a). split; [|apply of_to_obj].
    apply elem_of_list_of. exists (cr_key a). split; [done|]. unfold cr_key; simpl. by rewrite Hns.
Qed.

(** [typed_all] is the typed content of the cluster. *)
Definition typed_all (m : store) : list (CR S T) :=
  omap of_obj (list_all_of (res_kind (S:=S) (T:=T)) m).

Lemma elem_of_typed_all m a :
  store_wf m → a ∈ typed_all m ↔ objs m !! cr_key a = Some (to_obj a).
Proof.
  intros Hwf. unfold typed_all. rewrite list_elem_of_omap. split.
  - intros (o & Ho & Ha). apply to_of_obj in Ha as ->.
    apply elem_of_list_all_of in Ho as (k & Hl & Hk).
    destruct (wf_key _ Hwf _ _ Hl) as [E _]. rewrite obj_key_typed in E. by subst k.
  - intros Hl. exists (to_obj a). split; [|apply of_to_obj].
    apply elem_of_list_all_of. by exists (cr_key a).
Qed.

(** *** Rules for a reliable server *)
Lemma wp_list_all (Q : Res (list (CR S T)) → store → Prop) m :
  (∀ l, l ≡ₚ typed_all m → Q (Ok l) m) → wp reliable list_all Q m.
Proof.
  intros HOk x m' [[-> Hx] Hp]. destruct x as [l|e]; simpl in *; [|by destruct (Hp e)].
  apply HOk. unfold typed_all. by rewrite Hx.
Qed.

Lemma wp_annotate a key value (Q : Res (CR S T) → store → Prop) m :
  store_wf m →
  (∀ cur rv, objs m !! cr_key a = Some (to_obj cur) → rev m < rv →
    let a' := cr_set_meta (meta_on_annotate rv key value (cr_meta cur)) cur in
    store_wf (put (cr_key a) (to_obj a') m) → Q (Ok a') (put (cr_key a) (to_obj a') m)) →
  (∀ e, objs m !! cr_key a = None → e_kind e = ENotFound → Q (Fail e) m) →
  wp reliable (annotate a key value) Q m.
Proof.
  intros Hwf HOk HFail x m' [Hx Hp]. pose proof (serves_evolves _ _ _ _ Hwf Hx) as [Hwf' _].
  simpl in *. destruct x as [o|e].
  - destruct Hx as (cur & rv & Hl & Hrv & -> & ->).
    destruct (wf_key _ Hwf _ _ Hl) as [E _]. destruct (typed_of_key _ _ _ E) as (c & -> & Hns & Hn).
    rewrite to_obj_meta, set_meta_typed in *. rewrite decode_typed. by apply HOk.
  - destruct Hx as [-> Hx]. apply HFail; [apply Hx|]; by apply Hp.
Qed.

Lemma wp_get ns n (Q : Res (CR S T) → store → Prop) m :
  store_wf m →
  (∀ a, objs m !! (res_kind (S:=S) (T:=T), ns, n) = Some (to_obj a) →
    cr_Namespace a = ns → cr_Name a = n → Q (Ok a) m) →
  (∀ e, objs m !! (res_kind (S:=S) (T:=T), ns, n) = None → e_kind e = ENotFound → Q (Fail e) m) →
  wp reliable (get ns n) Q m.
Proof.
  intros Hwf HOk HFail x m' [[-> Hx] Hp]. destruct x as [o|e]; simpl in *.
  - destruct (wf_key _ Hwf _ _ Hx) as [E _]. destruct (typed_of_key _ _ _ E) as (a & -> & ? & ?).
    rewrite of_to_obj. by apply HOk.
  - apply HFail; [apply Hx|]; by apply Hp.
Qed.

Lemma wp_list ns (Q : Res (list (CR S T)) → store → Prop) m :
  (∀ l, l ≡ₚ typed_list ns m → Q (Ok l) m) → wp reliable (list_in ns) Q m.
Proof.
  intros HOk x m' [[-> Hx] Hp]. destruct x as [l|e]; simpl in *; [|by destruct (Hp e)].
  apply HOk. unfold typed_list. by rewrite Hx.
Qed.

Lemma wp_create a (Q : Res (CR S T) → store → Prop) m :
  store_wf m →
  (∀ rv uid t, objs m !! cr_key a = None → rev m < rv →
    let a' := cr_on_create res_zero rv uid t a in
    store_wf (put (cr_key a) (to_obj a') m) →
    Q (Ok a') (put (cr_key a) (to_obj a') m)) →
  (∀ e o, objs m !! cr_key a = Some o → e_kind e = EAlreadyExists → Q (Fail e) m) →
  wp reliable (create a) Q m.
Proof.
  intros Hwf HOk HFail x m' [Hx Hp]. simpl in *. rewrite obj_key_typed in Hx.
  destruct x as [o|e].
  - destruct Hx as (Hn & rv & uid & t & Hrv & -> & ->). rewrite on_create_typed, decode_typed.
    apply HOk; [done..|]. apply put_wf; [done| |]; rewrite ?obj_key_typed, ?obj_rv_typed; done.
  - destruct Hx as [-> Hx]. specialize (Hp e eq_refl). destruct (Hx Hp) as [o Ho].
    by apply (HFail e o).
Qed.

Lemma wp_status_update a (Q : Res (CR S T) → store → Prop) m :
  store_wf m →
  (∀ cur rv, objs m !! cr_key a = Some (to_obj cur) →
    m_ResourceVersion (cr_meta cur) = m_ResourceVersion (cr_meta a) → rev m < rv →
    let a' := cr_on_status rv cur a in
    store_wf (put (cr_key a) (to_obj a') m) →
    Q (Ok a') (put (cr_key a) (to_obj a') m)) →
  (∀ e, (∀ cur, objs m !! cr_key a = Some (to_obj cur) →
      m_ResourceVersion (cr_meta cur) ≠ m_ResourceVersion (cr_meta a)) → Q (Fail e) m) →
  wp reliable (status_update a) Q m.
Proof.
  intros Hwf HOk HFail x m' [Hx Hp]. simpl in *. rewrite obj_key_typed in Hx.
  destruct x as [o|e].
  - destruct Hx as (cur & rv & Hl & Hv & Hrv & -> & ->).
    destruct (wf_key _ Hwf _ _ Hl) as [E _]. destruct (typed_of_key _ _ _ E) as (c & -> & Hns & Hn).
    rewrite on_status_typed, decode_typed. rewrite !obj_rv_typed in Hv.
    apply HOk; [done..|]. apply put_wf; [done| |]; rewrite ?obj_key_typed, ?obj_rv_typed; [|done].
    unfold cr_key. by rewrite <-Hns, <-Hn.
  - destruct Hx as (-> & Hnf & Hcf). apply HFail. intros cur Hl Hv.
    destruct (Hp e eq_refl) as [Hk|Hk]; [by rewrite (Hnf Hk) in Hl|].
    destruct (Hcf Hk) as (c & Hl' & Hne). rewrite Hl in Hl'. simplify_eq.
    rewrite !obj_rv_typed in Hne. done.
Qed.

Lemma wp_update a (Q : Res (CR S T) → store → Prop) m :
  store_wf m →
  (∀ cur rv gen, objs m !! cr_key a = Some (to_obj cur) →
    m_ResourceVersion (cr_meta cur) = m_ResourceVersion (cr_meta a) → rev m < rv →
    let a' := cr_on_update rv gen cur a in
    store_wf (put_or_drop (cr_key a) (to_obj a') m) →
    Q (Ok a') (put_or_drop (cr_key a) (to_obj a') m)) →
  (∀ e, (∀ cur, objs m !! cr_key a = Some (to_obj cur) →
      m_ResourceVersion (cr_meta cur) ≠ m_ResourceVersion (cr_meta a)) → Q (Fail e) m) →
  wp reliable (update a) Q m.
Proof.
  intros Hwf HOk HFail x m' [Hx Hp]. simpl in *. rewrite obj_key_typed in Hx.
  destruct x as [o|e].
  - destruct Hx as (cur & rv & gen & Hl & Hv & Hrv & -> & ->).
    destruct (wf_key _ Hwf _ _ Hl) as [E _]. destruct (typed_of_key _ _ _ E) as (c & -> & Hns & Hn).
    rewrite on_update_typed, decode_typed. rewrite !obj_rv_typed in Hv.
    apply HOk; [done..|]. apply put_or_drop_evolves; [done| |];
      rewrite ?obj_key_typed, ?obj_rv_typed; [|done].
    unfold cr_key. by rewrite <-Hns, <-Hn.
  - destruct Hx as (-> & Hnf & Hcf). apply HFail. intros cur Hl Hv.
    destruct (Hp e eq_refl) as [Hk|Hk]; [by rewrite (Hnf Hk) in Hl|].
    destruct (Hcf Hk) as (c & Hl' & Hne). rewrite Hl in Hl'. simplify_eq.
    rewrite !obj_rv_typed in Hne. done.
Qed.

Lemma wp_delete a (Q : Res unit → store → Prop) m :
  store_wf m →
  (∀ cur rv t, objs m !! cr_key a = Some (to_obj cur) → rev m < rv →
    let m' := match m_Finalizers (cr_meta cur) with
              | [] => drop (cr_key a) rv m
              | _ => put (cr_key a) (to_obj (cr_on_delete rv t cur)) m
              end in
    store_wf m' → Q (Ok tt) m') →
  (∀ e, objs m !! cr_key a = None → e_kind e = ENotFound → Q (Fail e) m) →
  wp reliable (delete_cr a) Q m.
Proof.
  intros Hwf HOk HFail x m' [Hx Hp]. pose proof (serves_evolves _ _ _ _ Hwf Hx) as [Hwf' _].
  simpl in *. destruct x as [[]|e].
  - destruct Hx as (cur & rv & t & Hl & Hrv & ->).
    destruct (wf_key _ Hwf _ _ Hl) as [E _]. destruct (typed_of_key _ _ _ E) as (c & -> & Hns & Hn).
    rewrite to_obj_meta, on_delete_typed in *. by apply HOk.
  - destruct Hx as [-> Hx]. apply HFail; [apply Hx|]; by apply Hp.
Qed.

(** A write over the object that is stored succeeds. *)
Lemma cr_key_meta (a b : CR S T) : cr_meta a = cr_meta b → cr_key a = cr_key b.
Proof. intros E. unfold cr_key, cr_Namespace, cr_Name. by rewrite E. Qed.

Lemma wp_status_current a0 a (Q : Res (CR S T) → store → Prop) m :
  store_wf m → objs m !! cr_key a0 = Some (to_obj a0) → cr_meta a = cr_meta a0 →
  (∀ rv, rev m < rv →
    let a' := cr_on_status rv a0 a in
    store_wf (put (cr_key a0) (to_obj a') m) → Q (Ok a') (put (cr_key a0) (to_obj a') m)) →
  wp reliable (status_update a) Q m.
Proof.
  intros Hwf Hl Hm HOk. apply wp_status_update; [done|..]; rewrite (cr_key_meta _ _ Hm), Hm.
  - intros cur rv Hc Hv Hrv. rewrite Hl in Hc. simplify_eq.
    apply to_obj_inj in Hc as <-. by apply HOk.
  - intros e Hno. by destruct (Hno a0).
Qed.

Lemma wp_update_current a0 a (Q : Res (CR S T) → store → Prop) m :
  store_wf m → objs m !! cr_key a0 = Some (to_obj a0) → cr_key a = cr_key a0 →
  m_ResourceVersion (cr_meta a) = m_ResourceVersion (cr_meta a0) →
  (∀ rv gen, rev m < rv →
    let a' := cr_on_update rv gen a0 a in
    store_wf (put_or_drop (cr_key a0) (to_obj a') m) →
    Q (Ok a') (put_or_drop (cr_key a0) (to_obj a') m)) →
  wp reliable (update a) Q m.
Proof.
  intros Hwf Hl Hk Hm HOk. apply wp_update; [done|..]; rewrite Hk, Hm.
  - intros cur rv gen Hc Hv Hrv. rewrite Hl in Hc. simplify_eq.
    apply to_obj_inj in Hc as <-. by apply HOk.
  - intros e Hno. by destruct (Hno a0).
Qed.

Lemma wp_get_found ns n a (Q : Res (CR S T) → store → Prop) m :
  store_wf m → objs m !! (res_kind (S:=S) (T:=T), ns, n) = Some (to_obj a) → Q (Ok a) m →
  wp reliable (get ns n) Q m.
Proof.
  intros Hwf Hl HQ. apply wp_get; [done|..]; rewrite Hl; [|done].
  intros a' E _ _. simplify_eq. by apply to_obj_inj in E as <-.
Qed.

(** *** Rules for a server that reads fresh objects but whose requests may fail *)
Lemma wps_get ns n (Q : Res (CR S T) → store → Prop) m :
  store_wf m →
  (∀ a, objs m !! (res_kind (S:=S) (T:=T), ns, n) = Some (to_obj a) →
    cr_Namespace a = ns → cr_Name a = n → Q (Ok a) m) →
  (∀ e, Q (Fail e) m) →
  wp serves (get ns n) Q m.
Proof.
  intros Hwf HOk HFail x m' [-> Hx]. destruct x as [o|e]; simpl in *; [|by apply HFail].
  destruct (wf_key _ Hwf _ _ Hx) as [E _]. destruct (typed_of_key _ _ _ E) as (a & -> & ? & ?).
  rewrite of_to_obj. by apply HOk.
Qed.

Lemma wps_status_current a0 a (Q : Res (CR S T) → store → Prop) m :
  store_wf m → objs m !! cr_key a0 = Some (to_obj a0) → cr_meta a = cr_meta a0 →
  (∀ rv, rev m < rv →
    let a' := cr_on_status rv a0 a in
    store_wf (put (cr_key a0) (to_obj a') m) → Q (Ok a') (put (cr_key a0) (to_obj a') m)) →
  (∀ e, Q (Fail e) m) →
  wp serves (status_update a) Q m.
Proof.
  intros Hwf Hl Hm HOk HFail x m' Hx. pose proof (serves_evolves _ _ _ _ Hwf Hx) as [Hwf' _].
  simpl in *. rewrite obj_key_typed, (cr_key_meta _ _ Hm) in Hx.
  destruct x as [o|e]; [|destruct Hx as [-> _]; by apply HFail].
  destruct Hx as (cur & rv & Hc & _ & Hrv & -> & ->). rewrite Hl in Hc. simplify_eq.
  rewrite on_status_typed in *. rewrite decode_typed. by apply HOk.
Qed.

Lemma wps_update_current a0 a (Q : Res (CR S T) → store → Prop) m :
  store_wf m → objs m !! cr_key a0 = Some (to_obj a0) → cr_key a = cr_key a0 →
  (∀ rv gen, rev m < rv →
    let a' := cr_on_update rv gen a0 a in
    store_wf (put_or_drop (cr_key a0) (to_obj a') m) →
    Q (Ok a') (put_or_drop (cr_key a0) (to_obj a') m)) →
  (∀ e, Q (Fail e) m) →
  wp serves (update a) Q m.
Proof.
  intros Hwf Hl Hk HOk HFail x m' Hx. pose proof (serves_evolves _ _ _ _ Hwf Hx) as [Hwf' _].
  simpl in *. rewrite obj_key_typed, Hk in Hx.
  destruct x as [o|e]; [|destruct Hx as [-> _]; by apply HFail].
  destruct Hx as (cur & rv & gen & Hc & _ & Hrv & -> & ->). rewrite Hl in Hc. simplify_eq.
  rewrite on_update_typed in *. rewrite decode_typed. by apply HOk.
Qed.

(** *** Rules under interference and cached reads *)
Section Interference.
Context (R G : store → store → Prop) `{!RelyGuarantee R G}.

Lemma rg_get ns n (Q : Res (CR S T) → store → Prop) m :
  (∀ m1 a, R m m1 → cr_Namespace a = ns → cr_Name a = n →
    seen m1 (res_kind (S:=S) (T:=T), ns, n) (to_obj a) → Q (Ok a) m1) →
  (∀ m1 e, R m m1 → Q (Fail e) m1) →
  rg R G (get ns n) Q m.
Proof.
  intros HOk HFail m1 x m2 HR [-> Hx].
  split; [by apply guar_refl, (rely_evolves m)|]. destruct x as [o|e]; simpl; [|by apply HFail].
  pose proof Hx as [E _]. destruct (typed_of_key _ _ _ E) as (a & -> & ? & ?).
  rewrite of_to_obj. by apply HOk.
Qed.

Lemma rg_list ns (Q : Res (list (CR S T)) → store → Prop) m :
  (∀ m1 l, R m m1 →
    (∀ a, a ∈ l → cr_Namespace a = ns ∧ seen m1 (cr_key a) (to_obj a)) → Q (Ok l) m1) →
  (∀ m1 e, R m m1 → Q (Fail e) m1) →
  rg R G (list_in ns) Q m.
Proof.
  intros HOk HFail m1 x m2 HR [-> Hx].
  split; [by apply guar_refl, (rely_evolves m)|]. destruct x as [l|e]; simpl; [|by apply HFail].
  apply HOk; [done|]. intros a (o & Ho & Ha)%list_elem_of_omap. apply to_of_obj in Ha as ->.
  destruct (Hx _ Ho) as [Hk Hs]. rewrite obj_key_typed in Hk, Hs. split; [by inversion Hk|done].
Qed.

Lemma rg_create a (Q : Res (CR S T) → store → Prop) m :
  (∀ m1 rv uid t, R m m1 → objs m1 !! cr_key a = None → rev m1 < rv →
    let a' := cr_on_create res_zero rv uid t a in
    let m2 := put (cr_key a) (to_obj a') m1 in
    evolves m1 m2 → G m1 m2 ∧ Q (Ok a') m2) →
  (∀ m1 e, R m m1 → Q (Fail e) m1) →
  rg R G (create a) Q m.
Proof.
  intros HOk HFail m1 x m2 HR Hx. pose proof (rely_evolves _ _ HR) as [Hwf _].
  pose proof (serves_evolves _ (Create (to_obj a)) _ _ Hwf Hx) as He.
  simpl in *. rewrite obj_key_typed in Hx. destruct x as [o|e].
  - destruct Hx as (Hn & rv & uid & t & Hrv & -> & ->).
    rewrite on_create_typed, decode_typed in *. by apply HOk.
  - destruct Hx as [-> _]. split; [by apply guar_refl|by apply HFail].
Qed.

(** A write built from an object that was read commits only against that very
    object. *)
Lemma rg_status_update a0 a (Q : Res (CR S T) → store → Prop) m :
  seen m (cr_key a0) (to_obj a0) → cr_key a = cr_key a0 →
  m_ResourceVersion (cr_meta a) = m_ResourceVersion (cr_meta a0) →
  (∀ m1 rv, R m m1 → objs m1 !! cr_key a0 = Some (to_obj a0) → rev m1 < rv →
    let a' := cr_on_status rv a0 a in
    let m2 := put (cr_key a0) (to_obj a') m1 in
    evolves m1 m2 → G m1 m2 ∧ Q (Ok a') m2) →
  (∀ m1 e, R m m1 → Q (Fail e) m1) →
  rg R G (status_update a) Q m.
Proof.
  intros Hseen Hkey Hv HOk HFail m1 x m2 HR Hx. pose proof (rely_evolves _ _ HR) as He1.
  pose proof (seen_evolves _ _ _ _ He1 Hseen) as Hs1.
  pose proof (serves_evolves _ (StatusUpdate (to_obj a)) _ _ (proj1 He1) Hx) as He.
  simpl in *. rewrite obj_key_typed, Hkey in Hx. destruct x as [o|e].
  - destruct Hx as (cur & rv & Hl & Hrv0 & Hrv & -> & ->).
    rewrite !obj_rv_typed, Hv in Hrv0.
    assert (cur = to_obj a0) as -> by (apply (seen_current _ _ _ _ (proj1 He1) Hs1 Hl); by rewrite obj_rv_typed).
    rewrite on_status_typed in He |- *. rewrite decode_typed. by apply HOk.
  - destruct Hx as (-> & _ & _). split; [by apply guar_refl, He1|by apply HFail].
Qed.

Lemma rg_update a0 a (Q : Res (CR S T) → store → Prop) m :
  seen m (cr_key a0) (to_obj a0) → cr_key a = cr_key a0 →
  m_ResourceVersion (cr_meta a) = m_ResourceVersion (cr_meta a0) →
  (∀ m1 rv gen, R m m1 → objs m1 !! cr_key a0 = Some (to_obj a0) → rev m1 < rv →
    let a' := cr_on_update rv gen a0 a in
    let m2 := put_or_drop (cr_key a0) (to_obj a') m1 in
    evolves m1 m2 → G m1 m2 ∧ Q (Ok a') m2) →
  (∀ m1 e, R m m1 → Q (Fail e) m1) →
  rg R G (update a) Q m.
Proof.
  intros Hseen Hkey Hv HOk HFail m1 x m2 HR Hx. pose proof (rely_evolves _ _ HR) as He1.
  pose proof (seen_evolves _ _ _ _ He1 Hseen) as Hs1.
  pose proof (serves_evolves _ (Update (to_obj a)) _ _ (proj1 He1) Hx) as He.
  simpl in *. rewrite obj_key_typed, Hkey in Hx. destruct x as [o|e].
  - destruct Hx as (cur & rv & gen & Hl & Hrv0 & Hrv & -> & ->).
    rewrite !obj_rv_typed, Hv in Hrv0.
    assert (cur = to_obj a0) as -> by (apply (seen_current _ _ _ _ (proj1 He1) Hs1 Hl); by rewrite obj_rv_typed).
    rewrite on_update_typed in He |- *. rewrite decode_typed. by apply HOk.
  - destruct Hx as (-> & _ & _). split; [by apply guar_refl, He1|by apply HFail].
Qed.

Lemma rg_delete a (Q : Res unit → store → Prop) m :
  (∀ m1 cur rv t, R m m1 → objs m1 !! cr_key a = Some (to_obj cur) → rev m1 < rv →
    let m2 := match m_Finalizers (cr_meta cur) with
              | [] => drop (cr_key a) rv m1
              | _ => put (cr_key a) (to_obj (cr_on_delete rv t cur)) m1
              end in
    evolves m1 m2 → G m1 m2 ∧ Q (Ok tt) m2) →
  (∀ m1 e, R m m1 → Q (Fail e) m1) →
  rg R G (delete_cr a) Q m.
Proof.
  intros HOk HFail m1 x m2 HR Hx. pose proof (rely_evolves _ _ HR) as [Hwf _].
  pose proof (serves_evolves _ (Delete (cr_key a)) _ _ Hwf Hx) as He.
  simpl in *. destruct x as [[]|e].
  - destruct Hx as (cur & rv & t & Hl & Hrv & ->).
    destruct (wf_key _ Hwf _ _ Hl) as [E _]. destruct (typed_of_key _ _ _ E) as (c & -> & Hns & Hn).
    rewrite to_obj_meta, on_delete_typed in *. by apply HOk.
  - destruct Hx as [-> Hx]. split; [by apply guar_refl|by apply HFail].
Qed.
End Interference.
End Typed.

(** [time.Now()] and [uuid.NewString()]. *)
Definition now : prog Time := Call Now Ret.
Definition new_uuid : prog string := Call NewUUID Ret.

Lemma wp_now (Q : Time → store → Prop) m : (∀ t, Q t m) → wp reliable now Q m.
Proof. intros HQ x m' [-> _]. apply HQ. Qed.

Lemma wp_new_uuid (Q : string → store → Prop) m : (∀ t, Q t m) → wp reliable new_uuid Q m.
Proof. intros HQ x m' [-> _]. apply HQ. Qed.

Lemma rg_now R G `{!RelyGuarantee R G} (Q : Time → store → Prop) m :
  (∀ m1 t, R m m1 → Q t m1) → rg R G now Q m.
Proof.
  intros HQ m1 x m2 HR Hx. simpl in Hx. subst m2. simpl. split; [|by apply HQ].
  by apply guar_refl, (rely_evolves m).
Qed.

Lemma rg_new_uuid R G `{!RelyGuarantee R G} (Q : string → store → Prop) m :
  (∀ m1 t, R m m1 → Q t m1) → rg R G new_uuid Q m.
Proof.
  intros HQ m1 x m2 HR Hx. simpl in Hx. subst m2. simpl. split; [|by apply HQ].
  by apply guar_refl, (rely_evolves m).
Qed.
End Kube.

Arguments Ret {_ A} a.
Arguments Call {_ A} r k.

(** Walk through a program, leaving what its writes must spare. *)
Ltac spares_tac :=
  repeat lazymatch goal with
  | |- spares _ (_ ≫= _) => apply spares_bind; [|intros]
  | |- spares _ (match ?x with _ => _ end) => destruct x
  | |- spares _ (get _ _) => split; [exact I|intros; exact I]
  | |- spares _ (list_in _) => split; [exact I|intros; exact I]
  | |- spares _ list_all => split; [exact I|intros; exact I]
  | |- spares _ now => split; [exact I|intros; exact I]
  | |- spares _ new_uuid => split; [exact I|intros; exact I]
  | |- spares _ (mret _) => exact I
  | |- spares _ (create _) => split; [|intros; exact I]
  | |- spares _ (update _) => split; [|intros; exact I]
  | |- spares _ (status_update _) => split; [|intros; exact I]
  | |- spares _ (delete_cr _) => split; [|intros; exact I]
  end.
