(* ===== verification/MemServer.v ===== *)
(** * An API server in memory

    A server that can be executed: it stores the objects, hands out versions
    from a counter and times from a clock that advances by one second per
    reading.  It meets the [reliable] contract, so every theorem about that
    contract speaks about a server that exists, and witnesses run on it. *)
From stdpp Require Import base gmap strings list pretty.
From Stdlib Require Import ZArith Lia.
From S2P Require Import Prelude ApiTypes Kube.

Open Scope Z_scope.

Section MemServer.
Context `{Platform}.

Record mem := mkMem { mem_store : store; mem_clock : Time }.

Definition mem_init (m : store) : mem := mkMem m 0.

Definition not_found : Err := mkErr ENotFound "not found".
Definition already_exists : Err := mkErr EAlreadyExists "already exists".
Definition conflict : Err := mkErr EConflict "the object has been modified".

Definition next (m : store) : Z := rev m + 1.

Definition mem_put (k : Key) (o : Obj) (w : mem) : Res Obj * mem :=
  (Ok o, mkMem (put k o (mem_store w)) (mem_clock w)).

(** The generation grows with every update of the main resource. *)
Definition mem_update (o : Obj) (w : mem) : Res Obj * mem :=
  let m := mem_store w in
  match objs m !! obj_key o with
  | None => (Fail not_found, w)
  | Some cur =>
      if obj_rv cur =? obj_rv o then
        let o' := obj_on_update (next m) (m_Generation (obj_meta cur) + 1) cur o in
        (Ok o', mkMem (put_or_drop (obj_key o) o' m) (mem_clock w))
      else (Fail conflict, w)
  end.

Definition mem_status (o : Obj) (w : mem) : Res Obj * mem :=
  let m := mem_store w in
  match objs m !! obj_key o with
  | None => (Fail not_found, w)
  | Some cur =>
      if obj_rv cur =? obj_rv o then mem_put (obj_key o) (obj_on_status (next m) cur o) w
      else (Fail conflict, w)
  end.

Definition mem_srv (r : req) (w : mem) : resp r * mem :=
  let m := mem_store w in
  match r return resp r * mem with
  | Get k => (match objs m !! k with Some o => Ok o | None => Fail not_found end, w)
  | ListReq kd ns => (Ok (list_of kd ns m), w)
  | ListAll kd => (Ok (list_all_of kd m), w)
  | Create o =>
      match objs m !! obj_key o with
      | Some _ => (Fail already_exists, w)
      | None => mem_put (obj_key o)
                  (obj_on_create (next m) ("uid-" +:+ pretty (next m)) (mem_clock w) o) w
      end
  | Update o => mem_update o w
  | StatusUpdate o => mem_status o w
  | Delete k =>
      match objs m !! k with
      | None => (Fail not_found, w)
      | Some cur =>
          (Ok tt, mkMem (match m_Finalizers (obj_meta cur) with
                         | [] => drop k (next m) m
                         | _ => put k (obj_on_delete (next m) (mem_clock w) cur) m
                         end) (mem_clock w))
      end
  | Annotate k key value =>
      match objs m !! k with
      | None => (Fail not_found, w)
      | Some cur =>
          mem_put k (obj_set_meta (meta_on_annotate (next m) key value (obj_meta cur)) cur) w
      end
  | Now => (mem_clock w, mkMem m (mem_clock w + Second))
  | NewUUID => ("uuid-" +:+ pretty (mem_clock w), mkMem m (mem_clock w + Second))
  end.

#[global] Instance mem_server : ApiServer mem := {| srv := mem_srv; view := mem_store |}.

Lemma next_gt m : rev m < next m.
Proof. unfold next. lia. Qed.

#[local] Hint Resolve next_gt : core.

#[global] Instance mem_reliable : ServerMeets mem reliable.
Proof.
  split. intros r [m t]. unfold reliable.
  destruct r as [k|kd ns|kd|o|o|o|k|k key value| |]; simpl; unfold mem_update, mem_status; simpl; try done.
  - split; [split; [done|]; by destruct (objs m !! k)|]. by destruct (objs m !! k); intros; simplify_eq.
  - destruct (objs m !! obj_key o) eqn:E; simpl.
    + split; [done|]. intros. by simplify_eq.
    + split; [|by intros]. split; [done|]. by eexists _, _, _.
  - destruct (objs m !! obj_key o) as [cur|] eqn:E; simpl;
      [destruct (Z.eqb_spec (obj_rv cur) (obj_rv o)); simpl|].
    + split; [|by intros]. by eexists cur, _, _.
    + split; [split_and!; [done..|by exists cur]|]. intros. simplify_eq. by right.
    + split; [done|]. intros. simplify_eq. by left.
  - destruct (objs m !! obj_key o) as [cur|] eqn:E; simpl;
      [destruct (Z.eqb_spec (obj_rv cur) (obj_rv o)); simpl|].
    + split; [|by intros]. by eexists cur, _.
    + split; [split_and!; [done..|by exists cur]|]. intros. simplify_eq. by right.
    + split; [done|]. intros. simplify_eq. by left.
  - destruct (objs m !! k) as [cur|] eqn:E; simpl.
    + split; [|by intros]. by eexists cur, _, _.
    + split; [done|]. intros. by simplify_eq.
  - destruct (objs m !! k) as [cur|] eqn:E; simpl.
    + split; [|by intros]. by eexists cur, _.
    + split; [done|]. intros. by simplify_eq.
Qed.

(** What a theorem about [reliable] says of a run on this server. *)
Lemma mem_run {A} (p : prog A) (Q : A → store → Prop) m t :
  wp reliable p Q m → Q (run p (mkMem m t)).1 (mem_store (run p (mkMem m t)).2).
Proof. intros Hwp. exact (wp_adequate (W:=mem) reliable p Q (mkMem m t) Hwp). Qed.

(** A store holding the given objects under their own keys, at revision
    [r]. *)
Definition store_of (l : list Obj) (r : Z) : store :=
  mkStore (list_to_map ((λ o, (obj_key o, o)) <$> l)) r l.

Lemma store_of_wf l r :
  Forall (λ o, obj_rv o ≤ r) l → NoDup (obj_key <$> l) → store_wf (store_of l r).
Proof.
  intros Hl Hnd. rewrite Forall_forall in Hl. split; unfold store_of; simpl.
  - intros k o Hk. apply elem_of_list_to_map_2, list_elem_of_fmap in Hk as (o' & E & Ho).
    by simplify_eq.
  - done.
  - intros o o' Ho Ho' E _. apply list_elem_of_lookup in Ho as [i Hi], Ho' as [j Hj].
    assert (i = j) as ->; [|congruence].
    eapply (NoDup_lookup _ _ _ _ Hnd); rewrite list_lookup_fmap; [by rewrite Hi|].
    rewrite Hj. simpl. by rewrite E.
Qed.
End MemServer.
