(* ===== verification/Effects.v ===== *)
(** * Programs that also call other services

    The agents and the consumer-side controllers do more than talk to their own
    Kubernetes API server: they call the Broker over HTTP, the consumer agent's
    local API, [liqoctl], a latency prober or a language model.  [eff] extends
    [Kube.prog] with such calls.  A component declares its calls as an
    inductive type [E] and gives each an answer type [R]; the callee is code
    that is not part of the component, so proofs quantify over a contract
    [X : V → ∀ e, R e → V → Prop] on a state [V] of the outside world (for
    instance the trace of the calls made), exactly as [Kube.contract] does for
    the API server.

    [ewp C X p Q m v] is the weakest precondition of [p] from store [m] and
    outside state [v]; [erun_adequate] transfers it to every implementation of
    the two interfaces.  [link] replaces the outside calls by the programs of
    the component that serves them. *)
From stdpp Require Import base gmap strings list.
From Stdlib Require Import ZArith Lia.
From S2P Require Import Prelude ApiTypes Kube.

Section Effects.
Context `{Platform}.
Context {E : Type} {R : E → Type}.

Inductive eff (A : Type) : Type :=
| EPure (a : A)
| EApi (r : req) (k : resp r → eff A)
| EAsk (e : E) (k : R e → eff A).
Arguments EPure {A} a.
Arguments EApi {A} r k.
Arguments EAsk {A} e k.

Fixpoint eff_bind {A B} (f : A → eff B) (p : eff A) : eff B :=
  match p with
  | EPure a => f a
  | EApi r k => EApi r (λ x, eff_bind f (k x))
  | EAsk e k => EAsk e (λ x, eff_bind f (k x))
  end.

#[global] Instance eff_ret : MRet eff := @EPure.
#[global] Instance eff_mbind : MBind eff := @eff_bind.

(** A program over the API server alone. *)
Fixpoint api {A} (p : prog A) : eff A :=
  match p with
  | Ret a => EPure a
  | Call r k => EApi r (λ x, api (k x))
  end.

Definition ask (e : E) : eff (R e) := EAsk e EPure.

(** ** Weakest preconditions *)
Section Wp.
Context {V : Type} (C : contract) (X : V → ∀ e : E, R e → V → Prop).

Fixpoint ewp {A} (p : eff A) (Q : A → store → V → Prop) (m : store) (v : V) : Prop :=
  match p with
  | EPure a => Q a m v
  | EApi r k => ∀ x m', C m r x m' → ewp (k x) Q m' v
  | EAsk e k => ∀ x v', X v e x v' → ewp (k x) Q m v'
  end.

Lemma ewp_ret {A} (a : A) (Q : A → store → V → Prop) m v : Q a m v → ewp (mret a) Q m v.
Proof. done. Qed.

Lemma ewp_mono {A} (p : eff A) (Q Q' : A → store → V → Prop) m v :
  (∀ a m' v', Q a m' v' → Q' a m' v') → ewp p Q m v → ewp p Q' m v.
Proof.
  intros HQ. revert m v. induction p as [a|r k IH|e k IH]; intros m v; simpl; [auto|..].
  - intros Hp x m' HC. by apply IH, Hp.
  - intros Hp x v' HX. by apply IH, Hp.
Qed.

Lemma ewp_bind {A B} (p : eff A) (f : A → eff B) Q m v :
  ewp p (λ a m' v', ewp (f a) Q m' v') m v → ewp (p ≫= f) Q m v.
Proof.
  revert m v. induction p as [a|r k IH|e k IH]; intros m v; simpl; [done|..].
  - intros Hp x m' HC. by apply IH, Hp.
  - intros Hp x v' HX. by apply IH, Hp.
Qed.

Lemma ewp_and {A} (p : eff A) (Q Q' : A → store → V → Prop) m v :
  ewp p Q m v → ewp p Q' m v → ewp p (λ a m' v', Q a m' v' ∧ Q' a m' v') m v.
Proof.
  revert m v. induction p as [a|r k IH|e k IH]; intros m v; simpl; [done|..];
    intros H1 H2 x y HC; apply IH; auto.
Qed.

(** The outside state does not move while the API server works. *)
Lemma ewp_api {A} (p : prog A) (Q : A → store → V → Prop) m v :
  wp C p (λ a m', Q a m' v) m → ewp (api p) Q m v.
Proof.
  revert m. induction p as [a|r k IH]; intros m; simpl; [done|].
  intros Hp x m' HC. by apply IH, Hp.
Qed.

Lemma ewp_api_any {A} (p : prog A) (Q : A → store → V → Prop) m v :
  (∀ a m', Q a m' v) → ewp (api p) Q m v.
Proof. intros HQ. by apply ewp_api, wp_always. Qed.

Lemma ewp_ask e (Q : R e → store → V → Prop) m v :
  (∀ x v', X v e x v' → Q x m v') → ewp (ask e) Q m v.
Proof. done. Qed.
End Wp.

(** ** Runs *)
Class Outside (V : Type) := { outside : ∀ e : E, V → R e * V }.

Class OutsideMeets (V : Type) `{!Outside V} (X : V → ∀ e : E, R e → V → Prop) : Prop := {
  outside_meets : ∀ e v, X v e (outside e v).1 (outside e v).2
}.

Fixpoint erun {W V} `{!ApiServer W} `{!Outside V} {A} (p : eff A) (w : W) (v : V) : A * W * V :=
  match p with
  | EPure a => (a, w, v)
  | EApi r k => let '(x, w') := srv r w in erun (k x) w' v
  | EAsk e k => let '(x, v') := outside e v in erun (k x) w v'
  end.

Lemma erun_adequate {W V} `{!ApiServer W} `{!Outside V} C X
    `{!ServerMeets W C} `{!OutsideMeets V X} {A} (p : eff A) Q w v :
  ewp C X p Q (view w) v →
  let '(a, w', v') := erun p w v in Q a (view w') v'.
Proof.
  revert w v. induction p as [a|r k IH|e k IH]; intros w v Hp; simpl; [done|..].
  - destruct (srv r w) as [x w'] eqn:Er. apply IH, Hp.
    pose proof (server_meets r w) as Hm. by rewrite Er in Hm.
  - destruct (outside e v) as [x v'] eqn:Eo. apply IH, Hp.
    pose proof (outside_meets e v) as Hm. by rewrite Eo in Hm.
Qed.

(** The runs of a program, as a relation; a weakest precondition speaks about
    every one of them. *)
Fixpoint eruns {V} (C : contract) (X : V → ∀ e : E, R e → V → Prop) {A} (p : eff A)
    (m : store) (v : V) (a : A) (m' : store) (v' : V) : Prop :=
  match p with
  | EPure b => a = b ∧ m' = m ∧ v' = v
  | EApi r k => ∃ x m1, C m r x m1 ∧ eruns C X (k x) m1 v a m' v'
  | EAsk e k => ∃ x v1, X v e x v1 ∧ eruns C X (k x) m v1 a m' v'
  end.

Lemma ewp_eruns {V} C (X : V → ∀ e : E, R e → V → Prop) {A} (p : eff A) Q m v a m' v' :
  ewp C X p Q m v → eruns C X p m v a m' v' → Q a m' v'.
Proof.
  revert m v. induction p as [b|r k IH|e k IH]; intros m v Hp; simpl.
  - by intros (-> & -> & ->).
  - intros (x & m1 & HC & Hr). by apply (IH x m1 v); [apply Hp|].
  - intros (x & v1 & HX & Hr). by apply (IH x m v1); [apply Hp|].
Qed.

(** Every result a program can produce, whatever it is answered. *)
Fixpoint leaves {A} (P : A → Prop) (p : eff A) : Prop :=
  match p with
  | EPure a => P a
  | EApi r k => ∀ x, leaves P (k x)
  | EAsk e k => ∀ x, leaves P (k x)
  end.

Lemma leaves_bind {A B} (P : A → Prop) (Q : B → Prop) (p : eff A) (f : A → eff B) :
  leaves P p → (∀ a, P a → leaves Q (f a)) → leaves Q (p ≫= f).
Proof.
  intros Hp Hf. induction p as [a|r k IH|e k IH]; simpl in *; [by apply Hf|..];
    intros x; by apply IH.
Qed.

Lemma leaves_ret {A} (P : A → Prop) a : P a → leaves P (mret a).
Proof. done. Qed.

Lemma leaves_and {A} (P Q : A → Prop) p : leaves P p → leaves Q p → leaves (λ a, P a ∧ Q a) p.
Proof. induction p as [a|r k IH|e k IH]; simpl; intros; auto. Qed.

Lemma leaves_any {A} (p : eff A) : leaves (λ _, True) p.
Proof. by induction p. Qed.

Lemma leaves_api {A} (P : A → Prop) (p : prog A) : pleaves P p → leaves P (api p).
Proof. induction p as [a|r k IH]; simpl; auto. Qed.

(** Programs whose API requests leave some keys alone. *)
Fixpoint espares {A} (P : Key → Prop) (p : eff A) : Prop :=
  match p with
  | EPure _ => True
  | EApi r k => req_spares P r ∧ ∀ x, espares P (k x)
  | EAsk e k => ∀ x, espares P (k x)
  end.

Lemma espares_bind {A B} P (p : eff A) (f : A → eff B) :
  espares P p → (∀ a, espares P (f a)) → espares P (p ≫= f).
Proof.
  intros Hp Hf. induction p as [a|r k IH|e k IH]; simpl in *; [apply Hf| |].
  - destruct Hp as [Hr Hk]. split; [done|]. intros x. by apply IH.
  - intros x. by apply IH.
Qed.

Lemma espares_api {A} P (p : prog A) : spares P p → espares P (api p).
Proof.
  induction p as [a|r k IH]; simpl; [done|]. intros [Hr Hk]. split; [done|]. intros x. by apply IH.
Qed.

Lemma ewp_espares {V} (X : V → ∀ e : E, R e → V → Prop) {A} P (p : eff A) m v :
  store_wf m → espares P p → ewp serves X p (λ _ m' _, same_on P m m') m v.
Proof.
  revert m v. induction p as [a|r k IH|e k IH]; intros m v Hwf Hp; simpl; [by apply same_on_refl| |].
  - destruct Hp as [Hr Hk]. intros x m' Hs.
    pose proof (spares_step _ _ _ _ _ Hwf Hr Hs) as Hb.
    eapply ewp_mono; [|apply IH; [apply Hb|apply Hk]]. intros a m2 v2. by apply same_on_trans.
  - intros x v' _. by apply IH.
Qed.

(** ** Linking: the outside calls answered by programs *)
Section Link.
Context (serve : ∀ e : E, prog (R e)).

Fixpoint link {A} (p : eff A) : prog A :=
  match p with
  | EPure a => Ret a
  | EApi r k => Call r (λ x, link (k x))
  | EAsk e k => prog_bind (λ x, link (k x)) (serve e)
  end.
End Link.
End Effects.

Arguments EPure {_ E R A} a.
Arguments EApi {_ E R A} r k.
Arguments EAsk {_ E R A} e k.
Arguments eff {_} E R A.

(** One component's calls expressed with another's. *)
Fixpoint hoist `{Platform} {E1 E2} {R1 : E1 → Type} {R2 : E2 → Type}
    (f : ∀ e, eff E2 R2 (R1 e)) {A} (p : eff E1 R1 A) : eff E2 R2 A :=
  match p with
  | EPure a => EPure a
  | EApi r k => EApi r (λ x, hoist f (k x))
  | EAsk e k => eff_bind (λ x, hoist f (k x)) (f e)
  end.

(** The trace of the calls a program makes, with their answers; [traced P]
    answers a call [e] after trace [t] by any [x] allowed by [P t e x]. *)
Definition event {E} (R : E → Type) : Type := {e : E & R e}.

Definition traced {E} {R : E → Type} (P : list (event R) → ∀ e, R e → Prop) :
    list (event R) → ∀ e : E, R e → list (event R) → Prop :=
  λ t e x t', P t e x ∧ t' = t ++ [existT e x].

(** ** Programs in the background

    A program that only reads the API server and asks only questions of [B]
    changes nothing and adds only such questions to the trace. *)
Section Background.
Context `{Platform} {E : Type} {R : E → Type} (B : E → Prop).

Fixpoint background {A} (p : eff E R A) : Prop :=
  match p with
  | EPure _ => True
  | EApi r k => req_spares (λ _, True) r ∧ ∀ x, background (k x)
  | EAsk e k => B e ∧ ∀ x, background (k x)
  end.

Lemma background_bind {A A'} (p : eff E R A) (f : A → eff E R A') :
  background p → (∀ a, background (f a)) → background (p ≫= f).
Proof.
  intros Hp Hf. induction p as [a|r k IH|e k IH]; simpl in *; [apply Hf|..];
    destruct Hp as [Hr Hk]; (split; [done|]); intros x; by apply IH.
Qed.

Lemma background_api {A} (p : prog A) : spares (λ _, True) p → background (api p).
Proof.
  induction p as [a|r k IH]; simpl; [done|]. intros [Hr Hk]. split; [done|]. intros x. by apply IH.
Qed.

Lemma ewp_background {A} (P : A → Prop) (p : eff E R A) m t :
  store_wf m → background p → leaves P p →
  ewp serves (traced (λ _ _ _, True)) p
    (λ a m' t', P a ∧ same_on (λ _, True) m m' ∧
       ∃ l, t' = t ++ l ∧ Forall (λ ev : event R, B (projT1 ev)) l) m t.
Proof.
  revert m t. induction p as [a|r k IH|e k IH]; intros m t Hwf Hp HP; simpl in *.
  - split_and!; [done|by apply same_on_refl|]. exists []. by rewrite app_nil_r.
  - destruct Hp as [Hr Hk]. intros x m' Hs.
    pose proof (spares_step _ _ _ _ _ Hwf Hr Hs) as Hb.
    eapply ewp_mono; [|apply IH; [apply Hb|apply Hk|apply HP]].
    intros a m2 t2 (HPa & Hm & Hl). split_and!; [done|by eapply same_on_trans|done].
  - destruct Hp as [He Hk]. intros x t' [_ ->].
    eapply ewp_mono; [|by apply IH; [|apply Hk|apply HP]].
    intros a m2 t2 (HPa & Hm & l & -> & Hl). split_and!; [done..|].
    exists (existT e x :: l). rewrite <-app_assoc. split; [done|]. by constructor.
Qed.
End Background.
