(* ===== verification/Chunk.v ===== *)
(** * Chunk sizing (internal/broker/chunk/chunk.go)

    The policy that divides an advertisement into fixed-size chunks, and the
    proof that the count it returns is exactly the largest number of chunks
    that fit, at Go's integer widths. *)
From stdpp Require Import base gmap strings list.
From Stdlib Require Import ZArith Lia.
From S2P Require Import Prelude ApiTypes.

Open Scope Z_scope.

Section Chunk.
Context `{Platform}.

(** [chunk.Result]. *)
Record Result := mkResult {
  cr_Type : ChunkType;
  cr_Count : Z;                 (* int32 *)
  cr_PerChunk : ResourceList
}.

(** The [chunk.Sizer] interface. *)
Definition Sizer : Type := ResourceList → list Result.

Definition min64 (a b : Z) : Z := if a <? b then a else b.

Definition stdCPUMilli : Z := 2 * 1000.
Definition stdMemBytes : Z := 4 * 1024 * 1024 * 1024.
Definition gpuCPUMilli : Z := 4 * 1000.
Definition gpuMemBytes : Z := 8 * 1024 * 1024 * 1024.

(** Go's [/] on integers truncates towards zero ([Z.quot]). *)
Definition sizeStandard (advertised : ResourceList) : Result :=
  let cpuQty := rl_get advertised ResourceCPU in
  let memQty := rl_get advertised ResourceMemory in
  let cpuChunks := Z.quot (q_MilliValue cpuQty) stdCPUMilli in
  let memChunks := Z.quot (q_Value memQty) stdMemBytes in
  let count := GoInt.to_int32 (min64 cpuChunks memChunks) in
  let count := if count <? 0 then 0 else count in
  mkResult ChunkTypeStandard count
    (<[ResourceCPU := NewQuantity 2]> (<[ResourceMemory := NewQuantity stdMemBytes]> ∅)).

Definition sizeGPU (advertised : ResourceList) (gpuCount : Z) : Result :=
  let cpuQty := rl_get advertised ResourceCPU in
  let memQty := rl_get advertised ResourceMemory in
  let cpuChunks := Z.quot (q_MilliValue cpuQty) gpuCPUMilli in
  let memChunks := Z.quot (q_Value memQty) gpuMemBytes in
  let count := GoInt.to_int32 (min64 (min64 cpuChunks memChunks) gpuCount) in
  let count := if count <? 0 then 0 else count in
  mkResult ChunkTypeGPU count
    (<[ResourceCPU := NewQuantity 4]> (<[ResourceMemory := NewQuantity gpuMemBytes]>
       (<[gpuResourceName := NewQuantity 1]> ∅))).

(** [DefaultSizer.Size]. *)
Definition Size : Sizer := λ advertised,
  let hasGPU := bool_decide (is_Some (advertised !! gpuResourceName)) in
  let gpuCount := q_Value (rl_get advertised gpuResourceName) in
  if hasGPU && (0 <? gpuCount) then [sizeGPU advertised gpuCount]
  else [sizeStandard advertised].

(** ** Specification

    [k] chunks of shape [shape] fit in [advertised]: cpu is compared in
    millicores and every other resource in whole units. *)
Definition units (name : string) (q : Quantity) : Z :=
  if decide (name = ResourceCPU) then q_MilliValue q else q_Value q.

Definition chunks_fit (advertised shape : ResourceList) (k : Z) : Prop :=
  ∀ name q, shape !! name = Some q → k * units name q ≤ units name (rl_get advertised name).

Lemma min64_min a b : min64 a b = Z.min a b.
Proof. unfold min64. destruct (Z.ltb_spec a b); lia. Qed.

Lemma quot_fits k a c : 0 < k → 0 < c → (k ≤ Z.quot a c ↔ k * c ≤ a).
Proof.
  intros Hk Hc. destruct (Z.le_gt_cases 0 a) as [Ha|Ha].
  - rewrite Z.quot_div_nonneg by lia. split; intros Hle.
    + pose proof (Z.mul_div_le a c Hc). nia.
    + apply Z.div_le_lower_bound; lia.
  - pose proof (Z.quot_opp_l a c ltac:(lia)) as Ho.
    pose proof (Z.quot_pos (-a) c ltac:(lia) Hc). nia.
Qed.

Lemma quot_int32_range a c :
  0 < c → - (2 ^ 31 * c) ≤ a < 2 ^ 31 * c → GoInt.is_int32 (Z.quot a c).
Proof.
  unfold GoInt.is_int32, GoInt.int32_min, GoInt.int32_max. intros Hc Ha.
  pose proof (Z.quot_rem' a c). pose proof (Z.rem_bound_abs a c ltac:(lia)).
  pose proof (Z.rem_sign_mul a c ltac:(lia)).
  split; nia.
Qed.

(** The count after truncation and clamping, [m] being the exact quotient. *)
Lemma count_spec m k :
  GoInt.is_int32 m → 0 < k →
  let c := GoInt.to_int32 m in k ≤ (if c <? 0 then 0 else c) ↔ k ≤ m.
Proof. intros Hm Hk. cbv zeta. rewrite GoInt.to_int32_id by done. case_match; fed_bools; lia. Qed.

Lemma count_range m :
  let c := GoInt.to_int32 m in
  0 ≤ (if c <? 0 then 0 else c) ∧ GoInt.is_int32 (if c <? 0 then 0 else c).
Proof.
  cbv zeta. pose proof (GoInt.to_int32_range m) as Hr.
  unfold GoInt.is_int32, GoInt.int32_min, GoInt.int32_max in *.
  case_match; fed_bools; lia.
Qed.

(** A memory quotient is within int32 whatever was advertised, so a
    non-negative cpu (or GPU) quotient cannot push the minimum out of it. *)
Lemma min_int32 a b : 0 ≤ a → GoInt.is_int32 b → GoInt.is_int32 (Z.min a b).
Proof. unfold GoInt.is_int32, GoInt.int32_min, GoInt.int32_max. lia. Qed.

Context `{!PlatformLaws}.

Lemma mem_quot_int32 q c : stdMemBytes ≤ c → GoInt.is_int32 (Z.quot (q_Value q) c).
Proof.
  unfold stdMemBytes. intros Hc. pose proof (q_Value_int64 q) as Hq.
  unfold GoInt.is_int64, GoInt.int64_min, GoInt.int64_max in Hq.
  apply quot_int32_range; lia.
Qed.

Lemma shape_fits adv (cpu mem : Z) (rest : ResourceList) k :
  rest !! ResourceCPU = None → rest !! ResourceMemory = None →
  GoInt.is_int64 (1000 * cpu) → GoInt.is_int64 mem →
  chunks_fit adv (<[ResourceCPU := NewQuantity cpu]> (<[ResourceMemory := NewQuantity mem]> rest)) k ↔
  k * (1000 * cpu) ≤ q_MilliValue (rl_get adv ResourceCPU) ∧
  k * mem ≤ q_Value (rl_get adv ResourceMemory) ∧ chunks_fit adv rest k.
Proof.
  intros Hr1 Hr2 Hc Hm. unfold chunks_fit.
  assert (ResourceCPU ≠ ResourceMemory) as Hne by done.
  pose proof (q_MilliValue_New cpu Hc) as E1. pose proof (q_Value_New mem Hm) as E2.
  split; [intros Hf; split_and! |intros (H1 & H2 & H3) name q].
  - rewrite <-E1. exact (Hf ResourceCPU _ (lookup_insert_eq _ _ _)).
  - rewrite <-E2 at 1. specialize (Hf ResourceMemory (NewQuantity mem)).
    rewrite lookup_insert_ne, lookup_insert_eq in Hf by done. exact (Hf eq_refl).
  - intros name q Hq. apply Hf. rewrite !lookup_insert_ne; congruence.
  - rewrite !lookup_insert_Some. intros [[<- <-]|[_ [[<- <-]|[_ ?]]]]; [..|by auto];
      unfold units; [rewrite decide_True, E1|rewrite !decide_False, E2]; done.
Qed.

Lemma sizeStandard_exact adv k :
  0 ≤ q_MilliValue (rl_get adv ResourceCPU) → 0 < k →
  chunks_fit adv (cr_PerChunk (sizeStandard adv)) k ↔ k ≤ cr_Count (sizeStandard adv).
Proof.
  intros Hcpu Hk. unfold sizeStandard; simpl.
  rewrite shape_fits by (try split; done).
  rewrite !min64_min, count_spec; [|apply min_int32|done].
  - rewrite Z.min_glb_iff, !quot_fits by (unfold stdCPUMilli, stdMemBytes; lia).
    unfold chunks_fit, stdCPUMilli. split; [tauto|]. intros []. split_and!; [done..|].
    intros ??. by rewrite lookup_empty.
  - apply Z.quot_pos; unfold stdCPUMilli; lia.
  - by apply mem_quot_int32.
Qed.

Lemma sizeGPU_exact adv k :
  0 ≤ q_MilliValue (rl_get adv ResourceCPU) → 0 ≤ q_Value (rl_get adv gpuResourceName) → 0 < k →
  let r := sizeGPU adv (q_Value (rl_get adv gpuResourceName)) in
  chunks_fit adv (cr_PerChunk r) k ↔ k ≤ cr_Count r.
Proof.
  intros Hcpu Hg Hk. unfold sizeGPU; simpl.
  rewrite shape_fits by (try split; done).
  rewrite !min64_min, count_spec; [|rewrite Z.min_comm; apply min_int32; [done|apply min_int32]|done].
  - rewrite !Z.min_glb_iff, !quot_fits by (unfold gpuCPUMilli, gpuMemBytes; lia).
    assert (chunks_fit adv (<[gpuResourceName := NewQuantity 1]> ∅) k ↔
            k ≤ q_Value (rl_get adv gpuResourceName)) as ->; [|unfold gpuCPUMilli; tauto].
    unfold chunks_fit. split.
    + intros Hf. specialize (Hf gpuResourceName _ (lookup_insert_eq _ _ _)).
      unfold units in Hf. rewrite decide_False, decide_False, q_Value_New in Hf by (try split; done). lia.
    + intros Hle name q. rewrite lookup_insert_Some, lookup_empty. intros [[<- <-]|[]]; [|done].
      unfold units. rewrite !decide_False, q_Value_New by (try split; done). lia.
  - apply Z.quot_pos; unfold gpuCPUMilli; lia.
  - by apply mem_quot_int32.
Qed.

End Chunk.

(** ** On a concrete platform *)
Module ChunkWitness.
#[local] Existing Instance MilliPlatform.platform.
#[local] Existing Instance MilliPlatform.platform_laws.

(** 9 cores and 17 GiB: four standard chunks. *)
Definition adv9 : ResourceList :=
  <[ResourceCPU := 9000]> (<[ResourceMemory := 17 * 1024 * 1024 * 1024 * 1000]> ∅).


Example Size_adv9 : cr_Count <$> Size adv9 = [4].
Proof. vm_compute. reflexivity. Qed.

(** [-(2^32 - 5) * 2] cores, which the API accepts. *)
Definition adv_negative : ResourceList :=
  <[ResourceCPU := - ((2 ^ 32 - 5) * 2000)]>
    (<[ResourceMemory := 1024 * 1024 * 1024 * 1024 * 1000]> ∅).

(** A negative cpu quantity can produce a positive chunk count: the
    quotient is truncated to int32 before the test that clamps negative counts
    to zero, so -4294967291 chunks become 5. *)
Theorem Size_negative_cpu_wraps :
  ∃ r, Size adv_negative = [r] ∧ cr_Count r = 5 ∧ ¬ chunks_fit adv_negative (cr_PerChunk r) 1.
Proof.
  eexists. split; [reflexivity|]. split; [vm_compute; reflexivity|].
  intros Hf. specialize (Hf ResourceCPU _ (lookup_insert_eq _ _ _)).
  vm_compute in Hf. by apply Hf.
Qed.
End ChunkWitness.
