(* ===== verification/Wire.v ===== *)
(** * The Broker's REST surface (internal/broker/api/types.go, server.go)

    Request and response bodies, error codes and the server's configuration.
    A handler returns a [Response]: the status and body it passes to
    [writeJSON] or [writeError].  The request body arrives as the outcome of
    [decodeJSONBody]. *)
From stdpp Require Import base gmap strings list.
From Stdlib Require Import ZArith.
From S2P Require Import Prelude ApiTypes ConsumerTypes Chunk.
Import GoFloat.

Open Scope Z_scope.

Inductive ErrorCode :=
| ErrCodeInvalidRequest | ErrCodeUnauthenticated | ErrCodeForbidden | ErrCodeNotFound
| ErrCodeConflict | ErrCodeReservationExpired | ErrCodeInsufficientCapacity
| ErrCodeTooManyRequests | ErrCodeInternalError | ErrCodeUpstreamError
| ErrCodeServiceUnavailable | ErrCodeTimeout.

#[global] Instance ErrorCode_eq_dec : EqDecision ErrorCode.
Proof. solve_decision. Defined.

(** [ErrorResponse]; the details the handlers attach are integers. *)
Record ErrorResponse := mkError {
  er_Code : ErrorCode;
  er_Message : string;
  er_Details : list (string * Z);
  er_RequestID : string
}.

Inductive Response (B : Type) :=
| JSON (status : Z) (body : B)
| Error (status : Z) (body : ErrorResponse).
Arguments JSON {B} _ _.
Arguments Error {B} _ _.

Definition StatusOK : Z := 200.
Definition StatusCreated : Z := 201.
Definition StatusAccepted : Z := 202.
Definition StatusBadRequest : Z := 400.
Definition StatusForbidden : Z := 403.
Definition StatusNotFound : Z := 404.
Definition StatusConflict : Z := 409.
Definition StatusPreconditionFailed : Z := 412.
Definition StatusInternalServerError : Z := 500.
Definition StatusNotImplemented : Z := 501.
Definition StatusServiceUnavailable : Z := 503.

(** [writeError(w, status, ErrorResponse{Code, Message, RequestID})]. *)
Definition fail_with {B} (status : Z) (code : ErrorCode) (msg requestID : string) : Response B :=
  Error status (mkError code msg [] requestID).

Definition resp_status {B} (r : Response B) : Z :=
  match r with JSON s _ => s | Error s _ => s end.

Section Wire.
Context `{Platform}.

Record AdvertisementRequest := mkAdvReq {
  ar_ClusterID : string;
  ar_LiqoClusterID : string;
  ar_Resources : ResourceList;
  ar_Topology : option Topology;
  ar_UnitPrices : ResourceList;
  ar_CarbonIntensity : option float64;
  ar_CarbonForecast : list float64;
  ar_CapacityScalePercent : gmap string Z;
  ar_CapacityFixed : ResourceList;
  ar_Renewable : bool;
  ar_ProbeEndpoint : string;
  ar_LiqoLabels : gmap string string;
  ar_LiqoTaints : list Taint
}.

Record AdvertisementSnapshot := mkSnapshot {
  as_ClusterID : string;
  as_LiqoClusterID : string;
  as_Resources : ResourceList;
  as_Topology : option Topology;
  as_UnitPrices : ResourceList;
  as_CostPerChunk : option float64;
  as_CarbonIntensity : option float64;
  as_CarbonForecast : list float64;
  as_CarbonWeighted : option float64;
  as_CapacityScalePercent : gmap string Z;
  as_CapacityFixed : ResourceList;
  as_Renewable : bool;
  as_ProbeEndpoint : string;
  as_LiqoLabels : gmap string string;
  as_LiqoTaints : list Taint;
  as_ChunkCount : Z;
  as_ReservedChunks : Z;
  as_AvailableChunks : Z;
  as_LastSeen : option Time;
  as_Available : bool
}.

Record HeartbeatRequest := mkHeartbeat {
  hb_ClusterID : string;
  hb_LiqoClusterID : string;
  hb_Placement : option PlacementPolicy;
  hb_Region : string;
  hb_City : string;
  hb_Latitude : option float64;
  hb_Longitude : option float64;
  hb_MeasuredLatencies : gmap string float64;
  hb_ChosenProvider : string;
  hb_DecidedBy : string
}.

Record NodeGroupView := mkView {
  ng_ID : string;
  ng_ProviderClusterID : string;
  ng_ProviderLiqoClusterID : string;
  ng_Type : ChunkType;
  ng_MinSize : Z;                 (* int32 *)
  ng_MaxSize : Z;                 (* int32 *)
  ng_CurrentReserved : Z;         (* int32 *)
  ng_ChunkResources : ResourceList;
  ng_Cost : option Quantity;
  ng_Topology : option Topology;
  ng_ProbeEndpoint : string;
  ng_PlacementMetric : float64;
  ng_HasMetric : bool;
  ng_Labels : gmap string string;
  ng_Taints : list Taint;
  ng_CarbonIntensity : option float64;
  ng_UnitPrices : ResourceList
}.

Record NodeGroupListResponse := mkNodeGroupList {
  nl_NodeGroups : list NodeGroupView;
  nl_LatencyShortlist : bool;
  nl_AppliedPlacement : PlacementStrategy;
  nl_Generation : Z;
  nl_ServedAt : Time;
  nl_CacheAgeSeconds : Z
}.

Record ReservationRequest := mkResvReq {
  rq_ProviderClusterID : string;
  rq_NodeGroupID : string;
  rq_ChunkCount : Z;              (* int32 *)
  rq_ChunkType : ChunkType;
  rq_Namespaces : list string
}.

Record ReservationResponse := mkResvResp {
  rr_ReservationID : string;
  rr_Status : ReservationPhase;
  rr_ProviderClusterID : string;
  rr_ProviderLiqoClusterID : string;
  rr_ConsumerClusterID : string;
  rr_ConsumerLiqoClusterID : string;
  rr_ChunkCount : Z;
  rr_ChunkType : ChunkType;
  rr_Resources : ResourceList;
  rr_VirtualNodeNames : list string;
  rr_CreatedAt : Time;
  rr_ActivatedAt : option Time;
  rr_ExpiresAt : option Time;
  rr_Message : string
}.

Record ReleaseResponse := mkReleaseResp {
  rl_ReservationID : string;
  rl_Status : ReservationPhase;
  rl_RemainingChunkCount : Z
}.

(** [InstructionView]: the union of both instruction flavours. *)
Record InstructionView := mkInstrView {
  iv_ID : string;
  iv_Kind : string;
  iv_ReservationID : string;
  iv_ChunkCount : Z;
  iv_LastChunk : bool;
  iv_ConsumerClusterID : string;
  iv_ConsumerLiqoClusterID : string;
  iv_ProviderClusterID : string;
  iv_ProviderLiqoClusterID : string;
  iv_Kubeconfig : string;
  iv_ResourceSliceResources : ResourceList;
  iv_ResourceSliceNames : list string;
  iv_Namespaces : list string;
  iv_IssuedAt : Time;
  iv_ExpiresAt : option Time
}.

Record AdvertisementResponse := mkAdvResp {
  ap_Accepted : bool;
  ap_ChunkCount : Z;
  ap_ChunkResources : ResourceList;
  ap_NextReportIn : string;
  ap_Instructions : list InstructionView
}.

(** [ResultStatus] and [PayloadKind] are string types; requests may carry any
    string. *)
Definition ResultStatusSucceeded : string := "Succeeded".
Definition ResultStatusFailed : string := "Failed".
Definition PayloadKindKubeconfig : string := "KubeconfigPayload".
Definition PayloadKindPeer : string := "PeerPayload".
Definition PayloadKindUnpeer : string := "UnpeerPayload".
Definition PayloadKindReconcile : string := "ReconcilePayload".

Record ReconcileVirtualNodeStateView := mkReconcileView {
  rv_ReservationID : string;
  rv_ChunkIndex : Z;
  rv_NodeGroupID : string;
  rv_VirtualNodeName : string;
  rv_ResourceSlice : string;
  rv_Phase : VirtualNodeStatePhase;
  rv_LastTransition : option Time
}.

Record ResultPayload := mkPayload {
  pl_Kind : string;
  pl_Kubeconfig : string;
  pl_ExpiresAt : option Time;
  pl_VirtualNodeNames : list string;
  pl_ResourceSliceNames : list string;
  pl_ReleasedChunks : Z;
  pl_TunnelDropped : bool;
  pl_Advertisement : option AdvertisementRequest;
  pl_VirtualNodeStates : list ReconcileVirtualNodeStateView
}.

Record ErrorEnvelope := mkEnvelope { ee_Code : string; ee_Message : string }.

Record InstructionResultRequest := mkResultReq {
  ir_Status : string;
  ir_Payload : option ResultPayload;
  ir_Error : option ErrorEnvelope
}.

(** [Server], without its logger, client and consumer registry: the client is
    the program's API requests and the registry an argument of the handlers
    that use it. *)
Record Server := mkServer {
  sv_namespace : string;
  sv_sizer : Sizer;
  sv_reservationTimeout : Duration
}.

Definition defaultReservationTimeout : Duration := 24 * Hour.

(** [NewServer]: [None] is the panic on a missing namespace; the client it also
    requires is the program's API server. *)
Definition NewServer (namespace : string) (sizer : option Sizer)
    (resvTimeout : Duration) : option Server :=
  if decide (namespace = "") then None
  else Some (mkServer namespace (default Size sizer)
               (if resvTimeout <=? 0 then defaultReservationTimeout else resvTimeout)).

(** [nodeGroupID] (reservation.go). *)
Definition nodeGroupID (providerClusterID : string) (chunkType : ChunkType) : string :=
  "ng-" +:+ providerClusterID +:+ "-" +:+ GoStr.to_lower chunkType.

End Wire.
