(* ===== verification/AgentClient.v ===== *)
(** * The agents' HTTP client of the Broker (internal/agent/client: errors.go,
    request.go, client.go, endpoints.go)

    Every call an agent makes to the Broker goes through [do]: encode the body,
    retry transient failures of idempotent requests with exponential backoff,
    classify the outcome.  The network, the sleeping clock and the caller's
    context are outside calls ([http_call]); what [encoding/json] makes of a
    body is a parameter ([Json]).

    The theorems bound the retries, show that a retry repeats the very same
    request (so the Broker's idempotency key does not change between attempts),
    and tell which answers end up as success. *)
From stdpp Require Import base gmap strings list pretty.
From Stdlib Require Import ZArith Lia.
From S2P Require Import Prelude ApiTypes Chunk Wire Kube MemServer Effects.
Import GoFloat.

Open Scope Z_scope.

(** ** Errors (errors.go) *)
Inductive Category :=
| CategoryUnknown | CategoryTransient | CategoryBadRequest | CategoryUnauthenticated
| CategoryForbidden | CategoryNotFound | CategoryConflict | CategoryPreconditionFailed
| CategoryTooManyRequests.

#[global] Instance Category_eq_dec : EqDecision Category.
Proof. solve_decision. Defined.

(** [ErrorCode] is a string on the wire. *)
Definition error_code_string (c : ErrorCode) : string :=
  match c with
  | ErrCodeInvalidRequest => "InvalidRequest"
  | ErrCodeUnauthenticated => "Unauthenticated"
  | ErrCodeForbidden => "Forbidden"
  | ErrCodeNotFound => "NotFound"
  | ErrCodeConflict => "Conflict"
  | ErrCodeReservationExpired => "ReservationExpired"
  | ErrCodeInsufficientCapacity => "InsufficientCapacity"
  | ErrCodeTooManyRequests => "TooManyRequests"
  | ErrCodeInternalError => "InternalError"
  | ErrCodeUpstreamError => "UpstreamError"
  | ErrCodeServiceUnavailable => "ServiceUnavailable"
  | ErrCodeTimeout => "Timeout"
  end.

(** [client.Error]; the cause is its text. *)
Record AgentError := mkAgentError {
  ae_Category : Category;
  ae_Code : string;
  ae_Message : string;
  ae_Status : Z;
  ae_RequestID : string;
  ae_Cause : option string
}.

(** The [Error] method of [Error]. *)
Definition Error_Error (e : AgentError) : string :=
  if ae_Status e =? 0 then
    "agent client: transient: " +:+ default "<nil>" (ae_Cause e)
  else if decide (ae_Code e = "") then
    "agent client: HTTP " +:+ GoStr.fmt_d (ae_Status e) +:+ ": " +:+ ae_Message e
  else "agent client: HTTP " +:+ GoStr.fmt_d (ae_Status e) +:+ " " +:+ ae_Code e +:+ ": "
         +:+ ae_Message e.

(** An error an endpoint returns: its text, and the [Error] that
    [errors.As] finds in its chain. *)
Record CallError := mkCallError { ce_agent : option AgentError; ce_text : string }.

Definition plain_error (msg : string) : CallError := mkCallError None msg.
Definition of_agent_error (e : AgentError) : CallError := mkCallError (Some e) (Error_Error e).

(** [fmt.Errorf("<prefix>: %w", err)]. *)
Definition wrap_call (prefix : string) (e : CallError) : CallError :=
  mkCallError (ce_agent e) (prefix +:+ ": " +:+ ce_text e).

(** [is] and the predicates over it. *)
Definition is_category (err : CallError) (want : Category) : bool :=
  match ce_agent err with
  | Some e => bool_decide (ae_Category e = want)
  | None => false
  end.

Definition IsTransient (err : CallError) : bool := is_category err CategoryTransient.
Definition IsBadRequest (err : CallError) : bool := is_category err CategoryBadRequest.
Definition IsUnauthenticated (err : CallError) : bool := is_category err CategoryUnauthenticated.
Definition IsForbidden (err : CallError) : bool := is_category err CategoryForbidden.
Definition IsMissing (err : CallError) : bool := is_category err CategoryNotFound.
Definition IsConflicting (err : CallError) : bool := is_category err CategoryConflict.
Definition IsPreconditionFailed (err : CallError) : bool :=
  is_category err CategoryPreconditionFailed.
Definition IsTooManyRequests (err : CallError) : bool := is_category err CategoryTooManyRequests.

Definition IsInsufficientCapacity (err : CallError) : bool :=
  match ce_agent err with
  | Some e => bool_decide (ae_Code e = error_code_string ErrCodeInsufficientCapacity)
  | None => false
  end.

Definition classify (status : Z) : Category :=
  if 500 <=? status then CategoryTransient
  else if status =? 400 then CategoryBadRequest
  else if status =? 401 then CategoryUnauthenticated
  else if status =? 403 then CategoryForbidden
  else if status =? 404 then CategoryNotFound
  else if status =? 409 then CategoryConflict
  else if status =? 412 then CategoryPreconditionFailed
  else if status =? 429 then CategoryTooManyRequests
  else CategoryBadRequest.

(** A call's outcome: the decoded answer or an error. *)
Abbreviation CallResult A := (A + CallError)%type (only parsing).

(** ** Requests (request.go) *)
Record requestOptions := mkOptions {
  ro_reservationID : string;
  ro_requestID : string;
  ro_idempotent : bool
}.

(** One request as sent, headers included. *)
Record HttpRequest := mkHttpRequest {
  hr_Method : string;
  hr_URL : string;
  hr_RequestID : string;
  hr_ReservationID : option string;
  hr_Body : option string
}.

(** What one exchange gives: [http.NewRequestWithContext] or [c.http.Do]
    failed, or a response with its X-Request-Id header and body. *)
Inductive Exchange :=
| BuildFailed (err : string)
| SendFailed (err : string)
| Answered (status : Z) (requestID : string) (body : string).

Inductive http_call :=
| HttpDo (r : HttpRequest)
| Sleep (d : Duration)       (* None, or the context's error when it ends first *)
| CtxErr.                    (* ctx.Err() != nil *)

Definition http_answer (c : http_call) : Type :=
  match c with
  | HttpDo _ => Exchange
  | Sleep _ => option string
  | CtxErr => bool
  end.

(** The decoded [ErrorResponse] fields the client reads. *)
Record WireError := mkWireError { we_Code : string; we_Message : string; we_RequestID : string }.

(** [encoding/json] on an error body, and [http.StatusText]. *)
Class Json := {
  unmarshal_error : string → option WireError;
  http_StatusText : Z → string
}.

(** [Client], without its transport and logger. *)
Record Client := mkClient {
  cl_baseURL : string;                (* scheme and host *)
  cl_maxRetries : nat;
  cl_initialBackoff : Duration;
  cl_backoffMultiplier : float64;
  cl_maxBackoff : Duration
}.

Definition Millisecond : Duration := 1000000.
Definition DefaultRequestTimeout : Duration := 10 * Second.
Definition DefaultMaxRetries : nat := 3.
Definition DefaultInitialBackoff : Duration := 100 * Millisecond.
Definition DefaultBackoffMultiplier : float64 := fof_Z 2.
Definition DefaultMaxBackoff : Duration := 2 * Second.

Definition orDefault (v def : Duration) : Duration := if v <=? 0 then def else v.
Definition orDefaultInt (v : Z) (def : nat) : nat := if v <=? 0 then def else Z.to_nat v.

(** [New]: [parsed] is [url.Parse(opts.BrokerURL)] as scheme and host, [tlsErr]
    the outcome of building the TLS transport. *)
Definition NewClient (brokerURL : string) (parsed : Res (string * string)) (tlsErr : option Err)
    (maxRetries initialBackoff : Z) (multiplier : float64) (maxBackoff : Duration) : Res Client :=
  if decide (brokerURL = "") then Fail (errors_New "client: BrokerURL is required")
  else
    match parsed with
    | Fail e => Fail (wrapf ("client: parse BrokerURL " +:+ GoStr.fmt_q brokerURL) e)
    | Ok (scheme, host) =>
        if decide (scheme = "https") then
          if decide (host = "") then
            Fail (errors_New ("client: BrokerURL " +:+ GoStr.fmt_q brokerURL +:+ " has no host"))
          else
            match tlsErr with
            | Some e => Fail e
            | None =>
                Ok (mkClient (scheme +:+ "://" +:+ host) (orDefaultInt maxRetries DefaultMaxRetries)
                      (orDefault initialBackoff DefaultInitialBackoff)
                      (if fle multiplier fzero then DefaultBackoffMultiplier else multiplier)
                      (orDefault maxBackoff DefaultMaxBackoff))
            end
        else Fail (errors_New ("client: BrokerURL must use https (got scheme " +:+
                     GoStr.fmt_q scheme +:+ ")"))
    end.

(** [resolve]; the paths here need no escaping beyond [PathEscape]. *)
Definition resolve (c : Client) (p : string) : string :=
  cl_baseURL c +:+ (if String.prefix "/" p then p else "/" +:+ p).

Section AgentClient.
Context `{Platform} `{Json}.

(** Programs that make HTTP calls. *)
Abbreviation http := (eff http_call http_answer).
Definition http_ask (c : http_call) : http (http_answer c) := ask c.

Definition decodeErrorBody (status : Z) (body requestID : string) : AgentError :=
  if decide (body = "") then
    mkAgentError (classify status) "" (http_StatusText status) status requestID None
  else
    match unmarshal_error body with
    | None => mkAgentError (classify status) "" body status requestID None
    | Some env =>
        mkAgentError (classify status) (we_Code env) (we_Message env) status
          (if decide (we_RequestID env = "") then requestID else we_RequestID env) None
    end.

(** What [attempt] makes of one exchange.  [decode] is
    [json.NewDecoder(resp.Body).Decode(out)]; a nil [out] is a [decode] that
    accepts every body. *)
Definition attempt_result {A} (decode : string → Res A) (r : HttpRequest) (x : Exchange) :
    A + AgentError :=
  match x with
  | BuildFailed err =>
      inr (mkAgentError CategoryBadRequest "" ("build HTTP request: " +:+ err) 0
             (hr_RequestID r) (Some err))
  | SendFailed err =>
      inr (mkAgentError CategoryTransient ""
             ("HTTP " +:+ hr_Method r +:+ " " +:+ hr_URL r +:+ ": " +:+ err) 0
             (hr_RequestID r) (Some err))
  | Answered status rid body =>
      let respID := if decide (rid = "") then hr_RequestID r else rid in
      if 400 <=? status then inr (decodeErrorBody status body respID)
      else match decode body with
           | Ok a => inl a
           | Fail e =>
               inr (mkAgentError CategoryTransient "" ("decode response body: " +:+ e_msg e)
                      status respID (Some (e_msg e)))
           end
  end.

Definition attempt {A} (decode : string → Res A) (r : HttpRequest) : http (A + AgentError) :=
  x ← http_ask (HttpDo r); mret (attempt_result decode r x).

Definition sleepWithCtx (d : Duration) : http (option AgentError) :=
  if d <=? 0 then mret None
  else
    x ← http_ask (Sleep d);
    mret ((λ err, mkAgentError CategoryTransient ""
             ("context cancelled during retry backoff: " +:+ err) 0 "" (Some err)) <$> (x : option string)).

Definition next_backoff (c : Client) (backoff : Duration) : Duration :=
  let next := float_to_int64 (fmul (fof_Z backoff) (cl_backoffMultiplier c)) in
  if cl_maxBackoff c <? next then cl_maxBackoff c else next.

(** The loop of [do]: an attempt, then [n] more.  The sleep that opens every
    iteration but the first is placed at the end of the one before. *)
Fixpoint attempts {A} (c : Client) (decode : string → Res A) (r : HttpRequest) (idempotent : bool)
    (n : nat) (backoff : Duration) : http (A + AgentError) :=
  x ← attempt decode r;
  match x with
  | inl a => mret (inl a)
  | inr e =>
      if negb idempotent || negb (bool_decide (ae_Category e = CategoryTransient))
      then mret (inr e)
      else
        done ← http_ask CtxErr;
        if (done : bool) then mret (inr e)
        else
          match n with
          | O => mret (inr e)
          | S n =>
              s ← sleepWithCtx backoff;
              match s with
              | Some e => mret (inr e)
              | None => attempts c decode r idempotent n (next_backoff c backoff)
              end
          end
  end.

(** [do]: [bodyBytes] is the outcome of [json.Marshal(body)], [Ok None] when
    there is no body.  *)
Definition do {A} (c : Client) (method path : string) (bodyBytes : Res (option string))
    (decode : string → Res A) (opts : requestOptions) :
    http (CallResult A) :=
  rid ← (if decide (ro_requestID opts = "") then api new_uuid else mret (ro_requestID opts));
  match bodyBytes with
  | Fail e =>
      mret (inr (of_agent_error (mkAgentError CategoryBadRequest ""
        ("encode request body: " +:+ e_msg e) 0 rid (Some (e_msg e)))))
  | Ok body =>
      let r := mkHttpRequest method (resolve c path) rid
                 (if decide (ro_reservationID opts = "") then None else Some (ro_reservationID opts))
                 body in
      y ← attempts c decode r (ro_idempotent opts) (cl_maxRetries c) (cl_initialBackoff c);
      mret match y with inl a => inl a | inr e => inr (of_agent_error e) end
  end.

(** A marshalled body. *)
Definition res_some (r : Res string) : Res (option string) :=
  match r with Ok b => Ok (Some b) | Fail e => Fail e end.

(** ** Endpoints (endpoints.go)

    Every endpoint is idempotent.  [None] stands for a nil request. *)
Definition MethodGet : string := "GET".
Definition MethodPost : string := "POST".
Definition MethodDelete : string := "DELETE".

(** [url.PathEscape]. *)
Definition path_segment_byte (c : Ascii.ascii) : bool :=
  let n := Ascii.nat_of_ascii c in
  ((48 <=? n) && (n <=? 57) || (65 <=? n) && (n <=? 90) || (97 <=? n) && (n <=? 122) ||
   existsb (Nat.eqb n) [45; 95; 46; 126; 36; 38; 43; 58; 61; 64])%nat.

Definition upper_hex (n : nat) : string := String.substring n 1 "0123456789ABCDEF".

Fixpoint PathEscape (s : string) : string :=
  match s with
  | EmptyString => EmptyString
  | String c s' =>
      (if path_segment_byte c then String c EmptyString
       else let n := Ascii.nat_of_ascii c in
            "%" +:+ upper_hex (n / 16) +:+ upper_hex (n mod 16)) +:+ PathEscape s'
  end.

Definition idempotent_call : requestOptions := mkOptions "" "" true.

Definition PostAdvertisement {A} (c : Client) (req : option (Res string)) (decode : string → Res A) :
    http (CallResult A) :=
  match req with
  | None => mret (inr (plain_error "client: PostAdvertisement: req is nil"))
  | Some body => do c MethodPost "/api/v1/advertisements" (res_some body) decode idempotent_call
  end.

Definition PostHeartbeat {A} (c : Client) (req : option (Res string)) (decode : string → Res A) :
    http (CallResult A) :=
  match req with
  | None => mret (inr (plain_error "client: PostHeartbeat: req is nil"))
  | Some body => do c MethodPost "/api/v1/heartbeat" (res_some body) decode idempotent_call
  end.

Definition GetNodeGroups {A} (c : Client) (decode : string → Res A) :
    http (CallResult A) :=
  do c MethodGet "/api/v1/nodegroups" (Ok None) decode idempotent_call.

Definition PostReservation {A} (c : Client) (reservationID : string) (req : option (Res string))
    (decode : string → Res A) : http (CallResult A) :=
  if decide (reservationID = "") then
    mret (inr (plain_error "client: PostReservation: reservationID is required (idempotency key)"))
  else
    match req with
    | None => mret (inr (plain_error "client: PostReservation: req is nil"))
    | Some body =>
        do c MethodPost "/api/v1/reservations" (res_some body) decode
          (mkOptions reservationID "" true)
    end.

Definition DeleteReservation {A} (c : Client) (reservationID : string) (decode : string → Res A) :
    http (CallResult A) :=
  if decide (reservationID = "") then
    mret (inr (plain_error "client: DeleteReservation: reservationID is required"))
  else do c MethodDelete ("/api/v1/reservations/" +:+ PathEscape reservationID) (Ok None) decode
         idempotent_call.

Definition ListReservations {A} (c : Client) (decode : string → Res A) :
    http (CallResult A) :=
  do c MethodGet "/api/v1/reservations" (Ok None) decode idempotent_call.

Definition GetInstructions {A} (c : Client) (decode : string → Res A) :
    http (CallResult A) :=
  do c MethodGet "/api/v1/instructions" (Ok None) decode idempotent_call.

Definition PostInstructionResult {A} (c : Client) (instructionID : string) (req : option (Res string))
    (decode : string → Res A) : http (CallResult A) :=
  if decide (instructionID = "") then
    mret (inr (plain_error "client: PostInstructionResult: instructionID is required"))
  else
    match req with
    | None => mret (inr (plain_error "client: PostInstructionResult: req is nil"))
    | Some body =>
        do c MethodPost ("/api/v1/instructions/" +:+ PathEscape instructionID +:+ "/result")
          (res_some body) decode idempotent_call
    end.

(** ** Retries *)

(** The exchanges a trace made, and the times it slept. *)
Definition exchanges (t : list (event http_answer)) : list (HttpRequest * Exchange) :=
  omap (λ ev : event http_answer,
          match ev return option (HttpRequest * Exchange) with
          | existT (HttpDo r) x => Some (r, x)
          | _ => None
          end) t.
Definition sleeps (t : list (event http_answer)) : list Duration :=
  omap (λ ev : event http_answer, match ev with existT (Sleep d) _ => Some d | _ => None end) t.

(** Any network, any clock. *)
Definition any_answer : list (event http_answer) → ∀ c, http_answer c → list (event http_answer) → Prop :=
  traced (λ _ _ _, True).

Definition success {A} (decode : string → Res A) (a : A) (x : Exchange) : Prop :=
  ∃ status rid body, x = Answered status rid body ∧ status < 400 ∧ decode body = Ok a.

Definition failure {A} (decode : string → Res A) (x : Exchange) : Prop :=
  ∀ a, ¬ success decode a x.

(** What the exchanges of a call make its outcome: success is the decoded body
    of the last one, every earlier one having failed; an error means none
    succeeded. *)
Definition outcome {A B} (decode : string → Res A) (xs : list Exchange) (o : A + B) : Prop :=
  match o with
  | inl a => ∃ xs0 x, xs = xs0 ++ [x] ∧ success decode a x ∧ Forall (failure decode) xs0
  | inr _ => Forall (failure decode) xs
  end.

Lemma attempt_result_outcome {A} (decode : string → Res A) r x :
  outcome decode [x] (attempt_result decode r x).
Proof.
  unfold outcome, attempt_result. destruct x as [err|err|status rid body].
  1,2: by repeat constructor; intros a (? & ? & ? & ? & _).
  destruct (Z.leb_spec 400 status).
  - repeat constructor. intros a (? & ? & ? & [= <- <- <-] & ? & _). lia.
  - destruct (decode body) as [a|e] eqn:E.
    + exists [], (Answered status rid body). split_and!; [done| |done]. by eexists _, _, _.
    + repeat constructor. intros a (? & ? & ? & [= <- <- <-] & _ & ?). congruence.
Qed.

Lemma outcome_cons {A B} (decode : string → Res A) x xs (o : A + B) :
  failure decode x → outcome decode xs o → outcome decode (x :: xs) o.
Proof.
  destruct o as [a|e]; simpl; [|by constructor].
  intros Hx (xs0 & y & -> & Hy & Hf). exists (x :: xs0), y. split_and!; [done..|by constructor].
Qed.

(** What a piece of a call adds to the trace: at most [n] exchanges, all of
    request [r], and sleeps of at most [bound]. *)
Definition progress {A B} (decode : string → Res A) (r : HttpRequest) (n : nat) (bound : Duration)
    (t t' : list (event http_answer)) (o : A + B) : Prop :=
  ∃ xs ds, exchanges t' = exchanges t ++ (pair r <$> xs) ∧ (length xs ≤ n)%nat ∧
    sleeps t' = sleeps t ++ ds ∧ Forall (λ d, 0 < d ≤ bound) ds ∧ outcome decode xs o.

Section Calls.
Context (C : contract).

Lemma ewp_attempt {A} (decode : string → Res A) r Q m t :
  (∀ x t', exchanges t' = exchanges t ++ [(r, x)] → sleeps t' = sleeps t →
    Q (attempt_result decode r x) m t') → ewp C any_answer (attempt decode r) Q m t.
Proof.
  intros HQ x t' [_ ->]. apply HQ; unfold exchanges, sleeps; rewrite omap_app; simpl;
    by rewrite ?app_nil_r.
Qed.

Lemma ewp_sleep d Q m t :
  (∀ o t', exchanges t' = exchanges t →
    sleeps t' = sleeps t ++ (if 0 <? d then [d] else []) → Q o m t') →
  ewp C any_answer (sleepWithCtx d) Q m t.
Proof.
  intros HQ. unfold sleepWithCtx. rewrite Z.ltb_antisym in HQ. destruct (d <=? 0).
  - apply HQ; [done|]. simpl. by rewrite app_nil_r.
  - intros x t' [_ ->]. apply HQ; unfold exchanges, sleeps; rewrite omap_app; simpl;
      by rewrite ?app_nil_r.
Qed.

Lemma ewp_ctx Q m t :
  (∀ b t', exchanges t' = exchanges t → sleeps t' = sleeps t → Q b m t') →
  ewp C any_answer (http_ask CtxErr) Q m t.
Proof.
  intros HQ x t' [_ ->]. apply HQ; unfold exchanges, sleeps; rewrite omap_app; simpl;
    by rewrite ?app_nil_r.
Qed.

Lemma next_backoff_le c backoff : next_backoff c backoff ≤ cl_maxBackoff c.
Proof. unfold next_backoff. cbv zeta. case_match; fed_bools; lia. Qed.

Lemma attempts_unfold {A} c (decode : string → Res A) r idem n backoff :
  attempts c decode r idem n backoff =
  attempt decode r ≫= λ x,
  match x with
  | inl a => mret (inl a)
  | inr e =>
      if negb idem || negb (bool_decide (ae_Category e = CategoryTransient))
      then mret (inr e)
      else
        http_ask CtxErr ≫= λ done : bool,
        if done then mret (inr e)
        else
          match n with
          | O => mret (inr e)
          | S n =>
              sleepWithCtx backoff ≫= λ s,
              match s with
              | Some e => mret (inr e)
              | None => attempts c decode r idem n (next_backoff c backoff)
              end
          end
  end.
Proof. by destruct n. Qed.

Lemma attempts_progress {A} c (decode : string → Res A) r idem n :
  let bound := Z.max (cl_initialBackoff c) (cl_maxBackoff c) in
  ∀ backoff m t, backoff ≤ bound →
  ewp C any_answer (attempts c decode r idem n backoff)
    (λ o _ t', progress decode r (if idem then S n else 1) bound t t' o) m t.
Proof.
  intros bound. induction n as [|n IH]; intros backoff m t Hb; rewrite attempts_unfold;
    apply ewp_bind, ewp_attempt; intros x t1 Hx Hs;
    pose proof (attempt_result_outcome decode r x) as Ho;
    (assert (∀ l t2 (o : A + AgentError), exchanges t2 = exchanges t1 → sleeps t2 = sleeps t1 →
       outcome decode [x] o → progress decode r (if idem then S l else 1) bound t t2 o) as Hone;
     [intros l t2 o E1 E2 Hout; exists [x], []; rewrite app_nil_r, E1, E2;
      split_and!; [done|destruct idem; simpl; lia|done..]|]);
    destruct (attempt_result decode r x) as [a|e]; try (by apply Hone);
    (destruct (negb idem || _) eqn:Eg; [by apply Hone|]);
    apply ewp_bind, ewp_ctx; intros b t2 Hx2 Hs2; destruct b; try (by apply Hone).
  apply orb_false_iff in Eg as [Ei _]. apply negb_false_iff in Ei as ->.
  apply ewp_bind, ewp_sleep. intros o t3 Hx3 Hs3.
  assert (Forall (λ d, 0 < d ≤ bound) (if 0 <? backoff then [backoff] else [])) as Hd
    by (destruct (Z.ltb_spec 0 backoff); repeat constructor; lia).
  destruct o as [err|].
  { exists [x], (if 0 <? backoff then [backoff] else []). rewrite Hx3, Hx2, Hs3, Hs2, Hs.
    split_and!; [done|simpl; lia|done..]. }
  eapply ewp_mono; [|apply IH; pose proof (next_backoff_le c backoff); lia].
  intros o _ t4 (xs & ds & Ex & Hl & Es & Hds & Hout).
  exists (x :: xs), ((if 0 <? backoff then [backoff] else []) ++ ds).
  rewrite Ex, Hx3, Hx2, Hx, Es, Hs3, Hs2, Hs, <-!app_assoc. simpl.
  split_and!; [done|lia|done|by apply Forall_app|]. apply outcome_cons; [|done]. by inversion Ho.
Qed.

(** C18: One call of the client makes at most [maxRetries + 1] exchanges, one if
    it is not idempotent; every one of them sends the same request, with the
    same X-Request-Id, X-Reservation-Id and body; it sleeps for at most the
    larger of the initial and the maximal backoff; it succeeds exactly with the
    decoded body of the last exchange, all the others having failed, whatever
    the network answers. *)
Theorem do_retries {A} c method path body (decode : string → Res A) opts m :
  ewp C any_answer (do c method path (Ok body) decode opts)
    (λ o _ t, ∃ r, hr_Method r = method ∧ hr_URL r = resolve c path ∧ hr_Body r = body ∧
       hr_ReservationID r =
         (if decide (ro_reservationID opts = "") then None else Some (ro_reservationID opts)) ∧
       progress decode r (if ro_idempotent opts then S (cl_maxRetries c) else 1)
         (Z.max (cl_initialBackoff c) (cl_maxBackoff c)) [] t o) m [].
Proof.
  unfold do. apply ewp_bind.
  assert (∀ p (Q : string → store → list (event http_answer) → Prop),
    p = api new_uuid ∨ p = mret (ro_requestID opts) → (∀ rid m', Q rid m' []) →
    ewp C any_answer p Q m []) as Hrid.
  { intros p Q [->| ->] HQ; [|apply HQ]. intros rid m' _. apply HQ. }
  apply Hrid; [case_decide; auto|]. intros rid m'. cbv zeta.
  apply ewp_bind. set (r := mkHttpRequest _ _ _ _ _).
  eapply ewp_mono; [|apply attempts_progress; lia].
  intros o m2 t Hp. exists r. split_and!; [done..|]. by destruct o.
Qed.
End Calls.
End AgentClient.

Abbreviation http := (eff http_call http_answer).
