(* ===== verification/Catalog.v ===== *)
(** * The offer catalog and the providers recently refused
    (internal/agent/consumer/brain: catalog_tmp.go, full.go)

    Two small concurrent maps with expiry.  Their mutexes make every operation
    atomic, so an operation is a function of the map and the clock reading it
    takes.  Each refines a specification over the history of operations: what
    is visible now is decided by the last operation on the key, or by the
    refusals of the last [FullCooldown]. *)
From stdpp Require Import base gmap strings list sorting.
From Stdlib Require Import ZArith Lia.
From S2P Require Import Prelude ApiTypes Chunk Wire AgentClient.
Import GoFloat.

Open Scope Z_scope.

Section Catalog.
Context `{Platform}.

(** ** Offers *)
Definition OfferTTL : Duration := 90 * Second.
Definition RefreshEvery : Duration := 30 * Second.

Record Location := mkLocation {
  lo_Region : string;
  lo_City : string;
  lo_Latitude : option float64;
  lo_Longitude : option float64
}.

(** [Offer], without the unstructured [Extra] field, which nothing reads. *)
Record Offer := mkOffer {
  of_SchemaVersion : Z;
  of_ProviderID : string;
  of_LiqoClusterID : string;
  of_SiteID : string;
  of_Location : Location;
  of_Available : ResourceList;
  of_UnitPrices : ResourceList;
  of_SLA : string;
  of_ExpectedLatencyMs : option float64;
  of_CarbonIntensity : option float64;
  of_CarbonForecast : list float64;
  of_Renewable : bool;
  of_ProbeEndpoint : string;
  of_NodeLabels : gmap string string;
  of_NodeTaints : list Taint;
  of_UpdatedAt : Time
}.

Record memEntry := mkMemEntry { me_offer : Offer; me_expiresAt : Time }.

(** [MemoryCatalog.offers], keyed by (provider, site). *)
Abbreviation MemoryCatalog := (gmap (string * string) memEntry).

Definition NewMemoryCatalog : MemoryCatalog := ∅.

Definition ErrOfferNotFound : Err := mkErr ENotFound "catalog: offer not found".

Definition UpsertOffer (o : Offer) (t : Time) (m : MemoryCatalog) : MemoryCatalog * option Err :=
  if bool_decide (of_ProviderID o = "") || bool_decide (of_SiteID o = "") then
    (m, Some (errors_New "catalog: providerId and siteId are required"))
  else (<[(of_ProviderID o, of_SiteID o) := mkMemEntry o (t + OfferTTL)]> m, None).

Definition DeleteOffer (providerID siteID : string) (m : MemoryCatalog) : MemoryCatalog :=
  delete (providerID, siteID) m.

Definition GetOffer (providerID siteID : string) (t : Time) (m : MemoryCatalog) : Res Offer :=
  match m !! (providerID, siteID) with
  | Some e => if t <? me_expiresAt e then Ok (me_offer e) else Fail ErrOfferNotFound
  | None => Fail ErrOfferNotFound
  end.

(** [ListOffers], up to the order the map is ranged in. *)
Definition ListOffers (t : Time) (m : MemoryCatalog) : list Offer :=
  me_offer <$> filter (λ e, t < me_expiresAt e) (map_to_list m).*2.

(** *** Specification: the last operation on a key decides *)
Inductive cat_op := CUpsert (o : Offer) | CDelete (providerID siteID : string).

Definition apply_op (m : MemoryCatalog) (ev : Time * cat_op) : MemoryCatalog :=
  match ev.2 with
  | CUpsert o => (UpsertOffer o ev.1 m).1
  | CDelete p s => DeleteOffer p s m
  end.

Definition run_ops (h : list (Time * cat_op)) : MemoryCatalog := foldl apply_op NewMemoryCatalog h.

(** The key an operation acts on; an upsert without its identifiers is
    refused. *)
Definition op_key (op : cat_op) : option (string * string) :=
  match op with
  | CUpsert o =>
      if decide (of_ProviderID o = "" ∨ of_SiteID o = "") then None
      else Some (of_ProviderID o, of_SiteID o)
  | CDelete p s => Some (p, s)
  end.

(** [stands k t h o]: offer [o] was written under [k] less than [OfferTTL]
    before [t] and nothing was done to [k] since. *)
Definition stands (k : string * string) (t : Time) (h : list (Time * cat_op)) (o : Offer) : Prop :=
  ∃ h1 t0 h2, h = h1 ++ (t0, CUpsert o) :: h2 ∧ op_key (CUpsert o) = Some k ∧
    t < t0 + OfferTTL ∧ Forall (λ ev, op_key ev.2 ≠ Some k) h2.

Lemma apply_op_lookup m t op k :
  apply_op m (t, op) !! k =
  if decide (op_key op = Some k) then
    match op with CUpsert o => Some (mkMemEntry o (t + OfferTTL)) | CDelete _ _ => None end
  else m !! k.
Proof.
  destruct op as [o|p s]; unfold apply_op; simpl.
  - unfold UpsertOffer. destruct (decide (of_ProviderID o = "" ∨ of_SiteID o = "")) as [Ho|Ho].
    + assert (bool_decide (of_ProviderID o = "") || bool_decide (of_SiteID o = "") = true) as ->
        by (rewrite orb_true_iff, !bool_decide_eq_true; done).
      by rewrite decide_False.
    + rewrite !bool_decide_eq_false_2 by tauto. simpl. case_decide as Ek.
      * injection Ek as <-. by rewrite lookup_insert_eq.
      * rewrite lookup_insert_ne; [done|]. intros E. by rewrite E in Ek.
  - unfold DeleteOffer. case_decide; simplify_eq; [by rewrite lookup_delete_eq|].
    rewrite lookup_delete_ne; [done|]. congruence.
Qed.

(** What the map holds is the last operation on the key. *)
Lemma run_ops_lookup h k e :
  run_ops h !! k = Some e ↔
  ∃ h1 t0 o h2, h = h1 ++ (t0, CUpsert o) :: h2 ∧ op_key (CUpsert o) = Some k ∧
    e = mkMemEntry o (t0 + OfferTTL) ∧ Forall (λ ev, op_key ev.2 ≠ Some k) h2.
Proof.
  induction h as [|[t op] h IH] using rev_ind.
  - split; [done|]. intros (h1 & ? & ? & ? & E & _). by destruct h1.
  - unfold run_ops. rewrite foldl_app. simpl. rewrite apply_op_lookup.
    destruct (decide (op_key op = Some k)) as [Ek|Ek].
    + destruct op as [o|p s]; split.
      * intros [= <-]. exists h, t, o, []. split_and!; [done..|constructor].
      * intros (h1 & t0 & o' & h2 & E & Ho & -> & Hf).
        destruct h2 as [|ev h2 _] using rev_ind.
        { apply app_inj_tail in E as [-> E]. by simplify_eq. }
        rewrite app_comm_cons, app_assoc in E. apply app_inj_tail in E as [_ <-].
        apply Forall_app in Hf as [_ Hf]. inversion Hf. done.
      * done.
      * intros (h1 & t0 & o' & h2 & E & Ho & -> & Hf).
        destruct h2 as [|ev h2 _] using rev_ind.
        { by apply app_inj_tail in E as [_ E]. }
        rewrite app_comm_cons, app_assoc in E. apply app_inj_tail in E as [_ <-].
        apply Forall_app in Hf as [_ Hf]. inversion Hf. done.
    + fold (run_ops h). rewrite IH. split.
      * intros (h1 & t0 & o & h2 & -> & Ho & -> & Hf). exists h1, t0, o, (h2 ++ [(t, op)]).
        rewrite <-app_assoc. split_and!; [done..|]. apply Forall_app. split; [done|]. by constructor.
      * intros (h1 & t0 & o & h2 & E & Ho & -> & Hf).
        destruct h2 as [|ev h2 _] using rev_ind.
        { apply app_inj_tail in E as [_ E]. by simplify_eq. }
        rewrite app_comm_cons, app_assoc in E. apply app_inj_tail in E as [-> <-].
        apply Forall_app in Hf as [Hf _]. by exists h1, t0, o, h2.
Qed.

(** C19: The in-memory catalog refines its history: whatever upserts and deletes
    were made, [GetOffer] answers an offer exactly when the last operation on
    its key stored it less than [OfferTTL] ago, and [ListOffers] is exactly the
    offers that stand, once each. *)
Theorem catalog_refines h t :
  (∀ p s o, GetOffer p s t (run_ops h) = Ok o ↔ stands (p, s) t h o) ∧
  (∀ o, o ∈ ListOffers t (run_ops h) ↔ ∃ k, stands k t h o) ∧
  NoDup ((λ o, (of_ProviderID o, of_SiteID o)) <$> ListOffers t (run_ops h)).
Proof.
  assert (∀ k o, (∃ e, run_ops h !! k = Some e ∧ me_offer e = o ∧ t < me_expiresAt e) ↔
    stands k t h o) as Hst.
  { intros k o. split.
    - intros (e & (h1 & t0 & o' & h2 & -> & Hk & -> & Hf)%run_ops_lookup & <- & Ht).
      by exists h1, t0, h2.
    - intros (h1 & t0 & h2 & E & Hk & Ht & Hf). exists (mkMemEntry o (t0 + OfferTTL)).
      split; [|done]. apply run_ops_lookup. by exists h1, t0, o, h2. }
  assert (∀ k e, run_ops h !! k = Some e → k = (of_ProviderID (me_offer e), of_SiteID (me_offer e)))
    as Hkey.
  { intros k e (h1 & t0 & o & h2 & _ & Hk & -> & _)%run_ops_lookup. simpl in *.
    case_decide; by simplify_eq. }
  split_and!.
  - intros p s o. rewrite <-Hst. unfold GetOffer. destruct (run_ops h !! (p, s)) as [e|].
    + destruct (Z.ltb_spec t (me_expiresAt e)).
      * split; [intros [= <-]; by exists e|]. by intros (e' & [= <-] & -> & _).
      * split; [done|]. intros (e' & [= <-] & _ & ?). lia.
    + split; [done|]. by intros (? & ? & _).
  - intros o. unfold ListOffers. rewrite list_elem_of_fmap. split.
    + intros (e & -> & [Ht Hin]%list_elem_of_filter). apply list_elem_of_fmap in Hin as ([k e'] & -> & Hin).
      apply elem_of_map_to_list in Hin. exists k. apply Hst. by exists e'.
    + intros (k & (e & Hl & <- & Ht)%Hst). exists e. split; [done|]. apply list_elem_of_filter.
      split; [done|]. apply list_elem_of_fmap. exists (k, e). by rewrite elem_of_map_to_list.
  - unfold ListOffers. rewrite <-list_fmap_compose.
    assert (∀ l : list ((string * string) * memEntry), NoDup l.*1 →
      (∀ k e, (k, e) ∈ l → k = (of_ProviderID (me_offer e), of_SiteID (me_offer e))) →
      NoDup (((λ o, (of_ProviderID o, of_SiteID o)) ∘ me_offer) <$>
        filter (λ e, t < me_expiresAt e) l.*2)) as Hnd.
    { induction l as [|[k e] l IH]; intros Hn Hk; [constructor|]. simpl.
      apply NoDup_cons in Hn as [Hni Hn].
      assert (NoDup (((λ o, (of_ProviderID o, of_SiteID o)) ∘ me_offer) <$>
        filter (λ e, t < me_expiresAt e) l.*2)) as IH'
        by (apply IH; [done|]; intros k' e' ?; apply Hk; by constructor).
      rewrite filter_cons. case_decide; [|done]. simpl. apply NoDup_cons. split; [|done].
      intros (e' & E & [_ Hin]%list_elem_of_filter)%list_elem_of_fmap. apply Hni.
      apply list_elem_of_fmap in Hin as ([k' e''] & -> & Hin). apply list_elem_of_fmap. simpl in *.
      exists (k', e''). split; [|done]. simpl. rewrite (Hk k e) by constructor.
      rewrite (Hk k' e'') by (by constructor). done. }
    apply Hnd; [apply NoDup_fst_map_to_list|]. intros k e Hin%elem_of_map_to_list. by apply Hkey.
Qed.
End Catalog.

(** ** Providers recently refused (full.go) *)
Definition FullCooldown : Duration := 30 * Second.

(** [FullProviders.until]. *)
Abbreviation FullProviders := (gmap string Time).
Definition NewFullProviders : FullProviders := ∅.

Definition Mark (provider : string) (t : Time) (f : FullProviders) : FullProviders :=
  <[provider := t + FullCooldown]> f.

Definition MarkIfNoCapacity (provider : string) (err : CallError) (t : Time) (f : FullProviders) :
    FullProviders * bool :=
  if IsInsufficientCapacity err then (Mark provider t f, true) else (f, false).

(** [Snapshot]: the providers still marked, and the map without the others. *)
Definition FullSnapshot (t : Time) (f : FullProviders) : gset string * FullProviders :=
  let kept := filter (λ p : string * Time, t < p.2) f in (dom kept, kept).

(** *** Specification over the history of observations *)
Inductive full_op := FObserve (provider : string) (err : CallError) | FSnapshot.

Definition full_step (f : FullProviders) (ev : Time * full_op) : FullProviders :=
  match ev.2 with
  | FObserve p err => (MarkIfNoCapacity p err ev.1 f).1
  | FSnapshot => (FullSnapshot ev.1 f).2
  end.

Definition run_full (h : list (Time * full_op)) : FullProviders := foldl full_step NewFullProviders h.

(** [refused p t h]: the Broker refused a reservation on [p] for lack of
    capacity less than [FullCooldown] before [t]. *)
Definition refused (p : string) (t : Time) (h : list (Time * full_op)) : Prop :=
  ∃ t0 err, (t0, FObserve p err) ∈ h ∧ IsInsufficientCapacity err = true ∧ t < t0 + FullCooldown.

(** The clock does not run backwards. *)
Definition ordered (h : list (Time * full_op)) (t : Time) : Prop :=
  StronglySorted Z.le h.*1 ∧ Forall (λ ev, ev.1 ≤ t) h.

Lemma run_full_lookup h t p :
  ordered h t → (∃ u, run_full h !! p = Some u ∧ t < u) ↔ refused p t h.
Proof.
  revert t. induction h as [|[t0 op] h IH] using rev_ind; intros t [Hs Hle].
  - split; [by intros (? & ? & _)|]. intros (? & ? & Hin & _). by apply elem_of_nil in Hin.
  - apply Forall_app in Hle as [Hle Hlast]. inversion Hlast as [|? ? Ht0 _]; subst. simpl in Ht0.
    rewrite fmap_app in Hs. simpl in Hs.
    assert (StronglySorted Z.le h.*1 ∧ Forall (λ ev, ev.1 ≤ t0) h) as [Hs1 Hle0].
    { clear -Hs. induction h as [|ev h IH]; simpl in *; [split; constructor|].
      inversion Hs as [|? ? Hs' Hf]; subst. destruct (IH Hs'). apply Forall_app in Hf as [Hf Hl].
      split; [by constructor|]. constructor; [by inversion Hl|done]. }
    assert (ordered h t) as Ho by done. assert (ordered h t0) as Ho0 by done.
    assert (refused p t (h ++ [(t0, op)]) ↔ refused p t h ∨
      ∃ err, op = FObserve p err ∧ IsInsufficientCapacity err = true ∧ t < t0 + FullCooldown) as ->.
    { unfold refused. split.
      - intros (t1 & err & [Hin|Hin]%elem_of_app & Hc & Hlt); [left; by exists t1, err|].
        apply list_elem_of_singleton in Hin. simplify_eq. right. by exists err.
      - intros [(t1 & err & Hin & ?)|(err & -> & ?)]; [exists t1, err|exists t0, err];
          rewrite elem_of_app, list_elem_of_singleton; auto. }
    unfold run_full. rewrite foldl_app. fold (run_full h). simpl. rewrite <-IH by done.
    destruct op as [q err|]; unfold full_step; simpl.
    + unfold MarkIfNoCapacity, Mark. destruct (IsInsufficientCapacity err) eqn:Ec; simpl.
      * destruct (decide (p = q)) as [->|Hne].
        -- rewrite lookup_insert_eq. split; [intros (u & [= <-] & ?); right; by exists err|].
           intros [Hold|(? & _ & _ & ?)]; [|by eexists].
           apply IH in Hold; [|done]. destruct Hold as (t1 & e1 & Hin & _ & Hlt).
           rewrite Forall_forall in Hle0. specialize (Hle0 _ Hin). simpl in Hle0.
           eexists. split; [done|]. lia.
        -- rewrite lookup_insert_ne by done. split; [by left|].
           intros [?|(? & E & _)]; [done|congruence].
      * split; [by left|]. intros [?|(? & E & ? & _)]; [done|]. simplify_eq. congruence.
    + split.
      * intros (u & [Hl Hu]%map_lookup_filter_Some & Ht). left. by exists u.
      * intros [(u & Hl & Hu)|(? & ? & _)]; [|done]. exists u. split; [|done].
        apply map_lookup_filter_Some. split; [done|]. simpl. lia.
Qed.

(** However observations and snapshots alternate, a snapshot reports a
    provider as full exactly when the Broker refused a reservation on it for
    lack of capacity within the last [FullCooldown]; other refusals do not
    count and pruning expired marks loses nothing. *)
Theorem FullProviders_refines h t p :
  ordered h t → p ∈ (FullSnapshot t (run_full h)).1 ↔ refused p t h.
Proof.
  intros Ho. rewrite <-run_full_lookup by done. unfold FullSnapshot. simpl.
  rewrite elem_of_dom. split.
  - intros [u [Hl Hu]%map_lookup_filter_Some]. by exists u.
  - intros (u & Hl & Hu). exists u. by apply map_lookup_filter_Some.
Qed.
