(* ===== verification/Registry.v ===== *)
(** * Consumer registry and heartbeat (internal/broker/api/registry.go,
    heartbeat.go)

    The registry is the Broker's only in-memory state.  Its mutex makes every
    operation atomic, so an operation is a function on the map.  The heartbeat
    handler is the one writer; it returns the new registry beside its
    response. *)
From stdpp Require Import base gmap strings list sorting.
From Stdlib Require Import ZArith Lia.
From S2P Require Import Prelude ApiTypes Chunk Wire Kube MemServer.
Import GoFloat.

Open Scope Z_scope.

Record ConsumerEntry := mkEntry {
  ce_ClusterID : string;
  ce_LiqoClusterID : string;
  ce_LastSeen : Time;
  ce_Placement : PlacementPolicy;
  ce_Region : string;
  ce_City : string;
  ce_MeasuredLatencies : gmap string float64;
  ce_ChosenProvider : string;
  ce_DecidedBy : string;
  ce_Latitude : float64;
  ce_Longitude : float64;
  ce_HasLocation : bool
}.

(** The zero [ConsumerEntry], which a missed lookup returns. *)
Definition entry_zero : ConsumerEntry :=
  mkEntry "" "" 0 (mkPolicy "") "" "" ∅ "" "" fzero fzero false.

Abbreviation ConsumerRegistry := (gmap string ConsumerEntry) (only parsing).

Definition NewConsumerRegistry : ConsumerRegistry := ∅.

(** [Touch] at time [t]. *)
Definition Touch (clusterID liqoClusterID : string) (placement : PlacementPolicy)
    (region city : string) (lat lon : option float64) (t : Time)
    (r : ConsumerRegistry) : ConsumerRegistry :=
  let '(la, lo, has) :=
    match lat, lon with
    | Some la, Some lo => (la, lo, true)
    | _, _ => (fzero, fzero, false)
    end in
  <[clusterID := mkEntry clusterID liqoClusterID t placement region city ∅ "" "" la lo has]> r.

Definition SetDecision (clusterID : string) (rtts : gmap string float64)
    (chosen decidedBy : string) (r : ConsumerRegistry) : ConsumerRegistry :=
  match r !! clusterID with
  | None => r
  | Some e =>
      <[clusterID := mkEntry (ce_ClusterID e) (ce_LiqoClusterID e) (ce_LastSeen e)
          (ce_Placement e) (ce_Region e) (ce_City e) rtts chosen decidedBy
          (ce_Latitude e) (ce_Longitude e) (ce_HasLocation e)]> r
  end.

Definition Lookup (clusterID : string) (r : ConsumerRegistry) : ConsumerEntry * bool :=
  match r !! clusterID with
  | Some e => (e, true)
  | None => (entry_zero, false)
  end.

(** [Snapshot]: the entries in the map's iteration order, sorted by cluster
    ID ([order] is any enumeration of the map's values). *)
Definition Snapshot (order : list ConsumerEntry) : list ConsumerEntry :=
  GoSort.SliceStable (λ a b, GoStr.str_lt (ce_ClusterID a) (ce_ClusterID b)) order.

Definition DecidedByLocal : string := "local".

Definition validateHeartbeatRequest (req : HeartbeatRequest) : option Err :=
  if decide (hb_ClusterID req = "") then Some (errors_New "clusterId is required")
  else if decide (hb_LiqoClusterID req = "") then Some (errors_New "liqoClusterId is required")
  else if decide (hb_DecidedBy req ≠ "" ∧ hb_DecidedBy req ≠ DecidedByLocal) then
    Some (errors_New ("decidedBy must be empty or " +:+ GoStr.fmt_q DecidedByLocal +:+
                      ", got " +:+ GoStr.fmt_q (hb_DecidedBy req)))
  else None.

Section Heartbeat.
Context `{Platform}.

(** [handleHeartbeat]: the new registry and the response, whose body is the
    acknowledgement time. *)
Definition handleHeartbeat (reg : ConsumerRegistry) (requestID clusterID : string)
    (body : Res HeartbeatRequest) : prog (ConsumerRegistry * Response Time) :=
  match body with
  | Fail e => mret (reg, fail_with StatusBadRequest ErrCodeInvalidRequest (e_msg e) requestID)
  | Ok req =>
      match validateHeartbeatRequest req with
      | Some e => mret (reg, fail_with StatusBadRequest ErrCodeInvalidRequest (e_msg e) requestID)
      | None =>
          if decide (hb_ClusterID req = clusterID) then
            let placement := default (mkPolicy "") (hb_Placement req) in
            t ← now;
            let reg := Touch (hb_ClusterID req) (hb_LiqoClusterID req) placement
                         (hb_Region req) (hb_City req) (hb_Latitude req) (hb_Longitude req) t reg in
            let reg := SetDecision (hb_ClusterID req) (hb_MeasuredLatencies req)
                         (hb_ChosenProvider req) (hb_DecidedBy req) reg in
            ack ← now;
            mret (reg, JSON StatusOK ack)
          else
            mret (reg, fail_with StatusForbidden ErrCodeForbidden
              ("body.clusterId " +:+ GoStr.fmt_q (hb_ClusterID req) +:+
               " does not match certificate CN " +:+ GoStr.fmt_q clusterID) requestID)
      end
  end.
End Heartbeat.

(** ** Properties *)

(** Every entry is stored under its own cluster ID. *)
Definition registry_wf (r : ConsumerRegistry) : Prop :=
  ∀ k e, r !! k = Some e → ce_ClusterID e = k ∧ k ≠ "" ∧ ce_LiqoClusterID e ≠ "".

Definition both {A} (a b : option A) : bool :=
  match a, b with Some _, Some _ => true | _, _ => false end.

(** The entry a successful heartbeat leaves. *)
Definition entry_of (req : HeartbeatRequest) (t : Time) : ConsumerEntry :=
  let located := both (hb_Latitude req) (hb_Longitude req) in
  mkEntry (hb_ClusterID req) (hb_LiqoClusterID req) t (default (mkPolicy "") (hb_Placement req))
    (hb_Region req) (hb_City req) (hb_MeasuredLatencies req) (hb_ChosenProvider req)
    (hb_DecidedBy req)
    (if located then default fzero (hb_Latitude req) else fzero)
    (if located then default fzero (hb_Longitude req) else fzero) located.

Lemma SetDecision_Touch req t r :
  SetDecision (hb_ClusterID req) (hb_MeasuredLatencies req) (hb_ChosenProvider req) (hb_DecidedBy req)
    (Touch (hb_ClusterID req) (hb_LiqoClusterID req) (default (mkPolicy "") (hb_Placement req))
       (hb_Region req) (hb_City req) (hb_Latitude req) (hb_Longitude req) t r) =
  <[hb_ClusterID req := entry_of req t]> r.
Proof.
  unfold Touch, SetDecision, entry_of. destruct (hb_Latitude req), (hb_Longitude req); simpl;
    rewrite lookup_insert_eq; simpl; by rewrite insert_insert_eq.
Qed.

Lemma registry_wf_insert req t r :
  registry_wf r → validateHeartbeatRequest req = None →
  registry_wf (<[hb_ClusterID req := entry_of req t]> r).
Proof.
  unfold validateHeartbeatRequest. intros Hwf Hv k e.
  rewrite lookup_insert_Some. intros [[<- <-]|[_ ?]]; [|by apply Hwf].
  by repeat case_decide; simplify_eq.
Qed.

Section HeartbeatProofs.
Context `{Platform}.

(** A heartbeat changes no stored object and no other consumer's entry;
    an accepted one came from the cluster it names and replaces exactly that
    entry by the reported values (with a location only when both coordinates
    arrived), so the reservation handler's next lookup finds it; a rejected one
    changes nothing.  Entries stay keyed by their own, non-empty cluster ID. *)
Theorem handleHeartbeat_correct reg requestID clusterID body m :
  registry_wf reg →
  wp reliable (handleHeartbeat reg requestID clusterID body)
    (λ out m', m' = m ∧ registry_wf out.1 ∧
       (∀ k, k ≠ clusterID → out.1 !! k = reg !! k) ∧
       match out.2 with
       | JSON st _ => st = StatusOK ∧ ∃ req t, body = Ok req ∧ hb_ClusterID req = clusterID ∧
           Lookup clusterID out.1 = (entry_of req t, true)
       | Error st _ => out.1 = reg ∧ (st = StatusBadRequest ∨ st = StatusForbidden)
       end) m.
Proof.
  intros Hwf. unfold handleHeartbeat.
  destruct body as [req|e]; [|by apply wp_ret; simpl; split_and!; auto].
  destruct (validateHeartbeatRequest req) eqn:Hv; [by apply wp_ret; simpl; split_and!; auto|].
  case_decide as Hid; [|by apply wp_ret; simpl; split_and!; auto].
  apply wp_bind, wp_now. intros t. apply wp_bind, wp_now. intros ack. apply wp_ret. simpl.
  rewrite SetDecision_Touch. split_and!; [done|by apply registry_wf_insert| |done|].
  - intros k Hk. by rewrite lookup_insert_ne by congruence.
  - exists req, t. split_and!; [done..|]. unfold Lookup. by rewrite Hid, lookup_insert_eq.
Qed.

(** The entries of a well-formed registry have distinct cluster IDs. *)
Lemma registry_ids_nodup reg :
  registry_wf reg → NoDup (ce_ClusterID <$> (map_to_list reg).*2).
Proof.
  intros Hwf. assert (ce_ClusterID <$> (map_to_list reg).*2 = (map_to_list reg).*1) as ->.
  { rewrite <-list_fmap_compose. apply list_fmap_ext. intros i [k e] Hi. simpl.
    apply list_elem_of_lookup_2, elem_of_map_to_list in Hi. by destruct (Hwf _ _ Hi). }
  apply NoDup_fst_map_to_list.
Qed.

(** The registry snapshot does not depend on the iteration order of Go's
    map: every enumeration of the entries gives the same list, sorted by cluster
    ID, with each consumer once. *)
Theorem Snapshot_deterministic reg order :
  registry_wf reg → order ≡ₚ (map_to_list reg).*2 →
  Snapshot order = Snapshot (map_to_list reg).*2 ∧ Snapshot order ≡ₚ (map_to_list reg).*2 ∧
  StronglySorted (λ a b, GoStr.str_lt (ce_ClusterID b) (ce_ClusterID a) = false) (Snapshot order).
Proof.
  intros Hwf Hp. split_and!.
  - apply GoSort.SliceStable_key_unique; [apply _|apply GoStr.str_lt_total|done|].
    rewrite Hp. by apply registry_ids_nodup.
  - unfold Snapshot. by rewrite GoSort.SliceStable_perm.
  - pose proof (GoSort.StrictWeak_key ce_ClusterID GoStr.str_lt (λ _, True) (λ _, True) _ (λ _ _, I)) as Hw.
    apply (GoSort.SliceStable_sorted _ (λ _, True)). by apply Forall_true.
Qed.
End HeartbeatProofs.

Module HeartbeatWitness.
#[local] Existing Instance MilliPlatform.platform.

Definition beat : HeartbeatRequest :=
  mkHeartbeat "consumer-1" "liqo-1" (Some (mkPolicy PlacementStrategyPrice)) "eu" "Turin"
    (Some (fof_Z 45)) (Some (fof_Z 7)) ∅ "" "".

Lemma handleHeartbeat_correct_witness :
  registry_wf ∅ ∧
  let out := run (handleHeartbeat ∅ "req" "consumer-1" (Ok beat)) (mem_init (store_of [] 0)) in
  registry_wf out.1.1 ∧ ce_LiqoClusterID (Lookup "consumer-1" out.1.1).1 = "liqo-1".
Proof.
  assert (registry_wf ∅) as Hwf by (intros k e; by rewrite lookup_empty).
  split; [done|]. split; [|vm_compute; reflexivity].
  pose proof (mem_run _ _ _ 0 (handleHeartbeat_correct ∅ "req" "consumer-1" (Ok beat) (store_of [] 0) Hwf))
    as (_ & Hr & _).
  exact Hr.
Defined.

Lemma Snapshot_deterministic_witness :
  let reg := Touch "b" "lb" (mkPolicy "") "" "" None None 0 (Touch "a" "la" (mkPolicy "") "" "" None None 0 ∅) in
  Snapshot (reverse (map_to_list reg).*2) = Snapshot (map_to_list reg).*2.
Proof.
  intros reg. apply (Snapshot_deterministic reg (reverse (map_to_list reg).*2)); [|apply reverse_Permutation].
  intros k e He. unfold reg, Touch in He. simpl in He.
  apply lookup_insert_Some in He as [[<- <-]|[_ He]]; [done|].
  apply lookup_insert_Some in He as [[<- <-]|[_ He]]; [done|]. by rewrite lookup_empty in He.
Defined.
End HeartbeatWitness.
