(* ===== verification/Placement.v ===== *)
(** * Placement (internal/broker/api/placement.go, nodegroups.go, pricing.go,
    geo.go)

    The node-group projection and the placement policies that mask it.
    [BuildNodeGroups] has no I/O; what it takes from the Go runtime is the order
    in which a map is ranged over and the random number generator
    ([GoRuntime]), so that the theorems quantify over both. *)
From stdpp Require Import base gmap strings list sorting.
From Stdlib Require Import ZArith Lia.
From S2P Require Import Prelude ApiTypes Chunk Wire Registry.
Import GoFloat.

Open Scope Z_scope.

(** [range_keys site keys] is the order in which [for k := range m] visits a
    map with these keys, [site] telling apart the executions of one loop;
    [rand_Intn t n] is the draw of [rand.Intn(n)] made for chunk type [t]. *)
Class GoRuntime := {
  range_keys : nat → list string → list string;
  rand_Intn : string → nat → nat
}.

Class RuntimeLaws `{GoRuntime} : Prop := {
  range_keys_perm : ∀ site l, range_keys site l ≡ₚ l;
  rand_Intn_lt : ∀ t n, (0 < n)%nat → (rand_Intn t n < n)%nat
}.

Section Placement.
Context `{Platform} `{GoRuntime}.

#[global] Instance view_inhabited : Inhabited NodeGroupView :=
  populate (mkView "" "" "" "" 0 0 0 ∅ None None "" fzero false ∅ [] None ∅).
#[global] Instance float_inhabited : Inhabited float64 := populate fzero.

(** ** Pricing *)
Definition memBytesPerGiB : Z := 1024 * 1024 * 1024.

Definition perChunkResourcesWith (sizer : Sizer) (cadv : ClusterAdvertisement) : ResourceList :=
  let results := sizer (cs_Allocatable (cr_spec cadv)) in
  match list_find (λ r, cr_Type r = cs_ClusterType (cr_spec cadv)) results with
  | Some (_, r) => cr_PerChunk r
  | None =>
      match results with
      | r :: _ => cr_PerChunk r
      | [] => ∅
      end
  end.

Definition resourceUnits (name : string) (qty : Quantity) : float64 :=
  if decide (name = ResourceMemory) then
    fdiv (q_AsApproximateFloat64 qty) (fof_Z memBytesPerGiB)
  else q_AsApproximateFloat64 qty.

(** The loop of [perChunkCostWith] over the keys in range order. *)
Fixpoint cost_loop (prices perChunk : ResourceList) (keys : list string) (total : float64) :
  float64 * bool :=
  match keys with
  | [] => (total, true)
  | name :: keys' =>
      match prices !! name with
      | None => (fzero, false)
      | Some price =>
          if q_Sign price <? 0 then (fzero, false)
          else cost_loop prices perChunk keys'
                 (fadd total (fmul (q_AsApproximateFloat64 price)
                                (resourceUnits name (rl_get perChunk name))))
      end
  end.

Definition perChunkCostWith (site : nat) (sizer : Sizer) (cadv : ClusterAdvertisement) :
  float64 * bool :=
  let prices := cs_UnitPrices (cr_spec cadv) in
  if decide (prices = ∅) then (fzero, false)
  else
    let perChunk := perChunkResourcesWith sizer cadv in
    if decide (perChunk = ∅) then (fzero, false)
    else cost_loop prices perChunk (range_keys site (map_to_list perChunk).*1) fzero.

Definition costQuantity (cost : float64) (priced : bool) : option Quantity :=
  if priced then Some (NewMilliQuantity (float_to_int64 (fmul cost (fof_Z 1000)))) else None.

(** ** Geography *)
Definition earthRadiusKm : float64 := fof_Z 6371.

Definition toRad (deg : float64) : float64 := fdiv (fmul deg math_Pi) (fof_Z 180).

Definition HaversineKm (lat1 lon1 lat2 lon2 : float64) : float64 :=
  let phi1 := toRad lat1 in
  let phi2 := toRad lat2 in
  let dPhi := toRad (fsub lat2 lat1) in
  let dLambda := toRad (fsub lon2 lon1) in
  let two := fof_Z 2 in
  let a := fadd (fmul (math_Sin (fdiv dPhi two)) (math_Sin (fdiv dPhi two)))
             (fmul (fmul (fmul (math_Cos phi1) (math_Cos phi2)) (math_Sin (fdiv dLambda two)))
                (math_Sin (fdiv dLambda two))) in
  let c := fmul two (math_Atan2 (fsqrt a) (fsqrt (fsub (fof_Z 1) a))) in
  fmul earthRadiusKm c.

(** Per advertisement: the distance and whether it is usable. *)
Definition consumerProviderDistances (entry : ConsumerEntry) (avail : list ClusterAdvertisement) :
  list float64 * list bool :=
  if ce_HasLocation entry then
    let one cadv :=
      match cs_Topology (cr_spec cadv) with
      | None => (fzero, false)
      | Some t =>
          if feq (tp_Latitude t) fzero && feq (tp_Longitude t) fzero then (fzero, false)
          else (HaversineKm (ce_Latitude entry) (ce_Longitude entry) (tp_Latitude t) (tp_Longitude t),
                true)
      end in
    ((λ c, (one c).1) <$> avail, (λ c, (one c).2) <$> avail)
  else ((λ _, fzero) <$> avail, (λ _, false) <$> avail).

(** ** Carbon *)
Definition ecoWeights : list float64 :=
  [flit 40 100; flit 25 100; flit 15 100; flit 10 100; flit 6 100; flit 4 100].

Definition ecoWeightedScore (forecast : list float64) : float64 * bool :=
  let n := Nat.min (length forecast) (length ecoWeights) in
  if decide (n = 0%nat) then (fzero, false)
  else
    let '(sum, wsum) :=
      foldl (λ '(sum, wsum) i,
               (fadd sum (fmul (ecoWeights !!! i) (forecast !!! i)), fadd wsum (ecoWeights !!! i)))
        (fzero, fzero) (seq 0 n) in
    (fdiv sum wsum, true).

Definition weightedCarbon (cadv : ClusterAdvertisement) : float64 * bool :=
  let '(v, ok) := ecoWeightedScore (cs_CarbonForecast (cr_spec cadv)) in
  if ok then (v, true)
  else
    match cs_CarbonIntensity (cr_spec cadv) with
    | Some c => (c, true)
    | None => (fzero, false)
    end.

(** ** Views *)
Definition nodeGroupView (sizer : Sizer) (cadv : ClusterAdvertisement) (cost : float64)
    (priced : bool) : NodeGroupView :=
  let sp := cr_spec cadv in
  mkView (nodeGroupID (cs_ClusterID sp) (cs_ClusterType sp)) (cs_ClusterID sp)
    (cs_LiqoClusterID sp) (cs_ClusterType sp) 0 (ca_TotalChunks (cr_status cadv))
    (ca_ReservedChunks (cr_status cadv)) (perChunkResourcesWith sizer cadv)
    (costQuantity cost priced) (cs_Topology sp) (cs_ProbeEndpoint sp) fzero false ∅ []
    (cs_CarbonIntensity sp) (cs_UnitPrices sp).

Definition set_sizes (cur max : Z) (v : NodeGroupView) : NodeGroupView :=
  mkView (ng_ID v) (ng_ProviderClusterID v) (ng_ProviderLiqoClusterID v) (ng_Type v)
    (ng_MinSize v) max cur (ng_ChunkResources v) (ng_Cost v) (ng_Topology v)
    (ng_ProbeEndpoint v) (ng_PlacementMetric v) (ng_HasMetric v) (ng_Labels v) (ng_Taints v)
    (ng_CarbonIntensity v) (ng_UnitPrices v).

Definition set_metric (x : float64) (v : NodeGroupView) : NodeGroupView :=
  mkView (ng_ID v) (ng_ProviderClusterID v) (ng_ProviderLiqoClusterID v) (ng_Type v)
    (ng_MinSize v) (ng_MaxSize v) (ng_CurrentReserved v) (ng_ChunkResources v) (ng_Cost v)
    (ng_Topology v) (ng_ProbeEndpoint v) x true (ng_Labels v) (ng_Taints v)
    (ng_CarbonIntensity v) (ng_UnitPrices v).

(** [views[i].MaxSize = views[i].CurrentReserved]. *)
Definition mask (v : NodeGroupView) : NodeGroupView :=
  set_sizes (ng_CurrentReserved v) (ng_CurrentReserved v) v.

(** [views[i].MaxSize - views[i].CurrentReserved > 0], in int32. *)
Definition growable (v : NodeGroupView) : bool :=
  0 <? GoInt.sub32 (ng_MaxSize v) (ng_CurrentReserved v).

Definition setPlacementMetric (views : list NodeGroupView) (values : list float64)
    (has : list bool) : list NodeGroupView :=
  imap (λ (i : nat) (v : NodeGroupView), if (has !!! i : bool) then set_metric (values !!! i) v else v) views.

(** ** Masking

    [byType[t]] and the keys of [byType] in order of first appearance. *)
Definition type_of (views : list NodeGroupView) (i : nat) : ChunkType := ng_Type (views !!! i).

Definition byType (views : list NodeGroupView) (t : ChunkType) : list nat :=
  filter (λ i, type_of views i = t) (seq 0 (length views)).

Definition chunk_types (views : list NodeGroupView) : list ChunkType :=
  remove_dups (ng_Type <$> views).

Definition mask_all (idxs : list nat) (views : list NodeGroupView) : list NodeGroupView :=
  foldl (λ vs i, alter mask i vs) views idxs.

(** [inflight[p]]: a missing key reads false. *)
Definition inflight_of (inflight : gmap string bool) (p : string) : bool :=
  default false (inflight !! p).

Definition rank_less (views : list NodeGroupView) (metric : list float64) (ia ib : nat) : bool :=
  if feq (metric !!! ia) (metric !!! ib) then
    GoStr.str_lt (ng_ProviderClusterID (views !!! ia)) (ng_ProviderClusterID (views !!! ib))
  else flt (metric !!! ia) (metric !!! ib).

Definition ranked (views : list NodeGroupView) (metric : list float64) (has : list bool)
    (idxs : list nat) : list nat :=
  GoSort.SliceStable (rank_less views metric) (filter (λ i, has !!! i = true) idxs).

Inductive Choice := Untouched | Chosen (i : nat) | BlockAll.

(** The walk over the ranked providers of one type. *)
Fixpoint choose (views : list NodeGroupView) (inflight : gmap string bool) (order : list nat) :
  Choice :=
  match order with
  | [] => Untouched
  | i :: order' =>
      if growable (views !!! i) then Chosen i
      else if inflight_of inflight (ng_ProviderClusterID (views !!! i)) then BlockAll
      else choose views inflight order'
  end.

Definition apply_choice (views : list NodeGroupView) (idxs : list nat) (c : Choice) :
  list NodeGroupView :=
  match c with
  | BlockAll => mask_all idxs views
  | Chosen c => mask_all (filter (λ i, i ≠ c) idxs) views
  | Untouched => views
  end.

Definition applyMetricPreference (views : list NodeGroupView) (metric : list float64)
    (has : list bool) (inflight : gmap string bool) : list NodeGroupView :=
  foldl (λ vs t,
           let idxs := byType views t in
           apply_choice vs idxs (choose vs inflight (ranked vs metric has idxs)))
    views (range_keys 0 (chunk_types views)).

Definition applyPricePreference := applyMetricPreference.
Definition applyEcoPreference := applyMetricPreference.

(** The walk of [applyLatencyTopN]: the indices kept so far and whether the
    type is held. *)
Fixpoint shortlist (views : list NodeGroupView) (inflight : gmap string bool) (n : nat)
    (order keep : list nat) : list nat * bool :=
  match order with
  | [] => (keep, false)
  | i :: order' =>
      if bool_decide (n ≤ length keep)%nat then (keep, false)
      else if growable (views !!! i) then shortlist views inflight n order' (keep ++ [i])
      else if bool_decide (keep = []) && inflight_of inflight (ng_ProviderClusterID (views !!! i))
      then (keep, true)
      else shortlist views inflight n order' keep
  end.

Definition apply_shortlist (views : list NodeGroupView) (idxs : list nat)
    (res : list nat * bool) : list NodeGroupView :=
  let '(keep, blocked) := res in
  if blocked then mask_all idxs views
  else match keep with
       | [] => views
       | _ => mask_all (filter (λ j, j ∉ keep) idxs) views
       end.

Definition applyLatencyTopN (views : list NodeGroupView) (distances : list float64)
    (hasDist : list bool) (inflight : gmap string bool) (n : nat) : list NodeGroupView * bool :=
  if existsb id hasDist then
    (foldl (λ vs t,
              let idxs := byType views t in
              apply_shortlist vs idxs (shortlist vs inflight n (ranked vs distances hasDist idxs) []))
       views (range_keys 0 (chunk_types views)), true)
  else (views, false).

Definition latencyShortlistSize : nat := 3.

Definition applyRandomPreference (views : list NodeGroupView) (inflight : gmap string bool) :
  list NodeGroupView :=
  foldl (λ vs t,
           let idxs := byType views t in
           let withCapacity := filter (λ i, growable (vs !!! i) = true) idxs in
           let hasInflight :=
             existsb (λ i, negb (growable (vs !!! i)) &&
                           inflight_of inflight (ng_ProviderClusterID (vs !!! i))) idxs in
           match withCapacity with
           | [] => if hasInflight then mask_all idxs vs else vs
           | _ =>
               let chosen := withCapacity !!! rand_Intn t (length withCapacity) in
               mask_all (filter (λ i, i ≠ chosen) idxs) vs
           end)
    views (range_keys 0 (chunk_types views)).

Definition standardCapacityWeight : float64 := flit 8 10.
Definition standardRenewableWeight : float64 := flit 2 10.

Definition standardMetric (cadv : ClusterAdvertisement) : float64 :=
  let total := ca_TotalChunks (cr_status cadv) in
  let free :=
    if 0 <? total then
      let available := Z.max (GoInt.sub32 total (ca_ReservedChunks (cr_status cadv))) 0 in
      fdiv (fof_Z available) (fof_Z total)
    else fzero in
  let renewable := if cs_Renewable (cr_spec cadv) then fof_Z 1 else fzero in
  let score := fadd (fmul standardCapacityWeight free) (fmul standardRenewableWeight renewable) in
  fsub (fof_Z 1) score.

Definition applyStandardPreference (views : list NodeGroupView) (avail : list ClusterAdvertisement)
    (inflight : gmap string bool) : list NodeGroupView :=
  applyMetricPreference views (standardMetric <$> avail) ((λ _, true) <$> avail) inflight.

(** ** BuildNodeGroups *)
Record PlacementInput := mkPlacementInput {
  in_Advertisements : list ClusterAdvertisement;   (* the non-nil entries *)
  in_Consumer : ConsumerEntry;
  in_InFlight : gmap string bool;
  in_OwnReserved : option (gmap string Z);         (* None is the nil map *)
  in_Sizer : Sizer
}.

(** The view of the [i]-th available advertisement. *)
Definition project (i : nat) (input : PlacementInput) (cadv : ClusterAdvertisement) : NodeGroupView :=
  let '(cost, ok) := perChunkCostWith i (in_Sizer input) cadv in
  let v := nodeGroupView (in_Sizer input) cadv cost ok in
  match in_OwnReserved input with
  | None => v
  | Some m =>
      let own := default 0 (m !! cs_ClusterID (cr_spec cadv)) in
      let free := Z.max (GoInt.sub32 (ca_TotalChunks (cr_status cadv))
                                     (ca_ReservedChunks (cr_status cadv))) 0 in
      set_sizes own (GoInt.add32 own free) v
  end.

Definition view_less (a b : NodeGroupView) : bool :=
  if decide (ng_ProviderClusterID a = ng_ProviderClusterID b) then
    GoStr.str_lt (ng_Type a) (ng_Type b)
  else GoStr.str_lt (ng_ProviderClusterID a) (ng_ProviderClusterID b).

Definition available_ads (input : PlacementInput) : list ClusterAdvertisement :=
  filter (λ c, ca_Available (cr_status c) = true) (in_Advertisements input).

(** The policy switch: the masked views and the shortlist flag. *)
Definition apply_policy (input : PlacementInput) (views : list NodeGroupView) :
  list NodeGroupView * bool :=
  let avail := available_ads input in
  let inflight := in_InFlight input in
  let strategy := pp_Type (ce_Placement (in_Consumer input)) in
  if decide (strategy = PlacementStrategyPrice) then
    let cs := imap (λ i c, perChunkCostWith i (in_Sizer input) c) avail in
    (setPlacementMetric (applyPricePreference views cs.*1 cs.*2 inflight) cs.*1 cs.*2, false)
  else if decide (strategy = PlacementStrategyEco) then
    let cs := weightedCarbon <$> avail in
    (setPlacementMetric (applyEcoPreference views cs.*1 cs.*2 inflight) cs.*1 cs.*2, false)
  else if decide (strategy = PlacementStrategyRandom) then
    (applyRandomPreference views inflight, false)
  else if decide (strategy = PlacementStrategyLatency) then
    let '(distances, hasDist) := consumerProviderDistances (in_Consumer input) avail in
    let '(vs, short) := applyLatencyTopN views distances hasDist inflight latencyShortlistSize in
    (setPlacementMetric vs distances hasDist, short)
  else if decide (strategy = PlacementStrategyConsumerChoice) then (views, false)
  else (applyStandardPreference views avail inflight, false).

(** [BuildNodeGroups] served at time [t]. *)
Definition BuildNodeGroups (input : PlacementInput) (t : Time) : NodeGroupListResponse :=
  let views := imap (λ i c, project i input c) (available_ads input) in
  let '(vs, short) := apply_policy input views in
  mkNodeGroupList (GoSort.SliceStable view_less vs) short
    (pp_Type (ce_Placement (in_Consumer input))) 0 t 0.

End Placement.
