(* ===== verification/PlacementProofs.v ===== *)
(** * Placement: properties

    The masking loops rewrite shared views while they range over a Go map.
    [type_fold] reduces each of them to a pointwise description that mentions
    neither the iteration order nor intermediate states; the policies'
    properties follow from it. *)
From stdpp Require Import base gmap strings list sorting.
From Stdlib Require Import ZArith Lia.
From S2P Require Import Prelude ApiTypes Chunk Wire Registry Placement.
Import GoFloat.

Open Scope Z_scope.

Section Masking.
Context `{Platform}.
Implicit Types views vs out : list NodeGroupView.
Implicit Types (metric distances : list float64) (has hasDist : list bool) (inflight : gmap string bool).
Implicit Types t : ChunkType.

Lemma mask_growable v : growable (mask v) = false.
Proof.
  unfold growable, mask, set_sizes, GoInt.sub32; simpl. rewrite Z.sub_diag.
  by rewrite GoInt.to_int32_id by (split; vm_compute; discriminate).
Qed.

Lemma mask_mask v : mask (mask v) = mask v.
Proof. done. Qed.

Lemma mask_all_lookup idxs vs j :
  mask_all idxs vs !! j = (if decide (j ∈ idxs) then mask else id) <$> vs !! j.
Proof.
  unfold mask_all. revert vs. induction idxs as [|i idxs IH]; intros vs; cbn [foldl].
  - rewrite decide_False by apply not_elem_of_nil. by rewrite option_fmap_id.
  - rewrite IH. destruct (decide (i = j)) as [->|Hne].
    + rewrite list_lookup_alter_eq, (decide_True (P:=j ∈ j :: idxs)) by constructor.
      case_decide; by destruct (vs !! j).
    + rewrite list_lookup_alter_ne by done.
      rewrite (decide_ext (j ∈ i :: idxs) (j ∈ idxs)); [done|].
      rewrite elem_of_cons. split; [intros [?|?]; congruence|by right].
Qed.

Lemma elem_of_byType views t i :
  i ∈ byType views t ↔ (i < length views)%nat ∧ type_of views i = t.
Proof. unfold byType. rewrite list_elem_of_filter, elem_of_seq. split; intros [??]; (split; [lia || done|lia || done]). Qed.

Lemma type_in_chunk_types views i :
  (i < length views)%nat → type_of views i ∈ chunk_types views.
Proof.
  intros Hi. unfold chunk_types, type_of. apply elem_of_remove_dups, list_elem_of_fmap.
  exists (views !!! i). split; [done|]. by apply list_elem_of_lookup_total_2.
Qed.

(** *** One loop over the types

    [sel t vs] are the indices the loop body masks for type [t]. *)
Section TypeFold.
Context (views : list NodeGroupView) (sel : ChunkType → list NodeGroupView → list nat).
Hypothesis sel_sub : ∀ t vs i, i ∈ sel t vs → i ∈ byType views t.
Hypothesis sel_ext : ∀ t vs,
  (∀ i, type_of views i = t → vs !!! i = views !!! i) →
  (∀ i, ng_ProviderClusterID (vs !!! i) = ng_ProviderClusterID (views !!! i)) →
  sel t vs = sel t views.

Lemma type_fold_lookup l j :
  NoDup l →
  foldl (λ vs t, mask_all (sel t vs) vs) views l !! j =
  (if decide (type_of views j ∈ l ∧ j ∈ sel (type_of views j) views) then mask else id)
    <$> views !! j.
Proof.
  revert j. induction l as [|t l IH] using rev_ind; intros j Hnd.
  - cbn [foldl]. rewrite decide_False by (intros [?%not_elem_of_nil _]; done). by rewrite option_fmap_id.
  - apply NoDup_app in Hnd as (Hnd & Hdisj & _).
    assert (t ∉ l) as Ht by (intros Hin; apply (Hdisj t Hin); by constructor).
    rewrite foldl_snoc, mask_all_lookup.
    set (vs := foldl _ views l) in *. rewrite (IH j Hnd).
    assert (sel t vs = sel t views) as ->.
    { apply sel_ext; intros i; rewrite !list_lookup_total_alt, (IH i Hnd).
      - intros <-. rewrite decide_False by tauto. by rewrite option_fmap_id.
      - case_decide; by destruct (views !! i). }
    destruct (decide (j ∈ sel t views)) as [Hj|Hj].
    + pose proof (sel_sub _ _ _ Hj) as [_ Ety]%elem_of_byType. rewrite Ety.
      rewrite (decide_False (P := t ∈ l ∧ _)) by tauto.
      rewrite (decide_True (P := t ∈ l ++ [t] ∧ _))
        by (split; [apply elem_of_app; right; by constructor|done]).
      by rewrite option_fmap_id.
    + rewrite option_fmap_id.
      rewrite (decide_ext (type_of views j ∈ l ++ [t] ∧ j ∈ sel (type_of views j) views)
                 (type_of views j ∈ l ∧ j ∈ sel (type_of views j) views)); [done|].
      rewrite elem_of_app, list_elem_of_singleton. split; [|tauto].
      intros [[?|E] Hs]; [done|]. by rewrite E in Hs.
Qed.

(** The loop masks exactly the selected indices, in any range order. *)
Lemma type_fold l :
  l ≡ₚ chunk_types views →
  foldl (λ vs t, mask_all (sel t vs) vs) views l =
  imap (λ i v, if decide (i ∈ sel (ng_Type v) views) then mask v else v) views.
Proof.
  intros Hperm. apply list_eq. intros j.
  rewrite type_fold_lookup by (rewrite Hperm; apply NoDup_remove_dups).
  rewrite list_lookup_imap. destruct (views !! j) as [v|] eqn:Hv; simpl; [|done]. f_equal.
  assert (type_of views j = ng_Type v) as ->.
  { unfold type_of. by rewrite (list_lookup_total_correct _ _ _ Hv). }
  assert (ng_Type v ∈ l) as Hin.
  { rewrite Hperm. apply elem_of_remove_dups, list_elem_of_fmap.
    exists v. split; [done|]. by eapply list_elem_of_lookup_2. }
  rewrite (decide_ext (ng_Type v ∈ l ∧ j ∈ sel (ng_Type v) views) (j ∈ sel (ng_Type v) views))
    by tauto.
  by case_decide.
Qed.
End TypeFold.

(** ** Reading the masked list *)
Definition masked_by (sel : ChunkType → list nat) views : list NodeGroupView :=
  imap (λ i v, if decide (i ∈ sel (ng_Type v)) then mask v else v) views.

Lemma masked_by_lookup sel views i :
  (i < length views)%nat →
  masked_by sel views !!! i =
  if decide (i ∈ sel (type_of views i)) then mask (views !!! i) else views !!! i.
Proof.
  intros Hi. unfold masked_by, type_of. destruct (lookup_lt_is_Some_2 _ _ Hi) as [v Hv].
  rewrite (list_lookup_total_correct _ _ _ Hv). apply list_lookup_total_correct.
  by rewrite list_lookup_imap, Hv.
Qed.

Lemma masked_by_length sel views : length (masked_by sel views) = length views.
Proof. apply length_imap. Qed.

Lemma masked_by_growable sel views i :
  (i < length views)%nat →
  growable (masked_by sel views !!! i) =
  if decide (i ∈ sel (type_of views i)) then false else growable (views !!! i).
Proof. intros Hi. rewrite masked_by_lookup by done. case_decide; [apply mask_growable|done]. Qed.

(** ** Ranking *)
Lemma rank_weak views (metric : list float64) (has : list bool) :
  (∀ i, has !!! i = true → is_nan (metric !!! i) = false) →
  GoSort.StrictWeak (rank_less views metric) (λ i, has !!! i = true).
Proof.
  intros Hnan. unfold rank_less.
  apply (flt_lex_weak (λ i, metric !!! i)
    (λ ia ib, GoStr.str_lt (ng_ProviderClusterID (views !!! ia)) (ng_ProviderClusterID (views !!! ib))));
    [|done].
  apply (GoSort.StrictWeak_key (λ i, ng_ProviderClusterID (views !!! i)) GoStr.str_lt _ (λ _, True));
    [apply _|done].
Qed.

Lemma elem_of_ranked views metric has t i :
  i ∈ ranked views metric has (byType views t) ↔
  (i < length views)%nat ∧ type_of views i = t ∧ has !!! i = true.
Proof.
  unfold ranked. rewrite GoSort.SliceStable_elem, list_elem_of_filter, elem_of_byType. tauto.
Qed.

Lemma ranked_ext views vs metric has idxs :
  (∀ i, ng_ProviderClusterID (vs !!! i) = ng_ProviderClusterID (views !!! i)) →
  ranked vs metric has idxs = ranked views metric has idxs.
Proof.
  intros Hn. apply GoSort.SliceStable_less_ext. intros a b. unfold rank_less. by rewrite !Hn.
Qed.

(** A provider with neither head-room nor a reservation being set up. *)
Definition exhausted views (inflight : gmap string bool) (i : nat) : Prop :=
  growable (views !!! i) = false ∧
  inflight_of inflight (ng_ProviderClusterID (views !!! i)) = false.

Definition settling views (inflight : gmap string bool) (i : nat) : Prop :=
  growable (views !!! i) = false ∧
  inflight_of inflight (ng_ProviderClusterID (views !!! i)) = true.

Lemma choose_ext views vs inflight order :
  (∀ i, i ∈ order → vs !!! i = views !!! i) → choose vs inflight order = choose views inflight order.
Proof.
  induction order as [|i order IH]; intros E; simpl; [done|].
  rewrite (E i) by constructor. rewrite IH; [done|]. intros j Hj. apply E. by constructor.
Qed.

Lemma choose_spec views inflight order :
  match choose views inflight order with
  | Untouched => ∀ j, j ∈ order → exhausted views inflight j
  | Chosen i => ∃ l1 l2, order = l1 ++ i :: l2 ∧ growable (views !!! i) = true ∧
      ∀ j, j ∈ l1 → exhausted views inflight j
  | BlockAll => ∃ l1 i l2, order = l1 ++ i :: l2 ∧ settling views inflight i ∧
      ∀ j, j ∈ l1 → exhausted views inflight j
  end.
Proof.
  induction order as [|i order IH]; simpl.
  - by intros j ?%elem_of_nil.
  - destruct (growable (views !!! i)) eqn:Hg.
    { exists [], order. split_and!; [done..|]. by intros j ?%elem_of_nil. }
    destruct (inflight_of _ _) eqn:Hf.
    { exists [], i, order. split_and!; [done..|]. by intros j ?%elem_of_nil. }
    destruct (choose views inflight order) as [|c|].
    + intros j [->|Hj]%elem_of_cons; [done|auto].
    + destruct IH as (l1 & l2 & -> & ? & Hl). exists (i :: l1), l2.
      split_and!; [done..|]. intros j [->|Hj]%elem_of_cons; [done|auto].
    + destruct IH as (l1 & b & l2 & -> & ? & Hl). exists (i :: l1), b, l2.
      split_and!; [done..|]. intros j [->|Hj]%elem_of_cons; [done|auto].
Qed.

Definition choice_sel (idxs : list nat) (c : Choice) : list nat :=
  match c with
  | BlockAll => idxs
  | Chosen c => filter (λ i, i ≠ c) idxs
  | Untouched => []
  end.

Definition metric_sel views metric has inflight (t : ChunkType) : list nat :=
  choice_sel (byType views t) (choose views inflight (ranked views metric has (byType views t))).

Lemma metric_sel_sub idxs c i : i ∈ choice_sel idxs c → i ∈ idxs.
Proof.
  destruct c; simpl; [by intros ?%elem_of_nil|intros [_ ?]%list_elem_of_filter; done|done].
Qed.

Section Runtime.
Context `{GoRuntime} `{!RuntimeLaws}.

(** The map-ordered, in-place masking is the pointwise one. *)
Lemma applyMetricPreference_pointwise views metric has inflight :
  applyMetricPreference views metric has inflight =
  masked_by (metric_sel views metric has inflight) views.
Proof.
  unfold applyMetricPreference.
  rewrite (foldl_ext _ (λ vs t, mask_all
    (choice_sel (byType views t) (choose vs inflight (ranked vs metric has (byType views t)))) vs))
    by (intros vs t; unfold apply_choice; by destruct (choose _ _ _)).
  apply (type_fold views (λ t vs, choice_sel (byType views t)
    (choose vs inflight (ranked vs metric has (byType views t))))).
  - intros t vs i. apply metric_sel_sub.
  - intros t vs Hty Hn. rewrite (ranked_ext views vs) by done. f_equal. apply choose_ext.
    intros i Hi. apply Hty. by apply elem_of_ranked in Hi as (_ & ? & _).
  - apply range_keys_perm.
Qed.

(** [i] is the index of a view of chunk type [t]. *)
Definition of_type views (t : ChunkType) (i : nat) : Prop :=
  (i < length views)%nat ∧ type_of views i = t.

Definition untouched_type views out t : Prop :=
  ∀ i, of_type views t i → out !!! i = views !!! i.

Definition held_type views out t : Prop :=
  ∀ i, of_type views t i → growable (out !!! i) = false.

(** What the greedy masking may do to one chunk type. *)
Inductive greedy_outcome views metric has inflight out t : Prop :=
| greedy_untouched :
    untouched_type views out t →
    (∀ i, of_type views t i → has !!! i = true → exhausted views inflight i) →
    greedy_outcome views metric has inflight out t
| greedy_winner w :
    of_type views t w → has !!! w = true → growable (views !!! w) = true →
    out !!! w = views !!! w →
    (∀ i, of_type views t i → i ≠ w → growable (out !!! i) = false) →
    (∀ i, of_type views t i → has !!! i = true → rank_less views metric i w = true →
       exhausted views inflight i) →
    greedy_outcome views metric has inflight out t
| greedy_held b :
    of_type views t b → has !!! b = true → settling views inflight b →
    held_type views out t →
    (∀ i, of_type views t i → has !!! i = true → rank_less views metric i b = true →
       exhausted views inflight i) →
    greedy_outcome views metric has inflight out t.

Lemma ranked_better_before views metric has t l1 b l2 i :
  (∀ i, has !!! i = true → is_nan (metric !!! i) = false) →
  ranked views metric has (byType views t) = l1 ++ b :: l2 →
  of_type views t i → has !!! i = true → rank_less views metric i b = true → i ∈ l1.
Proof.
  intros Hnan E [Hi Hty] Hhas Hless. pose proof (rank_weak views metric has Hnan) as Hw.
  assert (i ∈ l1 ++ b :: l2) as Hin by (rewrite <-E; by apply elem_of_ranked).
  assert (has !!! b = true) as Hb.
  { assert (b ∈ l1 ++ b :: l2) as Hb by (apply elem_of_app; right; constructor).
    rewrite <-E in Hb. by apply elem_of_ranked in Hb as (_ & _ & ?). }
  destruct (decide (i ∈ l1)) as [|Hn]; [done|exfalso].
  assert (GoSort.sorted_by (rank_less views metric) (l1 ++ b :: l2)) as Hs.
  { rewrite <-E. apply (GoSort.SliceStable_sorted _ (λ i, has !!! i = true)).
    apply Forall_forall. intros j Hj. apply list_elem_of_filter in Hj. tauto. }
  pose proof (GoSort.sorted_first_min (rank_less views metric) (λ i, has !!! i = true)
    (λ j, negb (bool_decide (j ∈ l1))) l1 b l2 Hb Hs) as Hmin.
  rewrite (Hmin) in Hless; [done| |done|by rewrite bool_decide_eq_false_2].
  intros y Hy. by rewrite bool_decide_eq_true_2.
Qed.

(** C29: Whatever the map iteration order, greedy masking (Price, Eco, Standard)
    leaves each chunk type in one of three states: untouched, and then no
    provider with a metric has head-room or a reservation in flight; narrowed
    to one provider that has a metric and head-room, every better-ranked one
    being full and settled; or held with nothing growable because the
    best-ranked provider that is not exhausted is full and still peering. *)
Theorem applyMetricPreference_greedy views metric has inflight t :
  (∀ i, has !!! i = true → is_nan (metric !!! i) = false) →
  greedy_outcome views metric has inflight
    (applyMetricPreference views metric has inflight) t.
Proof.
  intros Hnan. rewrite applyMetricPreference_pointwise.
  pose proof (choose_spec views inflight (ranked views metric has (byType views t))) as Hc.
  assert (∀ i, of_type views t i → metric_sel views metric has inflight (type_of views i) =
    choice_sel (byType views t) (choose views inflight (ranked views metric has (byType views t))))
    as Hsel by (intros i [_ <-]; done).
  destruct (choose _ _ _) as [|w|].
  - apply greedy_untouched.
    + intros i Hi. rewrite masked_by_lookup, (Hsel i Hi) by apply Hi.
      rewrite decide_False; [done|apply not_elem_of_nil].
    + intros i [Hi Hty] Hh. apply Hc. by apply elem_of_ranked.
  - destruct Hc as (l1 & l2 & E & Hg & Hl).
    assert (w ∈ ranked views metric has (byType views t)) as Hw
      by (rewrite E; apply elem_of_app; right; constructor).
    apply elem_of_ranked in Hw as (Hw & Hty & Hh).
    apply (greedy_winner _ _ _ _ _ _ w); [done..| | |].
    + rewrite masked_by_lookup, (Hsel w) by done. rewrite decide_False; [done|].
      simpl. intros [? _]%list_elem_of_filter. done.
    + intros i Hi Hne. rewrite masked_by_growable, (Hsel i) by (done || apply Hi).
      rewrite decide_True; [done|]. simpl. apply list_elem_of_filter. split; [done|].
      apply elem_of_byType, Hi.
    + intros i Hi Hhi Hless. apply Hl. by eapply ranked_better_before.
  - destruct Hc as (l1 & b & l2 & E & Hb & Hl).
    assert (b ∈ ranked views metric has (byType views t)) as Hin
      by (rewrite E; apply elem_of_app; right; constructor).
    apply elem_of_ranked in Hin as (Hlt & Hty & Hh).
    apply (greedy_held _ _ _ _ _ _ b); [done..| |].
    + intros i Hi. rewrite masked_by_growable, (Hsel i) by (done || apply Hi).
      rewrite decide_True; [done|]. simpl. apply elem_of_byType, Hi.
    + intros i Hi Hhi Hless. apply Hl. by eapply ranked_better_before.
Qed.

(** Greedy masking only removes options: it returns one view per input
    view, and each is either the input view or the input view with its maximum
    lowered to what is already reserved. *)
Theorem applyMetricPreference_additive views metric has inflight :
  Forall2 (λ v v', v' = v ∨ v' = mask v) views (applyMetricPreference views metric has inflight).
Proof.
  rewrite applyMetricPreference_pointwise. unfold masked_by.
  generalize (metric_sel views metric has inflight). clear. intros sel.
  apply Forall2_same_length_lookup_2; [by rewrite length_imap|].
  intros i x y. rewrite list_lookup_imap. destruct (views !! i) as [v|]; simpl; [|done].
  intros [= <-] [= <-]. case_decide; auto.
Qed.

(** ** The latency shortlist *)
Definition with_room views (l : list nat) : list nat :=
  filter (λ i, growable (views !!! i) = true) l.

Lemma with_room_nil views keep : keep ++ with_room views [] = keep.
Proof. apply app_nil_r. Qed.

Lemma shortlist_ext views vs inflight n order keep :
  (∀ i, i ∈ order → vs !!! i = views !!! i) →
  shortlist vs inflight n order keep = shortlist views inflight n order keep.
Proof.
  revert keep. induction order as [|i order IH]; intros keep E; simpl; [done|].
  rewrite (E i) by constructor. rewrite !IH; [done|intros j Hj; apply E; by constructor..].
Qed.

Lemma shortlist_spec views inflight n order keep :
  (length keep ≤ n)%nat →
  let '(k, blocked) := shortlist views inflight n order keep in
  if blocked then
    keep = [] ∧ ∃ l1 i l2, order = l1 ++ i :: l2 ∧ settling views inflight i ∧
      ∀ j, j ∈ l1 → exhausted views inflight j
  else ∃ l1 l2, order = l1 ++ l2 ∧ k = keep ++ with_room views l1 ∧ (length k ≤ n)%nat ∧
      (l2 = [] ∨ length k = n) ∧
      (k = [] → ∀ j, j ∈ l1 → exhausted views inflight j).
Proof.
  revert keep. induction order as [|i order IH]; intros keep Hk; simpl.
  - exists [], []. rewrite with_room_nil. split_and!; [done..|by left|]. by intros _ j ?%elem_of_nil.
  - case_bool_decide as Hn.
    { exists [], (i :: order). rewrite with_room_nil. split_and!; [done..|right; lia|].
      by intros _ j ?%elem_of_nil. }
    destruct (growable (views !!! i)) eqn:Hg.
    { specialize (IH (keep ++ [i])). rewrite length_app in IH. simpl in IH.
      specialize (IH ltac:(lia)). destruct (shortlist _ _ _ _ _) as [k []].
      - destruct IH as [E _]. by destruct keep.
      - destruct IH as (l1 & l2 & -> & -> & ? & ? & _). exists (i :: l1), l2.
        assert (keep ++ with_room views (i :: l1) = (keep ++ [i]) ++ with_room views l1) as E
          by (unfold with_room; rewrite filter_cons_True, <-app_assoc; done).
        rewrite E. split_and!; [done..|]. by destruct keep. }
    destruct (bool_decide (keep = []) && _) eqn:Hb.
    { apply andb_prop in Hb as [->%bool_decide_eq_true_1 Hf]. split; [done|].
      exists [], i, order. split_and!; [done..|]. by intros j ?%elem_of_nil. }
    specialize (IH keep Hk). destruct (shortlist _ _ _ _ _) as [k []].
    + destruct IH as (-> & l1 & b & l2 & -> & ? & Hl). split; [done|]. exists (i :: l1), b, l2.
      split_and!; [done..|]. rewrite bool_decide_eq_true_2 in Hb by done. simpl in Hb.
      intros j [->|Hj]%elem_of_cons; [done|auto].
    + destruct IH as (l1 & l2 & -> & -> & ? & ? & Hl). exists (i :: l1), l2.
      assert (with_room views (i :: l1) = with_room views l1) as E
        by (unfold with_room; rewrite filter_cons_False; [done|by rewrite Hg]).
      rewrite E. split_and!; [done..|]. intros Enil. specialize (Hl Enil).
      apply app_eq_nil in Enil as [-> _]. rewrite bool_decide_eq_true_2 in Hb by done. simpl in Hb.
      intros j [->|Hj]%elem_of_cons; [done|auto].
Qed.

Definition shortlist_sel (idxs : list nat) (res : list nat * bool) : list nat :=
  let '(keep, blocked) := res in
  if blocked then idxs
  else match keep with [] => [] | _ => filter (λ j, j ∉ keep) idxs end.

Definition latency_sel views distances hasDist inflight n t : list nat :=
  shortlist_sel (byType views t)
    (shortlist views inflight n (ranked views distances hasDist (byType views t)) []).

Lemma shortlist_sel_sub idxs r i : i ∈ shortlist_sel idxs r → i ∈ idxs.
Proof.
  destruct r as [[|k0 keep] []]; simpl; try done; [by intros ?%elem_of_nil|].
  intros [_ ?]%list_elem_of_filter. done.
Qed.

Lemma applyLatencyTopN_pointwise views distances hasDist inflight n :
  existsb id hasDist = true →
  applyLatencyTopN views distances hasDist inflight n =
  (masked_by (latency_sel views distances hasDist inflight n) views, true).
Proof.
  intros Hd. unfold applyLatencyTopN. rewrite Hd. f_equal.
  rewrite (foldl_ext _ (λ vs t, mask_all (shortlist_sel (byType views t)
    (shortlist vs inflight n (ranked vs distances hasDist (byType views t)) [])) vs))
    by (intros vs t; unfold apply_shortlist; by destruct (shortlist _ _ _ _ _) as [[|??] []]).
  apply (type_fold views (λ t vs, shortlist_sel (byType views t)
    (shortlist vs inflight n (ranked vs distances hasDist (byType views t)) []))).
  - intros t vs i. apply shortlist_sel_sub.
  - intros t vs Hty Hn. rewrite (ranked_ext views vs) by done. f_equal. apply shortlist_ext.
    intros i Hi. apply Hty. by apply elem_of_ranked in Hi as (_ & ? & _).
  - apply range_keys_perm.
Qed.

(** What the latency policy may do to one chunk type. *)
Inductive shortlist_outcome views distances hasDist inflight n out t : Prop :=
| short_untouched :
    untouched_type views out t →
    (∀ i, of_type views t i → hasDist !!! i = true → exhausted views inflight i) →
    shortlist_outcome views distances hasDist inflight n out t
| short_kept keep :
    (0 < length keep ≤ n)%nat → NoDup keep →
    (∀ i, i ∈ keep → of_type views t i ∧ hasDist !!! i = true ∧ growable (views !!! i) = true) →
    (∀ i, of_type views t i → growable (out !!! i) = true ↔ i ∈ keep) →
    (∀ i k, of_type views t i → hasDist !!! i = true → growable (views !!! i) = true →
       i ∉ keep → k ∈ keep → length keep = n ∧ rank_less views distances i k = false) →
    shortlist_outcome views distances hasDist inflight n out t
| short_held b :
    of_type views t b → hasDist !!! b = true → settling views inflight b →
    held_type views out t →
    (∀ i, of_type views t i → hasDist !!! i = true → rank_less views distances i b = true →
       exhausted views inflight i) →
    shortlist_outcome views distances hasDist inflight n out t.

Lemma ranked_NoDup views metric has t : NoDup (ranked views metric has (byType views t)).
Proof.
  unfold ranked. rewrite GoSort.SliceStable_perm. unfold byType. by apply NoDup_filter, NoDup_filter, NoDup_seq.
Qed.

Lemma ranked_app_order views metric has t l1 l2 i k :
  (∀ i, has !!! i = true → is_nan (metric !!! i) = false) →
  ranked views metric has (byType views t) = l1 ++ l2 →
  k ∈ l1 → i ∈ l2 → rank_less views metric i k = false.
Proof.
  intros Hnan E Hk Hi. pose proof (rank_weak views metric has Hnan) as Hw.
  refine (StronglySorted_app_1_elem_of (λ a b, rank_less views metric b a = false) l1 l2 k i _ Hk Hi).
  rewrite <-E. apply (GoSort.SliceStable_sorted _ (λ i, has !!! i = true)).
  apply Forall_forall. intros j Hj. apply list_elem_of_filter in Hj. tauto.
Qed.

(** What holds of the shortlist [keep] that [shortlist] returns after reading
    the prefix [l1] of the ranked providers. *)
Lemma shortlist_members views distances hasDist t l1 l2 keep :
  ranked views distances hasDist (byType views t) = l1 ++ l2 →
  keep = filter (λ i, growable (views !!! i) = true) l1 →
  NoDup keep ∧ ∀ i, i ∈ keep → of_type views t i ∧ hasDist !!! i = true ∧
    growable (views !!! i) = true ∧ i ∈ l1.
Proof.
  intros E ->. split.
  - apply NoDup_filter. pose proof (ranked_NoDup views distances hasDist t) as Hnd.
    rewrite E in Hnd. by apply NoDup_app in Hnd as [? _].
  - intros i Hi. apply list_elem_of_filter in Hi as [Hg Hi].
    assert (i ∈ ranked views distances hasDist (byType views t)) as Hr
      by (rewrite E; apply elem_of_app; by left).
    apply elem_of_ranked in Hr as (? & ? & ?). done.
Qed.

(** A non-empty shortlist masks exactly the providers outside it. *)
Lemma shortlist_sel_growable views t keep i :
  keep ≠ [] → of_type views t i → (i ∈ keep → growable (views !!! i) = true) →
  (if decide (i ∈ shortlist_sel (byType views t) (keep, false)) then false
   else growable (views !!! i)) = true ↔ i ∈ keep.
Proof.
  intros Hne Hi Hg.
  assert (shortlist_sel (byType views t) (keep, false) = filter (λ j, j ∉ keep) (byType views t))
    as -> by (by destruct keep).
  case_decide as Hd; [by apply list_elem_of_filter in Hd as [Hd _]|]. split; [|done].
  intros _. destruct (decide (i ∈ keep)) as [|Hni]; [done|].
  destruct Hd. apply list_elem_of_filter. split; [done|]. by apply elem_of_byType.
Qed.

(** With a located consumer, and whatever the map iteration order, the
    latency policy leaves each chunk type untouched (no located provider has
    head-room or is settling), held, or narrowed to a non-empty shortlist of at
    most [n] providers: exactly the shortlisted ones stay growable, and a
    located provider with head-room is left out only when the shortlist is full
    of providers that are not further away. *)
Theorem applyLatencyTopN_shortlist views distances hasDist inflight n t :
  (∀ i, hasDist !!! i = true → is_nan (distances !!! i) = false) →
  existsb id hasDist = true → (0 < n)%nat →
  shortlist_outcome views distances hasDist inflight n
    (applyLatencyTopN views distances hasDist inflight n).1 t.
Proof.
  intros Hnan Hd Hn. rewrite applyLatencyTopN_pointwise by done. simpl.
  pose proof (shortlist_spec views inflight n
    (ranked views distances hasDist (byType views t)) [] ltac:(simpl; lia)) as Hs.
  assert (∀ i, of_type views t i → latency_sel views distances hasDist inflight n (type_of views i) =
    shortlist_sel (byType views t)
      (shortlist views inflight n (ranked views distances hasDist (byType views t)) []))
    as Hsel by (intros i [_ <-]; done).
  destruct (shortlist _ _ _ _ _) as [keep []].
  - destruct Hs as (_ & l1 & b & l2 & E & Hb & Hl).
    assert (b ∈ ranked views distances hasDist (byType views t)) as Hin
      by (rewrite E; apply elem_of_app; right; constructor).
    apply elem_of_ranked in Hin as (Hlt & Hty & Hh).
    apply (short_held _ _ _ _ _ _ _ b); [done..| |].
    + intros i Hi. rewrite masked_by_growable, (Hsel i) by (done || apply Hi).
      rewrite decide_True; [done|]. simpl. apply elem_of_byType, Hi.
    + intros i Hi Hhi Hless. apply Hl. by eapply ranked_better_before.
  - destruct Hs as (l1 & l2 & E & Hk & Hle & Hend & Hex). simpl in Hk.
    destruct (decide (keep = [])) as [Ek|Hne].
    { apply short_untouched.
      - intros i Hi. rewrite masked_by_lookup, (Hsel i Hi) by apply Hi. rewrite Ek.
        rewrite decide_False; [done|apply not_elem_of_nil].
      - intros i [Hi Hty] Hh. apply (Hex Ek).
        destruct Hend as [->|Hend]; [|rewrite Ek in Hend; simpl in Hend; lia].
        rewrite app_nil_r in E. rewrite <-E. by apply elem_of_ranked. }
    destruct (shortlist_members views distances hasDist t l1 l2 keep E Hk) as [Hnd Hin].
    apply (short_kept _ _ _ _ _ _ _ keep).
    + destruct keep; simpl in *; [done|lia].
    + done.
    + intros i Hi. destruct (Hin i Hi) as (? & ? & ? & _). done.
    + intros i Hi. rewrite masked_by_growable, (Hsel i) by (done || apply Hi).
      apply shortlist_sel_growable; [done..|]. intros Hik. by destruct (Hin i Hik) as (_ & _ & ? & _).
    + intros i k Hi Hh Hg Hni Hkk.
      assert (i ∈ l1 ++ l2) as Hi' by (rewrite <-E; apply elem_of_ranked; split; [apply Hi|]; split; [apply Hi|done]).
      apply elem_of_app in Hi' as [Hi'|Hi'].
      { destruct Hni. rewrite Hk. by apply list_elem_of_filter. }
      split; [destruct Hend as [->|]; [by apply elem_of_nil in Hi'|done]|].
      apply (ranked_app_order views distances hasDist t l1 l2); [done..| |done].
      by destruct (Hin k Hkk) as (_ & _ & _ & ?).
Qed.

(** ** Random choice *)
Definition random_sel views inflight vs t : list nat :=
  let idxs := byType views t in
  match filter (λ i, growable (vs !!! i) = true) idxs with
  | [] => if existsb (λ i, negb (growable (vs !!! i)) &&
                inflight_of inflight (ng_ProviderClusterID (vs !!! i))) idxs then idxs else []
  | wc => filter (λ i, i ≠ wc !!! rand_Intn t (length wc)) idxs
  end.

Lemma filter_ext_in {A} (P Q : A → Prop) `{!∀ x, Decision (P x)} `{!∀ x, Decision (Q x)} (l : list A) :
  (∀ x, x ∈ l → P x ↔ Q x) → filter P l = filter Q l.
Proof.
  induction l as [|x l IH]; intros E; [done|].
  assert (filter P l = filter Q l) as El by (apply IH; intros y Hy; apply E; by constructor).
  destruct (E x) as [E1 E2]; [constructor|].
  rewrite !filter_cons, El. by repeat case_decide; try tauto.
Qed.

Lemma existsb_ext_in {A} (f g : A → bool) (l : list A) :
  (∀ x, x ∈ l → f x = g x) → existsb f l = existsb g l.
Proof.
  induction l as [|x l IH]; intros E; simpl; [done|].
  rewrite E by constructor. f_equal. apply IH. intros y Hy. apply E. by constructor.
Qed.

Lemma applyRandomPreference_pointwise views inflight :
  applyRandomPreference views inflight = masked_by (random_sel views inflight views) views.
Proof.
  unfold applyRandomPreference.
  rewrite (foldl_ext _ (λ vs t, mask_all (random_sel views inflight vs t) vs)).
  - apply (type_fold views (λ t vs, random_sel views inflight vs t)).
    + intros t vs i. unfold random_sel. repeat case_match; simplify_eq;
        try (by intros ?%elem_of_nil); try done. intros [_ ?]%list_elem_of_filter. done.
    + intros t vs Hty _. unfold random_sel.
      assert (∀ i, i ∈ byType views t → vs !!! i = views !!! i) as E
        by (intros i [_ ?]%elem_of_byType; auto).
      rewrite (filter_ext_in (λ i, growable (vs !!! i) = true) (λ i, growable (views !!! i) = true))
        by (intros i Hi; by rewrite E).
      rewrite (existsb_ext_in _ (λ i, negb (growable (views !!! i)) &&
        inflight_of inflight (ng_ProviderClusterID (views !!! i))))
        by (intros i Hi; by rewrite E).
      done.
    + apply range_keys_perm.
  - intros vs t. unfold random_sel. cbv zeta.
    destruct (filter _ _) as [|w wc]; [|done]. by destruct (existsb _ _).
Qed.

(** ** Narrowing *)

(** [v'] is [v] with, at most, its maximum lowered to what is reserved and a
    metric attached. *)
Definition narrowed (v v' : NodeGroupView) : Prop :=
  ng_ProviderClusterID v' = ng_ProviderClusterID v ∧ ng_Type v' = ng_Type v ∧
  ng_ChunkResources v' = ng_ChunkResources v ∧ ng_CurrentReserved v' = ng_CurrentReserved v ∧
  (ng_MaxSize v' = ng_MaxSize v ∨ ng_MaxSize v' = ng_CurrentReserved v).

Lemma narrowed_refl v : narrowed v v.
Proof. split_and!; auto. Qed.

Lemma narrowed_trans v1 v2 v3 : narrowed v1 v2 → narrowed v2 v3 → narrowed v1 v3.
Proof.
  intros (? & ? & ? & E & H1') (? & ? & ? & ? & H2'). split_and!; try congruence.
  rewrite E in H2'. destruct H2' as [->| ->]; auto.
Qed.

Lemma imap_narrowed (f : nat → NodeGroupView → NodeGroupView) views :
  (∀ i v, narrowed v (f i v)) → Forall2 narrowed views (imap f views).
Proof.
  intros Hf. apply Forall2_same_length_lookup_2; [by rewrite length_imap|].
  intros i x y. rewrite list_lookup_imap. destruct (views !! i); simpl; [|done].
  intros [= <-] [= <-]. apply Hf.
Qed.

Lemma masked_by_narrowed sel views : Forall2 narrowed views (masked_by sel views).
Proof. apply imap_narrowed. intros i v. case_decide; split_and!; auto. Qed.

Lemma setPlacementMetric_narrowed views values has :
  Forall2 narrowed views (setPlacementMetric views values has).
Proof. apply imap_narrowed. intros i v. case_match; split_and!; auto. Qed.

Lemma views_refl views : Forall2 narrowed views views.
Proof. apply Forall_Forall2_diag, Forall_true. apply narrowed_refl. Qed.

Lemma apply_policy_narrowed input views : Forall2 narrowed views (apply_policy input views).1.
Proof.
  assert (∀ vs values has, Forall2 narrowed views vs →
    Forall2 narrowed views (setPlacementMetric vs values has)) as Hm.
  { intros vs values has Hvs. eapply Forall2_trans;
      [|exact Hvs|apply setPlacementMetric_narrowed]. apply narrowed_trans. }
  unfold apply_policy, applyPricePreference, applyEcoPreference, applyStandardPreference.
  repeat case_decide; simpl; rewrite ?applyMetricPreference_pointwise, ?applyRandomPreference_pointwise;
    auto using masked_by_narrowed, views_refl.
  destruct (consumerProviderDistances _ _) as [ds hd]. destruct (existsb id hd) eqn:Hd.
  - rewrite applyLatencyTopN_pointwise by done. simpl. auto using masked_by_narrowed.
  - unfold applyLatencyTopN. rewrite Hd. simpl. auto using views_refl.
Qed.

(** ** BuildNodeGroups *)

(** Free chunks of a provider. *)
Definition free_chunks (c : ClusterAdvertisement) : Z :=
  Z.max 0 (ca_TotalChunks (cr_status c) - ca_ReservedChunks (cr_status c)).

(** Counters are non-negative int32 values, and adding a consumer's own chunks
    to the free ones does not overflow. *)
Definition input_ok (input : PlacementInput) : Prop :=
  ∀ c, c ∈ available_ads input →
    0 ≤ ca_TotalChunks (cr_status c) ≤ GoInt.int32_max ∧
    0 ≤ ca_ReservedChunks (cr_status c) ≤ GoInt.int32_max ∧
    match in_OwnReserved input with
    | None => True
    | Some own => let n := default 0 (own !! cs_ClusterID (cr_spec c)) in
                  0 ≤ n ∧ n + free_chunks c ≤ GoInt.int32_max
    end.

Lemma project_identity i input c :
  ng_ProviderClusterID (project i input c) = cs_ClusterID (cr_spec c) ∧
  ng_Type (project i input c) = cs_ClusterType (cr_spec c).
Proof.
  unfold project. destruct (perChunkCostWith _ _ _). by destruct (in_OwnReserved input).
Qed.

Lemma project_room i input c :
  input_ok input → c ∈ available_ads input →
  ng_MaxSize (project i input c) - ng_CurrentReserved (project i input c) ≤ free_chunks c ∧
  (growable (project i input c) = true ↔ 0 < free_chunks c).
Proof.
  intros Hok Hc. destruct (Hok c Hc) as (Ht & Hr & Hown). unfold free_chunks in *.
  unfold growable, project. destruct (perChunkCostWith _ _ _) as [cost ok].
  unfold GoInt.int32_max in *.
  destruct (in_OwnReserved input) as [own|]; simpl.
  - cbv zeta in Hown. set (n := default 0 _) in *.
    rewrite (GoInt.sub32_id (ca_TotalChunks _))
      by (unfold GoInt.is_int32, GoInt.int32_min, GoInt.int32_max; lia).
    rewrite GoInt.add32_id
      by (unfold GoInt.is_int32, GoInt.int32_min, GoInt.int32_max; lia).
    rewrite GoInt.sub32_id
      by (unfold GoInt.is_int32, GoInt.int32_min, GoInt.int32_max; lia).
    rewrite Z.ltb_lt. lia.
  - rewrite GoInt.sub32_id
      by (unfold GoInt.is_int32, GoInt.int32_min, GoInt.int32_max; lia).
    rewrite Z.ltb_lt. lia.
Qed.

Lemma BuildNodeGroups_perm input tm :
  nl_NodeGroups (BuildNodeGroups input tm) ≡ₚ
  (apply_policy input (imap (λ i c, project i input c) (available_ads input))).1.
Proof.
  unfold BuildNodeGroups. destruct (apply_policy _ _) as [vs short]. apply GoSort.SliceStable_perm.
Qed.

(** Every listed group narrows the projection of an available advertisement,
    and every available advertisement is listed. *)
Lemma BuildNodeGroups_from input tm v :
  v ∈ nl_NodeGroups (BuildNodeGroups input tm) →
  ∃ i c, available_ads input !! i = Some c ∧ narrowed (project i input c) v.
Proof.
  rewrite BuildNodeGroups_perm. intros [i Hi]%list_elem_of_lookup.
  destruct (Forall2_lookup_r _ _ _ _ _ (apply_policy_narrowed input _) Hi) as (v0 & Hv0 & Hn).
  rewrite list_lookup_imap in Hv0. destruct (available_ads input !! i) as [c|] eqn:Hc; simplify_eq/=.
  by exists i, c.
Qed.

Lemma BuildNodeGroups_lists input tm c :
  c ∈ available_ads input →
  ∃ i v, v ∈ nl_NodeGroups (BuildNodeGroups input tm) ∧ narrowed (project i input c) v.
Proof.
  intros [i Hi]%list_elem_of_lookup.
  destruct (Forall2_lookup_l narrowed _ _ i (project i input c) (apply_policy_narrowed input
    (imap (λ i c, project i input c) (available_ads input)))) as (v & Hv & Hn).
  { by rewrite list_lookup_imap, Hi. }
  exists i, v. split; [|done]. rewrite BuildNodeGroups_perm. by eapply list_elem_of_lookup_2.
Qed.

Lemma narrowed_growable v v' : narrowed v v' → growable v' = true → growable v = true.
Proof.
  intros (_ & _ & _ & E & Hm). destruct Hm as [Hm|Hm].
  - unfold growable. by rewrite E, Hm.
  - intros Hg. assert (growable v' = growable (mask v')) as Em
      by (unfold growable; simpl; by rewrite Hm, E).
    rewrite Em, mask_growable in Hg. done.
Qed.

#[global] Instance view_less_weak : GoSort.StrictWeak view_less (λ _, True).
Proof.
  pose proof (λ a b, GoSort.sw_asym GoStr.str_lt (P:=λ _, True) a b I I) as Has.
  pose proof (λ a b c, GoSort.sw_cotrans GoStr.str_lt (P:=λ _, True) a b c I I I) as Hco.
  split; unfold view_less.
  - intros a b _ _. repeat case_decide; try congruence; auto.
  - intros a b c _ _ _.
    destruct (decide (ng_ProviderClusterID a = ng_ProviderClusterID b)) as [Eab|Nab]; intros Hl.
    + rewrite <-Eab. case_decide as Eac; [rewrite decide_True by done; auto|].
      rewrite decide_False by congruence.
      destruct (GoStr.str_lt (ng_ProviderClusterID a) (ng_ProviderClusterID c)) eqn:E1; [by left|].
      destruct (GoStr.str_lt (ng_ProviderClusterID c) (ng_ProviderClusterID a)) eqn:E2; [by right|].
      destruct Eac. by apply GoStr.str_lt_total.
    + case_decide as Eac; [rewrite <-Eac, decide_False by done; auto|].
      case_decide as Ecb; [rewrite Ecb; auto|auto].
Qed.

(** C30: The node groups a consumer gets are sorted by provider and chunk type,
    one per available advertisement and none for any other provider, and no
    view promises more head-room than its provider has free chunks. *)
Theorem BuildNodeGroups_sound input tm :
  input_ok input →
  let groups := nl_NodeGroups (BuildNodeGroups input tm) in
  GoSort.sorted_by view_less groups ∧
  (λ v, (ng_ProviderClusterID v, ng_Type v)) <$> groups ≡ₚ
    (λ c, (cs_ClusterID (cr_spec c), cs_ClusterType (cr_spec c))) <$> available_ads input ∧
  ∀ v, v ∈ groups → ∃ c, c ∈ available_ads input ∧
    ng_ProviderClusterID v = cs_ClusterID (cr_spec c) ∧ ng_Type v = cs_ClusterType (cr_spec c) ∧
    ng_MaxSize v - ng_CurrentReserved v ≤ free_chunks c.
Proof.
  intros Hok. cbv zeta.
  pose proof (apply_policy_narrowed input (imap (λ i c, project i input c) (available_ads input)))
    as Hnar.
  set (views := imap _ _) in *. split_and!.
  - unfold BuildNodeGroups. fold views. destruct (apply_policy _ _) as [vs short].
    apply (GoSort.SliceStable_sorted _ (λ _, True)). by apply Forall_true.
  - rewrite BuildNodeGroups_perm. fold views.
    assert ((λ v, (ng_ProviderClusterID v, ng_Type v)) <$> (apply_policy input views).1 =
            (λ v, (ng_ProviderClusterID v, ng_Type v)) <$> views) as ->.
    { symmetry. apply list_eq_Forall2. apply Forall2_fmap. eapply Forall2_impl; [exact Hnar|].
      intros v v' (-> & -> & _). done. }
    unfold views. rewrite fmap_imap, <-(imap_const _ (available_ads input)).
    erewrite imap_ext; [reflexivity|]. intros i c _. simpl.
    destruct (project_identity i input c) as [-> ->]. done.
  - intros v' Hv'. rewrite BuildNodeGroups_perm in Hv'. fold views in Hv'.
    apply list_elem_of_lookup in Hv' as [i Hi'].
    destruct (Forall2_lookup_r _ _ _ _ _ Hnar Hi') as (v & Hi & E1 & E2 & _ & E4 & Hmax).
    unfold views in Hi. rewrite list_lookup_imap in Hi.
    destruct (available_ads input !! i) as [c|] eqn:Hc; simpl in Hi; simplify_eq.
    assert (c ∈ available_ads input) as Hin by (by eapply list_elem_of_lookup_2).
    destruct (project_identity i input c) as [P1 P2].
    destruct (project_room i input c Hok Hin) as [Hroom _].
    exists c. split_and!; [done|congruence..|].
    unfold free_chunks in *. destruct Hmax as [->| ->]; lia.
Qed.

(** ** Policies that always narrow to one *)
Lemma filter_at_most_one (P : NodeGroupView → Prop) `{!∀ v, Decision (P v)} vs :
  (∀ i j, (i < length vs)%nat → (j < length vs)%nat → P (vs !!! i) → P (vs !!! j) → i = j) →
  (length (filter P vs) ≤ 1)%nat.
Proof.
  induction vs as [|v vs IH]; intros Hu; [simpl; lia|].
  rewrite filter_cons. case_decide as Hv.
  - assert (filter P vs = []) as ->; [|simpl; lia].
    destruct (filter P vs) as [|w ws] eqn:Ef; [done|exfalso].
    assert (w ∈ filter P vs) as Hw by (rewrite Ef; constructor).
    apply list_elem_of_filter in Hw as [Hp [j Hj]%list_elem_of_lookup].
    assert (vs !!! j = w) as Ej by (by apply list_lookup_total_correct).
    specialize (Hu 0%nat (Datatypes.S j)). simpl in Hu.
    rewrite Ej in Hu. apply lookup_lt_Some in Hj.
    discriminate Hu; [lia|lia|done|done].
  - apply IH. intros i j Hi Hj Hpi Hpj.
    specialize (Hu (Datatypes.S i) (Datatypes.S j)). simpl in Hu.
    assert (Datatypes.S i = Datatypes.S j) by (apply Hu; [lia|lia|done|done]). lia.
Qed.

(** Every growable view of a type is one chosen index. *)
Lemma masked_by_one sel views (win : ChunkType → option nat) t :
  (∀ t i, of_type views t i → i ∉ sel t → growable (views !!! i) = true → win t = Some i) →
  (length (filter (λ v, growable v = true ∧ ng_Type v = t) (masked_by sel views)) ≤ 1)%nat.
Proof.
  intros Hwin. apply filter_at_most_one. rewrite masked_by_length.
  assert (∀ i, (i < length views)%nat → growable (masked_by sel views !!! i) = true ∧
    ng_Type (masked_by sel views !!! i) = t → win t = Some i) as Hone.
  { intros i Hi [Hg Ht]. rewrite masked_by_growable in Hg by done.
    rewrite masked_by_lookup in Ht by done. case_decide as Hd; [done|].
    apply Hwin; [done|by rewrite <-Ht|done]. }
  intros i j Hi Hj Pi Pj. pose proof (Hone i Hi Pi). pose proof (Hone j Hj Pj). congruence.
Qed.

Lemma standard_one views avail inflight t :
  length avail = length views →
  (length (filter (λ v, growable v = true ∧ ng_Type v = t)
    (applyStandardPreference views avail inflight)) ≤ 1)%nat.
Proof.
  intros Hlen. unfold applyStandardPreference. rewrite applyMetricPreference_pointwise.
  set (metric := standardMetric <$> avail). set (has := (λ _, true) <$> avail).
  apply (masked_by_one _ _ (λ t, match choose views inflight (ranked views metric has (byType views t)) with
                                 | Chosen i => Some i | _ => None end)).
  intros t' i Hi Hns Hg. unfold metric_sel in Hns.
  pose proof (choose_spec views inflight (ranked views metric has (byType views t'))) as Hc.
  destruct (choose _ _ _) as [|c|]; simpl in Hns.
  - destruct (Hc i) as [Hx _]; [|congruence]. apply elem_of_ranked. split_and!; [apply Hi..|].
    unfold has. destruct Hi as [Hi _]. rewrite <-Hlen in Hi.
    destruct (lookup_lt_is_Some_2 _ _ Hi) as [c Hcv].
    apply list_lookup_total_correct. by rewrite list_lookup_fmap, Hcv.
  - f_equal. destruct (decide (i = c)) as [|Hne]; [done|]. destruct Hns.
    apply list_elem_of_filter. split; [done|]. apply elem_of_byType, Hi.
  - destruct Hns. apply elem_of_byType, Hi.
Qed.

Lemma random_one views inflight t :
  (length (filter (λ v, growable v = true ∧ ng_Type v = t)
    (applyRandomPreference views inflight)) ≤ 1)%nat.
Proof.
  rewrite applyRandomPreference_pointwise.
  set (wc t := filter (λ i, growable (views !!! i) = true) (byType views t)).
  apply (masked_by_one _ _ (λ t, Some (wc t !!! rand_Intn t (length (wc t))))).
  intros t' i Hi Hns Hg. f_equal. unfold random_sel in Hns. fold (wc t') in Hns.
  assert (i ∈ wc t') as Hw.
  { apply list_elem_of_filter. split; [done|]. apply elem_of_byType, Hi. }
  destruct (wc t') as [|w ws] eqn:Ew; [by apply elem_of_nil in Hw|].
  destruct (decide (i = (w :: ws) !!! rand_Intn t' (length (w :: ws)))) as [|Hne]; [done|].
  destruct Hns. apply list_elem_of_filter. split; [done|]. apply elem_of_byType, Hi.
Qed.

(** The strategies under which the Broker itself picks one provider. *)
Definition single_winner (strategy : PlacementStrategy) : Prop :=
  strategy ∉ [PlacementStrategyPrice; PlacementStrategyEco; PlacementStrategyLatency;
              PlacementStrategyConsumerChoice].

(** Under the Standard default and under Random a consumer never sees more
    than one provider it can grow per chunk type, whatever the advertisements,
    the map iteration order and the random draws. *)
Theorem BuildNodeGroups_single_winner input tm t :
  single_winner (pp_Type (ce_Placement (in_Consumer input))) →
  (length (filter (λ v, growable v = true ∧ ng_Type v = t)
    (nl_NodeGroups (BuildNodeGroups input tm))) ≤ 1)%nat.
Proof.
  unfold single_winner. rewrite !not_elem_of_cons. intros (Hp & He & Hl & Hc & _).
  rewrite BuildNodeGroups_perm. unfold apply_policy.
  rewrite !(decide_False (P := _ = PlacementStrategyPrice)),
    !(decide_False (P := _ = PlacementStrategyEco)),
    !(decide_False (P := _ = PlacementStrategyLatency)),
    !(decide_False (P := _ = PlacementStrategyConsumerChoice)) by done.
  case_decide; simpl; [apply random_one|apply standard_one; by rewrite length_imap].
Qed.
End Runtime.
End Masking.

(** ** On concrete advertisements *)
Module PlacementWitness.
#[local] Existing Instance MilliPlatform.platform.

(** Maps ranged over backwards, the first candidate drawn. *)
#[local] Instance runtime : GoRuntime :=
  {| range_keys := λ _ l, reverse l; rand_Intn := λ _ _, 0%nat |}.
#[local] Instance runtime_laws : RuntimeLaws.
Proof. split; simpl; [intros; apply reverse_Permutation|auto]. Defined.

Definition ad (id : string) (total reserved : Z) (up : bool) : ClusterAdvertisement :=
  mkCR (meta_named id "broker")
    (mkCadvSpec id ("liqo-" +:+ id) ChunkTypeStandard
       (<[ResourceCPU := 8000]> (<[ResourceMemory := 32 * 1024 * 1024 * 1024 * 1000]> ∅))
       None ∅ None [] ∅ ∅ false "")
    (mkCadvStatus 1 (Some 0) up total reserved (total - reserved) []).

Definition ads : list ClusterAdvertisement :=
  [ad "c" 5 0 true; ad "a" 2 2 true; ad "b" 3 1 true; ad "d" 9 0 false].

Definition input (strategy : PlacementStrategy) : PlacementInput :=
  mkPlacementInput ads
    (mkEntry "cons" "liqo" 0 (mkPolicy strategy) "" "" ∅ "" "" fzero fzero false)
    ∅ (Some (<["b" := 1]> ∅)) Size.

Definition views : list NodeGroupView :=
  imap (λ i c, project i (input "") c) (available_ads (input "")).

(** "a" is cheapest but full, "b" comes next, "c" is dearest. *)
Definition costs : list float64 := [fof_Z 3; fof_Z 1; fof_Z 2].
Definition priced : list bool := [true; true; true].

Lemma costs_not_nan : ∀ i, priced !!! i = true → is_nan (costs !!! i) = false.
Proof. intros [|[|[|i]]] Hi; by vm_compute in Hi |- *. Qed.

Lemma applyMetricPreference_greedy_witness :
  greedy_outcome views costs priced ∅ (applyMetricPreference views costs priced ∅) ChunkTypeStandard ∧
  (λ v, (ng_ProviderClusterID v, growable v)) <$> applyMetricPreference views costs priced ∅ =
  [("c", false); ("a", false); ("b", true)].
Proof.
  split; [|vm_compute; reflexivity].
  apply (applyMetricPreference_greedy views costs priced ∅ ChunkTypeStandard costs_not_nan).
Defined.

Lemma applyMetricPreference_additive_witness :
  Forall2 (λ v v', v' = v ∨ v' = mask v) views (applyMetricPreference views costs priced ∅).
Proof. apply applyMetricPreference_additive. Defined.

Lemma applyLatencyTopN_shortlist_witness :
  shortlist_outcome views costs priced ∅ 1
    (applyLatencyTopN views costs priced ∅ 1).1 ChunkTypeStandard.
Proof.
  apply applyLatencyTopN_shortlist; [apply costs_not_nan|vm_compute; reflexivity|lia].
Defined.

Lemma input_ok_example : input_ok (input PlacementStrategyPrice).
Proof.
  intros c Hc.
  assert (c = ad "c" 5 0 true ∨ c = ad "a" 2 2 true ∨ c = ad "b" 3 1 true) as Hcs.
  { change (available_ads _) with [ad "c" 5 0 true; ad "a" 2 2 true; ad "b" 3 1 true] in Hc.
    rewrite !elem_of_cons, elem_of_nil in Hc. tauto. }
  destruct Hcs as [->|[->| ->]]; vm_compute; split_and!; discriminate.
Qed.

Lemma BuildNodeGroups_sound_witness :
  GoSort.sorted_by view_less (nl_NodeGroups (BuildNodeGroups (input PlacementStrategyPrice) 0)).
Proof.
  destruct (BuildNodeGroups_sound (input PlacementStrategyPrice) 0 input_ok_example) as [Hs _].
  exact Hs.
Defined.

Lemma BuildNodeGroups_single_winner_witness :
  (length (filter (λ v, growable v = true ∧ ng_Type v = ChunkTypeStandard)
    (nl_NodeGroups (BuildNodeGroups (input "") 0))) ≤ 1)%nat ∧
  (λ v, (ng_ProviderClusterID v, growable v)) <$> nl_NodeGroups (BuildNodeGroups (input "") 0) =
  [("a", false); ("b", false); ("c", true)].
Proof.
  split; [|vm_compute; reflexivity].
  apply (BuildNodeGroups_single_winner (input "") 0 ChunkTypeStandard).
  unfold single_winner. rewrite !not_elem_of_cons.
  split_and!; [vm_compute; discriminate..|apply not_elem_of_nil].
Defined.
End PlacementWitness.
