(* ===== verification/Prober.v ===== *)
(** * The latency prober (internal/agent/consumer/latency/prober.go)

    Round-trip times to the providers' echo endpoints, the median of a few
    datagrams each, cached for a short time.  The datagrams are outside calls;
    the goroutines of one measurement probe distinct endpoints and are joined
    before their results are stored, so probing them in turn gives the same
    map. *)
From stdpp Require Import base gmap strings list sorting.
From Stdlib Require Import ZArith Lia SpecFloat.
From S2P Require Import Prelude ApiTypes Kube MemServer Effects.
Import GoFloat.

Open Scope Z_scope.

Definition pos_inf : float64 := S754_infinity false.

Record Candidate := mkProbeCandidate { pc_ProviderClusterID : string; pc_Endpoint : string }.
Record ProbeResult := mkProbeResult { pr_Chosen : string; pr_RTTs : gmap string float64 }.
Record sample := mkSample { sm_rttMs : float64; sm_at : Time }.

Record Prober := mkProber {
  pb_cache : gmap string sample;
  pb_last : ProbeResult;
  pb_nProbes : nat;
  pb_timeout : Duration;
  pb_ttl : Duration
}.

Definition DefaultProbeCount : nat := 5.
Definition DefaultProbeTimeout : Duration := 300 * 1000000.
Definition DefaultCacheTTL : Duration := 15 * Second.

Definition NewProber (count : Z) (timeout ttl : Duration) : Prober :=
  mkProber ∅ (mkProbeResult "" ∅)
    (if count <=? 0 then DefaultProbeCount else Z.to_nat count)
    (if timeout <=? 0 then DefaultProbeTimeout else timeout)
    (if ttl <=? 0 then DefaultCacheTTL else ttl).

Section Prober.
Context `{Platform}.

Inductive probe_call :=
| ProbeOnce (endpoint : string) (timeout : Duration)   (* None: no answer *)
| CtxDone.

Definition probe_answer (c : probe_call) : Type :=
  match c with ProbeOnce _ _ => option Duration | CtxDone => bool end.

Abbreviation probing := (eff probe_call probe_answer).
Definition probe_ask (c : probe_call) : probing (probe_answer c) := ask c.

(** [float64(d.Microseconds()) / 1000.0]. *)
Definition millis (d : Duration) : float64 := fdiv (fof_Z (Z.quot d 1000)) (fof_Z 1000).

(** The probing loop of [probeMedian]. *)
Fixpoint probe_samples (n : nat) (endpoint : string) (timeout : Duration) (samples : list float64) :
    probing (list float64) :=
  match n with
  | O => mret samples
  | S n =>
      done ← probe_ask CtxDone;
      if (done : bool) then mret samples
      else
        x ← probe_ask (ProbeOnce endpoint timeout);
        probe_samples n endpoint timeout
          (match (x : option Duration) with Some d => samples ++ [millis d] | None => samples end)
  end.

(** [sort.Float64s(samples); samples[len(samples)/2]]. *)
Definition median (samples : list float64) : float64 :=
  match samples with
  | [] => pos_inf
  | _ => default pos_inf (GoSort.SliceStable flt samples !! Nat.div2 (length samples))
  end.

Definition probeMedian (p : Prober) (endpoint : string) : probing float64 :=
  l ← probe_samples (pb_nProbes p) endpoint (pb_timeout p) [];
  mret (median l).

(** The first loop of [Measure]: fresh cache hits and the endpoints to probe. *)
Fixpoint cache_loop (p : Prober) (endpoints : list string) (out : gmap string float64)
    (toProbe : list string) : probing (gmap string float64 * list string) :=
  match endpoints with
  | [] => mret (out, toProbe)
  | ep :: endpoints' =>
      if bool_decide (is_Some (out !! ep)) || bool_decide (ep = "") then
        cache_loop p endpoints' out toProbe
      else
        match pb_cache p !! ep with
        | Some s =>
            t ← api now;
            if t - sm_at s <? pb_ttl p then cache_loop p endpoints' (<[ep := sm_rttMs s]> out) toProbe
            else cache_loop p endpoints' (<[ep := pos_inf]> out) (toProbe ++ [ep])
        | None => cache_loop p endpoints' (<[ep := pos_inf]> out) (toProbe ++ [ep])
        end
  end.

Fixpoint probe_all (p : Prober) (eps : list string) (measured : gmap string float64) :
    probing (gmap string float64) :=
  match eps with
  | [] => mret measured
  | ep :: eps' => rtt ← probeMedian p ep; probe_all p eps' (<[ep := rtt]> measured)
  end.

(** [measured[ep]]: a missing key reads 0. *)
Definition rtt_of (m : gmap string float64) (ep : string) : float64 := default fzero (m !! ep).

Definition Measure (p : Prober) (endpoints : list string) : probing (Prober * gmap string float64) :=
  x ← cache_loop p endpoints ∅ [];
  let '(out, toProbe) := x in
  match toProbe with
  | [] => mret (p, out)
  | _ =>
      measured ← probe_all p toProbe ∅;
      t ← api now;
      let cache := foldl (λ c ep, <[ep := mkSample (rtt_of measured ep) t]> c) (pb_cache p) toProbe in
      let out := foldl (λ o ep, <[ep := rtt_of measured ep]> o) out toProbe in
      mret (mkProber cache (pb_last p) (pb_nProbes p) (pb_timeout p) (pb_ttl p), out)
  end.

(** The RTT of every candidate, and the pick. *)
Definition candidate_rtts (measured : gmap string float64) (cands : list Candidate) :
    gmap string float64 :=
  foldl (λ r c, <[pc_ProviderClusterID c :=
                    if decide (pc_Endpoint c = "") then pos_inf
                    else rtt_of measured (pc_Endpoint c)]> r) ∅ cands.

Definition pick_step (rtts : gmap string float64) (acc : string * float64) (c : Candidate) :
    string * float64 :=
  let r := rtt_of rtts (pc_ProviderClusterID c) in
  if flt r acc.2 then (pc_ProviderClusterID c, r) else acc.

Definition is_pos_inf (x : float64) : bool :=
  match x with S754_infinity false => true | _ => false end.

Definition pick (rtts : gmap string float64) (cands : list Candidate) : string :=
  let '(chosen, best) := foldl (pick_step rtts) ("", pos_inf) cands in
  if is_pos_inf best then "" else chosen.

Definition MeasureAndPick (p : Prober) (cands : list Candidate) : probing (Prober * ProbeResult) :=
  let endpoints := filter (λ e, e ≠ "") (pc_Endpoint <$> cands) in
  x ← Measure p endpoints;
  let '(p, measured) := x in
  let rtts := candidate_rtts measured cands in
  let res := mkProbeResult (pick rtts cands) rtts in
  mret (mkProber (pb_cache p) res (pb_nProbes p) (pb_timeout p) (pb_ttl p), res).

Definition LastMeasurements (p : Prober) : ProbeResult := pb_last p.

(** ** The pick is a minimum *)
Lemma flt_trans x y z :
  is_nan x = false → is_nan y = false → is_nan z = false →
  flt x y = true → flt y z = true → flt x z = true.
Proof.
  intros Hx Hy Hz. rewrite !flt_key by done.
  destruct (fkey x) as [[a1 a2] a3], (fkey y) as [[b1 b2] b3], (fkey z) as [[c1 c2] c3].
  unfold lex_ltb. lia.
Qed.

Lemma flt_irrefl x : flt x x = false.
Proof.
  destruct (is_nan x) eqn:E; [by destruct x|]. rewrite flt_key by done.
  destruct (fkey x) as [[a1 a2] a3]. unfold lex_ltb. lia.
Qed.

Lemma flt_not_inf x : is_nan x = false → flt pos_inf x = false.
Proof. intros Hx. rewrite flt_key by done. by destruct x as [[]|[]| |[] m e]. Qed.

Lemma flt_inf x : is_nan x = false → flt x pos_inf = true ↔ is_pos_inf x = false.
Proof. intros Hx. rewrite flt_key by done. by destruct x as [[]|[]| |[] m e]. Qed.

Section Pick.
Context (rtts : gmap string float64).
Hypothesis rtts_numbers : ∀ p, is_nan (rtt_of rtts p) = false.

Let rtt (c : Candidate) : float64 := rtt_of rtts (pc_ProviderClusterID c).

(** What the loop has found after the candidates [seen]. *)
Definition found (seen : list Candidate) (acc : string * float64) : Prop :=
  is_nan acc.2 = false ∧ (∀ c, c ∈ seen → flt (rtt c) acc.2 = false) ∧
  (acc = ("", pos_inf) ∨ ∃ l1 c l2, seen = l1 ++ c :: l2 ∧ acc = (pc_ProviderClusterID c, rtt c) ∧
     is_pos_inf (rtt c) = false ∧ ∀ c', c' ∈ l1 → flt (rtt c) (rtt c') = true).

Lemma found_step seen acc c : found seen acc → found (seen ++ [c]) (pick_step rtts acc c).
Proof.
  intros (Hn & Hmin & Hor). unfold pick_step. fold (rtt c).
  destruct (flt (rtt c) acc.2) eqn:E.
  - assert (∀ c', c' ∈ seen → flt (rtt c) (rtt c') = true) as Hlt.
    { intros c' Hc'. destruct (flt (rtt c) (rtt c')) eqn:E'; [done|].
      specialize (Hmin c' Hc'). rewrite flt_key in E, E', Hmin by (apply rtts_numbers || done).
      destruct (fkey (rtt c)) as [[a1 a2] a3], (fkey (rtt c')) as [[b1 b2] b3],
        (fkey acc.2) as [[c1 c2] c3]. unfold lex_ltb in *. lia. }
    split_and!; [apply rtts_numbers| |].
    + intros c' [Hc'| ->%list_elem_of_singleton]%elem_of_app; simpl; [|apply flt_irrefl].
      specialize (Hlt c' Hc'). rewrite flt_key in Hlt |- * by apply rtts_numbers.
      destruct (fkey (rtt c)) as [[a1 a2] a3], (fkey (rtt c')) as [[b1 b2] b3].
      unfold lex_ltb in *. lia.
    + right. exists seen, c, []. split_and!; [done..| |done].
      apply flt_inf; [apply rtts_numbers|]. destruct Hor as [->|(l1 & b & l2 & _ & -> & Hb & _)]; [done|].
      eapply flt_trans; [apply rtts_numbers|apply rtts_numbers|done|exact E|].
      apply flt_inf; [apply rtts_numbers|done].
  - split_and!; [done| |].
    + intros c' [Hc'| ->%list_elem_of_singleton]%elem_of_app; auto.
    + destruct Hor as [->|(l1 & b & l2 & -> & -> & Hb & Hl1)]; [by left|right].
      exists l1, b, (l2 ++ [c]). by rewrite <-app_assoc.
Qed.

Lemma found_all seen acc cands :
  found seen acc → found (seen ++ cands) (foldl (pick_step rtts) acc cands).
Proof.
  revert seen acc. induction cands as [|c cands IH]; intros seen acc Hf; simpl;
    [by rewrite app_nil_r|].
  rewrite cons_middle, app_assoc. by apply IH, found_step.
Qed.

(** The prober chooses the first candidate with the least finite round-trip
    time, and nobody exactly when no candidate answered. *)
Theorem pick_minimal cands :
  ((∀ c, c ∈ cands → is_pos_inf (rtt_of rtts (pc_ProviderClusterID c)) = true) ∧
   pick rtts cands = "") ∨
  ∃ l1 c l2, cands = l1 ++ c :: l2 ∧ pick rtts cands = pc_ProviderClusterID c ∧
    is_pos_inf (rtt_of rtts (pc_ProviderClusterID c)) = false ∧
    (∀ c', c' ∈ l1 → flt (rtt_of rtts (pc_ProviderClusterID c))
                         (rtt_of rtts (pc_ProviderClusterID c')) = true) ∧
    ∀ c', c' ∈ cands → flt (rtt_of rtts (pc_ProviderClusterID c'))
                           (rtt_of rtts (pc_ProviderClusterID c)) = false.
Proof.
  assert (found [] ("", pos_inf)) as H0.
  { split_and!; [done|by intros c ?%elem_of_nil|by left]. }
  destruct (found_all [] _ cands H0) as (Hn & Hmin & Hor). unfold pick. simpl in Hmin, Hor.
  destruct (foldl (pick_step rtts) ("", pos_inf) cands) as [chosen best] eqn:E.
  destruct Hor as [Hor|(l1 & c & l2 & -> & Hc & Hinf & Hl1)].
  - left. injection Hor as -> ->. split; [|done]. intros c Hc. specialize (Hmin c Hc).
    destruct (is_pos_inf (rtt_of rtts (pc_ProviderClusterID c))) eqn:Ei; [done|].
    apply flt_inf in Ei; [|apply rtts_numbers]. simpl in Hmin. unfold rtt in Hmin. congruence.
  - right. injection Hc as -> ->. exists l1, c, l2. unfold rtt in *. simpl in *. rewrite Hinf. done.
Qed.
End Pick.
End Prober.

(** Two providers answer, the second faster; a third does not. *)
Definition example_rtts : gmap string float64 :=
  <["a" := fof_Z 12]> (<["b" := fof_Z 7]> (<["c" := pos_inf]> ∅)).
Definition example_cands : list Candidate :=
  [mkProbeCandidate "a" "10.0.0.1:7"; mkProbeCandidate "b" "10.0.0.2:7";
   mkProbeCandidate "c" "10.0.0.3:7"].

Lemma example_rtts_numbers p : is_nan (rtt_of example_rtts p) = false.
Proof.
  unfold rtt_of, example_rtts. rewrite !lookup_insert. repeat case_decide; done.
Qed.

Lemma pick_minimal_witness :
  pick example_rtts example_cands = "b" ∧
  ∃ l1 c l2, example_cands = l1 ++ c :: l2 ∧ pick example_rtts example_cands = pc_ProviderClusterID c.
Proof.
  split; [vm_compute; reflexivity|].
  destruct (pick_minimal example_rtts example_rtts_numbers example_cands)
    as [[_ E]|(l1 & c & l2 & El & Ep & _)].
  - exfalso. revert E. vm_compute. discriminate.
  - exists l1, c, l2. split; [exact El|exact Ep].
Defined.
