(* ===== verification/Selection.v ===== *)
(** * Provider selection on the consumer (internal/agent/ollama/client.go,
    internal/agent/consumer/latency/prober.go)

    Two selectors narrow the node groups a consumer sees: a language model that
    ranks the providers for a free-text request, with a deterministic ranking
    when it cannot be used, and a prober that measures round-trip times.  The
    model's answer and the network are outside calls.

    The theorems: whatever the model answers, the ranking it yields names only
    providers with capacity and none twice; the deterministic ranking orders
    exactly the providers with capacity; the prober picks the first candidate
    of least finite latency. *)
From stdpp Require Import base gmap strings list sorting.
From Stdlib Require Import ZArith Lia.
From S2P Require Import Prelude ApiTypes Chunk Wire Kube Effects Registry Placement PlacementProofs.
Import GoFloat.

Open Scope Z_scope.

(** ** The language model (ollama/client.go) *)
Inductive ErrorKind :=
| ErrKindNone | ErrKindNoCapacity | ErrKindUnreachable | ErrKindTimeout | ErrKindHTTPStatus
| ErrKindEnvelopeDecode | ErrKindInvalidJSON | ErrKindEmptyProviderID | ErrKindUnknownProviderID.

Record SelectError := mkSelectError { se_Kind : ErrorKind; se_Err : string }.

(** [SelectionResponse]: the fields a decision reads. *)
Record SelectionResponse := mkSelection { sr_ProviderID : string; sr_RankedList : list string }.

(** How one POST /api/generate may go. *)
Inductive Generation :=
| MarshalFailed (err : string)
| RequestFailed (err : string)
| CallFailed (timeout : bool) (err : string)
| BadStatus (status : Z) (body : string)
| DecodeFailed (timeout : bool) (err : string)
| Generated (response : string).

Section Selection.
Context `{Platform}.

(** The prompt is the user's request and the providers offered to the model,
    rendered as text by [BuildUserPrompt]. *)
Inductive llm_call := Generate (userPrompt : string) (providers : list NodeGroupView).
Definition llm_answer (c : llm_call) : Type := Generation.

Abbreviation llm := (eff llm_call llm_answer).
Definition llm_ask (c : llm_call) : llm Generation := ask c.

Definition generate (userPrompt : string) (providers : list NodeGroupView) :
    llm (string + SelectError) :=
  x ← llm_ask (Generate userPrompt providers);
  mret match x with
       | MarshalFailed e => inr (mkSelectError ErrKindInvalidJSON ("marshal ollama request: " +:+ e))
       | RequestFailed e =>
           inr (mkSelectError ErrKindUnreachable ("build ollama HTTP request: " +:+ e))
       | CallFailed true e => inr (mkSelectError ErrKindTimeout ("call ollama: " +:+ e))
       | CallFailed false e => inr (mkSelectError ErrKindUnreachable ("call ollama: " +:+ e))
       | BadStatus status body =>
           inr (mkSelectError ErrKindHTTPStatus
                  ("ollama returned status " +:+ GoStr.fmt_d status +:+ ": " +:+ body))
       | DecodeFailed true e => inr (mkSelectError ErrKindTimeout ("read ollama response: " +:+ e))
       | DecodeFailed false e =>
           inr (mkSelectError ErrKindEnvelopeDecode ("decode ollama response: " +:+ e))
       | Generated r => inl r
       end.

(** [Trace]: what a decision and its log line use. *)
Record Trace := mkTrace {
  tr_Providers : list NodeGroupView;
  tr_RawResponse : string;
  tr_Ranked : list string;
  tr_UnknownIDs : list string;
  tr_SingleCandidate : bool;
  tr_Err : option SelectError
}.

(** The loop over the ranked list: known IDs once each, unknown ones aside. *)
Definition rank_step (validIDs : gset string) (acc : list string * list string) (id : string) :
    list string * list string :=
  let '(ranked, unknown) := acc in
  if decide (id ∈ validIDs) then
    if decide (id ∈ ranked) then acc else (ranked ++ [id], unknown)
  else (ranked, unknown ++ [id]).

(** [json.Unmarshal] of the model's output into a [SelectionResponse]. *)
Context (unmarshal_selection : string → option SelectionResponse).

(** What [SelectDetailed] makes of the model's output. *)
Definition judge_selection (providers : list NodeGroupView) (response : string) : Trace :=
  let validIDs : gset string := list_to_set (ng_ProviderClusterID <$> providers) in
  let fail ranked unknown kind msg :=
    mkTrace providers response ranked unknown false (Some (mkSelectError kind msg)) in
  match unmarshal_selection response with
  | None => fail [] [] ErrKindInvalidJSON ("parse LLM selection JSON " +:+ GoStr.fmt_q response)
  | Some sel =>
      match sr_RankedList sel with
      | [] =>
          if decide (sr_ProviderID sel = "") then
            fail [] [] ErrKindEmptyProviderID
              ("LLM returned empty providerId in response " +:+ GoStr.fmt_q response)
          else if decide (sr_ProviderID sel ∈ validIDs) then
            mkTrace providers response [sr_ProviderID sel] [] false None
          else fail [] [sr_ProviderID sel] ErrKindUnknownProviderID
                 ("LLM returned unknown providerId " +:+ GoStr.fmt_q (sr_ProviderID sel))
      | (_ :: _) as l =>
          let '(ranked, unknown) := foldl (rank_step validIDs) ([], []) l in
          match ranked with
          | [] => fail [] unknown ErrKindUnknownProviderID "LLM rankedList contains no valid IDs"
          | _ => mkTrace providers response ranked unknown false None
          end
      end
  end.

(** The providers offered: [ng.MaxSize > ng.CurrentReserved]. *)
Definition offered (nodeGroups : list NodeGroupView) : list NodeGroupView :=
  filter (λ ng, ng_CurrentReserved ng < ng_MaxSize ng) nodeGroups.

Definition SelectDetailed (userPrompt : string) (nodeGroups : list NodeGroupView) : llm Trace :=
  let providers := offered nodeGroups in
  match providers with
  | [] => mret (mkTrace [] "" [] [] false
                  (Some (mkSelectError ErrKindNoCapacity "no providers with available capacity")))
  | [p] => mret (mkTrace providers "" [ng_ProviderClusterID p] [] true None)
  | _ =>
      x ← generate userPrompt providers;
      mret match x with
           | inr err => mkTrace providers "" [] [] false (Some err)
           | inl response => judge_selection providers response
           end
  end.

Definition Select (userPrompt : string) (nodeGroups : list NodeGroupView) :
    llm (list string + SelectError) :=
  t ← SelectDetailed userPrompt nodeGroups;
  mret match tr_Err t with Some e => inr e | None => inl (tr_Ranked t) end.

(** ** The deterministic ranking *)
Record candidate := mkCandidate {
  ca_id : string; ca_cost : float64; ca_hasCost : bool;
  ca_carbon : float64; ca_hasCarbon : bool; ca_available : Z
}.

Definition candidate_of (ng : NodeGroupView) : candidate :=
  let '(cost, hasCost) :=
    match ng_Cost ng with Some q => (q_AsApproximateFloat64 q, true) | None => (fzero, false) end in
  let '(carbon, hasCarbon) :=
    match ng_CarbonIntensity ng with Some c => (c, true) | None => (fzero, false) end in
  mkCandidate (ng_ProviderClusterID ng) cost hasCost carbon hasCarbon
    (GoInt.sub32 (ng_MaxSize ng) (ng_CurrentReserved ng)).

Definition candidate_less (a b : candidate) : bool :=
  if negb (eqb (ca_hasCost a) (ca_hasCost b)) then ca_hasCost a
  else if ca_hasCost a && ca_hasCost b && negb (feq (ca_cost a) (ca_cost b)) then
    flt (ca_cost a) (ca_cost b)
  else if negb (eqb (ca_hasCarbon a) (ca_hasCarbon b)) then ca_hasCarbon a
  else if ca_hasCarbon a && ca_hasCarbon b && negb (feq (ca_carbon a) (ca_carbon b)) then
    flt (ca_carbon a) (ca_carbon b)
  else ca_available b <? ca_available a.

(** [DeterministicFallback]; [None] is [(nil, false)]. *)
Definition DeterministicFallback (nodeGroups : list NodeGroupView) : option (list string) :=
  match filter (λ c, 0 < ca_available c) (candidate_of <$> nodeGroups) with
  | [] => None
  | cands => Some (ca_id <$> GoSort.SliceStable candidate_less cands)
  end.

(** ** Correctness of the rankings *)

(** [id] names a provider with capacity. *)
Definition has_capacity (groups : list NodeGroupView) (id : string) : Prop :=
  ∃ ng, ng ∈ groups ∧ ng_ProviderClusterID ng = id ∧ growable ng = true.

Lemma rank_loop (valid : gset string) l acc :
  NoDup acc.1 → (∀ id, id ∈ acc.1 → id ∈ valid) →
  let r := foldl (rank_step valid) acc l in
  NoDup r.1 ∧ (∀ id, id ∈ r.1 → id ∈ valid) ∧
  (∀ id, id ∈ r.1 ↔ id ∈ acc.1 ∨ id ∈ l ∧ id ∈ valid) ∧ ∃ l', r.1 = acc.1 ++ l'.
Proof.
  revert acc. induction l as [|id l IH]; intros [ranked unknown] Hnd Hin; cbn [foldl fst] in *.
  - cbv zeta. split_and!; [done..| |by exists []; rewrite app_nil_r]. set_solver.
  - assert (∃ acc', rank_step valid (ranked, unknown) id = acc' ∧ NoDup acc'.1 ∧
      (∀ i, i ∈ acc'.1 → i ∈ valid) ∧ (∀ i, i ∈ acc'.1 ↔ i ∈ ranked ∨ i = id ∧ id ∈ valid) ∧
      ∃ l', acc'.1 = ranked ++ l') as (acc' & -> & Hnd' & Hin' & Hmem & l0 & El0).
    { eexists; split; [done|]. unfold rank_step. repeat case_decide; simpl.
      - split_and!; [done..| |by exists []; rewrite app_nil_r]. intros i. intuition congruence.
      - split_and!; [apply NoDup_app; split_and!; [done|set_solver|apply NoDup_singleton]|..].
        + set_solver.
        + set_solver.
        + by eexists.
      - split_and!; [done..| |by exists []; rewrite app_nil_r]. intros i. intuition congruence. }
    destruct (IH acc' Hnd' Hin') as (H1 & H2 & H3 & l1 & El1). cbv zeta in *. split_and!; [done..| |].
    + intros i. rewrite H3, Hmem, elem_of_cons. intuition congruence.
    + exists (l0 ++ l1). by rewrite El1, El0, app_assoc.
Qed.

(** The views where [MaxSize > CurrentReserved] can grow when the difference
    does not overflow. *)
Definition sized (ng : NodeGroupView) : Prop :=
  GoInt.is_int32 (ng_MaxSize ng - ng_CurrentReserved ng).

Lemma growable_sized ng : sized ng → growable ng = true ↔ ng_CurrentReserved ng < ng_MaxSize ng.
Proof. intros Hs. unfold growable. rewrite GoInt.sub32_id by done. rewrite Z.ltb_lt. lia. Qed.

(** What every trace satisfies: a ranking without repetitions over the
    providers with capacity, empty exactly on an error. *)
Definition sound_trace (groups : list NodeGroupView) (t : Trace) : Prop :=
  NoDup (tr_Ranked t) ∧ (∀ id, id ∈ tr_Ranked t → has_capacity groups id) ∧
  (tr_Ranked t = [] ↔ tr_Err t ≠ None).

Lemma offered_capacity groups ng :
  Forall sized groups → ng ∈ offered groups → has_capacity groups (ng_ProviderClusterID ng).
Proof.
  intros Hs [Hc Hin]%list_elem_of_filter. exists ng. split_and!; [done..|].
  rewrite Forall_forall in Hs. apply growable_sized; auto.
Qed.

Lemma judge_selection_sound groups response :
  Forall sized groups → sound_trace groups (judge_selection (offered groups) response).
Proof.
  intros Hs. unfold judge_selection.
  set (valid := list_to_set (ng_ProviderClusterID <$> offered groups) : gset string).
  assert (∀ id, id ∈ valid → has_capacity groups id) as Hv.
  { intros id. unfold valid. rewrite elem_of_list_to_set, list_elem_of_fmap.
    intros (ng & -> & Hng). by apply offered_capacity. }
  destruct (unmarshal_selection response) as [sel|].
  2: { split_and!; [constructor|set_solver|done]. }
  destruct (sr_RankedList sel) as [|x l'] eqn:El.
  - repeat case_decide; (split_and!; simpl; [|intros id Hid|by split]).
    1,5: constructor.
    1,4: by apply elem_of_nil in Hid.
    + apply NoDup_singleton.
    + apply list_elem_of_singleton in Hid as ->. by apply Hv.
  - destruct (rank_loop valid (x :: l') ([], [])) as (Hnd & Hin & _); [constructor|set_solver|].
    destruct (foldl (rank_step valid) ([], []) (x :: l')) as [ranked unknown].
    destruct ranked as [|r ranked]; (split_and!; [exact Hnd| |by split]).
    + intros id Hid. by apply elem_of_nil in Hid.
    + intros id Hid. apply Hv, Hin, Hid.
Qed.

(** C31: Whatever the language model answers, whether it is unreachable, returns
    garbage, invents providers or repeats them, a selection's ranking names only
    providers with free capacity, none twice, and is empty exactly when the
    selection reports an error. *)
Theorem SelectDetailed_sound {V} (C : contract) (X : V → ∀ c, llm_answer c → V → Prop)
    prompt groups m v :
  Forall sized groups →
  ewp C X (SelectDetailed prompt groups) (λ t _ _, sound_trace groups t) m v.
Proof.
  intros Hs. unfold SelectDetailed.
  assert (∀ ng, ng ∈ offered groups → has_capacity groups (ng_ProviderClusterID ng)) as Hcap
    by (intros; by apply offered_capacity).
  destruct (offered groups) as [|p [|q l]] eqn:E.
  - split_and!; [constructor|set_solver|done].
  - simpl. split_and!; [apply NoDup_singleton| |done]. simpl. intros id ->%list_elem_of_singleton.
    apply Hcap. constructor.
  - intros x v' _. rewrite <-E. destruct x as [| |[]|?|[]|r]; simpl;
      try (split_and!; [constructor|set_solver|done]).
    by apply judge_selection_sound.
Qed.

(** *** The deterministic order *)

(** Elements with a property before those without it, each side in its own
    order. *)
Definition tier {A} (f : A → bool) (yes no : A → A → bool) (a b : A) : bool :=
  if negb (eqb (f a) (f b)) then f a else if f a then yes a b else no a b.

Lemma tier_weak {A} (f : A → bool) (yes no : A → A → bool) (P : A → Prop) :
  GoSort.StrictWeak yes (λ a, P a ∧ f a = true) → GoSort.StrictWeak no (λ a, P a ∧ f a = false) →
  GoSort.StrictWeak (tier f yes no) P.
Proof.
  intros Hy Hn. unfold tier. split.
  - intros a b Ha Hb. destruct (f a) eqn:Ea, (f b) eqn:Eb; simpl; try done.
    + by apply (GoSort.sw_asym yes (P:=λ a, P a ∧ f a = true)).
    + by apply (GoSort.sw_asym no (P:=λ a, P a ∧ f a = false)).
  - intros a b c Ha Hb Hc. destruct (f a) eqn:Ea, (f b) eqn:Eb, (f c) eqn:Ec; simpl; auto.
    + by apply (GoSort.sw_cotrans yes (P:=λ a, P a ∧ f a = true)).
    + by apply (GoSort.sw_cotrans no (P:=λ a, P a ∧ f a = false)).
Qed.

Lemma StrictWeak_sub {A} (less : A → A → bool) (P Q : A → Prop) :
  (∀ a, P a → Q a) → GoSort.StrictWeak less Q → GoSort.StrictWeak less P.
Proof. intros HPQ Hw. by apply (GoSort.StrictWeak_key id less P Q). Qed.

Definition more_available (a b : candidate) : bool := ca_available b <? ca_available a.

Lemma more_available_weak P : GoSort.StrictWeak more_available P.
Proof.
  unfold more_available. split.
  - intros a b _ _ Hab%Z.ltb_lt. apply Z.ltb_ge. lia.
  - intros a b c _ _ _ Hab%Z.ltb_lt. rewrite !Z.ltb_lt. lia.
Qed.

Definition greener : candidate → candidate → bool :=
  tier ca_hasCarbon
    (λ a b, if feq (ca_carbon a) (ca_carbon b) then more_available a b
            else flt (ca_carbon a) (ca_carbon b)) more_available.

Definition cheaper : candidate → candidate → bool :=
  tier ca_hasCost
    (λ a b, if feq (ca_cost a) (ca_cost b) then greener a b else flt (ca_cost a) (ca_cost b))
    greener.

Lemma candidate_less_tiers a b : candidate_less a b = cheaper a b.
Proof.
  unfold candidate_less, cheaper, greener, tier, more_available.
  destruct (ca_hasCost a), (ca_hasCost b); simpl; try done;
    destruct (feq (ca_cost a) (ca_cost b)); simpl; try done;
    destruct (ca_hasCarbon a), (ca_hasCarbon b); simpl; try done;
    by destruct (feq (ca_carbon a) (ca_carbon b)).
Qed.

(** Costs and carbon intensities are numbers. *)
Definition numeric (c : candidate) : Prop :=
  is_nan (ca_cost c) = false ∧ is_nan (ca_carbon c) = false.

#[local] Instance cheaper_weak : GoSort.StrictWeak cheaper numeric.
Proof.
  assert (GoSort.StrictWeak greener numeric) as Hg.
  { apply tier_weak; [|apply more_available_weak].
    apply (flt_lex_weak ca_carbon more_available); [apply more_available_weak|]. by intros a [[??]?]. }
  apply tier_weak.
  - apply (flt_lex_weak ca_cost greener); [|by intros a [[??]?]].
    eapply StrictWeak_sub; [|exact Hg]. by intros a [??].
  - eapply StrictWeak_sub; [|exact Hg]. by intros a [??].
Qed.

Lemma candidate_of_facts ng :
  ca_id (candidate_of ng) = ng_ProviderClusterID ng ∧
  ca_available (candidate_of ng) = GoInt.sub32 (ng_MaxSize ng) (ng_CurrentReserved ng).
Proof. unfold candidate_of. by destruct (ng_Cost ng), (ng_CarbonIntensity ng). Qed.

Lemma elem_of_candidates (groups : list NodeGroupView) c :
  c ∈ filter (λ c, 0 < ca_available c) (candidate_of <$> groups) ↔
  ∃ ng, ng ∈ groups ∧ growable ng = true ∧ c = candidate_of ng.
Proof.
  rewrite list_elem_of_filter, list_elem_of_fmap. unfold growable. split.
  - intros [Ha (ng & -> & Hng)]. exists ng. split_and!; [done| |done].
    apply Z.ltb_lt. by rewrite (proj2 (candidate_of_facts ng)) in Ha.
  - intros (ng & Hng & Hg%Z.ltb_lt & ->). split; [|by exists ng].
    by rewrite (proj2 (candidate_of_facts ng)).
Qed.

(** The ranking names exactly the providers with capacity. *)
Lemma DeterministicFallback_elem groups id :
  id ∈ default [] (DeterministicFallback groups) ↔ has_capacity groups id.
Proof.
  assert (id ∈ ca_id <$> filter (λ c, 0 < ca_available c) (candidate_of <$> groups) ↔
    has_capacity groups id) as Hc.
  { rewrite list_elem_of_fmap. setoid_rewrite elem_of_candidates. split.
    - intros (c & -> & ng & Hng & Hg & ->). exists ng. by rewrite (proj1 (candidate_of_facts ng)).
    - intros (ng & Hng & <- & Hg). exists (candidate_of ng).
      split; [by rewrite (proj1 (candidate_of_facts ng))|]. by exists ng. }
  unfold DeterministicFallback. destruct (filter _ _) as [|c cands]; [exact Hc|]. simpl.
  rewrite <-Hc. by rewrite GoSort.SliceStable_perm.
Qed.

(** The ranking used when the model cannot decide lists exactly the
    providers with free capacity, priced before unpriced and cheapest first,
    then lowest carbon, then most free chunks; it is absent exactly when nobody
    has capacity. *)
Theorem DeterministicFallback_ranks groups :
  Forall (λ ng, numeric (candidate_of ng)) groups →
  match DeterministicFallback groups with
  | Some ranked => ranked ≠ [] ∧ (∀ id, id ∈ ranked ↔ has_capacity groups id) ∧
      ∃ cands, ranked = ca_id <$> cands ∧ GoSort.sorted_by cheaper cands ∧
        ∀ c, c ∈ cands ↔ ∃ ng, ng ∈ groups ∧ growable ng = true ∧ c = candidate_of ng
  | None => ∀ id, ¬ has_capacity groups id
  end.
Proof.
  intros Hnum. pose proof (DeterministicFallback_elem groups) as Hel.
  unfold DeterministicFallback in *.
  destruct (filter _ _) as [|c cands] eqn:E; cbn [default] in Hel.
  { intros id Hid. apply Hel in Hid. by apply elem_of_nil in Hid. }
  split_and!; [|done|].
  - intros Hnil%fmap_nil_inv. apply (f_equal length) in Hnil. rewrite GoSort.SliceStable_length in Hnil. done.
  - exists (GoSort.SliceStable candidate_less (c :: cands)). split_and!; [done| |].
    + erewrite GoSort.SliceStable_less_ext by apply candidate_less_tiers.
      apply (GoSort.SliceStable_sorted cheaper numeric). rewrite <-E.
      apply Forall_forall. intros c' (ng & Hng & _ & ->)%elem_of_candidates.
      rewrite Forall_forall in Hnum. auto.
    + intros c'. rewrite GoSort.SliceStable_elem, <-E. apply elem_of_candidates.
Qed.
End Selection.
