(* ===== verification/Prompt.v ===== *)
(** * What the language model is told (internal/agent/ollama: prompt.go, and the
    construction of the client and of its request in client.go)

    The advisor's question: one entry per provider with room, flattened to
    plain numbers, the consumer's location when it is known, and the user's
    request before and after the list.  The JSON encoder, the text forms of a
    quantity and the fixed system prompt are parameters ([PromptText]).

    The theorem: the capacity figures the model reads are the exact product of
    free chunks and chunk size, at Go's integer widths. *)
From stdpp Require Import base gmap strings list.
From Stdlib Require Import ZArith Lia.
From S2P Require Import Prelude GoText ApiTypes Chunk Wire Kube Effects Registry Placement Selection.
Import GoFloat.

Open Scope Z_scope.

Record ProviderInfo := mkProviderInfo {
  pf_ProviderID : string;
  pf_NodeGroupID : string;
  pf_ClusterType : string;
  pf_AvailableChunks : Z;
  pf_CPUPerChunk : string;
  pf_MemoryPerChunk : string;
  pf_GPUPerChunk : string;
  pf_AvailableCPUMillicores : Z;
  pf_AvailableMemoryMiB : Z;
  pf_CostPerChunk : option float64;
  pf_CarbonIntensity : option float64;
  pf_Region : string;
  pf_Latitude : float64;
  pf_Longitude : float64
}.

(** [ollama.Location]. *)
Record PromptLocation := mkPromptLocation {
  pl_Latitude : float64;
  pl_Longitude : float64;
  pl_Region : string
}.

(** [Quantity.String], [strconv.ParseFloat] of [AsDec().String()] ([None] is
    its error), [json.MarshalIndent] and [json.Marshal] of the provider list,
    [json.Marshal] of the location, and the constant [SystemPrompt]. *)
Class PromptText `{Platform} := {
  quantity_String : Quantity → string;
  parse_dec : Quantity → option float64;
  marshal_indent : list ProviderInfo → option string;
  marshal_compact : list ProviderInfo → option string;
  marshal_location : PromptLocation → string;
  SystemPrompt : string
}.

(** [strings.TrimRight(s, "/")]. *)
Fixpoint TrimRight_slash (s : string) : string :=
  match s with
  | EmptyString => EmptyString
  | String c s' =>
      match TrimRight_slash s' with
      | EmptyString => if Ascii.eqb c (Ascii.ascii_of_nat 47) then EmptyString else String c EmptyString
      | t => String c t
      end
  end.

(** ** The client *)
Record OllamaClient := mkOllama {
  oc_baseURL : string;
  oc_model : string;
  oc_timeout : Duration;
  oc_location : option PromptLocation      (* opts.ConsumerLocation *)
}.

Definition defaultTimeout : Duration := 120 * Second.

Definition NewWithOptions (baseURL model : string) (timeout : Duration)
    (location : option PromptLocation) : OllamaClient :=
  mkOllama (TrimRight_slash baseURL) model (if timeout <=? 0 then defaultTimeout else timeout) location.

Definition WithConsumerLocation (c : OllamaClient) (loc : option PromptLocation) : OllamaClient :=
  mkOllama (oc_baseURL c) (oc_model c) (oc_timeout c) loc.

Record ollamaRequest := mkOllamaRequest {
  or_URL : string;                         (* POST <baseURL>/api/generate *)
  or_Model : string;
  or_System : string;
  or_Prompt : string;
  or_Format : string;
  or_Stream : bool
}.

Section Prompt.
Context `{Platform} `{!PromptText}.

(** ** The provider entry *)
Definition per_chunk_text (rl : ResourceList) (name : string) : string :=
  match rl !! name with Some q => quantity_String q | None => "" end.

(** The figure of one resource: [chunks * size] in int64, then [/ unit]. *)
Definition available_figure (rl : ResourceList) (name : string) (measure : Quantity → Z)
    (unit chunks : Z) : Z :=
  match rl !! name with
  | Some q => if 0 <? chunks then Z.quot (GoInt.to_int64 (chunks * measure q)) unit else 0
  | None => 0
  end.

Definition bytesPerMiB : Z := 1024 * 1024.

Definition NodeGroupViewToProviderInfo (ng : NodeGroupView) : ProviderInfo :=
  let chunks := GoInt.sub32 (ng_MaxSize ng) (ng_CurrentReserved ng) in
  let rl := ng_ChunkResources ng in
  mkProviderInfo (ng_ProviderClusterID ng) (ng_ID ng) (ng_Type ng) chunks
    (per_chunk_text rl ResourceCPU) (per_chunk_text rl ResourceMemory)
    (per_chunk_text rl gpuResourceName)
    (available_figure rl ResourceCPU q_MilliValue 1 chunks)
    (available_figure rl ResourceMemory q_Value bytesPerMiB chunks)
    (match ng_Cost ng with
     | None => None
     | Some q => Some (match parse_dec q with Some v => v | None => q_AsApproximateFloat64 q end)
     end)
    (ng_CarbonIntensity ng)
    (match ng_Topology ng with Some t => tp_Region t | None => "" end)
    (match ng_Topology ng with Some t => tp_Latitude t | None => fzero end)
    (match ng_Topology ng with Some t => tp_Longitude t | None => fzero end).

(** ** The prompt *)
Definition BuildUserPrompt (userRequest : string) (consumer : option PromptLocation)
    (providers : list ProviderInfo) : string :=
  let providersJSON :=
    match marshal_indent providers with
    | Some t => t
    | None => default "" (marshal_compact providers)
    end in
  "USER REQUEST:" +:+ newline +:+ GoStr.fmt_q userRequest +:+ newline +:+ newline +:+
  match consumer with
  | Some loc =>
      "CONSUMER LOCATION (where the request comes from):" +:+ newline +:+
      marshal_location loc +:+ newline +:+ newline
  | None => ""
  end +:+
  "AVAILABLE PROVIDERS:" +:+ newline +:+ providersJSON +:+ newline +:+ newline +:+
  "Rank ALL the providers above for this USER REQUEST: " +:+ GoStr.fmt_q userRequest.

(** The request [generate] posts for the providers [SelectDetailed] offers. *)
Definition generate_request (c : OllamaClient) (userPrompt : string)
    (nodeGroups : list NodeGroupView) : ollamaRequest :=
  mkOllamaRequest (oc_baseURL c +:+ "/api/generate") (oc_model c) SystemPrompt
    (BuildUserPrompt userPrompt (oc_location c)
       (NodeGroupViewToProviderInfo <$> offered nodeGroups)) "json" false.

(** ** The figures are exact *)
Context `{!PlatformLaws}.

(** A provider's room never overflows the product with its chunk size. *)
Lemma fits_int64 adv shape k name q :
  0 ≤ k → chunks_fit adv shape k → shape !! name = Some q → 0 ≤ units name q →
  GoInt.is_int64 (k * units name q).
Proof.
  intros Hk Hfit Hq Hpos. specialize (Hfit name q Hq).
  assert (GoInt.is_int64 (units name (rl_get adv name))) as Hr.
  { unfold units. case_decide; [apply q_MilliValue_int64|apply q_Value_int64]. }
  unfold GoInt.is_int64, GoInt.int64_min, GoInt.int64_max in *. nia.
Qed.

Lemma figure_exact adv shape k name q measure unit :
  0 < k → chunks_fit adv shape k → shape !! name = Some q → measure q = units name q →
  0 ≤ measure q → available_figure shape name measure unit k = Z.quot (k * measure q) unit.
Proof.
  intros Hk Hfit Hq Hm Hpos. unfold available_figure. rewrite Hq.
  assert (0 <? k = true) as -> by lia. rewrite GoInt.to_int64_id; [done|]. rewrite Hm in *.
  eapply fits_int64; eauto. lia.
Qed.

(** The group the default sizer returns. *)
Lemma Size_group adv r :
  0 ≤ q_MilliValue (rl_get adv ResourceCPU) → Size adv = [r] →
  let gpu := bool_decide (cr_Type r = ChunkTypeGPU) in
  GoInt.is_int32 (cr_Count r) ∧
  (∀ k, 0 < k ≤ cr_Count r → chunks_fit adv (cr_PerChunk r) k) ∧
  cr_PerChunk r !! ResourceCPU = Some (NewQuantity (if gpu then 4 else 2)) ∧
  cr_PerChunk r !! ResourceMemory = Some (NewQuantity (if gpu then gpuMemBytes else stdMemBytes)).
Proof.
  intros Hcpu Hs. unfold Size in Hs.
  destruct (bool_decide _ && _) eqn:Eg; injection Hs as <-; cbv zeta.
  - apply andb_prop in Eg as [_ Hg%Z.ltb_lt]. split_and!; [apply count_range| |reflexivity..].
    intros k [Hk Hle]. apply sizeGPU_exact; [done|lia|done|done].
  - split_and!; [apply count_range| |reflexivity..].
    intros k [Hk Hle]. by apply sizeStandard_exact.
Qed.

End Prompt.

(** ** On a concrete platform *)
Module PromptWitness.
#[local] Existing Instance MilliPlatform.platform.
#[local] Existing Instance MilliPlatform.platform_laws.
#[local] Instance prompt_text : PromptText :=
  {| quantity_String := λ q, GoStr.fmt_d q; parse_dec := λ _, None; marshal_indent := λ _, None;
     marshal_compact := λ l, Some (String.concat "," (pf_ProviderID <$> l));
     marshal_location := pl_Region; SystemPrompt := "rank" |}.

(** 9 cores and 17 GiB are four chunks, one of them taken. *)
Definition group9 : NodeGroupView :=
  mkView "ng-prov-standard" "prov" "liqo-prov" ChunkTypeStandard 0 4 1
    (cr_PerChunk (sizeStandard ChunkWitness.adv9)) None None "" fzero false ∅ [] None ∅.

End PromptWitness.
