(* ===== verification/ReservationApi.v ===== *)
(** * Reservation endpoints (internal/broker/api/reservation.go)

    POST, GET, list and DELETE of reservations, and the optimistic-concurrency
    loops that keep a provider's chunk counters.  A handler is a program over
    the Kubernetes API; logging is omitted. *)
From stdpp Require Import base gmap strings list.
From Stdlib Require Import ZArith Lia.
From S2P Require Import Prelude ApiTypes Chunk Wire Kube Registry Placement.

Open Scope Z_scope.

(** ** strconv.Atoi *)
Fixpoint digits (s : string) (acc : Z) : option Z :=
  match s with
  | EmptyString => Some acc
  | String c s' =>
      let n := Z.of_nat (Ascii.nat_of_ascii c) in
      if (48 <=? n) && (n <=? 57) then digits s' (10 * acc + (n - 48)) else None
  end.

Definition Atoi (raw : string) : Res Z :=
  let syntax := Fail (errors_New ("strconv.Atoi: parsing " +:+ GoStr.fmt_q raw +:+ ": invalid syntax")) in
  let range := Fail (errors_New ("strconv.Atoi: parsing " +:+ GoStr.fmt_q raw +:+ ": value out of range")) in
  let '(neg, body) :=
    match raw with
    | String c s' =>
        if decide (Ascii.nat_of_ascii c = 45%nat) then (true, s')
        else if decide (Ascii.nat_of_ascii c = 43%nat) then (false, s')
        else (false, raw)
    | EmptyString => (false, raw)
    end in
  match body with
  | EmptyString => syntax
  | _ =>
      match digits body 0 with
      | None => syntax
      | Some v =>
          let v := if (neg : bool) then - v else v in
          if (GoInt.int64_min <=? v) && (v <=? GoInt.int64_max) then Ok v else range
      end
  end.

Definition parseChunksQuery (raw : string) : Res Z :=
  if decide (raw = "") then Ok 0
  else
    match Atoi raw with
    | Fail e => Fail (wrapf "chunks" e)
    | Ok n =>
        if n <? 0 then Fail (errors_New "chunks must be >= 0") else Ok (GoInt.to_int32 n)
    end.

Section ReservationApi.
Context `{Platform}.

(** ** CR to wire *)
Definition reservationResponseFromCR (r : Reservation) : ReservationResponse :=
  let sp := cr_spec r in
  let st := cr_status r in
  mkResvResp (cr_Name r) (rt_Phase st) (rs_ProviderClusterID sp) (rs_ProviderLiqoClusterID sp)
    (rs_ConsumerClusterID sp) (rs_ConsumerLiqoClusterID sp) (rs_ChunkCount sp) (rs_ChunkType sp)
    (rs_Resources sp) (rt_VirtualNodeNames st)
    (default (m_CreationTimestamp (cr_meta r)) (rt_CreatedAt st)) None (rt_ExpiresAt st)
    (rt_Message st).

(** ** Validation *)
Definition validateReservationRequest (req : ReservationRequest) : option Err :=
  if decide (rq_ProviderClusterID req = "") then Some (errors_New "providerClusterId is required")
  else if rq_ChunkCount req <? 1 then Some (errors_New "chunkCount must be >= 1")
  else if 1 <? rq_ChunkCount req then
    Some (errors_New ("chunkCount must be 1 (one reservation = one chunk = one node); request " +:+
      GoStr.fmt_d (rq_ChunkCount req) +:+ " separate reservations instead, got " +:+
      GoStr.fmt_d (rq_ChunkCount req)))
  else if decide (rq_ChunkType req = "") then Some (errors_New "chunkType is required")
  else if decide (rq_ChunkType req ≠ ChunkTypeStandard ∧ rq_ChunkType req ≠ ChunkTypeGPU) then
    Some (errors_New ("unknown chunkType " +:+ GoStr.fmt_q (rq_ChunkType req)))
  else if decide (rq_NodeGroupID req ≠ "" ∧
      rq_NodeGroupID req ≠ nodeGroupID (rq_ProviderClusterID req) (rq_ChunkType req)) then
    Some (errors_New ("nodeGroupId " +:+ GoStr.fmt_q (rq_NodeGroupID req) +:+
      " does not match (provider, chunkType) — want " +:+
      GoStr.fmt_q (nodeGroupID (rq_ProviderClusterID req) (rq_ChunkType req))))
  else None.

Definition reservationName (header : string) : prog (Res string) :=
  if decide (header = "") then
    u ← new_uuid; mret (Ok ("res-" +:+ u))
  else
    match IsDNS1123Subdomain header with
    | [] => mret (Ok header)
    | errs => mret (Fail (errors_New ("X-Reservation-Id " +:+ GoStr.fmt_q header +:+
        " is not a valid DNS-1123 subdomain: " +:+ String.concat "; " errs)))
    end.

(** [findAdvertisement]: the advertisement, or the error status and body. *)
Definition findAdvertisement (ns providerClusterID : string) (chunkType : ChunkType) :
  prog (ClusterAdvertisement + Z * ErrorResponse) :=
  x ← get (S:=ClusterAdvertisementSpec) (T:=ClusterAdvertisementStatus) ns providerClusterID;
  mret
    match x with
    | Fail e =>
        if IsNotFound e then
          inr (StatusNotFound, mkError ErrCodeNotFound
            ("no advertisement for provider " +:+ GoStr.fmt_q providerClusterID) [] "")
        else inr (StatusInternalServerError,
          mkError ErrCodeInternalError "advertisement read failed" [] "")
    | Ok cadv =>
        if decide (cs_ClusterType (cr_spec cadv) = chunkType) then
          if ca_Available (cr_status cadv) then inl cadv
          else inr (StatusServiceUnavailable, mkError ErrCodeServiceUnavailable
            ("provider " +:+ GoStr.fmt_q providerClusterID +:+ " is not currently Available") [] "")
        else inr (StatusNotFound, mkError ErrCodeNotFound
          ("provider " +:+ GoStr.fmt_q providerClusterID +:+ " advertises chunkType " +:+
           GoStr.fmt_q (cs_ClusterType (cr_spec cadv)) +:+ ", requested " +:+
           GoStr.fmt_q chunkType) [] "")
    end.

Definition buildReservation (name namespace : string) (req : ReservationRequest)
    (consumerID consumerLiqoID providerLiqoID : string) (perChunk : ResourceList) : Reservation :=
  mkCR (meta_named name namespace)
    (mkResvSpec consumerID consumerLiqoID (rq_ProviderClusterID req) providerLiqoID
       (rq_ChunkCount req) (rq_ChunkType req) perChunk (rq_Namespaces req))
    resv_status_zero.

Definition perChunkResources (s : Server) (cadv : ClusterAdvertisement) : ResourceList :=
  perChunkResourcesWith (sv_sizer s) cadv.

(** [initReservationStatus]: the object as the caller sees it afterwards (the
    server's copy, or the locally modified one when the write failed) and the
    error. *)
Definition initReservationStatus (s : Server) (resv : Reservation) :
  prog (Reservation * option Err) :=
  t ← now;
  let resv := cr_set_status
    (mkResvStatus (m_Generation (cr_meta resv)) ReservationPhasePending (Some t)
       (Some (t + sv_reservationTimeout s)) [] None "" []) resv in
  x ← status_update resv;
  mret match x with Ok r => (r, None) | Fail e => (resv, Some e) end.

(** ** Chunk counters *)

(** The status [adjustReservedChunks] writes. *)
Definition adjusted (cadv : ClusterAdvertisement) (delta : Z) : ClusterAdvertisement :=
  let st := cr_status cadv in
  let next := GoInt.add32 (ca_ReservedChunks st) delta in
  let next := if next <? 0 then 0 else next in
  let avail := GoInt.sub32 (ca_TotalChunks st) next in
  let avail := if avail <? 0 then 0 else avail in
  cr_set_status (ca_set_chunks next avail st) cadv.

Fixpoint adjust_loop (attempts : nat) (ns clusterID : string) (delta : Z) : prog (option Err) :=
  match attempts with
  | O => mret (Some (errors_New "exhausted conflict retries updating ClusterAdvertisement status"))
  | Datatypes.S attempts' =>
      x ← get (S:=ClusterAdvertisementSpec) (T:=ClusterAdvertisementStatus) ns clusterID;
      match x with
      | Fail e => mret (Some e)
      | Ok cadv =>
          y ← status_update (adjusted cadv delta);
          match y with
          | Ok _ => mret None
          | Fail e => if IsConflict e then adjust_loop attempts' ns clusterID delta else mret (Some e)
          end
      end
  end.

Definition adjustReservedChunks (s : Server) (clusterID : string) (delta : Z) : prog (option Err) :=
  adjust_loop 3 (sv_namespace s) clusterID delta.

(** [reserveChunks]: [(ok, available)] or an error. *)
Fixpoint reserve_loop (attempts : nat) (ns clusterID : string) (count : Z) : prog (Res (bool * Z)) :=
  match attempts with
  | O => mret (Fail (errors_New "exhausted conflict retries reserving chunks"))
  | Datatypes.S attempts' =>
      x ← get (S:=ClusterAdvertisementSpec) (T:=ClusterAdvertisementStatus) ns clusterID;
      match x with
      | Fail e => mret (Fail e)
      | Ok cadv =>
          let st := cr_status cadv in
          if ca_AvailableChunks st <? count then mret (Ok (false, ca_AvailableChunks st))
          else
            let next := GoInt.add32 (ca_ReservedChunks st) count in
            let avail := GoInt.sub32 (ca_TotalChunks st) next in
            let avail := if avail <? 0 then 0 else avail in
            y ← status_update (cr_set_status (ca_set_chunks next avail st) cadv);
            match y with
            | Ok _ => mret (Ok (true, avail))
            | Fail e =>
                if IsConflict e then reserve_loop attempts' ns clusterID count else mret (Fail e)
            end
      end
  end.

Definition reserveChunks (s : Server) (clusterID : string) (count : Z) : prog (Res (bool * Z)) :=
  reserve_loop 3 (sv_namespace s) clusterID count.

Definition sameReservationRequest (spec : ReservationSpec) (req : ReservationRequest)
    (consumerID consumerLiqoID providerLiqoID : string) : bool :=
  bool_decide (rs_ConsumerClusterID spec = consumerID) &&
  bool_decide (rs_ConsumerLiqoClusterID spec = consumerLiqoID) &&
  bool_decide (rs_ProviderClusterID spec = rq_ProviderClusterID req) &&
  bool_decide (rs_ProviderLiqoClusterID spec = providerLiqoID) &&
  (rs_ChunkCount spec =? rq_ChunkCount req) &&
  bool_decide (rs_ChunkType spec = rq_ChunkType req) &&
  bool_decide (rs_Namespaces spec = rq_Namespaces req).

(** ** POST /api/v1/reservations *)

(** Persisting an admitted request: create the object, give the chunks back if
    that fails, stamp the first status. *)
Definition persistReservation (s : Server) (requestID resName consumerID : string)
    (consumerEntry : ConsumerEntry) (req : ReservationRequest) (cadv : ClusterAdvertisement) :
  prog (Response ReservationResponse) :=
  let perChunk := perChunkResources s cadv in
  let resv := buildReservation resName (sv_namespace s) req consumerID
    (ce_LiqoClusterID consumerEntry) (cs_LiqoClusterID (cr_spec cadv)) perChunk in
  c ← create resv;
  match c with
  | Fail _ =>
      _ ← adjustReservedChunks s (cr_Name cadv) (GoInt.neg32 (rq_ChunkCount req));
      mret (fail_with StatusInternalServerError ErrCodeInternalError
              "reservation persistence failed" requestID)
  | Ok resv =>
      st ← initReservationStatus s resv;
      mret (JSON StatusCreated (reservationResponseFromCR st.1))
  end.

(** The capacity gate in front of it. *)
Definition admitReservation (s : Server) (requestID resName consumerID : string)
    (consumerEntry : ConsumerEntry) (req : ReservationRequest) (cadv : ClusterAdvertisement) :
  prog (Response ReservationResponse) :=
  r ← reserveChunks s (cr_Name cadv) (rq_ChunkCount req);
  match r with
  | Fail _ => mret (fail_with StatusInternalServerError ErrCodeInternalError
                      "reservation capacity update failed" requestID)
  | Ok (false, available) =>
      mret (Error StatusConflict (mkError ErrCodeInsufficientCapacity
        ("provider " +:+ GoStr.fmt_q (rq_ProviderClusterID req) +:+ " has " +:+
         GoStr.fmt_d available +:+ " chunks available; " +:+
         GoStr.fmt_d (rq_ChunkCount req) +:+ " requested")
        [("available", available); ("requested", rq_ChunkCount req)] requestID))
  | Ok (true, _) => persistReservation s requestID resName consumerID consumerEntry req cadv
  end.

(** [handleReservationCreate].  [idHeader] is the X-Reservation-Id header. *)
Definition handleReservationCreate (s : Server) (reg : ConsumerRegistry)
    (requestID consumerID idHeader : string) (body : Res ReservationRequest) :
  prog (Response ReservationResponse) :=
  match body with
  | Fail e => mret (fail_with StatusBadRequest ErrCodeInvalidRequest (e_msg e) requestID)
  | Ok req =>
      match validateReservationRequest req with
      | Some e => mret (fail_with StatusBadRequest ErrCodeInvalidRequest (e_msg e) requestID)
      | None =>
          let '(consumerEntry, ok) := Lookup consumerID reg in
          if negb ok then
            mret (fail_with StatusPreconditionFailed ErrCodeServiceUnavailable
              "no heartbeat received for this consumer; send POST /api/v1/heartbeat first" requestID)
          else
            f ← findAdvertisement (sv_namespace s) (rq_ProviderClusterID req) (rq_ChunkType req);
            match f with
            | inr (status, er) =>
                mret (Error status (mkError (er_Code er) (er_Message er) (er_Details er) requestID))
            | inl cadv =>
                n ← reservationName idHeader;
                match n with
                | Fail e => mret (fail_with StatusBadRequest ErrCodeInvalidRequest (e_msg e) requestID)
                | Ok resName =>
                    x ← get (S:=ReservationSpec) (T:=ReservationStatus) (sv_namespace s) resName;
                    match x with
                    | Ok existing =>
                        if sameReservationRequest (cr_spec existing) req consumerID
                             (ce_LiqoClusterID consumerEntry) (cs_LiqoClusterID (cr_spec cadv))
                        then mret (JSON StatusOK (reservationResponseFromCR existing))
                        else mret (fail_with StatusConflict ErrCodeConflict
                          ("reservation " +:+ GoStr.fmt_q resName +:+
                           " already exists with a different spec") requestID)
                    | Fail e =>
                        if IsNotFound e then
                          admitReservation s requestID resName consumerID consumerEntry req cadv
                        else mret (fail_with StatusInternalServerError ErrCodeInternalError
                                     "reservation read failed" requestID)
                    end
                end
            end
      end
  end.

(** ** GET /api/v1/reservations/{id} *)
Definition isReservationParticipant (clusterID : string) (resv : Reservation) : bool :=
  bool_decide (clusterID = rs_ConsumerClusterID (cr_spec resv)) ||
  bool_decide (clusterID = rs_ProviderClusterID (cr_spec resv)).

Definition reservation_read_error {B} (requestID resName : string) (e : Err) : Response B :=
  if IsNotFound e then
    fail_with StatusNotFound ErrCodeNotFound
      ("reservation " +:+ GoStr.fmt_q resName +:+ " not found") requestID
  else fail_with StatusInternalServerError ErrCodeInternalError "reservation read failed" requestID.

Definition handleReservationGet (s : Server) (requestID callerID resName : string) :
  prog (Response ReservationResponse) :=
  if decide (resName = "") then
    mret (fail_with StatusBadRequest ErrCodeInvalidRequest "id is required" requestID)
  else
    x ← get (S:=ReservationSpec) (T:=ReservationStatus) (sv_namespace s) resName;
    match x with
    | Fail e => mret (reservation_read_error requestID resName e)
    | Ok resv =>
        if isReservationParticipant callerID resv then
          mret (JSON StatusOK (reservationResponseFromCR resv))
        else mret (fail_with StatusForbidden ErrCodeForbidden
          "caller is neither the consumer nor the provider of this reservation" requestID)
    end.

(** ** GET /api/v1/reservations *)
Definition handleReservationList (s : Server) (requestID callerID : string) :
  prog (Response (list ReservationResponse)) :=
  x ← list_in (S:=ReservationSpec) (T:=ReservationStatus) (sv_namespace s);
  match x with
  | Fail _ => mret (fail_with StatusInternalServerError ErrCodeInternalError
                      "reservation list failed" requestID)
  | Ok items =>
      let own := filter (λ r, rs_ConsumerClusterID (cr_spec r) = callerID) items in
      mret (JSON StatusOK
        (GoSort.SliceStable (λ a b, GoStr.str_lt (rr_ReservationID a) (rr_ReservationID b))
           (reservationResponseFromCR <$> own)))
  end.

(** ** DELETE /api/v1/reservations/{id} *)
Fixpoint mark_loop (attempts : nat) (ns name : string) : prog (option Err) :=
  match attempts with
  | O => mret (Some (errors_New "exhausted conflict retries setting chunks-released annotation"))
  | Datatypes.S attempts' =>
      x ← get (S:=ReservationSpec) (T:=ReservationStatus) ns name;
      match x with
      | Fail e => mret (Some e)
      | Ok fresh =>
          if IsChunksReleased fresh then mret None
          else
            y ← update (MarkChunksReleased fresh);
            match y with
            | Ok _ => mret None
            | Fail e => if IsConflict e then mark_loop attempts' ns name else mret (Some e)
            end
      end
  end.

Definition markChunksReleased (resv : Reservation) : prog (option Err) :=
  mark_loop 3 (cr_Namespace resv) (cr_Name resv).

(** The phases a release leaves alone. *)
Definition release_skips (p : ReservationPhase) : bool :=
  match p with
  | ReservationPhaseUnpeering | ReservationPhaseReleased
  | ReservationPhaseExpired | ReservationPhaseFailed => true
  | _ => false
  end.

(** Moving to Unpeering, crediting the chunks and stamping the marker. *)
Definition releaseReservation (s : Server) (requestID : string) (resv : Reservation) :
  prog (Response ReleaseResponse) :=
  let patched := cr_set_status
    (rt_set_message "release requested by consumer"
       (rt_set_phase ReservationPhaseUnpeering (cr_status resv))) resv in
  x ← status_update patched;
  match x with
  | Fail _ => mret (fail_with StatusInternalServerError ErrCodeInternalError
                      "reservation release failed" requestID)
  | Ok patched =>
      a ← adjustReservedChunks s (rs_ProviderClusterID (cr_spec resv))
            (GoInt.neg32 (rs_ChunkCount (cr_spec resv)));
      _ ← match a with
          | None => markChunksReleased patched
          | Some e => mret (Some e)
          end;
      mret (JSON StatusAccepted (mkReleaseResp (cr_Name resv) ReservationPhaseUnpeering 0))
  end.

Definition handleReservationRelease (s : Server) (requestID callerID resName chunksQuery : string) :
  prog (Response ReleaseResponse) :=
  x ← get (S:=ReservationSpec) (T:=ReservationStatus) (sv_namespace s) resName;
  match x with
  | Fail e => mret (reservation_read_error requestID resName e)
  | Ok resv =>
      if decide (callerID = rs_ConsumerClusterID (cr_spec resv)) then
        match parseChunksQuery chunksQuery with
        | Fail e => mret (fail_with StatusBadRequest ErrCodeInvalidRequest (e_msg e) requestID)
        | Ok chunks =>
            if negb (chunks =? 0) && negb (chunks =? rs_ChunkCount (cr_spec resv)) then
              mret (fail_with StatusNotImplemented ErrCodeInternalError
                ("partial release is not implemented yet; pass chunks=" +:+
                 GoStr.fmt_d (rs_ChunkCount (cr_spec resv)) +:+
                 " or omit the query parameter") requestID)
            else if release_skips (rt_Phase (cr_status resv)) then
              mret (JSON StatusAccepted
                (mkReleaseResp (cr_Name resv) (rt_Phase (cr_status resv)) 0))
            else releaseReservation s requestID resv
        end
      else mret (fail_with StatusForbidden ErrCodeForbidden
             "only the consumer of a reservation may release it" requestID)
  end.
End ReservationApi.
