(* ===== verification/InstructionsApi.v ===== *)
(** * Instruction endpoints (internal/broker/api/instructions.go)

    Delivery of pending instructions to the agents and ingestion of their
    results, which move the Reservation along its phases. *)
From stdpp Require Import base gmap strings list.
From Stdlib Require Import ZArith Lia.
From S2P Require Import Prelude ApiTypes Chunk Wire Kube.

Open Scope Z_scope.

Definition kubeconfigSecretKey : string := "kubeconfig".

Definition kubeconfigSecretName (consumerClusterID providerClusterID : string) : string :=
  "kubeconfig-" +:+ consumerClusterID +:+ "-" +:+ providerClusterID.

Definition deliveryTouchInterval : Duration := 30 * Second.

Definition deliveryTouchDue (last : option Time) (t : Time) : bool :=
  match last with
  | None => true
  | Some l => deliveryTouchInterval <=? t - l
  end.

Definition is_set_enforced (t : Time) (msg : string) (s : InstructionStatus) : InstructionStatus :=
  mkInstrStatus (is_ObservedGeneration s) true (is_IssuedAt s) (is_LastDeliveredAt s)
    (Some t) (GoInt.add32 (is_Attempts s) 1) msg.

(** The loops of [mergeStrings]: append what was not seen yet. *)
Definition merge_step (out : list string) (x : string) : list string :=
  if decide (x ∈ out) then out else out ++ [x].

Definition mergeStrings (existing fresh : list string) : list string :=
  match fresh with
  | [] => existing
  | _ => foldl merge_step (foldl merge_step [] existing) fresh
  end.

Section InstructionsApi.
Context `{Platform}.

(** ** Views *)
Definition viewFromProviderInstruction (pi : ProviderInstruction) : InstructionView :=
  let sp := cr_spec pi in
  mkInstrView (cr_Name pi) (provider_kind_string (pi_Kind sp)) (pi_ReservationID sp)
    (pi_ChunkCount sp) (pi_LastChunk sp) (pi_ConsumerClusterID sp) (pi_ConsumerLiqoClusterID sp)
    "" "" "" ∅ [] []
    (default (m_CreationTimestamp (cr_meta pi)) (is_IssuedAt (cr_status pi))) (pi_ExpiresAt sp).

Definition viewFromReservationInstruction (ri : ReservationInstruction) : InstructionView :=
  let sp := cr_spec ri in
  mkInstrView (cr_Name ri) (reservation_kind_string (ri_Kind sp)) (ri_ReservationID sp)
    (ri_ChunkCount sp) (ri_LastChunk sp) "" "" (ri_ProviderClusterID sp)
    (ri_ProviderLiqoClusterID sp) "" ∅ (ri_ResourceSliceNames sp) []
    (default (m_CreationTimestamp (cr_meta ri)) (is_IssuedAt (cr_status ri))) (ri_ExpiresAt sp).

(** [view.Kubeconfig = kc]. *)
Definition iv_set_kubeconfig (kc : string) (v : InstructionView) : InstructionView :=
  mkInstrView (iv_ID v) (iv_Kind v) (iv_ReservationID v) (iv_ChunkCount v) (iv_LastChunk v)
    (iv_ConsumerClusterID v) (iv_ConsumerLiqoClusterID v) (iv_ProviderClusterID v)
    (iv_ProviderLiqoClusterID v) kc (iv_ResourceSliceResources v) (iv_ResourceSliceNames v)
    (iv_Namespaces v) (iv_IssuedAt v) (iv_ExpiresAt v).

(** [view.ResourceSliceResources = r; view.Namespaces = n]. *)
Definition iv_decorate (r : ResourceList) (n : list string) (v : InstructionView) : InstructionView :=
  mkInstrView (iv_ID v) (iv_Kind v) (iv_ReservationID v) (iv_ChunkCount v) (iv_LastChunk v)
    (iv_ConsumerClusterID v) (iv_ConsumerLiqoClusterID v) (iv_ProviderClusterID v)
    (iv_ProviderLiqoClusterID v) (iv_Kubeconfig v) r (iv_ResourceSliceNames v)
    n (iv_IssuedAt v) (iv_ExpiresAt v).

(** ** Delivery *)

(** [touchInstructionDelivered], for both instruction types. *)
Definition touchInstructionDelivered {S} `{!Resource S InstructionStatus}
    (o : CR S InstructionStatus) : prog unit :=
  t ← now;
  if deliveryTouchDue (is_LastDeliveredAt (cr_status o)) t then
    _ ← status_update (cr_set_status (is_set_delivered (Some t) (cr_status o)) o);
    mret tt
  else mret tt.

Definition loadKubeconfig (ns secretName : string) : prog (Res string) :=
  x ← get (S:=gmap string string) (T:=unit) ns secretName;
  mret
    match x with
    | Fail e => Fail (wrapf ("get secret " +:+ ns +:+ "/" +:+ secretName) e)
    | Ok sec =>
        let missing := Fail (errors_New ("secret " +:+ ns +:+ "/" +:+ secretName +:+ " has no " +:+
                                GoStr.fmt_q kubeconfigSecretKey +:+ " key")) in
        match cr_spec sec !! kubeconfigSecretKey with
        | None => missing
        | Some b => if decide (b = "") then missing else Ok b
        end
    end.

Definition getReservation (ns name : string) : prog (Res Reservation) :=
  get (S:=ReservationSpec) (T:=ReservationStatus) ns name.

(** The provider-side loop: the views appended to [out]. *)
Fixpoint collect_provider (callerID : string) (items : list ProviderInstruction)
    (out : list InstructionView) : prog (list InstructionView) :=
  match items with
  | [] => mret out
  | pi :: items' =>
      if bool_decide (pi_TargetClusterID (cr_spec pi) ≠ callerID) || is_Enforced (cr_status pi) then
        collect_provider callerID items' out
      else
        _ ← touchInstructionDelivered pi;
        collect_provider callerID items' (out ++ [viewFromProviderInstruction pi])
  end.

(** The view of one pending consumer instruction, or [None] when it is skipped
    this cycle. *)
Definition view_consumer (ns : string) (ri : ReservationInstruction) :
  prog (option InstructionView) :=
  let sp := cr_spec ri in
  let view := viewFromReservationInstruction ri in
  kc ← (if bool_decide (ri_Kind sp = ReservationInstructionPeer) &&
           bool_decide (ri_KubeconfigRef sp ≠ "") then
          k ← loadKubeconfig ns (ri_KubeconfigRef sp);
          mret (match k with Ok kc => Some (iv_set_kubeconfig kc view) | Fail _ => None end)
        else mret (Some view));
  match kc with
  | None => mret None
  | Some view =>
      if bool_decide (ri_Kind sp = ReservationInstructionPeer) ||
         bool_decide (ri_Kind sp = ReservationInstructionUnpeer) then
        r ← getReservation ns (ri_ReservationID sp);
        mret (Some match r with
                   | Ok resv => iv_decorate (rs_Resources (cr_spec resv))
                                  (rs_Namespaces (cr_spec resv)) view
                   | Fail _ => view
                   end)
      else mret (Some view)
  end.

Fixpoint collect_consumer (ns callerID : string) (items : list ReservationInstruction)
    (out : list InstructionView) : prog (list InstructionView) :=
  match items with
  | [] => mret out
  | ri :: items' =>
      if bool_decide (ri_TargetClusterID (cr_spec ri) ≠ callerID) || is_Enforced (cr_status ri) then
        collect_consumer ns callerID items' out
      else
        v ← view_consumer ns ri;
        match v with
        | None => collect_consumer ns callerID items' out
        | Some view =>
            _ ← touchInstructionDelivered ri;
            collect_consumer ns callerID items' (out ++ [view])
        end
  end.

Definition collectInstructionsForCaller (ns callerID : string) : prog (Res (list InstructionView)) :=
  pis ← list_in (S:=ProviderInstructionSpec) (T:=InstructionStatus) ns;
  match pis with
  | Fail e => mret (Fail (wrapf "list ProviderInstruction" e))
  | Ok pis =>
      out ← collect_provider callerID pis [];
      ris ← list_in (S:=ReservationInstructionSpec) (T:=InstructionStatus) ns;
      match ris with
      | Fail e => mret (Fail (wrapf "list ReservationInstruction" e))
      | Ok ris =>
          out ← collect_consumer ns callerID ris out;
          mret (Ok out)
      end
  end.

Definition handleInstructionsList (s : Server) (requestID callerID : string) :
  prog (Response (list InstructionView)) :=
  x ← collectInstructionsForCaller (sv_namespace s) callerID;
  mret match x with
       | Fail _ => fail_with StatusInternalServerError ErrCodeInternalError
                     "instruction read failed" requestID
       | Ok views => JSON StatusOK views
       end.

(** ** POST /api/v1/instructions/{id}/result *)
Definition validateInstructionResult (req : InstructionResultRequest) : option Err :=
  let payload_check :=
    match ir_Payload req with
    | Some p =>
        if decide (pl_Kind p ∈ [PayloadKindKubeconfig; PayloadKindPeer; PayloadKindUnpeer;
                                PayloadKindReconcile; ""]) then None
        else Some (errors_New ("invalid payload.kind " +:+ GoStr.fmt_q (pl_Kind p)))
    | None => None
    end in
  if decide (ir_Status req = ResultStatusSucceeded) then payload_check
  else if decide (ir_Status req = ResultStatusFailed) then
    match ir_Error req with
    | Some e => if decide (ee_Message e = "")
                then Some (errors_New "status=Failed requires a non-empty error.message") else None
    | None => Some (errors_New "status=Failed requires a non-empty error.message")
    end
  else Some (errors_New ("invalid status " +:+ GoStr.fmt_q (ir_Status req) +:+ " (want " +:+
         GoStr.fmt_q ResultStatusSucceeded +:+ " | " +:+ GoStr.fmt_q ResultStatusFailed +:+ ")")).

Definition resultMessage (req : InstructionResultRequest) : string :=
  match ir_Error req with
  | Some e => if decide (ir_Status req = ResultStatusFailed) then "Failed: " +:+ ee_Message e
              else "Succeeded"
  | None => "Succeeded"
  end.

(** The status write of a phase change. *)
Definition write_phase (to : ReservationPhase) (message : string) (resv : Reservation) :
  prog (option Err) :=
  x ← status_update (cr_set_status (rt_set_message message (rt_set_phase to (cr_status resv))) resv);
  mret match x with Ok _ => None | Fail e => Some e end.

(** [advanceReservationPhase]; [PhaseEmpty] is the empty [from]. *)
Definition advanceReservationPhase (ns reservationID : string) (from to : ReservationPhase)
    (message : string) : prog (option Err) :=
  r ← getReservation ns reservationID;
  match r with
  | Fail e => mret (Some e)
  | Ok resv =>
      if bool_decide (from ≠ PhaseEmpty) && bool_decide (rt_Phase (cr_status resv) ≠ from) then
        mret (Some (errors_New ("phase is " +:+ GoStr.fmt_q (phase_string (rt_Phase (cr_status resv)))
                                +:+ ", want " +:+ GoStr.fmt_q (phase_string from))))
      else write_phase to message resv
  end.

(** [createOrUpdateSecret] with the mutation [data[kubeconfig] = kc]. *)
Definition createOrUpdateSecret (sec : Secret) (mutate : Secret → Secret) : prog (option Err) :=
  x ← get (S:=gmap string string) (T:=unit) (cr_Namespace sec) (cr_Name sec);
  match x with
  | Fail e =>
      if IsNotFound e then
        y ← create (mutate sec);
        mret match y with Ok _ => None | Fail e => Some e end
      else mret (Some e)
  | Ok existing =>
      let sec := cr_set_meta
        (meta_set_version (m_ResourceVersion (cr_meta existing)) (m_UID (cr_meta existing))
           (cr_meta sec)) sec in
      y ← update (mutate sec);
      mret match y with Ok _ => None | Fail e => Some e end
  end.

Definition ri_set_kubeconfig_ref (ref : string) (sp : ReservationInstructionSpec) :
  ReservationInstructionSpec :=
  mkRISpec (ri_ReservationID sp) (ri_Kind sp) (ri_TargetClusterID sp) (ri_ProviderClusterID sp)
    (ri_ProviderLiqoClusterID sp) (ri_ResourceSliceNames sp) (ri_ChunkCount sp) (ri_LastChunk sp)
    ref (ri_ExpiresAt sp).

(** [attachKubeconfigToPeer]: the first Peer instruction of the reservation. *)
Fixpoint attach_first (reservationID secretName : string) (items : list ReservationInstruction) :
  prog (option Err) :=
  match items with
  | [] => mret None
  | ri :: items' =>
      let sp := cr_spec ri in
      if bool_decide (ri_ReservationID sp ≠ reservationID) ||
         bool_decide (ri_Kind sp ≠ ReservationInstructionPeer) then
        attach_first reservationID secretName items'
      else if decide (ri_KubeconfigRef sp = secretName) then mret None
      else
        y ← update (cr_set_spec (ri_set_kubeconfig_ref secretName sp) ri);
        mret match y with Ok _ => None | Fail e => Some e end
  end.

Definition attachKubeconfigToPeer (ns reservationID secretName : string) : prog (option Err) :=
  x ← list_in (S:=ReservationInstructionSpec) (T:=InstructionStatus) ns;
  match x with
  | Fail e => mret (Some e)
  | Ok items => attach_first reservationID secretName items
  end.

(** [persistKubeconfigPayload]: the staging failures are fatal, attaching and
    advancing are best effort. *)
Definition persistKubeconfigPayload (ns : string) (pi : ProviderInstruction)
    (payload : option ResultPayload) : prog (option Err) :=
  let missing := Some (errors_New "KubeconfigPayload requires a non-empty kubeconfig") in
  match payload with
  | None => mret missing
  | Some payload =>
      if decide (pl_Kubeconfig payload = "") then mret missing
      else
        let sp := cr_spec pi in
        let secretName := kubeconfigSecretName (pi_ConsumerClusterID sp) (pi_TargetClusterID sp) in
        let sec : Secret := mkCR (meta_set_labels
          (<["federation-autoscaler.io/consumer" := pi_ConsumerClusterID sp]>
            (<["federation-autoscaler.io/provider" := pi_TargetClusterID sp]> ∅))
          (meta_named secretName ns)) ∅ tt in
        e ← createOrUpdateSecret sec
              (λ sec, cr_set_spec (<[kubeconfigSecretKey := pl_Kubeconfig payload]> (cr_spec sec)) sec);
        match e with
        | Some e => mret (Some (wrapf "upsert kubeconfig secret" e))
        | None =>
            _ ← attachKubeconfigToPeer ns (pi_ReservationID sp) secretName;
            _ ← advanceReservationPhase ns (pi_ReservationID sp)
                  ReservationPhaseGeneratingKubeconfig ReservationPhaseKubeconfigReady
                  "kubeconfig delivered";
            mret None
        end
  end.

(** [markProviderInstructionEnforced] and [markReservationInstructionEnforced]
    are the same code for the two types. *)
Definition markInstructionEnforced {S} `{!Resource S InstructionStatus}
    (o : CR S InstructionStatus) (req : InstructionResultRequest) : prog (option Err) :=
  t ← now;
  x ← status_update (cr_set_status (is_set_enforced t (resultMessage req) (cr_status o)) o);
  mret match x with Ok _ => None | Fail e => Some e end.

Definition accepted : Response bool := JSON StatusOK true.
Definition not_targeted (requestID : string) : Response bool :=
  fail_with StatusForbidden ErrCodeForbidden "instruction is not targeted at this cluster" requestID.

Definition applyProviderResult (ns requestID callerID : string) (pi : ProviderInstruction)
    (req : InstructionResultRequest) : prog (Response bool) :=
  let sp := cr_spec pi in
  if decide (pi_TargetClusterID sp = callerID) then
    if is_Enforced (cr_status pi) then mret accepted
    else
      let is_gen := bool_decide (pi_Kind sp = ProviderInstructionGenerateKubeconfig) in
      e ← (if bool_decide (ir_Status req = ResultStatusSucceeded) && is_gen
           then persistKubeconfigPayload ns pi (ir_Payload req) else mret None);
      match e with
      | Some _ => mret (fail_with StatusInternalServerError ErrCodeInternalError
                          "kubeconfig persistence failed" requestID)
      | None =>
          e ← markInstructionEnforced pi req;
          match e with
          | Some _ => mret (fail_with StatusInternalServerError ErrCodeInternalError
                              "instruction status update failed" requestID)
          | None =>
              _ ← (if bool_decide (ir_Status req = ResultStatusFailed) && is_gen then
                     let msg :=
                       match ir_Error req with
                       | Some e => if decide (ee_Message e = "")
                                   then "GenerateKubeconfig failed on the provider" else ee_Message e
                       | None => "GenerateKubeconfig failed on the provider"
                       end in
                     advanceReservationPhase ns (pi_ReservationID sp) PhaseEmpty
                       ReservationPhaseFailed msg
                   else mret None);
              mret accepted
          end
      end
  else mret (not_targeted requestID).

Definition applyPeerPayload (ns : string) (ri : ReservationInstruction)
    (payload : option ResultPayload) : prog (option Err) :=
  r ← getReservation ns (ri_ReservationID (cr_spec ri));
  match r with
  | Fail e => mret (Some e)
  | Ok resv =>
      let st := cr_status resv in
      let st := match payload with
                | Some p => rt_set_vnodes (mergeStrings (rt_VirtualNodeNames st) (pl_VirtualNodeNames p)) st
                | None => st
                end in
      write_phase ReservationPhasePeered "peering completed" (cr_set_status st resv)
  end.

Definition applyUnpeerPayload (ns : string) (ri : ReservationInstruction) : prog unit :=
  _ ← advanceReservationPhase ns (ri_ReservationID (cr_spec ri)) ReservationPhaseUnpeering
        ReservationPhaseReleased "chunk released";
  mret tt.

Definition applyReservationResult (ns requestID callerID : string) (ri : ReservationInstruction)
    (req : InstructionResultRequest) : prog (Response bool) :=
  let sp := cr_spec ri in
  if decide (ri_TargetClusterID sp = callerID) then
    if is_Enforced (cr_status ri) then mret accepted
    else
      e ← (if decide (ir_Status req = ResultStatusSucceeded) then
             match ri_Kind sp with
             | ReservationInstructionPeer => applyPeerPayload ns ri (ir_Payload req)
             | ReservationInstructionUnpeer => _ ← applyUnpeerPayload ns ri; mret None
             | _ => mret None
             end
           else if decide (ir_Status req = ResultStatusFailed) then
             _ ← advanceReservationPhase ns (ri_ReservationID sp) PhaseEmpty ReservationPhaseFailed
                   (match ir_Error req with Some e => ee_Message e | None => "" end);
             mret None
           else mret None);
      match e with
      | Some _ => mret (fail_with StatusInternalServerError ErrCodeInternalError
                          "peer result persistence failed" requestID)
      | None =>
          e ← markInstructionEnforced ri req;
          match e with
          | Some _ => mret (fail_with StatusInternalServerError ErrCodeInternalError
                              "instruction status update failed" requestID)
          | None => mret accepted
          end
      end
  else mret (not_targeted requestID).

Definition handleInstructionResult (s : Server) (requestID callerID id : string)
    (body : Res InstructionResultRequest) : prog (Response bool) :=
  if decide (id = "") then
    mret (fail_with StatusBadRequest ErrCodeInvalidRequest "id is required" requestID)
  else
    match body with
    | Fail e => mret (fail_with StatusBadRequest ErrCodeInvalidRequest (e_msg e) requestID)
    | Ok req =>
        match validateInstructionResult req with
        | Some e => mret (fail_with StatusBadRequest ErrCodeInvalidRequest (e_msg e) requestID)
        | None =>
            x ← get (S:=ProviderInstructionSpec) (T:=InstructionStatus) (sv_namespace s) id;
            match x with
            | Ok pi => applyProviderResult (sv_namespace s) requestID callerID pi req
            | Fail e =>
                if IsNotFound e then
                  y ← get (S:=ReservationInstructionSpec) (T:=InstructionStatus) (sv_namespace s) id;
                  match y with
                  | Ok ri => applyReservationResult (sv_namespace s) requestID callerID ri req
                  | Fail e =>
                      if IsNotFound e then
                        mret (fail_with StatusNotFound ErrCodeNotFound
                          ("instruction " +:+ GoStr.fmt_q id +:+ " not found") requestID)
                      else mret (fail_with StatusInternalServerError ErrCodeInternalError
                                   "instruction read failed" requestID)
                  end
                else mret (fail_with StatusInternalServerError ErrCodeInternalError
                             "instruction read failed" requestID)
            end
        end
    end.
End InstructionsApi.
