(* ===== verification/AdvertisementApi.v ===== *)
(** * Advertisement and node-group endpoints
    (internal/broker/api/advertisement.go, nodegroups.go)

    Ingestion of a provider's advertisement, the read-back of the Broker's view
    of it, and the node-group list a consumer polls. *)
From stdpp Require Import base gmap strings list.
From Stdlib Require Import ZArith Lia.
From S2P Require Import Prelude ApiTypes Chunk Wire Kube Registry Placement InstructionsApi.
Import GoFloat.

Open Scope Z_scope.

Definition advertisementReportInterval : string := "30s".

(** [ReservationHoldsChunk] and [ReservationInFlight]. *)
Definition ReservationHoldsChunk (p : ReservationPhase) : bool :=
  match p with
  | PhaseEmpty | ReservationPhasePending | ReservationPhaseGeneratingKubeconfig
  | ReservationPhaseKubeconfigReady | ReservationPhasePeering | ReservationPhasePeered => true
  | _ => false
  end.

Definition ReservationInFlight (p : ReservationPhase) : bool :=
  match p with
  | PhaseEmpty | ReservationPhasePending | ReservationPhaseGeneratingKubeconfig
  | ReservationPhaseKubeconfigReady | ReservationPhasePeering => true
  | _ => false
  end.

Section AdvertisementApi.
Context `{Platform}.

(** [controllerutil.CreateOrUpdate] with a mutation that cannot fail: create
    when absent, update when the mutation changed something. *)
Definition CreateOrUpdate {S T} `{!Resource S T} (obj : CR S T) (mutate : CR S T → CR S T) :
  prog (Res (CR S T)) :=
  x ← get (cr_Namespace obj) (cr_Name obj);
  match x with
  | Fail e => if IsNotFound e then create (mutate obj) else mret (Fail e)
  | Ok existing =>
      if DeepEqual existing (mutate existing) then mret (Ok (mutate existing))
      else update (mutate existing)
  end.

Definition validateAdvertisementRequest (req : AdvertisementRequest) : option Err :=
  if decide (ar_ClusterID req = "") then Some (errors_New "clusterId is required")
  else if decide (ar_LiqoClusterID req = "") then Some (errors_New "liqoClusterId is required")
  else if decide (ar_Resources req = ∅) then Some (errors_New "resources must not be empty")
  else
    match ar_CarbonIntensity req with
    | Some c => if flt c fzero then Some (errors_New "carbonIntensity must be non-negative") else None
    | None => None
    end.

(** The spec an advertisement is stored with. *)
Definition spec_of_request (req : AdvertisementRequest) (chunkResult : Result) :
  ClusterAdvertisementSpec :=
  mkCadvSpec (ar_ClusterID req) (ar_LiqoClusterID req) (cr_Type chunkResult) (ar_Resources req)
    (ar_Topology req) (ar_UnitPrices req) (ar_CarbonIntensity req) (ar_CarbonForecast req)
    (ar_CapacityScalePercent req) (ar_CapacityFixed req) (ar_Renewable req) (ar_ProbeEndpoint req).

Definition upsertClusterAdvertisement (ns : string) (req : AdvertisementRequest)
    (chunkResult : Result) : prog (Res ClusterAdvertisement) :=
  let cadv : ClusterAdvertisement :=
    mkCR (meta_named (ar_ClusterID req) ns)
      (mkCadvSpec "" "" "" ∅ None ∅ None [] ∅ ∅ false "") cadv_status_zero in
  x ← CreateOrUpdate cadv (cr_set_spec (spec_of_request req chunkResult));
  mret match x with
       | Ok c => Ok c
       | Fail e => Fail (wrapf ("createOrUpdate " +:+ ns +:+ "/" +:+ ar_ClusterID req) e)
       end.

(** The status [touchClusterAdvertisementStatus] writes at time [t]. *)
Definition touched (cadv : ClusterAdvertisement) (count : Z) (t : Time) : ClusterAdvertisement :=
  let st := cr_status cadv in
  let available := GoInt.sub32 count (ca_ReservedChunks st) in
  let available := if available <? 0 then 0 else available in
  cr_set_status (mkCadvStatus (m_Generation (cr_meta cadv)) (Some t) true count
                   (ca_ReservedChunks st) available (ca_Conditions st)) cadv.

Definition touchClusterAdvertisementStatus (cadv : ClusterAdvertisement) (chunkResult : Result) :
  prog (option Err) :=
  t ← now;
  x ← status_update (touched cadv (cr_Count chunkResult) t);
  mret match x with Ok _ => None | Fail e => Some e end.

Definition handleAdvertisementUpsert (s : Server) (requestID clusterID : string)
    (body : Res AdvertisementRequest) : prog (Response AdvertisementResponse) :=
  match body with
  | Fail e => mret (fail_with StatusBadRequest ErrCodeInvalidRequest (e_msg e) requestID)
  | Ok req =>
      match validateAdvertisementRequest req with
      | Some e => mret (fail_with StatusBadRequest ErrCodeInvalidRequest (e_msg e) requestID)
      | None =>
          if decide (ar_ClusterID req = clusterID) then
            match sv_sizer s (ar_Resources req) with
            | [] => mret (fail_with StatusBadRequest ErrCodeInsufficientCapacity
                            "advertised resources do not yield even one full chunk" requestID)
            | chunkResult :: _ =>
                c ← upsertClusterAdvertisement (sv_namespace s) req chunkResult;
                match c with
                | Fail _ => mret (fail_with StatusInternalServerError ErrCodeInternalError
                                    "advertisement persistence failed" requestID)
                | Ok cadv =>
                    _ ← touchClusterAdvertisementStatus cadv chunkResult;
                    i ← collectInstructionsForCaller (sv_namespace s) clusterID;
                    let instr := match i with Ok l => l | Fail _ => [] end in
                    mret (JSON StatusOK (mkAdvResp true (cr_Count chunkResult)
                      (cr_PerChunk chunkResult) advertisementReportInterval instr))
                end
            end
          else mret (fail_with StatusForbidden ErrCodeForbidden
            ("body.clusterId " +:+ GoStr.fmt_q (ar_ClusterID req) +:+
             " does not match certificate CN " +:+ GoStr.fmt_q clusterID) requestID)
      end
  end.

Definition advertisementSnapshotFromCR (cadv : ClusterAdvertisement) : AdvertisementSnapshot :=
  let sp := cr_spec cadv in
  let st := cr_status cadv in
  let '(v, ok) := weightedCarbon cadv in
  mkSnapshot (cs_ClusterID sp) (cs_LiqoClusterID sp) (cs_Allocatable sp) (cs_Topology sp)
    (cs_UnitPrices sp) None (cs_CarbonIntensity sp) (cs_CarbonForecast sp)
    (if (ok : bool) then Some v else None) (cs_CapacityScalePercent sp) (cs_CapacityFixed sp)
    (cs_Renewable sp) (cs_ProbeEndpoint sp) ∅ [] (ca_TotalChunks st) (ca_ReservedChunks st)
    (ca_AvailableChunks st) (ca_LastSeen st) (ca_Available st).

Definition handleAdvertisementGet (s : Server) (requestID pathClusterID authClusterID : string) :
  prog (Response AdvertisementSnapshot) :=
  if decide (pathClusterID = "") then
    mret (fail_with StatusBadRequest ErrCodeInvalidRequest "clusterId is required" requestID)
  else if decide (pathClusterID = authClusterID) then
    x ← get (S:=ClusterAdvertisementSpec) (T:=ClusterAdvertisementStatus) (sv_namespace s) pathClusterID;
    mret
      match x with
      | Ok cadv => JSON StatusOK (advertisementSnapshotFromCR cadv)
      | Fail e =>
          if IsNotFound e then
            fail_with StatusNotFound ErrCodeNotFound
              ("no advertisement for cluster " +:+ GoStr.fmt_q pathClusterID) requestID
          else fail_with StatusInternalServerError ErrCodeInternalError
                 "advertisement read failed" requestID
      end
  else mret (fail_with StatusForbidden ErrCodeForbidden
         ("path clusterId " +:+ GoStr.fmt_q pathClusterID +:+
          " does not match certificate CN " +:+ GoStr.fmt_q authClusterID) requestID).

(** ** GET /api/v1/nodegroups *)

(** One iteration of [ownByProvider]. *)
Definition own_step (consumerID : string) (acc : gmap string Z * gmap string bool)
    (r : Reservation) : gmap string Z * gmap string bool :=
  let '(own, inFlight) := acc in
  let sp := cr_spec r in
  let p := rs_ProviderClusterID sp in
  if decide (rs_ConsumerClusterID sp = consumerID) then
    let own :=
      if ReservationHoldsChunk (rt_Phase (cr_status r)) then
        let n := if rs_ChunkCount sp <=? 0 then 1 else rs_ChunkCount sp in
        <[p := GoInt.add32 (default 0 (own !! p)) n]> own
      else own in
    let inFlight :=
      if ReservationInFlight (rt_Phase (cr_status r)) then <[p := true]> inFlight else inFlight in
    (own, inFlight)
  else acc.

Definition ownByProvider (ns consumerID : string) : prog (Res (gmap string Z * gmap string bool)) :=
  x ← list_in (S:=ReservationSpec) (T:=ReservationStatus) ns;
  mret match x with
       | Fail e => Fail e
       | Ok items => Ok (foldl (own_step consumerID) (∅, ∅) items)
       end.

Definition handleNodeGroupsList `{GoRuntime} (s : Server) (reg : ConsumerRegistry)
    (requestID consumerID : string) : prog (Response NodeGroupListResponse) :=
  x ← list_in (S:=ClusterAdvertisementSpec) (T:=ClusterAdvertisementStatus) (sv_namespace s);
  match x with
  | Fail _ => mret (fail_with StatusInternalServerError ErrCodeInternalError
                      "advertisement list failed" requestID)
  | Ok advs =>
      let entry := (Lookup consumerID reg).1 in
      o ← ownByProvider (sv_namespace s) consumerID;
      match o with
      | Fail _ => mret (fail_with StatusInternalServerError ErrCodeInternalError
                          "reservation list failed" requestID)
      | Ok (own, inflight) =>
          t ← now;
          mret (JSON StatusOK (BuildNodeGroups
                  (mkPlacementInput advs entry inflight (Some own) (sv_sizer s)) t))
      end
  end.
End AdvertisementApi.
