(* ===== verification/Brain.v ===== *)
(** * The consumer's own placement decision (internal/agent/consumer/brain:
    brain.go, nodegroups.go, latency.go, reservations.go)

    In local mode the consumer chooses from the catalog itself: it converts the
    offers into one in-memory advertisement per provider, drops the sites
    outside the latency bound and runs the Broker's placement core
    ([Placement.BuildNodeGroups]).

    The theorems: a group that can grow has a site within the bound and was not
    refused recently; a provider that holds chunks of this consumer stays listed
    whatever the bound; the chunk counts of the view are the Broker's own. *)
From stdpp Require Import base gmap strings list sorting.
From Stdlib Require Import ZArith Lia.
From S2P Require Import Prelude ApiTypes ConsumerTypes Kube Effects Chunk Wire AgentClient Catalog.
From S2P Require Import Registry Placement PlacementProofs ReservationApi AdvertisementApi.
Import GoFloat.

Open Scope Z_scope.

Section Brain.
Context `{Platform}.

(** ** Latency (latency.go) *)
Definition fibreKmPerMs : float64 := fof_Z 100.

Definition EstimateLatencyMs (distanceKm : float64) : float64 := fdiv distanceKm fibreKmPerMs.

Definition EffectiveBound (policy request : option LatencyBound) : option LatencyBound :=
  match request with Some b => Some b | None => policy end.

(** How [withinBound] judges one site: whether it is kept, and whether the
    distance estimate decided. *)
Definition judge (limit : float64) (consumer : ConsumerEntry) (measuredMs : gmap string float64)
    (o : Offer) : bool * bool :=
  let estimate :=
    match ce_HasLocation consumer, lo_Latitude (of_Location o), lo_Longitude (of_Location o) with
    | true, Some lat, Some lon =>
        let km := HaversineKm (ce_Latitude consumer) (ce_Longitude consumer) lat lon in
        (fle (EstimateLatencyMs km) limit, true)
    | _, _, _ => (false, false)
    end in
  match measuredMs !! of_ProbeEndpoint o with
  | Some rtt =>
      if negb (bool_decide (of_ProbeEndpoint o = "")) && is_finite rtt then (fle rtt limit, false)
      else estimate
  | None => estimate
  end.

Definition withinBound (offers : list Offer) (bound : option LatencyBound)
    (consumer : ConsumerEntry) (measuredMs : gmap string float64) : list Offer * list string :=
  match bound with
  | None => (offers, [])
  | Some b =>
      let j := judge (fof_Z (lb_MaxLatencyMs b)) consumer measuredMs in
      (filter (λ o, (j o).1 = true) offers,
       (λ o, of_ProviderID o +:+ "/" +:+ of_SiteID o) <$> filter (λ o, (j o).2 = true) offers)
  end.

(** The loop of [probeEndpoints], with the set [seen]. *)
Fixpoint probe_loop (offers : list Offer) (seen : gset string) : list string :=
  match offers with
  | [] => []
  | o :: offers' =>
      let e := of_ProbeEndpoint o in
      if negb (bool_decide (e = "")) && negb (bool_decide (e ∈ seen)) then
        e :: probe_loop offers' ({[e]} ∪ seen)
      else probe_loop offers' seen
  end.

Definition probeEndpoints (offers : list Offer) : list string := probe_loop offers ∅.

(** [ownReserved[p]]: a missing key reads 0. *)
Definition own_of (own : gmap string Z) (p : string) : Z := default 0 (own !! p).

Definition heldOutsideBound (all kept : list Offer) (ownReserved : gmap string Z) : gset string :=
  let stillListed : gset string := list_to_set (of_ProviderID <$> kept) in
  list_to_set (of_ProviderID <$>
    filter (λ o, of_ProviderID o ∉ stillListed ∧ 0 < own_of ownReserved (of_ProviderID o)) all).

(** ** Own bookings (reservations.go) *)
Definition from_step (acc : gmap string Z * gmap string bool) (r : ReservationResponse) :
    gmap string Z * gmap string bool :=
  let '(own, inFlight) := acc in
  let p := rr_ProviderClusterID r in
  if decide (p = "") then acc
  else
    let own :=
      if ReservationHoldsChunk (rr_Status r) then
        let n := if rr_ChunkCount r <=? 0 then 1 else rr_ChunkCount r in
        <[p := GoInt.add32 (default 0 (own !! p)) n]> own
      else own in
    let inFlight :=
      if ReservationInFlight (rr_Status r) then <[p := true]> inFlight else inFlight in
    (own, inFlight).

Definition FromReservations (l : list ReservationResponse) : gmap string Z * gmap string bool :=
  foldl from_step (∅, ∅) l.

(** ** Advertisements from offers (nodegroups.go) *)
Definition sizedChunks (sizer : Sizer) (capacity : ResourceList) : ChunkType * Z :=
  match sizer capacity with
  | [] => (ChunkTypeStandard, 0)
  | r :: _ => (cr_Type r, cr_Count r)
  end.

(** [addResources]: every key of [add] is visited once, so the order the map is
    ranged in does not matter. *)
Definition addResources (sum add : ResourceList) : ResourceList :=
  merge (λ cur qty, match qty with
                    | Some q => Some (q_Add (default q_zero cur) q)
                    | None => cur
                    end) sum add.

Definition topologyFrom (l : Location) : option Topology :=
  Some (mkTopology "" (lo_Region l) (lo_City l) (default fzero (lo_Latitude l))
          (default fzero (lo_Longitude l))).

#[global] Instance offer_inhabited : Inhabited Offer :=
  populate (mkOffer 0 "" "" "" (mkLocation "" "" None None) ∅ ∅ "" None None [] false "" ∅ [] 0).

(** The chunks of one site, counted only when its type is the provider's. *)
Definition site_chunks (sizer : Sizer) (chunkType : ChunkType) (o : Offer) : Z :=
  let '(t, n) := sizedChunks sizer (of_Available o) in
  if decide (t = chunkType) then n else 0.

(** The loop over the sites: free chunks, lead index and the lead's chunks. *)
Definition lead_step (acc : Z * nat * Z) (p : nat * Z) : Z * nat * Z :=
  let '(free, lead, leadChunks) := acc in
  let '(i, n) := p in
  let free := GoInt.add32 free n in
  if leadChunks <? n then (free, i, n) else (free, lead, leadChunks).

(** [sort.Slice] by site; the catalog keys offers by (provider, site), so no two
    sites of a provider compare equal and every sort gives this order. *)
Definition sort_sites (sites : list Offer) : list Offer :=
  GoSort.SliceStable (λ a b, GoStr.str_lt (of_SiteID a) (of_SiteID b)) sites.

Definition providerAdvertisement (provider : string) (sites : list Offer) (own : Z)
    (sizer : Sizer) : ClusterAdvertisement :=
  let sites := sort_sites sites in
  let pooled := foldl addResources ∅ (of_Available <$> sites) in
  let chunkType := (sizedChunks sizer pooled).1 in
  let '(free, lead, _) :=
    foldl lead_step (0, 0%nat, -1) (imap (λ i s, (i, site_chunks sizer chunkType s)) sites) in
  let ref := sites !!! lead in
  mkCR (meta_named provider "")
    (mkCadvSpec provider (of_LiqoClusterID ref) chunkType pooled (topologyFrom (of_Location ref))
       (of_UnitPrices ref) (of_CarbonIntensity ref) (of_CarbonForecast ref) ∅ ∅ (of_Renewable ref)
       (of_ProbeEndpoint ref))
    (mkCadvStatus 0 None true (GoInt.add32 own free) own free []).

(** The keys of [byProvider], sorted. *)
Definition offer_providers (offers : list Offer) : list string :=
  GoSort.SliceStable GoStr.str_lt
    (remove_dups (filter (λ p, p ≠ "") (of_ProviderID <$> offers))).

Definition Advertisements (offers : list Offer) (ownReserved : gmap string Z)
    (sizer : option Sizer) : list ClusterAdvertisement :=
  let sizer := default Size sizer in
  (λ p, providerAdvertisement p (filter (λ o, of_ProviderID o = p) offers)
          (own_of ownReserved p) sizer) <$> offer_providers offers.

(** ** The decision *)
Record Input := mkInput {
  bi_Offers : list Offer;
  bi_OwnReserved : gmap string Z;
  bi_InFlight : gmap string bool;
  bi_Consumer : ConsumerEntry;
  bi_LatencyBound : option LatencyBound;
  bi_MeasuredLatencyMs : gmap string float64;
  bi_Full : gset string;
  bi_Sizer : option Sizer
}.

(** [a.Status.TotalChunks = a.Status.ReservedChunks; AvailableChunks = 0]. *)
Definition freeze (a : ClusterAdvertisement) : ClusterAdvertisement :=
  let st := cr_status a in
  cr_set_status (mkCadvStatus (ca_ObservedGeneration st) (ca_LastSeen st) (ca_Available st)
    (ca_ReservedChunks st) (ca_ReservedChunks st) 0 (ca_Conditions st)) a.

(** The offers the decision keeps, the providers listed only because they hold
    chunks, and the sites judged by distance. *)
Definition kept_offers (inp : Input) : list Offer * gset string * list string :=
  match bi_LatencyBound inp with
  | None => (bi_Offers inp, ∅, [])
  | Some b =>
      let '(kept, estimated) :=
        withinBound (bi_Offers inp) (Some b) (bi_Consumer inp) (bi_MeasuredLatencyMs inp) in
      let held := heldOutsideBound (bi_Offers inp) kept (bi_OwnReserved inp) in
      (kept ++ filter (λ o, of_ProviderID o ∈ held) (bi_Offers inp), held, estimated)
  end.

Definition placement_input (inp : Input) : PlacementInput :=
  let sizer := default Size (bi_Sizer inp) in
  let '(offers, held, _) := kept_offers inp in
  let advs := (λ a, if decide (cs_ClusterID (cr_spec a) ∈ held ∨
                               cs_ClusterID (cr_spec a) ∈ bi_Full inp)
                    then freeze a else a)
                <$> Advertisements offers (bi_OwnReserved inp) (Some sizer) in
  mkPlacementInput advs (bi_Consumer inp) (bi_InFlight inp) None sizer.

(** [nodeGroups], served at time [t]. *)
Definition nodeGroups `{GoRuntime} (inp : Input) (t : Time) : NodeGroupListResponse * list string :=
  (BuildNodeGroups (placement_input inp) t, (kept_offers inp).2).

Definition NodeGroups `{GoRuntime} (inp : Input) (t : Time) : NodeGroupListResponse :=
  (nodeGroups inp t).1.

(** ** The brain (brain.go) *)

(** [Brain]: its options and the two pieces of state.  The location callback's
    answer is an argument of the decision. *)
Record Brain := mkBrain {
  br_Namespace : string;
  br_hasProber : bool;
  br_Sizer : Sizer;
  br_full : FullProviders;
  br_lastChoice : string
}.

(** [New]; the three booleans say which required options are set. *)
Definition NewBrain (hasCatalog hasReservations hasClient : bool) (ns : string) (hasProber : bool)
    (sizer : option Sizer) : Res Brain :=
  if negb hasCatalog then Fail (errors_New "brain: Catalog is required")
  else if negb hasReservations then Fail (errors_New "brain: Reservations is required")
  else if negb hasClient then Fail (errors_New "brain: LocalClient is required")
  else Ok (mkBrain ns hasProber (default Size sizer) NewFullProviders "").

(** The interfaces the brain is given: the catalog reader, the Broker's
    reservation list and the latency prober. *)
Inductive brain_call :=
| CatalogListOffers
| OwnReservations
| Measure (endpoints : list string).

Definition brain_answer (c : brain_call) : Type :=
  match c with
  | CatalogListOffers => Res (list Offer)
  | OwnReservations => list ReservationResponse + CallError
  | Measure _ => gmap string float64
  end.

Abbreviation brain_prog := (eff brain_call brain_answer).
Definition brain_ask (c : brain_call) : brain_prog (brain_answer c) := ask c.

(** The choice of [currentPolicy] among the policies listed. *)
Definition lowest_policy (l : list ConsumerPolicy) : option ConsumerPolicy :=
  match l with
  | [] => None
  | p :: _ =>
      Some (foldl (λ chosen q, if GoStr.str_lt (cr_Name q) (cr_Name chosen) then q else chosen) p l)
  end.

Definition currentPolicy (ns : string) : prog (Res ConsumerPolicySpec) :=
  x ← list_in (S:=ConsumerPolicySpec) (T:=unit) ns;
  mret match x with
       | Fail e => Fail (wrapf "brain: read ConsumerPolicy" e)
       | Ok l => Ok (match lowest_policy l with Some p => cr_spec p | None => policy_spec_zero end)
       end.

(** [NodeGroupsWithin]: the brain afterwards and the answer. *)
Definition NodeGroupsWithin `{GoRuntime} (b : Brain) (location : option (float64 * float64 * bool))
    (requestBound : option LatencyBound) : brain_prog (Brain * (NodeGroupListResponse + CallError)) :=
  x ← brain_ask CatalogListOffers;
  match x with
  | Fail e => mret (b, inr (plain_error ("brain: list offers: " +:+ e_msg e)))
  | Ok offers =>
      y ← brain_ask OwnReservations;
      match y with
      | inr e => mret (b, inr (wrap_call "brain: list own reservations" e))
      | inl resvs =>
          z ← api (currentPolicy (br_Namespace b));
          match z with
          | Fail e => mret (b, inr (plain_error (e_msg e)))
          | Ok spec =>
              let '(own, inFlight) := FromReservations resvs in
              let '(lat, lon, has) := default (fzero, fzero, false) location in
              let consumer := mkEntry "" "" 0 (cp_Placement spec) "" "" ∅ "" "" lat lon has in
              let bound := EffectiveBound (cp_LatencyBound spec) requestBound in
              measured ← (if bool_decide (is_Some bound) && br_hasProber b then
                            brain_ask (Measure (probeEndpoints offers))
                          else mret ∅);
              tf ← api now;
              let '(full, until) := FullSnapshot tf (br_full b) in
              t ← api now;
              mret (mkBrain (br_Namespace b) (br_hasProber b) (br_Sizer b) until (br_lastChoice b),
                    inl (nodeGroups (mkInput offers own inFlight consumer bound measured full
                                       (Some (br_Sizer b))) t).1)
          end
      end
  end.

Definition ObserveReservation (b : Brain) (provider : string) (err : option CallError) (t : Time) :
    Brain :=
  match err with
  | None => b
  | Some e =>
      mkBrain (br_Namespace b) (br_hasProber b) (br_Sizer b)
        (MarkIfNoCapacity provider e t (br_full b)).1 (br_lastChoice b)
  end.

(** The first group that can grow, in list order. *)
Fixpoint first_growable (l : list NodeGroupView) : string :=
  match l with
  | [] => ""
  | ng :: l' =>
      if ng_CurrentReserved ng <? ng_MaxSize ng then ng_ProviderClusterID ng else first_growable l'
  end.

Definition RecordChoice (b : Brain) (resp : NodeGroupListResponse) : Brain :=
  mkBrain (br_Namespace b) (br_hasProber b) (br_Sizer b) (br_full b)
    (first_growable (nl_NodeGroups resp)).

Definition LastChoice (b : Brain) : string := br_lastChoice b.
End Brain.
