(* ===== verification/LocalApi.v ===== *)
(** * The consumer agent's loopback API (internal/agent/consumer/localapi:
    server.go, bound.go, types.go)

    The gRPC server reads node groups and virtual nodes and books reservations
    through this API.  It fetches the node groups from the Broker, or from the
    local brain, narrows a latency shortlist to the measured winner and, under
    the ConsumerChoice policy, to the first available provider of a ranking that
    a background language-model call computes and a cache keeps for a minute.

    The cache and its flag are shared between the HTTP handlers and the
    background task and guarded by one mutex, so each critical section is one
    step ([ai_poll], [ai_finish]) of the step relation [ai_step]. *)
From stdpp Require Import base gmap strings list sorting relations.
From Stdlib Require Import ZArith Lia.
From S2P Require Import Prelude GoText ApiTypes ConsumerTypes Kube Effects Chunk Wire AgentClient.
From S2P Require Import Catalog Registry Placement PlacementProofs Prober Selection ReservationApi.
From S2P Require Import AdvertisementApi Brain.
Import GoFloat.

Open Scope Z_scope.

(** ** The latency-bound query parameter (bound.go) *)
Definition QueryMaxLatencyMs : string := "maxLatencyMs".

(** A nil [url.Values] is the empty map. *)
Definition EncodeLatencyBound (bound : option LatencyBound) : url_Values :=
  match bound with
  | None => ∅
  | Some b => {[ QueryMaxLatencyMs := [Itoa (lb_MaxLatencyMs b)] ]}
  end.

Definition DecodeLatencyBound (q : url_Values) : Res (option LatencyBound) :=
  let rawMax := values_Get q QueryMaxLatencyMs in
  if decide (rawMax = "") then Ok None
  else
    let bad := Fail (errors_New (QueryMaxLatencyMs +:+ " must be an integer >= 1, got " +:+
                                 GoStr.fmt_q rawMax)) in
    match ParseInt 32 rawMax with
    | None => bad
    | Some ms => if ms <? 1 then bad else Ok (Some (mkBound (GoInt.to_int32 ms)))
    end.

Section LocalApi.
Context `{Platform}.

(** ** Views (types.go) *)
Record VirtualNodeView := mkVirtualNodeView {
  vv_Name : string;
  vv_VirtualNodeName : string;
  vv_ProviderID : string;
  vv_ReservationID : string;
  vv_NodeGroupID : string;
  vv_ProviderClusterID : string;
  vv_ProviderLiqoClusterID : string;
  vv_Phase : VirtualNodeStatePhase;
  vv_Allocatable : ResourceList;
  vv_LastTransitionTime : option Time
}.

Definition virtualNodeStateToView (vns : VirtualNodeState) : VirtualNodeView :=
  let st := cr_status vns in
  let sp := cr_spec vns in
  mkVirtualNodeView
    (if decide (vt_VirtualNodeName st = "") then cr_Name vns else vt_VirtualNodeName st)
    (vt_VirtualNodeName st) (vt_ProviderID st) (vs_ReservationID sp) (vs_NodeGroupID sp)
    (vs_ProviderClusterID sp) (vs_ProviderLiqoClusterID sp) (vt_Phase st) (vt_Allocatable st)
    (vt_LastTransitionTime st).

(** ** Masking *)
Definition with_groups (resp : NodeGroupListResponse) (groups : list NodeGroupView) :
    NodeGroupListResponse :=
  mkNodeGroupList groups (nl_LatencyShortlist resp) (nl_AppliedPlacement resp) (nl_Generation resp)
    (nl_ServedAt resp) (nl_CacheAgeSeconds resp).

(** The candidates of [maskToMeasuredWinner], [seen] being its set. *)
Fixpoint probe_candidates (groups : list NodeGroupView) (seen : gset string) : list Candidate :=
  match groups with
  | [] => []
  | ng :: groups' =>
      if growable ng && negb (bool_decide (ng_ProbeEndpoint ng = "")) &&
         negb (bool_decide (ng_ProviderClusterID ng ∈ seen))
      then mkProbeCandidate (ng_ProviderClusterID ng) (ng_ProbeEndpoint ng)
             :: probe_candidates groups' ({[ng_ProviderClusterID ng]} ∪ seen)
      else probe_candidates groups' seen
  end.

(** The masking loop, [chosen] being the prober's pick. *)
Definition mask_others (chosen : string) (groups : list NodeGroupView) : list NodeGroupView :=
  (λ ng, if growable ng && negb (bool_decide (ng_ProviderClusterID ng = chosen))
         then mask ng else ng) <$> groups.

(** The loop that picks the first ranked provider with capacity. *)
Fixpoint first_available (capacity : gset string) (ranked : list string) : string :=
  match ranked with
  | [] => ""
  | id :: ranked' => if decide (id ∈ capacity) then id else first_available capacity ranked'
  end.

Definition capacity_of (groups : list NodeGroupView) : gset string :=
  list_to_set (ng_ProviderClusterID <$> filter (λ ng, growable ng = true) groups).

Definition maskToFirstAvailable (resp : NodeGroupListResponse) (ranked : list string) :
    NodeGroupListResponse :=
  let chosen := first_available (capacity_of (nl_NodeGroups resp)) ranked in
  with_groups resp
    ((λ ng, if decide (ng_ProviderClusterID ng = chosen) then ng else mask ng)
       <$> nl_NodeGroups resp).

(** The loop appending what a ranking left out. *)
Definition complete_step (out : list string) (id : string) : list string :=
  if decide (id ∈ out) then out else out ++ [id].

Definition completeRanking (ranked : list string) (groups : list NodeGroupView) : list string :=
  foldl complete_step ranked (default [] (DeterministicFallback groups)).

(** The view while the model answers: nothing can grow. *)
Definition mask_everything (resp : NodeGroupListResponse) : NodeGroupListResponse :=
  with_groups resp (mask <$> nl_NodeGroups resp).

(** ** The ConsumerChoice cache *)
Record AIState := mkAI {
  ai_running : bool;
  ai_result : list string;
  ai_timestamp : Time;
  ai_prompt : string
}.

Definition ai_init : AIState := mkAI false [] 0 "".

Definition ai_cache_ttl : Duration := 60 * Second.

(** What a poll found: a ranking to serve, or a wait that may start the task. *)
Inductive ai_decision := AIServe (ranked : list string) | AIWait (start : bool).

(** The critical section of [handleNodeGroups] at time [t]. *)
Definition ai_poll (st : AIState) (prompt : string) (t : Time) : AIState * ai_decision :=
  let st := if decide (ai_prompt st = prompt) then st else mkAI (ai_running st) [] 0 prompt in
  if negb (bool_decide (ai_result st = [])) && (t - ai_timestamp st <? ai_cache_ttl) then
    (st, AIServe (ai_result st))
  else if ai_running st then (st, AIWait false)
  else (mkAI true (ai_result st) (ai_timestamp st) (ai_prompt st), AIWait true).

(** The critical section that ends the background task started for [prompt] on
    [groups]; [trace] is the selection's record and [t] the time it is stored. *)
Definition ai_finish (st : AIState) (prompt : string) (groups : list NodeGroupView) (trace : Trace)
    (t : Time) : AIState :=
  if decide (ai_prompt st = prompt) then
    let ranked :=
      match tr_Err trace, tr_Ranked trace with
      | None, (_ :: _) as l => l
      | _, _ => default [] (DeterministicFallback groups)
      end in
    mkAI false (completeRanking ranked groups) t (ai_prompt st)
  else mkAI false (ai_result st) (ai_timestamp st) (ai_prompt st).

(** ** The server *)
Record LocalServer := mkLocalServer {
  ls_ns : string;
  ls_hasProber : bool;
  ls_hasOllama : bool;
  ls_ai : AIState;
  ls_brain : option Brain
}.

Definition set_ai (s : LocalServer) (a : AIState) : LocalServer :=
  mkLocalServer (ls_ns s) (ls_hasProber s) (ls_hasOllama s) a (ls_brain s).
Definition set_brain (s : LocalServer) (b : option Brain) : LocalServer :=
  mkLocalServer (ls_ns s) (ls_hasProber s) (ls_hasOllama s) (ls_ai s) b.

(** [New]; the booleans say which required options are set. *)
Definition NewLocalServer (bind : string) (hasClient hasLocal : bool) (ns : string)
    (hasProber hasOllama : bool) (brain : option Brain) : Res LocalServer :=
  if decide (bind = "") then Fail (errors_New "localapi: BindAddress is required")
  else if negb hasClient then Fail (errors_New "localapi: Client is required")
  else if negb hasLocal then Fail (errors_New "localapi: LocalClient is required")
  else Ok (mkLocalServer ns hasProber hasOllama ai_init brain).

(** What the server calls: the Broker client, the brain's interfaces and the
    prober. *)
Inductive local_call :=
| BrokerNodeGroups
| BrokerPostReservation (id : string) (req : ReservationRequest)
| BrokerDeleteReservation (id : string)
| BrainCall (c : brain_call)
| ProbePick (cands : list Candidate).

Definition local_answer (c : local_call) : Type :=
  match c with
  | BrokerNodeGroups => NodeGroupListResponse + CallError
  | BrokerPostReservation _ _ => ReservationResponse + CallError
  | BrokerDeleteReservation _ => ReleaseResponse + CallError
  | BrainCall c => brain_answer c
  | ProbePick _ => ProbeResult
  end.

Abbreviation local := (eff local_call local_answer).
Definition local_ask (c : local_call) : local (local_answer c) := ask c.

(** A response of the loopback API: a status and a body, or an error body. *)
Record LocalError := mkLocalError { le_Code : string; le_Message : string; le_RequestID : string }.

Inductive LocalResponse (B : Type) :=
| LocalOK (status : Z) (body : B)
| LocalFail (status : Z) (body : LocalError).
Arguments LocalOK {B} _ _.
Arguments LocalFail {B} _ _.

Definition writeRawError {B} (status : Z) (code : ErrorCode) (msg : string) : LocalResponse B :=
  LocalFail status (mkLocalError (error_code_string code) msg "").

Definition localWriteError {B} (err : CallError) : LocalResponse B :=
  match ce_agent err with
  | Some ce =>
      if 0 <? ae_Status ce then
        LocalFail (ae_Status ce) (mkLocalError (ae_Code ce) (ae_Message ce) (ae_RequestID ce))
      else writeRawError StatusInternalServerError ErrCodeInternalError (ce_text err)
  | None => writeRawError StatusInternalServerError ErrCodeInternalError (ce_text err)
  end.

(** [nodeGroups]: from the brain in local mode, from the Broker otherwise. *)
Definition localNodeGroups `{GoRuntime} (s : LocalServer)
    (location : option (float64 * float64 * bool)) (bound : option LatencyBound) :
    local (LocalServer * (NodeGroupListResponse + CallError)) :=
  match ls_brain s with
  | Some b =>
      x ← hoist (λ c, local_ask (BrainCall c)) (NodeGroupsWithin b location bound);
      let '(b, r) := x in mret (set_brain s (Some b), r)
  | None => r ← local_ask BrokerNodeGroups; mret (s, r)
  end.

Definition maskToMeasuredWinner (resp : NodeGroupListResponse) : local NodeGroupListResponse :=
  match probe_candidates (nl_NodeGroups resp) ∅ with
  | [] => mret resp
  | cands =>
      res ← local_ask (ProbePick cands);
      let chosen := pr_Chosen (res : ProbeResult) in
      mret (if decide (chosen = "") then resp
            else with_groups resp (mask_others chosen (nl_NodeGroups resp)))
  end.

Definition currentConsumerChoice (ns : string) : prog (option string) :=
  x ← list_in (S:=ConsumerPolicySpec) (T:=unit) ns;
  mret match x with
       | Fail _ => None
       | Ok l =>
           match lowest_policy l with
           | Some p =>
               if decide (pp_Type (cp_Placement (cr_spec p)) = PlacementStrategyConsumerChoice)
               then Some (cp_UserPrompt (cr_spec p)) else None
           | None => None
           end
       end.

(** [serveNodeGroups]: in local mode the brain records the pick. *)
Definition serveNodeGroups (s : LocalServer) (resp : NodeGroupListResponse) :
    LocalServer * LocalResponse NodeGroupListResponse :=
  (set_brain s ((λ b, RecordChoice b resp) <$> ls_brain s), LocalOK StatusOK resp).

(** What a GET /local/nodegroups leaves: the server, the response and the
    background task it starts, as the prompt and the groups it copies. *)
Definition served : Type :=
  LocalServer * LocalResponse NodeGroupListResponse * option (string * list NodeGroupView).

(** The end of [handleNodeGroups], from the view it got and the prompt of an
    active ConsumerChoice policy. *)
Definition chooseProvider (s : LocalServer) (resp : NodeGroupListResponse) (choice : option string) :
    local served :=
  match choice with
  | Some prompt =>
      t ← api now;
      let '(a, d) := ai_poll (ls_ai s) prompt t in
      match d with
      | AIServe ranked =>
          mret (serveNodeGroups (set_ai s a) (maskToFirstAvailable resp ranked), None)
      | AIWait start =>
          mret (set_ai s a, LocalOK StatusOK (mask_everything resp),
                if (start : bool) then Some (prompt, nl_NodeGroups resp) else None)
      end
  | None =>
      let resp :=
        if decide (nl_AppliedPlacement resp = PlacementStrategyConsumerChoice) then
          maskToFirstAvailable resp (default [] (DeterministicFallback (nl_NodeGroups resp)))
        else resp in
      mret (serveNodeGroups s resp, None)
  end.

Definition handleNodeGroups `{GoRuntime} (s : LocalServer)
    (location : option (float64 * float64 * bool)) (query : url_Values) : local served :=
  match DecodeLatencyBound query with
  | Fail e => mret (s, writeRawError StatusBadRequest ErrCodeInvalidRequest (e_msg e), None)
  | Ok bound =>
      x ← localNodeGroups s location bound;
      let '(s, r) := x in
      match r with
      | inr err => mret (s, localWriteError err, None)
      | inl resp =>
          resp ← (if nl_LatencyShortlist resp && ls_hasProber s then maskToMeasuredWinner resp
                  else mret resp);
          choice ← (if ls_hasOllama s then api (currentConsumerChoice (ls_ns s)) else mret None);
          chooseProvider s resp choice
      end
  end.

(** POST /local/reservations: the response and the X-Reservation-Id header set
    on success. *)
Definition localReservationCreate (s : LocalServer) (header : string) (body : Res ReservationRequest) :
    local (LocalServer * LocalResponse ReservationResponse * option string) :=
  match body with
  | Fail e =>
      mret (s, writeRawError StatusBadRequest ErrCodeInvalidRequest ("decode body: " +:+ e_msg e), None)
  | Ok req =>
      reservationID ← (if decide (header = "") then u ← api new_uuid; mret ("res-" +:+ u)
                       else mret header);
      r ← local_ask (BrokerPostReservation reservationID req);
      match (r : ReservationResponse + CallError) with
      | inr err =>
          match ls_brain s with
          | Some b =>
              t ← api now;
              mret (set_brain s (Some (ObserveReservation b (rq_ProviderClusterID req) (Some err) t)),
                    localWriteError err, None)
          | None => mret (s, localWriteError err, None)
          end
      | inl resp => mret (s, LocalOK StatusCreated resp, Some reservationID)
      end
  end.

Definition localReservationDelete (id : string) : local (LocalResponse ReleaseResponse) :=
  if decide (id = "") then
    mret (writeRawError StatusBadRequest ErrCodeInvalidRequest "reservation id is required")
  else
    r ← local_ask (BrokerDeleteReservation id);
    mret match (r : ReleaseResponse + CallError) with
         | inr err => localWriteError err
         | inl resp => LocalOK StatusOK resp
         end.

(** A list scoped to a namespace, or to every namespace when it is empty. *)
Definition list_scoped (ns : string) : prog (Res (list VirtualNodeState)) :=
  if decide (ns = "") then list_all else list_in ns.

Definition handleVirtualNodes (s : LocalServer) : prog (LocalResponse (list VirtualNodeView)) :=
  x ← list_scoped (ls_ns s);
  mret match (x : Res (list VirtualNodeState)) with
       | Fail e => writeRawError StatusInternalServerError ErrCodeInternalError
                     ("list VirtualNodeState: " +:+ e_msg e)
       | Ok l => LocalOK StatusOK (virtualNodeStateToView <$> l)
       end.
End LocalApi.

Arguments LocalOK {B} _ _.
Arguments LocalFail {B} _ _.
