(* ===== verification/GrpcServer.v ===== *)
(** * The Cluster Autoscaler's cloud provider (internal/grpcserver:
    rpc_readonly.go, rpc_mutating.go, rpc_lifecycle.go, nodetemplate.go,
    server.go, agentclient)

    Cluster Autoscaler drives the federation through this gRPC service.  Its
    only backend is the consumer agent's loopback API, so every RPC is a program
    whose outside calls are that API's endpoints ([agent_call]); its only state
    is a node-group list cached for two seconds. *)
From stdpp Require Import base gmap strings list sorting.
From Stdlib Require Import ZArith Lia.
From S2P Require Import Prelude ApiTypes ConsumerTypes Kube Effects Chunk Wire AgentClient Catalog.
From S2P Require Import Registry Placement Prober Selection ReservationApi AdvertisementApi Brain.
From S2P Require Import LocalApi.
Import GoFloat.

Open Scope Z_scope.

(** gRPC status codes. *)
Inductive Code :=
| CodeInvalidArgument | CodeUnauthenticated | CodePermissionDenied | CodeNotFound
| CodeAlreadyExists | CodeFailedPrecondition | CodeResourceExhausted | CodeUnavailable
| CodeInternal.

#[global] Instance Code_eq_dec : EqDecision Code.
Proof. solve_decision. Defined.

Record Status := mkStatus { gs_Code : Code; gs_Message : string }.

Section GrpcServer.
Context `{Platform}.

(** ** The loopback client (agentclient) *)
Inductive agent_call :=
| AgentNodeGroups (bound : option LatencyBound)
| AgentPostReservation (id : string) (req : ReservationRequest)
| AgentDeleteReservation (id : string)
| AgentVirtualNodes.

Definition agent_answer (c : agent_call) : Type :=
  match c with
  | AgentNodeGroups _ => NodeGroupListResponse + CallError
  | AgentPostReservation _ _ => ReservationResponse + CallError
  | AgentDeleteReservation _ => ReleaseResponse + CallError
  | AgentVirtualNodes => list VirtualNodeView + CallError
  end.

Abbreviation grpc := (eff agent_call agent_answer).
Definition agent_ask (c : agent_call) : grpc (agent_answer c) := ask c.

(** [mapAgentError]. *)
Definition mapAgentError (err : CallError) (rpc : string) : Status :=
  let text := rpc +:+ ": " +:+ ce_text err in
  if IsBadRequest err then mkStatus CodeInvalidArgument text
  else if IsUnauthenticated err then mkStatus CodeUnauthenticated text
  else if IsForbidden err then mkStatus CodePermissionDenied text
  else if IsMissing err then mkStatus CodeNotFound text
  else if IsConflicting err then mkStatus CodeAlreadyExists text
  else if IsPreconditionFailed err then mkStatus CodeFailedPrecondition text
  else if IsTooManyRequests err then mkStatus CodeResourceExhausted text
  else if IsTransient err then mkStatus CodeUnavailable text
  else mkStatus CodeInternal text.

(** ** The server *)
Definition nodeGroupsCacheTTL : Duration := 2 * Second.

Record GrpcServer := mkGrpcServer {
  gs_hasAgent : bool;
  gs_ngCache : option NodeGroupListResponse;
  gs_ngCacheAt : Time
}.

Definition no_agent : Status := mkStatus CodeFailedPrecondition "agent client not configured".
Definition invalid (msg : string) : Status := mkStatus CodeInvalidArgument msg.

(** [cachedNodeGroups]; [ngMu] is held over the whole call. *)
Definition cachedNodeGroups (s : GrpcServer) : grpc (GrpcServer * (NodeGroupListResponse + CallError)) :=
  let fetch :=
    r ← agent_ask (AgentNodeGroups None);
    match (r : NodeGroupListResponse + CallError) with
    | inr err => mret (s, inr err)
    | inl resp => t ← api now; mret (mkGrpcServer (gs_hasAgent s) (Some resp) t, inl resp)
    end in
  match gs_ngCache s with
  | Some c =>
      t ← api now;
      if t - gs_ngCacheAt s <? nodeGroupsCacheTTL then mret (s, inl c) else fetch
  | None => fetch
  end.

(** The read RPCs over the cached list share this shape. *)
Definition with_groups_cached {A} (s : GrpcServer) (k : NodeGroupListResponse → A + Status) :
    grpc (GrpcServer * (A + Status)) :=
  x ← cachedNodeGroups s;
  let '(s, r) := x in
  mret (s, match (r : NodeGroupListResponse + CallError) with
           | inr err => inr (mapAgentError err "GetNodeGroups")
           | inl resp => k resp
           end).

Record ProtoNodeGroup := mkProtoNodeGroup { pg_Id : string; pg_MinSize : Z; pg_MaxSize : Z }.

(** [NodeGroups], without the debug string. *)
Definition GrpcNodeGroups (s : GrpcServer) : grpc (GrpcServer * (list ProtoNodeGroup + Status)) :=
  if negb (gs_hasAgent s) then mret (s, inr no_agent)
  else with_groups_cached s (λ resp,
         inl ((λ ng, mkProtoNodeGroup (ng_ID ng) (ng_MinSize ng) (ng_MaxSize ng))
                <$> nl_NodeGroups resp)).

(** [NodeGroupForNode]: the group's ID, "" for a node that is not ours.  [None]
    is a request without a node. *)
Definition NodeGroupForNode (s : GrpcServer) (node : option string) : grpc (string + Status) :=
  match node with
  | None => mret (inr (invalid "node is required"))
  | Some name =>
      if decide (name = "") then mret (inr (invalid "node is required"))
      else if negb (gs_hasAgent s) then mret (inr no_agent)
      else
        r ← agent_ask AgentVirtualNodes;
        mret match (r : list VirtualNodeView + CallError) with
             | inr err => inr (mapAgentError err "GetVirtualNodes")
             | inl vns =>
                 inl match list_find (λ vn, vv_Name vn = name) vns with
                     | Some (_, vn) => vv_NodeGroupID vn
                     | None => ""
                     end
             end
  end.

(** The first group with this ID. *)
Definition group_by_id (resp : NodeGroupListResponse) (id : string) : option NodeGroupView :=
  snd <$> list_find (λ ng, ng_ID ng = id) (nl_NodeGroups resp).

Definition NodeGroupTargetSize (s : GrpcServer) (id : string) : grpc (GrpcServer * (Z + Status)) :=
  if decide (id = "") then mret (s, inr (invalid "id is required"))
  else if negb (gs_hasAgent s) then mret (s, inr no_agent)
  else with_groups_cached s (λ resp,
         inl match group_by_id resp id with Some ng => ng_CurrentReserved ng | None => 0 end).

(** ** Node templates (nodetemplate.go) *)
Definition LiqoNodeTypeLabel : string := "liqo.io/type".
Definition LiqoNodeTypeValue : string := "virtual-node".
Definition LiqoNotAllowedTaintKey : string := "virtual-node.liqo.io/not-allowed".
Definition LiqoNotAllowedTaintEffect : string := "NoExecute".
Definition ResourcePods : string := "pods".

(** [mergeLabels]: later keys win; a nil map is an empty one. *)
Definition mergeLabels (a b : gmap string string) : gmap string string := b ∪ a.

Definition topologyLabels (group : NodeGroupView) : gmap string string :=
  match ng_Topology group with
  | None => ∅
  | Some t =>
      (if decide (tp_Zone t = "") then id else insert "topology.kubernetes.io/zone" (tp_Zone t))
      ((if decide (tp_Region t = "") then id
        else insert "topology.kubernetes.io/region" (tp_Region t)) (∅ : gmap string string))
  end.

Definition providerIDForTemplate (group : NodeGroupView) : string :=
  if decide (ng_ProviderClusterID group = "") then "liqo://" +:+ ng_ID group
  else "liqo://" +:+ ng_ProviderClusterID group +:+ "/" +:+ ng_ID group.

Definition ensureLiqoTaint (taints : list Taint) : list Taint :=
  if existsb (λ t, bool_decide (tn_Key t = LiqoNotAllowedTaintKey) &&
                   bool_decide (tn_Effect t = LiqoNotAllowedTaintEffect)) taints
  then taints
  else taints ++ [mkTaint LiqoNotAllowedTaintKey "" LiqoNotAllowedTaintEffect].

(** Adds a resource only when it is missing. *)
Definition backfill (name : string) (q : Quantity) (rl : ResourceList) : ResourceList :=
  match rl !! name with Some _ => rl | None => <[name := q]> rl end.

Definition nonEmptyResources (rl : ResourceList) : ResourceList :=
  backfill ResourcePods (NewQuantity 110)
    (backfill ResourceMemory (NewQuantity (4 * 1024 * 1024 * 1024))
       (backfill ResourceCPU (NewQuantity 2) rl)).

Definition template_defaults (group : NodeGroupView) : gmap string string :=
  <["kubernetes.io/hostname" := "template-" +:+ ng_ID group]>
    (<["kubernetes.io/os" := "linux"]>
       (<["kubernetes.io/arch" := "amd64"]>
          (<["beta.kubernetes.io/instance-type" := "liqo-virtual"]>
             (<["node.kubernetes.io/instance-type" := "liqo-virtual"]>
                (<[LiqoNodeTypeLabel := LiqoNodeTypeValue]> ∅))))).

Definition buildNodeTemplate (group : NodeGroupView) : Node :=
  let labels := mergeLabels (mergeLabels (template_defaults group) (ng_Labels group))
                  (topologyLabels group) in
  let resources := nonEmptyResources (ng_ChunkResources group) in
  mkCR (meta_set_labels labels (meta_named ("template-" +:+ ng_ID group) ""))
    (mkNodeSpec (providerIDForTemplate group) false (ensureLiqoTaint (ng_Taints group)))
    (mkNodeStatus resources resources
       [mkNodeCondition NodeReady ConditionTrue "FederationAutoscalerTemplate"] [] "linux" "amd64").

Definition NodeGroupTemplateNodeInfo (s : GrpcServer) (id : string) :
    grpc (GrpcServer * (Node + Status)) :=
  if decide (id = "") then mret (s, inr (invalid "id is required"))
  else if negb (gs_hasAgent s) then mret (s, inr no_agent)
  else with_groups_cached s (λ resp,
         match group_by_id resp id with
         | Some ng => inl (buildNodeTemplate ng)
         | None => inr (mkStatus CodeNotFound ("node group " +:+ GoStr.fmt_q id +:+ " not found"))
         end).

(** ** Scaling (rpc_mutating.go) *)
Definition findNodeGroup (id : string) : grpc (NodeGroupView + Status) :=
  r ← agent_ask (AgentNodeGroups None);
  mret match (r : NodeGroupListResponse + CallError) with
       | inr err => inr (mapAgentError err "GetNodeGroups")
       | inl resp =>
           match group_by_id resp id with
           | Some ng => inl ng
           | None => inr (mkStatus CodeNotFound ("node group " +:+ GoStr.fmt_q id +:+ " not found"))
           end
       end.

(** The request for one chunk of a group. *)
Definition chunk_request (group : NodeGroupView) : ReservationRequest :=
  mkResvReq (ng_ProviderClusterID group) (ng_ID group) 1 (ng_Type group) [].

(** The fan-out loop: one reservation per chunk. *)
Fixpoint increase_loop (n : nat) (group : NodeGroupView) : grpc (option Status) :=
  match n with
  | O => mret None
  | S n =>
      u ← api new_uuid;
      r ← agent_ask (AgentPostReservation ("res-" +:+ u) (chunk_request group));
      match (r : ReservationResponse + CallError) with
      | inr err => mret (Some (mapAgentError err "PostReservation"))
      | inl _ => increase_loop n group
      end
  end.

Definition NodeGroupIncreaseSize (s : GrpcServer) (id : string) (delta : Z) : grpc (option Status) :=
  if decide (id = "") then mret (Some (invalid "id is required"))
  else if delta <=? 0 then
    mret (Some (invalid ("delta must be > 0, got " +:+ GoStr.fmt_d delta)))
  else if negb (gs_hasAgent s) then mret (Some no_agent)
  else
    g ← findNodeGroup id;
    match g with
    | inr st => mret (Some st)
    | inl group => increase_loop (Z.to_nat delta) group
    end.

(** [byName]: the last view of a name wins. *)
Definition by_name (vns : list VirtualNodeView) : gmap string string :=
  foldl (λ m vn, <[vv_Name vn := vv_ReservationID vn]> m) ∅ vns.

(** The loop collecting the reservations to release. *)
Fixpoint collect_releases (byName : gmap string string) (nodes : list (option string))
    (releasing : list string) : list string + Status :=
  match nodes with
  | [] => inl releasing
  | None :: _ => inr (invalid "node name is required")
  | Some name :: nodes' =>
      if decide (name = "") then inr (invalid "node name is required")
      else
        match byName !! name with
        | None => inr (mkStatus CodeNotFound
                         ("node " +:+ GoStr.fmt_q name +:+ " is not known to this provider"))
        | Some resID =>
            if decide (resID = "") then
              inr (mkStatus CodeFailedPrecondition
                     ("node " +:+ GoStr.fmt_q name +:+ " has no reservation id"))
            else collect_releases byName nodes'
                   (if decide (resID ∈ releasing) then releasing else releasing ++ [resID])
        end
  end.

Fixpoint release_loop (ids : list string) : grpc (option Status) :=
  match ids with
  | [] => mret None
  | resID :: ids' =>
      r ← agent_ask (AgentDeleteReservation resID);
      match (r : ReleaseResponse + CallError) with
      | inr err => mret (Some (mapAgentError err ("DeleteReservation(" +:+ resID +:+ ")")))
      | inl _ => release_loop ids'
      end
  end.

(** [NodeGroupDeleteNodes]; a nil node is [None].  The releases are ranged over
    in the map's order. *)
Definition NodeGroupDeleteNodes `{GoRuntime} (s : GrpcServer) (id : string)
    (nodes : list (option string)) : grpc (option Status) :=
  if decide (id = "") then mret (Some (invalid "id is required"))
  else
    match nodes with
    | [] => mret (Some (invalid "nodes is required"))
    | _ =>
        if negb (gs_hasAgent s) then mret (Some no_agent)
        else
          r ← agent_ask AgentVirtualNodes;
          match (r : list VirtualNodeView + CallError) with
          | inr err => mret (Some (mapAgentError err "GetVirtualNodes"))
          | inl vns =>
              match collect_releases (by_name vns) nodes [] with
              | inr st => mret (Some st)
              | inl ids => release_loop (range_keys 0 ids)
              end
          end
    end.

Definition NodeGroupDecreaseTargetSize (id : string) (delta : Z) : option Status :=
  if decide (id = "") then Some (invalid "id is required")
  else if 0 <=? delta then
    Some (invalid ("delta must be < 0 for DecreaseTargetSize, got " +:+ GoStr.fmt_d delta))
  else None.

(** ** Pricing and instances (rpc_lifecycle.go) *)

(** [time.Time{}], year 1. *)
Definition zero_time : Time := -62135596800 * Second.
Definition timeFromMetaV1 (t : option Time) : Time := default zero_time t.

(** [end.Sub(start)] saturates at the ends of int64. *)
Definition time_Sub (a b : Time) : Duration := Z.max GoInt.int64_min (Z.min GoInt.int64_max (a - b)).

(** [d.Hours()]. *)
Definition dur_Hours (d : Duration) : float64 :=
  fadd (fof_Z (Z.quot d Hour)) (fdiv (fof_Z (Z.rem d Hour)) (fof_Z Hour)).

Definition windowHours (start stop : Time) : float64 :=
  let dur := time_Sub stop start in
  if dur <=? 0 then fof_Z 1 else dur_Hours dur.

Definition chunkCostFloat (group : NodeGroupView) : float64 :=
  match ng_Cost group with Some q => q_AsApproximateFloat64 q | None => fzero end.

Definition PricingNodePrice (s : GrpcServer) (node : option string) (start stop : option Time) :
    grpc (float64 + Status) :=
  match node with
  | None => mret (inr (invalid "node is required"))
  | Some name =>
      if decide (name = "") then mret (inr (invalid "node is required"))
      else if negb (gs_hasAgent s) then mret (inr no_agent)
      else
        r ← agent_ask AgentVirtualNodes;
        match (r : list VirtualNodeView + CallError) with
        | inr err => mret (inr (mapAgentError err "GetVirtualNodes"))
        | inl vns =>
            let groupID := match list_find (λ vn, vv_Name vn = name) vns with
                           | Some (_, vn) => vv_NodeGroupID vn
                           | None => ""
                           end in
            if decide (groupID = "") then mret (inl fzero)
            else
              g ← findNodeGroup groupID;
              mret match g with
                   | inr st => inr st
                   | inl group =>
                       inl (fmul (chunkCostFloat group)
                              (windowHours (timeFromMetaV1 start) (timeFromMetaV1 stop)))
                   end
        end
  end.

Definition PricingPodPrice (hasPod : bool) : float64 + Status :=
  if hasPod then inl fzero else inr (invalid "pod is required").

Definition GPULabelKey : string := "nvidia.com/gpu".

(** [GetAvailableGPUTypes]: the keys of the map. *)
Definition GetAvailableGPUTypes (s : GrpcServer) : grpc (gset string + Status) :=
  if negb (gs_hasAgent s) then mret (inr no_agent)
  else
    r ← agent_ask (AgentNodeGroups None);
    mret match (r : NodeGroupListResponse + CallError) with
         | inr err => inr (mapAgentError err "GetNodeGroups")
         | inl resp =>
             inl (list_to_set (ng_ProviderClusterID <$>
                    filter (λ ng, ng_Type ng = ChunkTypeGPU) (nl_NodeGroups resp)))
         end.

Inductive InstanceState := InstanceUnspecified | InstanceRunning | InstanceCreating | InstanceDeleting.

(** [InstanceStatus]: the state and whether an error is attached. *)
Definition instanceStatusFromVNS (vn : VirtualNodeView) : InstanceState * bool :=
  match vv_Phase vn with
  | VirtualNodeStatePhaseRunning => (InstanceRunning, false)
  | VirtualNodeStatePhaseCreating => (InstanceCreating, false)
  | VirtualNodeStatePhaseDeleting => (InstanceDeleting, false)
  | VirtualNodeStatePhaseFailed => (InstanceUnspecified, true)
  | VNSPhaseEmpty => (InstanceUnspecified, false)
  end.

Definition NodeGroupNodes (s : GrpcServer) (id : string) :
    grpc (list (string * (InstanceState * bool)) + Status) :=
  if decide (id = "") then mret (inr (invalid "id is required"))
  else if negb (gs_hasAgent s) then mret (inr no_agent)
  else
    r ← agent_ask AgentVirtualNodes;
    mret match (r : list VirtualNodeView + CallError) with
         | inr err => inr (mapAgentError err "GetVirtualNodes")
         | inl vns =>
             inl ((λ vn, (vv_ProviderID vn, instanceStatusFromVNS vn)) <$>
                    filter (λ vn, vv_NodeGroupID vn = id ∧ vv_VirtualNodeName vn ≠ "" ∧
                                  vv_ProviderID vn ≠ "") vns)
         end.
End GrpcServer.
