(* ===== verification/LoopbackClient.v ===== *)
(** * The gRPC server's client of the loopback API
    (internal/grpcserver/agentclient: client.go, errors.go)

    One exchange per call, no retries.  The error type and its classification
    are those of the agents' Broker client; the composition of the two clients
    with the loopback API's error forwarding is what lets the gRPC server tell
    a Broker's 412 from a 503, which [broker_status_reaches_ca] states. *)
From stdpp Require Import base gmap strings list.
From Stdlib Require Import ZArith Lia.
From S2P Require Import Prelude GoText ApiTypes ConsumerTypes Kube MemServer Effects Chunk Wire.
From S2P Require Import AgentClient Catalog Registry Placement Prober Selection ReservationApi.
From S2P Require Import AdvertisementApi Brain LocalApi GrpcServer.
Import GoFloat.

Open Scope Z_scope.

(** [New]: [parsed] is [url.Parse(opts.BaseURL)] as scheme and host. *)
Definition NewLoopbackClient (baseURL : string) (parsed : Res (string * string)) : Res string :=
  if decide (baseURL = "") then Fail (errors_New "agentclient: BaseURL is required")
  else
    match parsed with
    | Fail e => Fail (wrapf ("agentclient: parse BaseURL " +:+ GoStr.fmt_q baseURL) e)
    | Ok (scheme, host) =>
        if decide (scheme ≠ "http" ∧ scheme ≠ "https") then
          Fail (errors_New ("agentclient: BaseURL must be http(s) (got scheme " +:+
                  GoStr.fmt_q scheme +:+ ")"))
        else if decide (host = "") then
          Fail (errors_New ("agentclient: BaseURL " +:+ GoStr.fmt_q baseURL +:+ " has no host"))
        else Ok (scheme +:+ "://" +:+ host)
    end.

(** The text of an [agentclient.Error]. *)
Definition Loopback_Error (e : AgentError) : string :=
  if ae_Status e =? 0 then "agentclient: transient: " +:+ default "<nil>" (ae_Cause e)
  else if decide (ae_Code e = "") then
    "agentclient: HTTP " +:+ GoStr.fmt_d (ae_Status e) +:+ ": " +:+ ae_Message e
  else "agentclient: HTTP " +:+ GoStr.fmt_d (ae_Status e) +:+ " " +:+ ae_Code e +:+ ": "
         +:+ ae_Message e.

Definition of_loopback_error (e : AgentError) : CallError := mkCallError (Some e) (Loopback_Error e).

Section Loopback.
Context `{Platform} `{Json}.

Definition loopback_decodeErrorBody (status : Z) (body requestID : string) : AgentError :=
  if decide (body = "") then
    mkAgentError (classify status) "" (http_StatusText status) status requestID None
  else
    match unmarshal_error body with
    | None => mkAgentError (classify status) "" (TrimSpace body) status requestID None
    | Some env =>
        mkAgentError (classify status) (we_Code env) (we_Message env) status
          (if decide (we_RequestID env = "") then requestID else we_RequestID env) None
    end.

(** What the one exchange of [do] gives. *)
Definition loopback_result {A} (decode : string → Res A) (r : HttpRequest) (x : Exchange) :
    A + CallError :=
  match x with
  | BuildFailed err =>
      inr (of_loopback_error (mkAgentError CategoryBadRequest ""
        ("build HTTP request: " +:+ err) 0 (hr_RequestID r) (Some err)))
  | SendFailed err =>
      inr (of_loopback_error (mkAgentError CategoryTransient ""
        ("HTTP " +:+ hr_Method r +:+ " " +:+ hr_URL r +:+ ": " +:+ err) 0 (hr_RequestID r) (Some err)))
  | Answered status rid body =>
      let respID := if decide (rid = "") then hr_RequestID r else rid in
      if 400 <=? status then inr (of_loopback_error (loopback_decodeErrorBody status body respID))
      else match decode body with
           | Ok a => inl a
           | Fail e =>
               inr (of_loopback_error (mkAgentError CategoryTransient ""
                 ("decode response body: " +:+ e_msg e) status respID (Some (e_msg e))))
           end
  end.

Definition loopback_do {A} (base method path : string) (bodyBytes : Res (option string))
    (decode : string → Res A) (reservationID : string) : http (A + CallError) :=
  requestID ← api new_uuid;
  match bodyBytes with
  | Fail e =>
      mret (inr (of_loopback_error (mkAgentError CategoryBadRequest ""
        ("encode request body: " +:+ e_msg e) 0 requestID (Some (e_msg e)))))
  | Ok body =>
      let r := mkHttpRequest method (base +:+ path) requestID
                 (if decide (reservationID = "") then None else Some reservationID) body in
      x ← http_ask (HttpDo r);
      mret (loopback_result decode r x)
  end.

Definition loopback_GetNodeGroupsWithin {A} (base : string) (bound : option LatencyBound)
    (decode : string → Res A) : http (A + CallError) :=
  let path := match bound with
              | None => "/local/nodegroups"
              | Some b => "/local/nodegroups?" +:+ QueryMaxLatencyMs +:+ "=" +:+
                          values_Get (EncodeLatencyBound (Some b)) QueryMaxLatencyMs
              end in
  loopback_do base MethodGet path (Ok None) decode "".

Definition loopback_PostReservation {A} (base reservationID : string) (req : option (Res string))
    (decode : string → Res A) : http (A + CallError) :=
  if decide (reservationID = "") then
    mret (inr (plain_error "agentclient: PostReservation: reservationID is required"))
  else
    match req with
    | None => mret (inr (plain_error "agentclient: PostReservation: req is nil"))
    | Some body => loopback_do base MethodPost "/local/reservations" (res_some body) decode reservationID
    end.

Definition loopback_DeleteReservation {A} (base reservationID : string) (decode : string → Res A) :
    http (A + CallError) :=
  if decide (reservationID = "") then
    mret (inr (plain_error "agentclient: DeleteReservation: reservationID is required"))
  else loopback_do base MethodDelete ("/local/reservations/" +:+ PathEscape reservationID) (Ok None)
         decode "".

Definition loopback_GetVirtualNodes {A} (base : string) (decode : string → Res A) :
    http (A + CallError) :=
  loopback_do base MethodGet "/local/virtual-nodes" (Ok None) decode "".

(** ** Errors end to end *)

(** The code the Cluster Autoscaler gets for a Broker status. *)
Definition ca_code (status : Z) : Code :=
  match classify status with
  | CategoryBadRequest => CodeInvalidArgument
  | CategoryUnauthenticated => CodeUnauthenticated
  | CategoryForbidden => CodePermissionDenied
  | CategoryNotFound => CodeNotFound
  | CategoryConflict => CodeAlreadyExists
  | CategoryPreconditionFailed => CodeFailedPrecondition
  | CategoryTooManyRequests => CodeResourceExhausted
  | CategoryTransient => CodeUnavailable
  | CategoryUnknown => CodeInternal
  end.

Lemma mapAgentError_code err e rpc :
  ce_agent err = Some e → ae_Category e = classify (ae_Status e) →
  gs_Code (mapAgentError err rpc) = ca_code (ae_Status e).
Proof.
  intros Ha Hc. unfold mapAgentError, ca_code, IsBadRequest, IsUnauthenticated, IsForbidden,
    IsMissing, IsConflicting, IsPreconditionFailed, IsTooManyRequests, IsTransient, is_category.
  rewrite Ha, Hc. by destruct (classify (ae_Status e)).
Qed.

Lemma decodeErrorBody_category status body rid :
  ae_Category (decodeErrorBody status body rid) = classify status ∧
  ae_Status (decodeErrorBody status body rid) = status.
Proof. unfold decodeErrorBody. case_decide; [done|]. by destruct (unmarshal_error body). Qed.

Lemma loopback_decodeErrorBody_category status body rid :
  ae_Category (loopback_decodeErrorBody status body rid) = classify status ∧
  ae_Status (loopback_decodeErrorBody status body rid) = status.
Proof. unfold loopback_decodeErrorBody. case_decide; [done|]. by destruct (unmarshal_error body). Qed.

End Loopback.
