(* ===== verification/AgentHandlers.v ===== *)
(** * Instruction handlers of the agents
    (internal/agent/consumer/instructions, internal/agent/provider/instructions,
    internal/agent/provider/snapshot)

    The Broker's instructions are executed by the two agents.  The consumer's
    handlers create and delete the objects a borrowed chunk consists of on its
    own cluster (staged kubeconfig, ResourceSlice, VirtualNodeState) and drive
    [liqoctl]; the provider's mint and revoke peering credentials and report
    capacity.  The API server is the agent's own cluster; [liqoctl] and the file
    system are outside calls. *)
From stdpp Require Import base gmap strings list.
From Stdlib Require Import ZArith Lia.
From S2P Require Import Prelude GoText ApiTypes ConsumerTypes Kube Effects Chunk Wire.

Open Scope Z_scope.

(** ** Outside calls *)
Inductive tool_call :=
| MkdirTemp (pattern : string)
| WriteFile (path data : string)                  (* mode 0600 *)
| RemoveAll (path : string)
| RunCommand (timeout : Duration) (name : string) (args : list string).

(** Errors are their texts; a command's answer is its stdout, stderr and
    error. *)
Definition tool_answer (c : tool_call) : Type :=
  match c with
  | MkdirTemp _ => string + string
  | WriteFile _ _ => option string
  | RemoveAll _ => unit
  | RunCommand _ _ _ => string * string * option string
  end.

(** ** Names *)
Definition resourceSliceName (reservationID : string) : string := "rs-" +:+ reservationID.
Definition virtualNodeStateName (reservationID : string) : string := "vns-" +:+ reservationID.
(** The consumer's staging Secret, one per reservation. *)
Definition consumerKubeconfigSecretName (reservationID : string) : string :=
  "kubeconfig-" +:+ reservationID.

Definition KubeconfigSecretDataKey : string := "kubeconfig".
Definition VirtualNodeStateReservationLabel : string := "federation-autoscaler.io/reservation".
Definition liqoReplicationLabel : string := "liqo.io/replication".
Definition liqoReplicationLabelValue : string := "true".
Definition liqoRemoteIDLabel : string := "liqo.io/remoteID".
Definition liqoRemoteClusterIDLabel : string := "liqo.io/remote-cluster-id".
Definition liqoCreateVirtualNodeAnn : string := "liqo.io/create-virtual-node".
Definition liqoTenantNamespaceLabel : string := "liqo.io/tenant-namespace".
Definition liqoTenantNamespacePrefix : string := "liqo-tenant-".

Definition DefaultPeerLiqoctlPath : string := "liqoctl".
Definition DefaultPeerExecTimeout : Duration := 10 * Minute.
Definition DefaultUnpeerExecTimeout : Duration := 60 * Second.
Definition DefaultGenerateKubeconfigTimeout : Duration := 60 * Second.
Definition DefaultCleanupTimeout : Duration := 30 * Second.

(** A handler's configuration: the union of the [*Config] records. *)
Record HandlerConfig := mkHandlerConfig {
  hc_hasClient : bool;                 (* LocalClient != nil *)
  hc_Namespace : string;
  hc_LiqoctlPath : string;
  hc_ExecTimeout : Duration;
  hc_ClusterID : string;
  hc_LiqoClusterID : string
}.

Definition liqoctl_path (cfg : HandlerConfig) : string :=
  if decide (hc_LiqoctlPath cfg = "") then DefaultPeerLiqoctlPath else hc_LiqoctlPath cfg.
Definition exec_timeout (cfg : HandlerConfig) (dflt : Duration) : Duration :=
  if hc_ExecTimeout cfg <=? 0 then dflt else hc_ExecTimeout cfg.

Definition looksAlreadyUnpeered (stderr : string) : bool :=
  existsb (Contains stderr) ["not peered"; "already unpeered"; "no peering"; "not found"].

Definition notFoundMarkers : list string := ["not found"; "does not exist"; "NotFound"].
Definition stderr_isNotFound (stderr : string) : bool := existsb (Contains stderr) notFoundMarkers.

Section AgentHandlers.
Context `{Platform}.

Abbreviation tools := (eff tool_call tool_answer).
Definition tool_ask (c : tool_call) : tools (tool_answer c) := ask c.

(** What a handler returns. *)
Abbreviation HandlerResult := (option InstructionResultRequest + Err)%type.

Definition succeeded_with (p : ResultPayload) : HandlerResult :=
  inl (Some (mkResultReq ResultStatusSucceeded (Some p) None)).
Definition succeededNoPayload : HandlerResult :=
  inl (Some (mkResultReq ResultStatusSucceeded None None)).
Definition herr (msg : string) : HandlerResult := inr (errors_New msg).

Definition wrong_kind (kind want : string) : HandlerResult :=
  herr ("unexpected kind " +:+ GoStr.fmt_q kind +:+ " (want " +:+ want +:+ ")").

(** The error of a failed command. *)
Definition no_stderr (trimmed : string) : string := if decide (trimmed = "") then "(no stderr)" else trimmed.
Definition command_failed (what err stderr : string) : HandlerResult :=
  herr (what +:+ " failed: " +:+ err +:+ " — stderr: " +:+ no_stderr (TrimSpace stderr)).

(** ** Secrets (secrets.go) *)
Definition persistKubeconfig (ns reservationID kubeconfig : string) : prog (option Err) :=
  if decide (kubeconfig = "") then mret (Some (errors_New "kubeconfig is empty"))
  else
    let name := consumerKubeconfigSecretName reservationID in
    let sec : Secret := mkCR (meta_set_labels {[ VirtualNodeStateReservationLabel := reservationID ]}
                                (meta_named name ns)) {[ KubeconfigSecretDataKey := kubeconfig ]} tt in
    x ← create sec;
    match x with
    | Ok _ => mret None
    | Fail e =>
        if negb (IsAlreadyExists e) then mret (Some (wrapf "create kubeconfig secret" e))
        else
          y ← get (S:=gmap string string) (T:=unit) ns name;
          match y with
          | Fail e => mret (Some (wrapf "get existing kubeconfig secret" e))
          | Ok existing =>
              z ← update (cr_set_spec (<[KubeconfigSecretDataKey := kubeconfig]> (cr_spec existing))
                            existing);
              mret match z with Ok _ => None | Fail e => Some (wrapf "update kubeconfig secret" e) end
          end
    end.

(** The deletions share this shape: a missing object is success. *)
Definition delete_idempotent {S T} `{!Resource S T} (o : CR S T) (what : string) : prog (option Err) :=
  x ← delete_cr o;
  mret match x with
       | Ok _ => None
       | Fail e => if IsNotFound e then None else Some (wrapf what e)
       end.

Definition deleteKubeconfigSecret (ns reservationID : string) : prog (option Err) :=
  delete_idempotent (mkCR (meta_named (consumerKubeconfigSecretName reservationID) ns) ∅ tt : Secret)
    "delete kubeconfig secret".

(** [loadKubeconfigFromSecret]: "" when the Secret is missing. *)
Definition loadKubeconfigFromSecret (ns reservationID : string) : prog (Res string) :=
  x ← get (S:=gmap string string) (T:=unit) ns (consumerKubeconfigSecretName reservationID);
  mret match x with
       | Ok sec => Ok (default "" (cr_spec sec !! KubeconfigSecretDataKey))
       | Fail e => if IsNotFound e then Ok "" else Fail (wrapf "get kubeconfig secret" e)
       end.

(** [writeKubeconfigToTempFile]: the file's path and the directory its cleanup
    removes. *)
Definition writeKubeconfigToTempFile (reservationID kubeconfig : string) :
    tools ((string * string) + string) :=
  d ← tool_ask (MkdirTemp ("kubeconfig-" +:+ reservationID +:+ "-"));
  match (d : string + string) with
  | inr err => mret (inr ("mkdir temp: " +:+ err))
  | inl dir =>
      let path := dir +:+ "/kubeconfig" in
      w ← tool_ask (WriteFile path kubeconfig);
      match (w : option string) with
      | Some err => _ ← tool_ask (RemoveAll dir); mret (inr ("write kubeconfig: " +:+ err))
      | None => mret (inl (path, dir))
      end
  end.

(** [defer cleanup()]. *)
Definition deferring (dir : string) (p : tools HandlerResult) : tools HandlerResult :=
  r ← p; _ ← tool_ask (RemoveAll dir); mret r.

(** ** Liqo objects (liqo.go) *)
Definition is_tenant_of (providerLiqoClusterID : string) (n : KNamespaceObj) : Prop :=
  m_Labels (cr_meta n) !! liqoRemoteClusterIDLabel = Some providerLiqoClusterID ∧
  is_Some (m_Labels (cr_meta n) !! liqoTenantNamespaceLabel).

#[global] Instance is_tenant_of_dec p n : Decision (is_tenant_of p n).
Proof. unfold is_tenant_of. apply _. Defined.

Definition tenantNamespaceFor (providerLiqoClusterID : string) : prog (Res string) :=
  x ← list_all (S:=NamespaceSpec) (T:=unit);
  mret match x with
       | Fail e => Fail (wrapf ("list tenant namespaces for " +:+ GoStr.fmt_q providerLiqoClusterID) e)
       | Ok items =>
           match filter (is_tenant_of providerLiqoClusterID) items with
           | [] => Ok (liqoTenantNamespacePrefix +:+ providerLiqoClusterID)
           | [n] => Ok (cr_Name n)
           | _ => Fail (errors_New ("multiple tenant namespaces found for provider " +:+
                          GoStr.fmt_q providerLiqoClusterID))
           end
       end.

(** The slice of a reservation; quantities are kept as such where the source
    prints them into an unstructured object. *)
Definition resource_slice (ns reservationID providerLiqoClusterID : string) (resources : ResourceList) :
    ResourceSlice :=
  mkCR (meta_set_annotations {[ liqoCreateVirtualNodeAnn := "true" ]}
          (meta_set_labels
             (<[VirtualNodeStateReservationLabel := reservationID]>
                (<[liqoReplicationLabel := liqoReplicationLabelValue]>
                   (<[liqoRemoteIDLabel := providerLiqoClusterID]>
                      {[ liqoRemoteClusterIDLabel := providerLiqoClusterID ]})))
             (meta_named (resourceSliceName reservationID) ns)))
    (mkSliceSpec providerLiqoClusterID "default" resources) tt.

Definition ensureResourceSlice (reservationID providerLiqoClusterID : string)
    (resources : ResourceList) : prog (Res string) :=
  n ← tenantNamespaceFor providerLiqoClusterID;
  match (n : Res string) with
  | Fail e => mret (Fail e)
  | Ok ns =>
      let name := resourceSliceName reservationID in
      x ← create (resource_slice ns reservationID providerLiqoClusterID resources);
      mret match x with
           | Ok _ => Ok name
           | Fail e => if IsAlreadyExists e then Ok name
                       else Fail (wrapf ("create ResourceSlice " +:+ GoStr.fmt_q name +:+ " in " +:+
                                         GoStr.fmt_q ns) e)
           end
  end.

Definition deleteResourceSlice (reservationID providerLiqoClusterID : string) : prog (option Err) :=
  n ← tenantNamespaceFor providerLiqoClusterID;
  match (n : Res string) with
  | Fail e => mret (Some e)
  | Ok ns => delete_idempotent
               (mkCR (meta_named (resourceSliceName reservationID) ns) (mkSliceSpec "" "" ∅) tt
                  : ResourceSlice) "delete ResourceSlice"
  end.

Definition deleteForeignCluster (providerLiqoClusterID : string) : prog (option Err) :=
  delete_idempotent (mkCR (meta_named providerLiqoClusterID "") mkForeignClusterSpec tt : ForeignCluster)
    ("delete ForeignCluster " +:+ GoStr.fmt_q providerLiqoClusterID).

(** ** VirtualNodeState (virtualnodestate.go) *)
Definition deriveChunkType (resources : ResourceList) : ChunkType :=
  match resources !! gpuResourceName with Some _ => ChunkTypeGPU | None => ChunkTypeStandard end.

Definition nodeGroupIDFor (providerClusterID : string) (chunkType : ChunkType) : string :=
  "ng-" +:+ providerClusterID +:+ "-" +:+ chunkType.

Definition virtual_node_state (ns sliceName : string) (inst : InstructionView) : VirtualNodeState :=
  mkCR (meta_set_labels {[ VirtualNodeStateReservationLabel := iv_ReservationID inst ]}
          (meta_named (virtualNodeStateName (iv_ReservationID inst)) ns))
    (mkVNSSpec (iv_ProviderClusterID inst) (iv_ProviderLiqoClusterID inst) sliceName
       (nodeGroupIDFor (iv_ProviderClusterID inst) (deriveChunkType (iv_ResourceSliceResources inst)))
       0 (iv_ReservationID inst) (iv_ResourceSliceResources inst))
    vns_status_zero.

Definition ensureVirtualNodeState (ns sliceName : string) (inst : InstructionView) : prog (option Err) :=
  let vns := virtual_node_state ns sliceName inst in
  x ← create vns;
  mret match x with
       | Ok _ => None
       | Fail e => if IsAlreadyExists e then None
                   else Some (wrapf ("create VirtualNodeState " +:+ GoStr.fmt_q (cr_Name vns)) e)
       end.

Definition deleteVirtualNodeState (ns reservationID : string) : prog (option Err) :=
  let name := virtualNodeStateName reservationID in
  delete_idempotent (mkCR (meta_named name ns) (mkVNSSpec "" "" "" "" 0 "" ∅) vns_status_zero
                       : VirtualNodeState)
    ("delete VirtualNodeState " +:+ GoStr.fmt_q name).

(** ** The consumer's handlers *)

(** Runs [k] unless the step before failed. *)
Definition unless_err (e : option Err) (k : tools HandlerResult) : tools HandlerResult :=
  match e with Some err => mret (inr err) | None => k end.

(** [NewPeerHandler]. *)
Definition PeerHandler (cfg : HandlerConfig) (inst : option InstructionView) : tools HandlerResult :=
  match inst with
  | None => mret (herr "nil instruction")
  | Some inst =>
      if decide (iv_Kind inst ≠ reservation_kind_string ReservationInstructionPeer) then
        mret (wrong_kind (iv_Kind inst) (reservation_kind_string ReservationInstructionPeer))
      else if negb (hc_hasClient cfg) then mret (herr "peer handler: LocalClient is nil")
      else if decide (hc_Namespace cfg = "") then mret (herr "peer handler: Namespace is required")
      else if decide (iv_Kubeconfig inst = "") then mret (herr "instruction missing inline kubeconfig")
      else if decide (iv_ProviderLiqoClusterID inst = "") then
        mret (herr "instruction missing providerLiqoClusterId")
      else
        e ← api (persistKubeconfig (hc_Namespace cfg) (iv_ReservationID inst) (iv_Kubeconfig inst));
        unless_err (wrapf "persist kubeconfig" <$> e) (
        s ← writeKubeconfigToTempFile (iv_ReservationID inst) (iv_Kubeconfig inst);
        match (s : (string * string) + string) with
        | inr err => mret (herr ("stage kubeconfig: " +:+ err))
        | inl (path, dir) => deferring dir (
            c ← tool_ask (RunCommand (exec_timeout cfg DefaultPeerExecTimeout) (liqoctl_path cfg)
                  ["peer"; "--remote-kubeconfig"; path; "--gw-server-service-type"; "NodePort";
                   "--create-resource-slice=false"]);
            match (c : string * string * option string) with
            | (_, stderr, Some err) => mret (command_failed "liqoctl peer" err stderr)
            | (_, _, None) =>
                sl ← api (ensureResourceSlice (iv_ReservationID inst) (iv_ProviderLiqoClusterID inst)
                            (iv_ResourceSliceResources inst));
                match (sl : Res string) with
                | Fail e => mret (inr e)
                | Ok sliceName =>
                    e ← api (ensureVirtualNodeState (hc_Namespace cfg) sliceName inst);
                    unless_err e (mret (succeeded_with
                      (mkPayload PayloadKindPeer "" None [] [sliceName] 0 false None [])))
                end
            end)
        end)
  end.

(** [NewUnpeerHandler]'s third step: [liqoctl unpeer], for the last chunk only
    and only with a staged kubeconfig; [None] is success. *)
Definition unpeer_tunnel (cfg : HandlerConfig) (inst : InstructionView) (kubeconfig : string)
    (k : tools HandlerResult) : tools HandlerResult :=
  if negb (iv_LastChunk inst) then k
  else if decide (kubeconfig = "") then k
  else
    s ← writeKubeconfigToTempFile (iv_ReservationID inst) kubeconfig;
    match (s : (string * string) + string) with
    | inr err => mret (herr ("stage kubeconfig: " +:+ err))
    | inl (path, dir) => deferring dir (
        c ← tool_ask (RunCommand (exec_timeout cfg DefaultUnpeerExecTimeout) (liqoctl_path cfg)
              ["unpeer"; "--remote-kubeconfig"; path]);
        match (c : string * string * option string) with
        | (_, stderr, Some err) =>
            if looksAlreadyUnpeered (TrimSpace stderr) then k
            else mret (command_failed "liqoctl unpeer" err stderr)
        | (_, _, None) => k
        end)
    end.

Definition UnpeerHandler (cfg : HandlerConfig) (inst : option InstructionView) : tools HandlerResult :=
  match inst with
  | None => mret (herr "nil instruction")
  | Some inst =>
      let ns := hc_Namespace cfg in
      let id := iv_ReservationID inst in
      if decide (iv_Kind inst ≠ reservation_kind_string ReservationInstructionUnpeer) then
        mret (wrong_kind (iv_Kind inst) (reservation_kind_string ReservationInstructionUnpeer))
      else if negb (hc_hasClient cfg) then mret (herr "unpeer handler: LocalClient is nil")
      else if decide (ns = "") then mret (herr "unpeer handler: Namespace is required")
      else
        e ← api (deleteVirtualNodeState ns id);
        unless_err e (
        e ← api (deleteResourceSlice id (iv_ProviderLiqoClusterID inst));
        unless_err e (
        kc ← api (loadKubeconfigFromSecret ns id);
        match (kc : Res string) with
        | Fail e => mret (inr e)
        | Ok kubeconfig =>
            unpeer_tunnel cfg inst kubeconfig (
              e ← api (deleteKubeconfigSecret ns id);
              unless_err e (
              e ← (if iv_LastChunk inst && negb (bool_decide (iv_ProviderLiqoClusterID inst = ""))
                   then api (deleteForeignCluster (iv_ProviderLiqoClusterID inst)) else mret None);
              unless_err e (mret (succeeded_with
                (mkPayload PayloadKindUnpeer "" None [] [] (iv_ChunkCount inst) (iv_LastChunk inst)
                   None [])))))
        end))
  end.

(** [NewCleanupHandler]. *)
Definition CleanupHandler (cfg : HandlerConfig) (inst : option InstructionView) : tools HandlerResult :=
  match inst with
  | None => mret (herr "nil instruction")
  | Some inst =>
      let ns := hc_Namespace cfg in
      let id := iv_ReservationID inst in
      if decide (iv_Kind inst ≠ reservation_kind_string ReservationInstructionCleanup) then
        mret (wrong_kind (iv_Kind inst) (reservation_kind_string ReservationInstructionCleanup))
      else if negb (hc_hasClient cfg) then mret (herr "cleanup handler: LocalClient is nil")
      else if decide (ns = "") then mret (herr "cleanup handler: Namespace is required")
      else
        e ← api (deleteVirtualNodeState ns id);
        unless_err e (
        e ← api (deleteResourceSlice id (iv_ProviderLiqoClusterID inst));
        unless_err e (
        e ← api (deleteKubeconfigSecret ns id);
        unless_err e (mret succeededNoPayload)))
  end.

(** [viewFromVNS]. *)
Definition viewFromVNS (v : VirtualNodeState) : ReconcileVirtualNodeStateView :=
  mkReconcileView (vs_ReservationID (cr_spec v)) (vs_ChunkIndex (cr_spec v))
    (vs_NodeGroupID (cr_spec v)) (vt_VirtualNodeName (cr_status v))
    (vt_ResourceSliceName (cr_status v)) (vt_Phase (cr_status v)) (vt_LastTransitionTime (cr_status v)).

(** [NewReconcileHandler] of the consumer. *)
Definition ReconcileHandler (cfg : HandlerConfig) (inst : option InstructionView) : tools HandlerResult :=
  match inst with
  | None => mret (herr "nil instruction")
  | Some inst =>
      if decide (iv_Kind inst ≠ reservation_kind_string ReservationInstructionReconcile) then
        mret (wrong_kind (iv_Kind inst) (reservation_kind_string ReservationInstructionReconcile))
      else if negb (hc_hasClient cfg) then mret (herr "reconcile handler: LocalClient is nil")
      else
        x ← api (if decide (hc_Namespace cfg = "") then list_all (S:=VirtualNodeStateSpec)
                 else list_in (hc_Namespace cfg));
        mret match (x : Res (list VirtualNodeState)) with
             | Fail e => inr (wrapf "list VirtualNodeState" e)
             | Ok items => succeeded_with (mkPayload PayloadKindReconcile "" None [] [] 0 false None
                                             (viewFromVNS <$> items))
             end
  end.

(** ** The provider's handlers *)

(** [NewGenerateKubeconfigHandler]. *)
Definition GenerateKubeconfigHandler (cfg : HandlerConfig) (inst : option InstructionView) :
    tools HandlerResult :=
  match inst with
  | None => mret (herr "nil instruction")
  | Some inst =>
      if decide (iv_Kind inst ≠ provider_kind_string ProviderInstructionGenerateKubeconfig) then
        mret (wrong_kind (iv_Kind inst) (provider_kind_string ProviderInstructionGenerateKubeconfig))
      else if decide (iv_ConsumerClusterID inst = "") then
        mret (herr "instruction is missing consumerClusterId")
      else
        c ← tool_ask (RunCommand (exec_timeout cfg DefaultGenerateKubeconfigTimeout) (liqoctl_path cfg)
              ["generate"; "peering-user"; "--consumer-cluster-id"; iv_ConsumerClusterID inst]);
        mret match (c : string * string * option string) with
             | (_, stderr, Some err) => command_failed "liqoctl generate peering-user" err stderr
             | (stdout, _, None) =>
                 let kubeconfig := TrimSpace stdout in
                 if decide (kubeconfig = "") then herr "liqoctl returned empty kubeconfig"
                 else succeeded_with (mkPayload PayloadKindKubeconfig kubeconfig None [] [] 0 false
                                        None [])
             end
  end.

(** [NewCleanupHandler] of the provider. *)
Definition ProviderCleanupHandler (cfg : HandlerConfig) (inst : option InstructionView) :
    tools HandlerResult :=
  match inst with
  | None => mret (herr "nil instruction")
  | Some inst =>
      if decide (iv_Kind inst ≠ provider_kind_string ProviderInstructionCleanup) then
        mret (wrong_kind (iv_Kind inst) (provider_kind_string ProviderInstructionCleanup))
      else if decide (iv_ConsumerClusterID inst = "") then
        mret (herr "instruction is missing consumerClusterId")
      else
        c ← tool_ask (RunCommand (exec_timeout cfg DefaultCleanupTimeout) (liqoctl_path cfg)
              ["delete"; "peering-user"; "--consumer-cluster-id"; iv_ConsumerClusterID inst]);
        mret match (c : string * string * option string) with
             | (_, _, None) => succeededNoPayload
             | (_, stderr, Some err) =>
                 if stderr_isNotFound (TrimSpace stderr) then succeededNoPayload
                 else command_failed "liqoctl delete peering-user" err stderr
             end
  end.

(** *** Capacity (snapshot.go) *)
Record Snapshot := mkSnapshotOf {
  sn_Allocatable : ResourceList;
  sn_CountedNodes : Z;
  sn_SkippedNodes : gmap string string
}.

Definition skipReason (n : Node) : string :=
  if no_Unschedulable (cr_spec n) then "cordoned"
  else match list_find (λ c, nc_Type c = NodeReady ∧ nc_Status c ≠ ConditionTrue)
               (no_Conditions (cr_status n)) with
       | Some (_, c) => "not ready (status=" +:+ nc_Status c +:+ ")"
       | None => ""
       end.

(** [addResources]: the keys of the two maps are independent, so the order of
    the iteration does not matter. *)
Definition addResources (dst src : ResourceList) : ResourceList :=
  merge (λ d s, match d, s with
                | Some q, Some v => Some (q_Add q v)
                | None, s => s
                | d, None => d
                end) dst src.

Definition snapshot_step (out : Snapshot) (n : Node) : Snapshot :=
  if decide (skipReason n = "") then
    mkSnapshotOf (addResources (sn_Allocatable out) (no_Allocatable (cr_status n)))
      (sn_CountedNodes out + 1) (sn_SkippedNodes out)
  else mkSnapshotOf (sn_Allocatable out) (sn_CountedNodes out)
         (<[cr_Name n := skipReason n]> (sn_SkippedNodes out)).

(** [snapshot.Take] with a client. *)
Definition Take : prog (Res Snapshot) :=
  x ← list_all (S:=NodeSpec) (T:=NodeStatus);
  mret match x with
       | Fail e => Fail (wrapf "snapshot: list nodes" e)
       | Ok nodes => Ok (foldl snapshot_step (mkSnapshotOf ∅ 0 ∅) nodes)
       end.

(** [NewReconcileHandler] of the provider. *)
Definition ProviderReconcileHandler (cfg : HandlerConfig) (inst : option InstructionView) :
    tools HandlerResult :=
  match inst with
  | None => mret (herr "nil instruction")
  | Some inst =>
      if decide (iv_Kind inst ≠ provider_kind_string ProviderInstructionReconcile) then
        mret (wrong_kind (iv_Kind inst) (provider_kind_string ProviderInstructionReconcile))
      else if negb (hc_hasClient cfg) then mret (herr "reconcile handler: LocalClient is nil")
      else if decide (hc_ClusterID cfg = "" ∨ hc_LiqoClusterID cfg = "") then
        mret (herr "reconcile handler: ClusterID and LiqoClusterID are required")
      else
        x ← api Take;
        mret match (x : Res Snapshot) with
             | Fail e => inr (wrapf "snapshot" e)
             | Ok snap => succeeded_with
                 (mkPayload PayloadKindReconcile "" None [] [] 0 false
                    (Some (mkAdvReq (hc_ClusterID cfg) (hc_LiqoClusterID cfg) (sn_Allocatable snap)
                             None ∅ None [] ∅ ∅ false "" ∅ [])) [])
             end
  end.
End AgentHandlers.
