(* ===== verification/Poller.v ===== *)
(** * The agents' poll loop and its health probe
    (internal/agent/poller, internal/agent/health, and the handler
    registrations of consumer.go and provider.go)

    One goroutine fetches the agent's instructions, runs the handler of each and
    posts its result.  The probe is told about every contact and about every
    running handler, and answers the readiness endpoint from that. *)
From stdpp Require Import base gmap strings list.
From Stdlib Require Import ZArith Lia.
From S2P Require Import Prelude GoText ApiTypes ConsumerTypes Kube Effects Chunk Wire AgentClient.
From S2P Require Import AgentHandlers.

Open Scope Z_scope.

Definition DefaultInterval : Duration := Second.

Section Poller.
Context `{Platform}.

Abbreviation tools := (eff tool_call tool_answer).
Abbreviation HandlerResult := (option InstructionResultRequest + Err)%type.

(** ** Handlers *)
Inductive HandlerOutcome :=
| Returned (r : HandlerResult)
| Panicked (v : string).

Abbreviation HandlerFunc := (option InstructionView → tools HandlerOutcome).

(** [Registry]; [Register], [RegisterProvider] and [RegisterReservation] are
    the insertion of a kind's string. *)
Abbreviation HandlerRegistry := (gmap string HandlerFunc).
Definition Register (kind : string) (h : HandlerFunc) (r : HandlerRegistry) : HandlerRegistry :=
  <[kind := h]> r.
Definition RegisterProvider (kind : ProviderInstructionKind) : HandlerFunc → HandlerRegistry → HandlerRegistry :=
  Register (provider_kind_string kind).
Definition RegisterReservation (kind : ReservationInstructionKind) :
    HandlerFunc → HandlerRegistry → HandlerRegistry :=
  Register (reservation_kind_string kind).
Definition Lookup (kind : string) (r : HandlerRegistry) : option HandlerFunc := r !! kind.

(** The handlers of this repository return; they do not panic. *)
Definition returning (h : option InstructionView → tools HandlerResult) : HandlerFunc :=
  λ inst, r ← h inst; mret (Returned r).

(** The registrations of [consumer.Run] and [provider.Run]. *)
Definition consumer_registry (cfg : HandlerConfig) : HandlerRegistry :=
  RegisterReservation ReservationInstructionReconcile (returning (ReconcileHandler cfg))
    (RegisterReservation ReservationInstructionCleanup (returning (CleanupHandler cfg))
       (RegisterReservation ReservationInstructionUnpeer (returning (UnpeerHandler cfg))
          (RegisterReservation ReservationInstructionPeer (returning (PeerHandler cfg)) ∅))).

Definition provider_registry (cfg : HandlerConfig) : HandlerRegistry :=
  RegisterProvider ProviderInstructionReconcile (returning (ProviderReconcileHandler cfg))
    (RegisterProvider ProviderInstructionCleanup (returning (ProviderCleanupHandler cfg))
       (RegisterProvider ProviderInstructionGenerateKubeconfig
          (returning (GenerateKubeconfigHandler cfg)) ∅)).

(** [safeHandle]. *)
Definition safeHandle (o : HandlerOutcome) : HandlerResult :=
  match o with
  | Returned r => r
  | Panicked v => inr (errors_New ("handler panic: " +:+ v))
  end.

(** ** The loop *)
Inductive poll_call :=
| PollGetInstructions
| PollPostResult (id : string) (req : InstructionResultRequest)
| PollCtxErr                                  (* ctx.Err() != nil *)
| PollSelect                                  (* true: ctx.Done, false: the ticker *)
| NotifyPollResult (success : bool)
| NotifyHandlerActive (active : bool)
| PollTool (c : tool_call).

Definition poll_answer (c : poll_call) : Type :=
  match c with
  | PollGetInstructions => list InstructionView + CallError
  | PollPostResult _ _ => option CallError
  | PollCtxErr | PollSelect => bool
  | NotifyPollResult _ | NotifyHandlerActive _ => unit
  | PollTool c => tool_answer c
  end.

Abbreviation poll := (eff poll_call poll_answer).
Definition poll_ask (c : poll_call) : poll (poll_answer c) := ask c.

Record Poller := mkPoller {
  po_registry : HandlerRegistry;
  po_interval : Duration;
  po_hasOnPollResult : bool;
  po_hasOnHandlerActive : bool
}.

(** [New]. *)
Definition NewPoller (hasClient : bool) (registry : option HandlerRegistry) (interval : Duration)
    (onPoll onActive : bool) : Res Poller :=
  if negb hasClient then Fail (errors_New "poller: Client is required")
  else match registry with
       | None => Fail (errors_New "poller: Registry is required")
       | Some reg => Ok (mkPoller reg (if interval <=? 0 then DefaultInterval else interval) onPoll onActive)
       end.

Definition notifyPollResult (p : Poller) (success : bool) : poll unit :=
  if po_hasOnPollResult p then poll_ask (NotifyPollResult success) else mret tt.
Definition notifyHandlerActive (p : Poller) (active : bool) : poll unit :=
  if po_hasOnHandlerActive p then poll_ask (NotifyHandlerActive active) else mret tt.

(** [postResult]: a failed post is only logged. *)
Definition postResult (id : string) (req : InstructionResultRequest) : poll unit :=
  _ ← poll_ask (PollPostResult id req); mret tt.

Definition failed_result (code : ErrorCode) (msg : string) : InstructionResultRequest :=
  mkResultReq ResultStatusFailed None (Some (mkEnvelope (error_code_string code) msg)).

(** The result posted for what the handler returned. *)
Definition result_of (r : HandlerResult) : InstructionResultRequest :=
  match r with
  | inr err => failed_result ErrCodeInternalError (e_msg err)
  | inl None => mkResultReq ResultStatusSucceeded None None
  | inl (Some req) => req
  end.

Definition run_handler (h : HandlerFunc) (inst : InstructionView) : poll HandlerResult :=
  o ← hoist (λ c, poll_ask (PollTool c)) (h (Some inst)); mret (safeHandle o).

Definition dispatch (p : Poller) (inst : InstructionView) : poll unit :=
  _ ← notifyHandlerActive p true;
  _ ← match Lookup (iv_Kind inst) (po_registry p) with
      | None => postResult (iv_ID inst)
                  (failed_result ErrCodeInvalidRequest
                     ("agent has no handler for kind " +:+ GoStr.fmt_q (iv_Kind inst)))
      | Some h => r ← run_handler h inst; postResult (iv_ID inst) (result_of r)
      end;
  notifyHandlerActive p false.

(** The loop over one batch, which stops when the context is done. *)
Fixpoint dispatch_all (p : Poller) (insts : list InstructionView) : poll unit :=
  match insts with
  | [] => mret tt
  | inst :: insts =>
      done ← poll_ask PollCtxErr;
      if (done : bool) then mret tt
      else (_ ← dispatch p inst; dispatch_all p insts)
  end.

Definition tick (p : Poller) : poll unit :=
  r ← poll_ask PollGetInstructions;
  match (r : list InstructionView + CallError) with
  | inr _ => notifyPollResult p false
  | inl insts => _ ← notifyPollResult p true; dispatch_all p insts
  end.

(** [Run]: a first poll, then one per tick until the context is done; [None]
    when the fuel ends first. *)
Fixpoint poll_loop (fuel : nat) (p : Poller) : poll (option unit) :=
  match fuel with
  | O => mret None
  | S fuel =>
      done ← poll_ask PollSelect;
      if (done : bool) then mret (Some tt) else (_ ← tick p; poll_loop fuel p)
  end.

Definition Run (fuel : nat) (p : Poller) : poll (option unit) := _ ← tick p; poll_loop fuel p.
End Poller.

(** ** The health probe (internal/agent/health/probe.go)

    Times are the [UnixNano] values the probe stores. *)
Definition DefaultPollStaleAfter : Duration := 30 * Second.
Definition DefaultMaxHandlerInFlight : Duration := 15 * Minute.

Record Probe := mkProbe {
  pr_lastPollOK : Z;
  pr_inFlight : Z;
  pr_handlerSince : Z;
  pr_pollStaleAfter : Duration;
  pr_maxHandlerInFlight : Duration
}.

Definition NewProbe (pollStaleAfter maxHandlerInFlight : Duration) : Probe :=
  mkProbe 0 0 0
    (if pollStaleAfter <=? 0 then DefaultPollStaleAfter else pollStaleAfter)
    (if maxHandlerInFlight <=? 0 then DefaultMaxHandlerInFlight else maxHandlerInFlight).

Definition RecordPoll (success : bool) (now : Time) (p : Probe) : Probe :=
  if success then mkProbe now (pr_inFlight p) (pr_handlerSince p) (pr_pollStaleAfter p)
                    (pr_maxHandlerInFlight p)
  else p.

Definition RecordHandlerActive (active : bool) (now : Time) (p : Probe) : Probe :=
  if active then
    mkProbe (pr_lastPollOK p) (pr_inFlight p + 1)
      (if pr_inFlight p + 1 =? 1 then now else pr_handlerSince p)
      (pr_pollStaleAfter p) (pr_maxHandlerInFlight p)
  else if pr_inFlight p - 1 <=? 0 then
    mkProbe now 0 0 (pr_pollStaleAfter p) (pr_maxHandlerInFlight p)
  else mkProbe now (pr_inFlight p - 1) (pr_handlerSince p) (pr_pollStaleAfter p)
         (pr_maxHandlerInFlight p).

(** Why the gate is closed. *)
Inductive NotReady :=
| NoPollYet
| HandlerStuck (busy maxBusy age : Duration)
| PollStale (age threshold : Duration).

Definition Ready (now : Time) (p : Probe) : option NotReady :=
  if pr_lastPollOK p =? 0 then Some NoPollYet
  else
    let age := now - pr_lastPollOK p in
    if pr_pollStaleAfter p <? age then
      if (0 <? pr_inFlight p) && negb (pr_handlerSince p =? 0) then
        let busy := now - pr_handlerSince p in
        if busy <=? pr_maxHandlerInFlight p then None
        else Some (HandlerStuck busy (pr_maxHandlerInFlight p) age)
      else Some (PollStale age (pr_pollStaleAfter p))
    else None.
