(* ===== verification/Signals.v ===== *)
(** * Where an agent is and how green its region is (internal/agent/nodeip,
      internal/agent/geo/client.go, internal/agent/eco/client.go)

    Both agents resolve the IP address they are geolocated by, look the
    location up in a geo-IP service and, on a provider, ask a carbon service
    for the region's intensity.  The services are outside: an HTTP exchange
    ([AgentClient.Exchange]) and the decoding of its body ([SignalJson]).  The
    clients' caches are finite maps; the mutex a call holds until it returns
    makes each of them atomic. *)
From stdpp Require Import base gmap strings list.
From Stdlib Require Import ZArith Lia.
From S2P Require Import Prelude GoText ApiTypes ConsumerTypes Kube Effects Wire AgentClient.
Import GoFloat.

Open Scope Z_scope.

(** [url.QueryEscape]. *)
Definition query_byte (c : Ascii.ascii) : bool :=
  let n := Ascii.nat_of_ascii c in
  ((48 <=? n) && (n <=? 57) || (65 <=? n) && (n <=? 90) || (97 <=? n) && (n <=? 122) ||
   existsb (Nat.eqb n) [45; 95; 46; 126])%nat.

Fixpoint QueryEscape (s : string) : string :=
  match s with
  | EmptyString => EmptyString
  | String c s' =>
      (if query_byte c then String c EmptyString
       else if Ascii.eqb c (Ascii.ascii_of_nat 32) then "+"
       else let n := Ascii.nat_of_ascii c in
            "%" +:+ upper_hex (n / 16) +:+ upper_hex (n mod 16)) +:+ QueryEscape s'
  end.

(** [geo.Location]. *)
Record GeoLocation := mkGeoLocation {
  gl_Lat : float64;
  gl_Lon : float64;
  gl_Region : string;
  gl_RegionName : string;
  gl_City : string;
  gl_CountryCode : string;
  gl_ContinentCode : string
}.

(** [geo.Client]: the locations cached by IP. *)
Abbreviation GeoClient := (gmap string GeoLocation).
Definition NewGeoClient : GeoClient := ∅.

Record geoResponse := mkGeoResponse { gr_Status : string; gr_Location : GeoLocation }.

(** [encoding/json] on the services' answers: a carbon intensity, a forecast of
    integers, a location. *)
Class SignalJson := {
  decode_carbon : string → Res float64;
  decode_forecast : string → Res (list Z);
  decode_geo : string → Res geoResponse
}.

(** The two reporters' questions to the outside (the advertisement publisher
    and the heartbeat), the services' GETs among them. *)
Section Signals.
Context `{Platform} `{SignalJson}.

Inductive report_call :=
| HttpGet (url : string)
| ReadFile (path : string)
| PostAdvertisementCall (req : AdvertisementRequest)
| PostHeartbeatCall (req : HeartbeatRequest)
| LastMeasured                      (* prober.LastMeasurements() *)
| LocalChoice                       (* opts.LocalChoice() *)
| NextTick                            (* the loop's select: false is ctx.Done() *)
| OnResult (success : bool).

Definition report_answer (c : report_call) : Type :=
  match c with
  | HttpGet _ => Exchange
  | ReadFile _ => Res string
  | PostAdvertisementCall _ => AdvertisementResponse + CallError
  | PostHeartbeatCall _ => Time + CallError
  | LastMeasured => string * gmap string float64
  | LocalChoice => string
  | NextTick => bool
  | OnResult _ => unit
  end.

Abbreviation report := (eff report_call report_answer).
Definition report_ask (c : report_call) : report (report_answer c) := ask c.

(** [notifyResult]: a panicking callback is swallowed. *)
Definition notifyResult (hasCallback success : bool) : report unit :=
  if hasCallback then report_ask (OnResult success) else mret tt.

(** ** The node's address (nodeip.go) *)
Fixpoint pick_address (addrs : list (string * string)) (internal : string) : string :=
  match addrs with
  | [] => internal
  | (type, address) :: addrs =>
      if decide (type = NodeExternalIP) then
        if decide (address = "") then pick_address addrs internal else address
      else if decide (type = NodeInternalIP) then
        pick_address addrs (if decide (internal = "") then address else internal)
      else pick_address addrs internal
  end.

Definition Resolve (hasClient : bool) (nodeName override : string) : prog (Res string) :=
  if decide (override ≠ "") then mret (Ok override)
  else if negb hasClient || bool_decide (nodeName = "") then mret (Ok "")
  else
    x ← get (S:=NodeSpec) (T:=NodeStatus) "" nodeName;
    mret match x with
         | Fail e => Fail (wrapf ("nodeip: get node " +:+ GoStr.fmt_q nodeName) e)
         | Ok node => Ok (pick_address (no_Addresses (cr_status node)) "")
         end.

(** ** Geolocation (geo/client.go) *)
(** What [Lookup] makes of one exchange. *)
Definition geo_result (ip : string) (x : Exchange) : Res (option GeoLocation) :=
  match x with
  | BuildFailed err => Fail (errors_New ("geo: build request: " +:+ err))
  | SendFailed err => Fail (errors_New ("geo: call mock-geo: " +:+ err))
  | Answered status _ body =>
      if decide (status ≠ StatusOK) then
        Fail (errors_New ("geo: mock-geo returned status " +:+ GoStr.fmt_d status +:+
                          " for ip " +:+ GoStr.fmt_q ip))
      else
        match decode_geo body with
        | Fail e => Fail (wrapf "geo: decode response" e)
        | Ok out =>
            let l := gr_Location out in
            if bool_decide (gr_Status out = "fail") ||
               bool_decide (gl_Region l = "") && feq (gl_Lat l) fzero && feq (gl_Lon l) fzero
            then Ok None else Ok (Some l)
        end
  end.

(** [Lookup]: the client afterwards; [Ok None] is [ok = false]. *)
Definition GeoLookup (c : GeoClient) (baseURL ip : string) :
    report (GeoClient * Res (option GeoLocation)) :=
  if decide (baseURL = "" ∨ ip = "") then mret (c, Ok None)
  else
    match c !! ip with
    | Some v => mret (c, Ok (Some v))
    | None =>
        x ← report_ask (HttpGet (baseURL +:+ "/json/" +:+ PathEscape ip));
        let r := geo_result ip x in
        mret (match r with Ok (Some v) => <[ip := v]> c | _ => c end, r)
    end.

(** ** Carbon intensity (eco/client.go) *)
Record EcoClient := mkEcoClient {
  ec_cache : gmap string (float64 * Time);
  ec_fcache : gmap string (list float64 * Time);
  ec_ttl : Duration
}.

Definition NewEcoClientWithTTL (ttl : Duration) : EcoClient :=
  mkEcoClient ∅ ∅ (if ttl <=? 0 then Hour else ttl).

Definition staleOrErr {A} (cache : gmap string (A * Time)) (region : string) (err : Err) : Res A :=
  match cache !! region with Some (v, _) => Ok v | None => Fail err end.

(** What one exchange with the carbon service gives; [what] distinguishes the
    messages of the two endpoints. *)
Definition eco_result {A} (what : string) (decode : string → Res A) (region : string) (x : Exchange) :
    Res A :=
  match x with
  | BuildFailed err => Fail (errors_New ("eco: build " +:+ what +:+ "request: " +:+ err))
  | SendFailed err =>
      Fail (errors_New ("eco: call mock-eco" +:+ (if decide (what = "") then "" else " forecast") +:+
                        ": " +:+ err))
  | Answered status _ body =>
      if decide (status ≠ StatusOK) then
        Fail (errors_New ("eco: mock-eco " +:+ what +:+ "returned status " +:+ GoStr.fmt_d status +:+
                          " for region " +:+ GoStr.fmt_q region))
      else match decode body with
           | Fail e => Fail (wrapf ("eco: decode " +:+ what +:+ "response") e)
           | Ok v => Ok v
           end
  end.

(** The body [CurrentCarbon] and [Forecast] share: a fresh cached value, else
    one GET whose value is cached, else the stale cached value, else the
    error. *)
Definition eco_fetch {A} (cache : gmap string (A * Time)) (ttl : Duration) (url what : string)
    (decode : string → Res A) (region : string) : report (gmap string (A * Time) * Res A) :=
  fresh ← match cache !! region with
          | None => mret None
          | Some (v, at_) => t ← api now; mret (if t - at_ <? ttl then Some v else None)
          end;
  match (fresh : option A) with
  | Some v => mret (cache, Ok v)
  | None =>
      x ← report_ask (HttpGet url);
      match eco_result what decode region x with
      | Fail err => mret (cache, staleOrErr cache region err)
      | Ok v => t ← api now; mret (<[region := (v, t)]> cache, Ok v)
      end
  end.

Definition CurrentCarbon (c : EcoClient) (baseURL region : string) :
    report (EcoClient * Res (option float64)) :=
  if decide (baseURL = "" ∨ region = "") then mret (c, Ok None)
  else
    r ← eco_fetch (ec_cache c) (ec_ttl c) (baseURL +:+ "/carbon?region=" +:+ QueryEscape region) ""
          decode_carbon region;
    mret (mkEcoClient r.1 (ec_fcache c) (ec_ttl c),
          match r.2 with Ok v => Ok (Some v) | Fail e => Fail e end).

(** [Forecast]; a nil slice is the empty list. *)
Definition Forecast (c : EcoClient) (baseURL region : string) :
    report (EcoClient * Res (list float64)) :=
  if decide (baseURL = "" ∨ region = "") then mret (c, Ok [])
  else
    r ← eco_fetch (ec_fcache c) (ec_ttl c)
          (baseURL +:+ "/carbon/forecast?region=" +:+ QueryEscape region) "forecast "
          (λ body, match decode_forecast body with
                   | Ok l => Ok (fof_Z <$> l)
                   | Fail e => Fail e
                   end) region;
    mret (mkEcoClient (ec_cache c) r.1 (ec_ttl c), r.2).
End Signals.

Abbreviation report := (eff report_call report_answer).
