(* ===== verification/Publisher.v ===== *)
(** * The provider's advertisement publisher
      (internal/agent/provider/advertise/publisher.go)

    Every cycle snapshots the nodes, caps the capacity with the operator's
    rules, locates the provider, looks up its carbon intensity and posts one
    advertisement.  The operator's files are read on every cycle; reading them
    is a question to the outside, parsing them ([PublisherFiles]: sigs.k8s.io/yaml and
    resource.ParseQuantity) a parameter. *)
From stdpp Require Import base gmap strings list.
From Stdlib Require Import ZArith Lia.
From S2P Require Import Prelude GoText ApiTypes ConsumerTypes Kube Effects Wire AgentClient.
From S2P Require Import AgentHandlers Signals.
Import GoFloat.

Open Scope Z_scope.

Definition DefaultPublishInterval : Duration := 30 * Second.

Class PublisherFiles `{Platform} := {
  unmarshal_prices : string → Res ResourceList;
  unmarshal_caps : string → Res (gmap string string);  (* the values' IntOrString.String() *)
  unmarshal_renewable : string → Res bool;
  ParseQuantity : string → Res Quantity
}.

Section Publisher.
Context `{Platform} `{SignalJson} `{!PublisherFiles}.

(** One resource's rule of the capacity file. *)
Inductive capRule := CapPercent (percent : Z (* int32 *)) | CapFixed (fixed : Quantity).

Record Publisher := mkPublisher {
  pub_clusterID : string;
  pub_liqoClusterID : string;
  pub_priceFile : string;
  pub_capacityFile : string;
  pub_renewableFile : string;
  pub_nodeName : string;
  pub_advertisedIP : string;
  pub_mockEcoURL : string;
  pub_mockGeoURL : string;
  pub_probeUDPPort : Z;
  pub_eco : EcoClient;
  pub_geo : GeoClient;
  pub_interval : Duration;
  pub_onResult : bool
}.

Definition NewPublisher (hasClient hasLocal : bool) (clusterID liqoClusterID : string)
    (priceFile capacityFile renewableFile nodeName advertisedIP ecoURL geoURL : string)
    (ecoTTL : Duration) (probeUDPPort : Z) (interval : Duration) (onResult : bool) : Res Publisher :=
  if negb hasClient then Fail (errors_New "advertise: Client is required")
  else if negb hasLocal then Fail (errors_New "advertise: LocalClient is required")
  else if decide (clusterID = "") then Fail (errors_New "advertise: ClusterID is required")
  else if decide (liqoClusterID = "") then Fail (errors_New "advertise: LiqoClusterID is required")
  else
    Ok (mkPublisher clusterID liqoClusterID priceFile capacityFile renewableFile nodeName
          advertisedIP ecoURL geoURL probeUDPPort (NewEcoClientWithTTL ecoTTL) NewGeoClient
          (if interval <=? 0 then DefaultPublishInterval else interval) onResult).

(** ** The operator's files *)

(** A file read and parsed; a missing, blank or malformed one gives [dflt]. *)
Definition load_file {A} (path : string) (parse : string → Res A) (dflt : A) : report A :=
  if decide (path = "") then mret dflt
  else
    x ← report_ask (ReadFile path);
    mret match (x : Res string) with
         | Fail _ => dflt
         | Ok data =>
             if decide (TrimSpace data = "") then dflt
             else match parse data with Fail _ => dflt | Ok a => a end
         end.

Definition loadUnitPrices (p : Publisher) : report ResourceList :=
  load_file (pub_priceFile p) unmarshal_prices ∅.

Definition loadRenewable (p : Publisher) : report bool :=
  load_file (pub_renewableFile p) unmarshal_renewable false.

Definition parsePercent (s : string) : option Z :=
  match CutSuffix s "%" with
  | Some t => GoInt.to_int32 <$> Atoi (TrimSpace t)
  | None => GoInt.to_int32 <$> Atoi s
  end.

(** One value of the capacity file; [None] is skipped. *)
Definition parse_cap (v : string) : option capRule :=
  let s := TrimSpace v in
  if decide (s = "") then None
  else match parsePercent s with
       | Some pct => Some (CapPercent pct)
       | None => match ParseQuantity s with Ok q => Some (CapFixed q) | Fail _ => None end
       end.

Definition loadCapacityCaps (p : Publisher) : report (gmap string capRule) :=
  load_file (pub_capacityFile p)
    (λ data, match unmarshal_caps data with Ok raw => Ok (omap parse_cap raw) | Fail e => Fail e end) ∅.

(** ** Capacity *)
Definition scaleQuantity (q : Quantity) (percent : Z) : Quantity :=
  NewMilliQuantity (Z.quot (GoInt.to_int64 (q_MilliValue q * percent)) 100).

Definition lowers (percent : Z) : bool := (0 <=? percent) && (percent <? 100).

(** The three results of [applyCapacityScaling] for one resource. *)
Definition cap_quantity (rule : option capRule) (qty : Quantity) : Quantity :=
  match rule with
  | None => qty
  | Some (CapPercent pct) => if lowers pct then scaleQuantity qty pct else qty
  | Some (CapFixed f) => if q_Cmp f qty <? 0 then f else qty
  end.

Definition cap_percent (rule : option capRule) : option Z :=
  match rule with
  | Some (CapPercent pct) => if lowers pct then Some pct else None
  | _ => None
  end.

Definition cap_fixed (rule : option capRule) (qty : Quantity) : option Quantity :=
  match rule with
  | Some (CapFixed f) => if q_Cmp f qty <? 0 then Some f else None
  | _ => None
  end.

(** [applyCapacityScaling] with the caps loaded: each resource is treated on
    its own, so the iteration order does not matter. *)
Definition scale_capacity (caps : gmap string capRule) (alloc : ResourceList) :
    ResourceList * gmap string Z * ResourceList :=
  if decide (caps = ∅) then (alloc, ∅, ∅)
  else (map_imap (λ name qty, Some (cap_quantity (caps !! name) qty)) alloc,
        map_imap (λ name _, cap_percent (caps !! name)) alloc,
        map_imap (λ name qty, cap_fixed (caps !! name) qty) alloc).

Definition applyCapacityScaling (p : Publisher) (alloc : ResourceList) :
    report (ResourceList * gmap string Z * ResourceList) :=
  caps ← loadCapacityCaps p; mret (scale_capacity caps alloc).

(** ** Location and carbon *)
Definition set_eco (p : Publisher) (c : EcoClient) : Publisher :=
  mkPublisher (pub_clusterID p) (pub_liqoClusterID p) (pub_priceFile p) (pub_capacityFile p)
    (pub_renewableFile p) (pub_nodeName p) (pub_advertisedIP p) (pub_mockEcoURL p) (pub_mockGeoURL p)
    (pub_probeUDPPort p) c (pub_geo p) (pub_interval p) (pub_onResult p).
Definition set_geo (p : Publisher) (c : GeoClient) : Publisher :=
  mkPublisher (pub_clusterID p) (pub_liqoClusterID p) (pub_priceFile p) (pub_capacityFile p)
    (pub_renewableFile p) (pub_nodeName p) (pub_advertisedIP p) (pub_mockEcoURL p) (pub_mockGeoURL p)
    (pub_probeUDPPort p) (pub_eco p) c (pub_interval p) (pub_onResult p).

Definition loadCarbon (p : Publisher) (region : string) :
    report (Publisher * (option float64 * list float64)) :=
  f ← Forecast (pub_eco p) (pub_mockEcoURL p) region;
  let p := set_eco p f.1 in
  match f.2 with
  | Ok ((cur :: _) as forecast) => mret (p, (Some cur, forecast))
  | _ =>
      c ← CurrentCarbon (pub_eco p) (pub_mockEcoURL p) region;
      mret (set_eco p c.1, (match c.2 with Ok cur => cur | Fail _ => None end, []))
  end.

Definition loadPlacementInputs (p : Publisher) (ip : string) :
    report (Publisher * (option Topology * option float64 * list float64)) :=
  if decide (ip = "") then mret (p, (None, None, []))
  else
    l ← GeoLookup (pub_geo p) (pub_mockGeoURL p) ip;
    let p := set_geo p l.1 in
    match l.2 with
    | Ok (Some loc) =>
        c ← loadCarbon p (gl_Region loc);
        mret (c.1, (Some (mkTopology "" (gl_Region loc) (gl_City loc) (gl_Lat loc) (gl_Lon loc)),
                    c.2.1, c.2.2))
    | _ => mret (p, (None, None, []))
    end.

(** ** One cycle *)
Definition probe_endpoint (p : Publisher) (ip : string) : string :=
  if negb (bool_decide (ip = "")) && (0 <? pub_probeUDPPort p)
  then JoinHostPort ip (Itoa (pub_probeUDPPort p)) else "".

Definition publishOnce (p : Publisher) : report Publisher :=
  snap ← api Take;
  match (snap : Res Snapshot) with
  | Fail _ => _ ← notifyResult (pub_onResult p) false; mret p
  | Ok snap =>
      sc ← applyCapacityScaling p (sn_Allocatable snap);
      let '(scaled, pctCustom, fixedCustom) := sc in
      r ← api (Resolve true (pub_nodeName p) (pub_advertisedIP p));
      let ip := match (r : Res string) with Ok ip => ip | Fail _ => "" end in
      i ← loadPlacementInputs p ip;
      let '(p, (topology, carbon, carbonForecast)) := i in
      prices ← loadUnitPrices p;
      renewable ← loadRenewable p;
      x ← report_ask (PostAdvertisementCall
            (mkAdvReq (pub_clusterID p) (pub_liqoClusterID p) scaled topology prices carbon
               carbonForecast pctCustom fixedCustom renewable (probe_endpoint p ip) ∅ []));
      match (x : AdvertisementResponse + CallError) with
      | inr _ => _ ← notifyResult (pub_onResult p) false; mret p
      | inl _ => _ ← notifyResult (pub_onResult p) true; mret p
      end
  end.

(** The loop, [fuel] ticks long; [None] when the fuel ran out. *)
Fixpoint publish_loop (fuel : nat) (p : Publisher) : report (option Publisher) :=
  match fuel with
  | O => mret None
  | S fuel =>
      tick ← report_ask NextTick;
      if (tick : bool) then (p ← publishOnce p; publish_loop fuel p) else mret (Some p)
  end.

Definition RunPublisher (fuel : nat) (p : Publisher) : report (option Publisher) :=
  p ← publishOnce p; publish_loop fuel p.
End Publisher.
