(* ===== verification/Heartbeater.v ===== *)
(** * The consumer's heartbeat (internal/agent/consumer/heartbeat/heartbeat.go)

    Every beat tells the Broker which placement policy the consumer wants,
    where it is and what it measured or decided.  The ConsumerPolicy and the
    node are read from the consumer's API server; the geo service, the prober,
    the local brain's choice and the post are questions to the outside. *)
From stdpp Require Import base gmap strings list.
From Stdlib Require Import ZArith Lia.
From S2P Require Import Prelude ApiTypes ConsumerTypes Kube Effects Chunk Wire AgentClient Catalog.
From S2P Require Import Registry Placement PlacementProofs ReservationApi AdvertisementApi Brain.
From S2P Require Import Signals.
Import GoFloat.

Open Scope Z_scope.

Definition DefaultBeatInterval : Duration := 15 * Second.

Section Heartbeater.
Context `{Platform} `{SignalJson}.

Record Heartbeater := mkHeartbeater {
  he_clusterID : string;
  he_liqoClusterID : string;
  he_hasClient : bool;              (* localClient != nil *)
  he_namespace : string;
  he_nodeName : string;
  he_advertisedIP : string;
  he_mockGeoURL : string;
  he_geo : GeoClient;
  he_hasProber : bool;
  he_hasLocalChoice : bool;
  he_interval : Duration;
  he_onResult : bool;
  he_location : option GeoLocation
}.

Definition NewHeartbeater (hasClient : bool) (clusterID liqoClusterID : string) (hasLocal : bool)
    (namespace nodeName advertisedIP geoURL : string) (hasProber hasLocalChoice : bool)
    (interval : Duration) (onResult : bool) : Res Heartbeater :=
  if negb hasClient then Fail (errors_New "heartbeat: Client is required")
  else if decide (clusterID = "") then Fail (errors_New "heartbeat: ClusterID is required")
  else if decide (liqoClusterID = "") then Fail (errors_New "heartbeat: LiqoClusterID is required")
  else
    Ok (mkHeartbeater clusterID liqoClusterID hasLocal namespace nodeName advertisedIP geoURL
          NewGeoClient hasProber hasLocalChoice
          (if interval <=? 0 then DefaultBeatInterval else interval) onResult None).

(** [LastLocation]; [None] is [ok = false]. *)
Definition LastLocation (h : Heartbeater) : option (float64 * float64 * string) :=
  (λ l, (gl_Lat l, gl_Lon l, gl_Region l)) <$> he_location h.

Definition finiteRTTs (m : gmap string float64) : gmap string float64 :=
  filter (λ p : string * float64, is_finite p.2 = true) m.

Definition currentPlacement (h : Heartbeater) : prog (option PlacementPolicy) :=
  if negb (he_hasClient h) then mret None
  else
    x ← list_in (S:=ConsumerPolicySpec) (T:=unit) (he_namespace h);
    mret match x with
         | Fail _ => None
         | Ok l => (λ p, cp_Placement (cr_spec p)) <$> lowest_policy l
         end.

(** The geo client and the location to remember after a lookup. *)
Definition located (h : Heartbeater) (c : GeoClient) (loc : option GeoLocation) : Heartbeater :=
  mkHeartbeater (he_clusterID h) (he_liqoClusterID h) (he_hasClient h) (he_namespace h)
    (he_nodeName h) (he_advertisedIP h) (he_mockGeoURL h) c (he_hasProber h) (he_hasLocalChoice h)
    (he_interval h) (he_onResult h) loc.

(** Where the agent is: the heartbeater afterwards and the location to report. *)
Definition discover (h : Heartbeater) : report (Heartbeater * option GeoLocation) :=
  r ← api (Resolve (he_hasClient h) (he_nodeName h) (he_advertisedIP h));
  match (r : Res string) with
  | Fail _ => mret (h, None)
  | Ok ip =>
      l ← GeoLookup (he_geo h) (he_mockGeoURL h) ip;
      match l.2 with
      | Ok (Some loc) => mret (located h l.1 (Some loc), Some loc)
      | _ => mret (located h l.1 (he_location h), None)
      end
  end.

(** The measured latencies and the choice to report. *)
Definition measured (h : Heartbeater) : report (gmap string float64 * string) :=
  if he_hasProber h then
    r ← report_ask LastMeasured;
    let '(chosen, rtts) := (r : string * gmap string float64) in
    mret (if decide (rtts = ∅) then (∅, "") else (finiteRTTs rtts, chosen))
  else mret (∅, "").

Definition beatOnce (h : Heartbeater) : report Heartbeater :=
  placement ← api (currentPlacement h);
  d ← discover h;
  let '(h, loc) := d in
  ms ← measured h;
  ch ← (if he_hasLocalChoice h then
          c ← report_ask LocalChoice; mret (DecidedByLocal, (c : string))
        else mret ("", ms.2));
  x ← report_ask (PostHeartbeatCall
        (mkHeartbeat (he_clusterID h) (he_liqoClusterID h) placement
           (match loc with Some l => gl_Region l | None => "" end)
           (match loc with Some l => gl_City l | None => "" end)
           (gl_Lat <$> loc) (gl_Lon <$> loc) ms.1 ch.2 ch.1));
  match (x : Time + CallError) with
  | inr _ => _ ← notifyResult (he_onResult h) false; mret h
  | inl _ => _ ← notifyResult (he_onResult h) true; mret h
  end.

(** The loop, [fuel] ticks long; [None] when the fuel ran out. *)
Fixpoint beat_loop (fuel : nat) (h : Heartbeater) : report (option Heartbeater) :=
  match fuel with
  | O => mret None
  | S fuel =>
      tick ← report_ask NextTick;
      if (tick : bool) then (h ← beatOnce h; beat_loop fuel h) else mret (Some h)
  end.

Definition RunHeartbeater (fuel : nat) (h : Heartbeater) : report (option Heartbeater) :=
  h ← beatOnce h; beat_loop fuel h.
End Heartbeater.
