(* ===== verification/Gateway.v ===== *)
(** * The Broker's HTTP front end (internal/broker/api: server.go Handler,
      middleware.go, tls.go ExtractClusterID)

    Routing and the middleware chain around the modelled handlers: panic
    recovery, the request ID, the request log, the caller's identity from its
    client certificate and the per-cluster rate limit.  A handler maps the
    server's memory ([Gateway]: the consumer registry, the rate limiters and the
    request log) and a request to an outcome; the request's context is its field
    [hq_ClusterID].  Request paths are clean (no dot segments, which the mux
    would redirect), and the string detail of the 429 body is left out.  [encoding/json] ([BrokerJson]) and golang.org/x/time/rate
    ([RateLimit]) are parameters. *)
From stdpp Require Import base gmap strings list.
From Stdlib Require Import ZArith Lia.
From S2P Require Import Prelude GoText ApiTypes ConsumerTypes Kube Effects Chunk Wire AgentClient.
From S2P Require Import Registry Placement ReservationApi InstructionsApi AdvertisementApi.

Open Scope Z_scope.

(** ** Paths *)

(** A path cut at its slashes; [mux] compares the pieces after the first,
    which is empty. *)
Fixpoint split_slash (s : string) : string * list string :=
  match s with
  | EmptyString => (EmptyString, [])
  | String c s' =>
      let '(w, ws) := split_slash s' in
      if Ascii.eqb c (Ascii.ascii_of_nat 47) then (EmptyString, w :: ws) else (String c w, ws)
  end.

Definition hex_value (c : Ascii.ascii) : option nat :=
  let n := Ascii.nat_of_ascii c in
  if (48 <=? n)%nat && (n <=? 57)%nat then Some (n - 48)%nat
  else if (65 <=? n)%nat && (n <=? 70)%nat then Some (n - 55)%nat
  else if (97 <=? n)%nat && (n <=? 102)%nat then Some (n - 87)%nat else None.

(** [url.PathUnescape]; [None] is a malformed escape. *)
Fixpoint PathUnescape (s : string) : option string :=
  match s with
  | EmptyString => Some EmptyString
  | String c s' =>
      if Ascii.eqb c (Ascii.ascii_of_nat 37) then
        match s' with
        | String h (String l s'') =>
            match hex_value h, hex_value l, PathUnescape s'' with
            | Some a, Some b, Some t => Some (String (Ascii.ascii_of_nat (16 * a + b)) t)
            | _, _, _ => None
            end
        | _ => None
        end
      else String c <$> PathUnescape s'
  end.

(** The pieces of a path, unescaped where they can be. *)
Definition segments (path : string) : list string :=
  (λ w, default w (PathUnescape w)) <$> (split_slash path).2.

(** ** Requests and replies *)
Definition StatusUnauthorized : Z := 401.
Definition StatusMethodNotAllowed : Z := 405.
Definition StatusTooManyRequests : Z := 429.

(** [tls.ConnectionState]: the subject CNs of the verified chains. *)
Record ConnectionState := mkConnectionState { VerifiedChains : list (list string) }.

Definition ExtractClusterID (state : option ConnectionState) : Res string :=
  match state with
  | None => Fail (errors_New "tls: no connection state on request")
  | Some st =>
      match VerifiedChains st with
      | (cn :: _) :: _ =>
          if decide (cn = "") then Fail (errors_New "tls: peer certificate Subject.CN is empty")
          else Ok cn
      | _ => Fail (errors_New "tls: no verified peer certificate")
      end
  end.

Record Request := mkRequest {
  hq_Method : string;
  hq_Path : string;
  hq_Query : url_Values;
  hq_RequestID : string;          (* header X-Request-Id *)
  hq_ReservationID : string;      (* header X-Reservation-Id *)
  hq_Body : string;
  hq_TLS : option ConnectionState;
  hq_ClusterID : string           (* ClusterIDFromContext(r.Context()) *)
}.

Definition with_request_id (id : string) (r : Request) : Request :=
  mkRequest (hq_Method r) (hq_Path r) (hq_Query r) id (hq_ReservationID r) (hq_Body r) (hq_TLS r)
    (hq_ClusterID r).
Definition with_cluster (id : string) (r : Request) : Request :=
  mkRequest (hq_Method r) (hq_Path r) (hq_Query r) (hq_RequestID r) (hq_ReservationID r) (hq_Body r)
    (hq_TLS r) id.

(** What a handler wrote: [None] is a panic before anything was written.
    [ou_Header] is the X-Request-Id header of the response, which the request
    has too. *)
Record HttpOutcome := mkHttpOutcome { ou_Header : string; ou_Written : option (Z * string) }.

Record LogLine := mkLogLine { lg_Method : string; lg_Path : string; lg_Status : Z; lg_ClusterID : string }.

Class RateLimit := {
  limiter : Type;
  NewLimiter : Z → Z → limiter;                 (* tokens per second, burst *)
  Allow : Time → limiter → limiter * bool
}.

Definition RatePerSec : Z := 5.
Definition BurstTokens : Z := 10.

Section Gateway.
Context `{Platform} `{!RateLimit}.

(** [decodeJSONBody] and [json.Encoder.Encode] on the wire types. *)
Class BrokerJson := {
  decode_advertisement : string → Res AdvertisementRequest;
  decode_heartbeat : string → Res HeartbeatRequest;
  decode_reservation : string → Res ReservationRequest;
  decode_result : string → Res InstructionResultRequest;
  encode_advertisement : AdvertisementResponse → string;
  encode_snapshot : AdvertisementSnapshot → string;
  encode_ack : Time → string;
  encode_node_groups : NodeGroupListResponse → string;
  encode_reservation : ReservationResponse → string;
  encode_reservations : list ReservationResponse → string;
  encode_release : ReleaseResponse → string;
  encode_instructions : list InstructionView → string;
  encode_result_ack : bool → string;
  encode_error : ErrorResponse → string;
  encode_health : string
}.

Record Gateway := mkGateway {
  gw_registry : ConsumerRegistry;
  gw_limiters : gmap string limiter;
  gw_log : list LogLine
}.

Definition Handler : Type := Gateway → Request → prog (Gateway * HttpOutcome).
Definition Middleware : Type := Handler → Handler.

Context `{!BrokerJson} `{GoRuntime}.

(** [writeJSON] and [writeError]. *)
Definition write {B} (encode : B → string) (r : Response B) : option (Z * string) :=
  match r with
  | JSON status b => Some (status, encode b)
  | Error status e => Some (status, encode_error e)
  end.

Definition answer {B} (encode : B → string) (g : Gateway) (r : Request) (p : prog (Response B)) :
    prog (Gateway * HttpOutcome) :=
  x ← p; mret (g, mkHttpOutcome (hq_RequestID r) (write encode x)).

(** ** Routes *)
Definition is_get (m : string) : bool := bool_decide (m = "GET" ∨ m = "HEAD").

(** [Handler]: a path that only another method's route matches is answered 405,
    any other unmatched path 404. *)
Definition mux (s : Server) : Handler := λ g r,
  let rid := hq_RequestID r in
  let me := hq_ClusterID r in
  let no status text := mret (g, mkHttpOutcome rid (Some (status, text))) in
  let wrong := no StatusMethodNotAllowed "Method Not Allowed" in
  let get := is_get (hq_Method r) in
  let post := bool_decide (hq_Method r = "POST") in
  let delete := bool_decide (hq_Method r = "DELETE") in
  match segments (hq_Path r) with
  | ["healthz"] => if get then no StatusOK encode_health else wrong
  | ["api"; "v1"; "advertisements"] =>
      if post then answer encode_advertisement g r
                     (handleAdvertisementUpsert s rid me (decode_advertisement (hq_Body r)))
      else wrong
  | ["api"; "v1"; "heartbeat"] =>
      if post then
        x ← handleHeartbeat (gw_registry g) rid me (decode_heartbeat (hq_Body r));
        mret (mkGateway x.1 (gw_limiters g) (gw_log g), mkHttpOutcome rid (write encode_ack x.2))
      else wrong
  | ["api"; "v1"; "nodegroups"] =>
      if get then answer encode_node_groups g r (handleNodeGroupsList s (gw_registry g) rid me)
      else wrong
  | ["api"; "v1"; "instructions"] =>
      if get then answer encode_instructions g r (handleInstructionsList s rid me) else wrong
  | ["api"; "v1"; "reservations"] =>
      if post then answer encode_reservation g r
                     (handleReservationCreate s (gw_registry g) rid me (hq_ReservationID r)
                        (decode_reservation (hq_Body r)))
      else if get then answer encode_reservations g r (handleReservationList s rid me)
      else wrong
  | ["api"; "v1"; "advertisements"; id] =>
      if decide (id = "") then no StatusNotFound "404 page not found"
      else if get then answer encode_snapshot g r (handleAdvertisementGet s rid id me) else wrong
  | ["api"; "v1"; "reservations"; id] =>
      if decide (id = "") then no StatusNotFound "404 page not found"
      else if get then answer encode_reservation g r (handleReservationGet s rid me id)
      else if delete then answer encode_release g r
                            (handleReservationRelease s rid me id (values_Get (hq_Query r) "chunks"))
      else wrong
  | ["api"; "v1"; "instructions"; id; "result"] =>
      if decide (id = "") then no StatusNotFound "404 page not found"
      else if post then answer encode_result_ack g r
                          (handleInstructionResult s rid me id (decode_result (hq_Body r)))
      else wrong
  | _ => no StatusNotFound "404 page not found"
  end.

(** ** Middleware *)
Definition chain (next : Handler) (mws : list Middleware) : Handler := foldr (λ mw h, mw h) next mws.

Definition RecoverMiddleware : Middleware := λ next g r,
  x ← next g r;
  mret (x.1, match ou_Written x.2 with
             | Some _ => x.2
             | None =>
                 mkHttpOutcome (ou_Header x.2)
                   (write (B:=unit) (λ _, "") (fail_with StatusInternalServerError
                      ErrCodeInternalError "internal server error" (ou_Header x.2)))
             end).

Definition RequestIDMiddleware : Middleware := λ next g r,
  id ← (if decide (hq_RequestID r = "") then new_uuid else mret (hq_RequestID r));
  x ← next g (with_request_id id r);
  mret (x.1, mkHttpOutcome id (ou_Written x.2)).

(** A panic passes the logger before it could log. *)
Definition LoggerMiddleware : Middleware := λ next g r,
  x ← next g r;
  mret match ou_Written x.2 with
       | None => x
       | Some (status, _) =>
           (mkGateway (gw_registry x.1) (gw_limiters x.1)
              (gw_log x.1 ++ [mkLogLine (hq_Method r) (hq_Path r) status (hq_ClusterID r)]), x.2)
       end.

Definition ClusterIDMiddleware : Middleware := λ next g r,
  match ExtractClusterID (hq_TLS r) with
  | Fail e => mret (g, mkHttpOutcome (hq_RequestID r) (write (B:=unit) (λ _, "")
                (fail_with StatusUnauthorized ErrCodeUnauthenticated (e_msg e) (hq_RequestID r))))
  | Ok clusterID => next g (with_cluster clusterID r)
  end.

Definition RateLimitMiddleware : Middleware := λ next g r,
  let id := hq_ClusterID r in
  if decide (id = "") then next g r
  else
    t ← now;
    let '(l, ok) := Allow t (default (NewLimiter RatePerSec BurstTokens) (gw_limiters g !! id)) in
    let g := mkGateway (gw_registry g) (<[id := l]> (gw_limiters g)) (gw_log g) in
    if (ok : bool) then next g r
    else mret (g, mkHttpOutcome (hq_RequestID r) (write (B:=unit) (λ _, "")
           (fail_with StatusTooManyRequests ErrCodeTooManyRequests
              "per-cluster rate limit exceeded" (hq_RequestID r)))).

Definition MiddlewareChain (handler : Handler) : Handler :=
  chain handler [RecoverMiddleware; RequestIDMiddleware; LoggerMiddleware; ClusterIDMiddleware;
                 RateLimitMiddleware].

(** One request served. *)
Definition broker_serve (s : Server) : Handler := MiddlewareChain (mux s).
End Gateway.
