(* ===== verification/ReservationController.v ===== *)
(** * Reservation reconciler
    (internal/controller/broker/reservation_controller.go)

    The state machine that drives a Reservation: finalizer bookkeeping, expiry
    and provider guards, and one handler per phase.  A handler that mutates the
    Reservation in place takes it and returns it. *)
From stdpp Require Import base gmap strings list.
From Stdlib Require Import ZArith Lia.
From S2P Require Import Prelude ApiTypes Kube InstructionsApi.

Open Scope Z_scope.

(** [ctrl.Result]. *)
Record CtrlResult := mkCtrl { Requeue : bool; RequeueAfter : Duration }.
Definition no_requeue : CtrlResult := mkCtrl false 0.
Definition after (d : Duration) : CtrlResult := mkCtrl false d.

(** What [Reconcile] returns: a result and an error. *)
Abbreviation Outcome := (CtrlResult * option Err)%type (only parsing).

(** [client.IgnoreNotFound]. *)
Definition IgnoreNotFound (e : Err) : option Err := if IsNotFound e then None else Some e.

Record ReservationReconciler := mkReconciler {
  TerminalTTL : Duration;
  GKResyncInterval : Duration;
  ReservationTimeout : Duration
}.

Definition DefaultTerminalReservationTTL : Duration := 15 * Minute.
Definition DefaultReservationTimeout : Duration := 24 * Hour.
Definition DefaultGKResyncInterval : Duration := 5 * Second.

Definition terminalTTL (r : ReservationReconciler) : Duration :=
  if 0 <? TerminalTTL r then TerminalTTL r else DefaultTerminalReservationTTL.
Definition reservationTimeout (r : ReservationReconciler) : Duration :=
  if 0 <? ReservationTimeout r then ReservationTimeout r else DefaultReservationTimeout.
Definition gkResync (r : ReservationReconciler) : Duration :=
  if 0 <? GKResyncInterval r then GKResyncInterval r else DefaultGKResyncInterval.

Definition ReservationFinalizer : string := "broker.federation-autoscaler.io/release-chunks".

(** ** Names *)
Definition peeringCredentialKey (consumerClusterID providerClusterID : string) : string :=
  consumerClusterID +:+ "-" +:+ providerClusterID.
Definition providerInstructionGKName (consumerClusterID providerClusterID : string) : string :=
  "gk-" +:+ peeringCredentialKey consumerClusterID providerClusterID.
Definition reservationInstructionPeerName (name : string) : string := "peer-" +:+ name.
Definition reservationInstructionUnpeerName (name : string) : string := "unpeer-" +:+ name.
Definition reservationInstructionCleanupName (name : string) : string := "cleanup-" +:+ name.
Definition providerInstructionCleanupName (consumerClusterID providerClusterID : string) : string :=
  "pcleanup-" +:+ peeringCredentialKey consumerClusterID providerClusterID.
(** The controller's copy of the API handler's helper. *)
Definition ctl_kubeconfigSecretName (consumerClusterID providerClusterID : string) : string :=
  "kubeconfig-" +:+ peeringCredentialKey consumerClusterID providerClusterID.

Definition needsConsumerCleanup (p : ReservationPhase) : bool :=
  match p with
  | ReservationPhasePeering | ReservationPhasePeered => true
  | _ => false
  end.

Section ReservationController.
Context `{Platform}.

(** ** controllerutil *)
Definition ContainsFinalizer {S T} (o : CR S T) (f : string) : bool :=
  bool_decide (f ∈ m_Finalizers (cr_meta o)).

(** [AddFinalizer]: the object and whether it changed. *)
Definition AddFinalizer {S T} (o : CR S T) (f : string) : CR S T * bool :=
  if ContainsFinalizer o f then (o, false)
  else (cr_set_meta (meta_set_finalizers (m_Finalizers (cr_meta o) ++ [f]) (cr_meta o)) o, true).

(** [RemoveFinalizer]: every occurrence goes. *)
Definition RemoveFinalizer {S T} (o : CR S T) (f : string) : CR S T * bool :=
  (cr_set_meta (meta_set_finalizers (filter (λ x, x ≠ f) (m_Finalizers (cr_meta o))) (cr_meta o)) o,
   ContainsFinalizer o f).

(** [SetControllerReference] on an object without owners. *)
Definition SetControllerReference {S T S' T'} (owner : CR S T) (o : CR S' T') : CR S' T' :=
  cr_set_meta (meta_set_owner (m_UID (cr_meta owner)) (cr_meta o)) o.

(** ** Phase changes *)
Definition advancePhase (resv : Reservation) (next : ReservationPhase) (message : string) :
  prog (option Err) :=
  if decide (rt_Phase (cr_status resv) = next) then mret None
  else
    x ← status_update (cr_set_status
          (rt_set_observed (m_Generation (cr_meta resv))
             (rt_set_message message (rt_set_phase next (cr_status resv)))) resv);
    mret match x with Ok _ => None | Fail e => Some e end.

(** ** Siblings *)
Definition counts_sibling (counts : ReservationPhase → bool) (resv other : Reservation) : bool :=
  bool_decide (cr_Name other ≠ cr_Name resv) &&
  bool_decide (rs_ConsumerClusterID (cr_spec other) = rs_ConsumerClusterID (cr_spec resv)) &&
  bool_decide (rs_ProviderClusterID (cr_spec other) = rs_ProviderClusterID (cr_spec resv)) &&
  bool_decide (m_DeletionTimestamp (cr_meta other) = None) &&
  counts (rt_Phase (cr_status other)).

Definition anyOtherSibling (resv : Reservation) (counts : ReservationPhase → bool) :
  prog (Res bool) :=
  x ← list_in (S:=ReservationSpec) (T:=ReservationStatus) (cr_Namespace resv);
  mret match x with
       | Fail e => Fail e
       | Ok items => Ok (existsb (counts_sibling counts resv) items)
       end.

Definition hasOtherActiveReservation (resv : Reservation) : prog (Res bool) :=
  anyOtherSibling resv (λ p, negb (isReservationTerminal p)).

Definition holding_phase (p : ReservationPhase) : bool :=
  negb (isReservationTerminal p) && negb (bool_decide (p = ReservationPhaseUnpeering)).

Definition hasOtherHoldingReservation (resv : Reservation) : prog (Res bool) :=
  anyOtherSibling resv holding_phase.

(** ** Secrets *)
Definition pair_secret_name (resv : Reservation) : string :=
  ctl_kubeconfigSecretName (rs_ConsumerClusterID (cr_spec resv)) (rs_ProviderClusterID (cr_spec resv)).

Definition kubeconfigSecretExists (resv : Reservation) : prog (Res bool) :=
  x ← get (S:=gmap string string) (T:=unit) (cr_Namespace resv) (pair_secret_name resv);
  mret match x with
       | Ok _ => Ok true
       | Fail e => if IsNotFound e then Ok false else Fail e
       end.

Definition deleteKubeconfigSecret (resv : Reservation) : prog (option Err) :=
  x ← delete_cr (mkCR (meta_named (pair_secret_name resv) (cr_Namespace resv)) ∅ tt : Secret);
  mret match x with Ok _ => None | Fail e => IgnoreNotFound e end.

(** ** Instructions *)
Definition ensureInstruction (resv : Reservation) (ri : ReservationInstruction) : prog (option Err) :=
  x ← create (SetControllerReference resv ri);
  mret match x with
       | Ok _ => None
       | Fail e => if IsAlreadyExists e then None else Some e
       end.

(** [ensureSharedInstruction] on a ReservationInstruction. *)
Definition ensureSharedReservationInstruction (ri : ReservationInstruction) : prog (option Err) :=
  x ← create ri;
  mret match x with
       | Ok _ => None
       | Fail e => if IsAlreadyExists e then None else Some e
       end.

Definition rearmed (t : Time) (st : InstructionStatus) : InstructionStatus :=
  mkInstrStatus (is_ObservedGeneration st) false (Some t) None (Some t) 0
    "re-armed for a new (consumer, provider) cycle".

(** [ensureSharedInstruction] on a ProviderInstruction: a copy enforced in an
    earlier cycle is armed again. *)
Definition ensureSharedProviderInstruction (pi : ProviderInstruction) : prog (option Err) :=
  x ← create pi;
  match x with
  | Ok _ => mret None
  | Fail e =>
      if IsAlreadyExists e then
        y ← get (S:=ProviderInstructionSpec) (T:=InstructionStatus) (cr_Namespace pi) (cr_Name pi);
        match y with
        | Fail e => mret (Some e)
        | Ok existing =>
            if is_Enforced (cr_status existing) then
              u ← update (cr_set_spec (cr_spec pi) existing);
              match u with
              | Fail e => mret (Some e)
              | Ok existing =>
                  t ← now;
                  w ← status_update (cr_set_status (rearmed t (cr_status existing)) existing);
                  mret match w with Ok _ => None | Fail e => Some e end
              end
            else mret None
        end
      else mret (Some e)
  end.

Definition providerCleanup (resv : Reservation) : ProviderInstruction :=
  let sp := cr_spec resv in
  mkCR (meta_named (providerInstructionCleanupName (rs_ConsumerClusterID sp)
          (rs_ProviderClusterID sp)) (cr_Namespace resv))
    (mkPISpec (cr_Name resv) ProviderInstructionCleanup (rs_ProviderClusterID sp)
       (rs_ConsumerClusterID sp) (rs_ConsumerLiqoClusterID sp) (rs_ChunkCount sp) false None)
    instr_status_zero.

Definition ensureProviderCleanupInstruction (resv : Reservation) : prog (option Err) :=
  ensureSharedProviderInstruction (providerCleanup resv).

Definition consumerInstruction (resv : Reservation) (name : string)
    (kind : ReservationInstructionKind) (lastChunk : bool) (ref : string) (exp : option Time) :
  ReservationInstruction :=
  let sp := cr_spec resv in
  mkCR (meta_named name (cr_Namespace resv))
    (mkRISpec (cr_Name resv) kind (rs_ConsumerClusterID sp) (rs_ProviderClusterID sp)
       (rs_ProviderLiqoClusterID sp) [] (rs_ChunkCount sp) lastChunk ref exp)
    instr_status_zero.

Definition emitConsumerCleanup (resv : Reservation) (owned : bool) : prog (option Err) :=
  l ← hasOtherHoldingReservation resv;
  match l with
  | Fail e => mret (Some (wrapf "check sibling reservations" e))
  | Ok last =>
      let ri := consumerInstruction resv (reservationInstructionCleanupName (cr_Name resv))
                  ReservationInstructionCleanup (negb last) "" None in
      if owned then ensureInstruction resv ri else ensureSharedReservationInstruction ri
  end.

Definition ensureCleanupInstruction (resv : Reservation) : prog (option Err) :=
  emitConsumerCleanup resv true.
Definition ensureConsumerCleanupShared (resv : Reservation) : prog (option Err) :=
  emitConsumerCleanup resv false.

(** ** Chunk release *)
Fixpoint stamp_loop (attempts : nat) (ns name : string) : prog (option Err) :=
  match attempts with
  | O => mret (Some (errors_New "exhausted conflict retries stamping chunks-released annotation"))
  | Datatypes.S attempts' =>
      x ← get (S:=ReservationSpec) (T:=ReservationStatus) ns name;
      match x with
      | Fail e => mret (Some e)
      | Ok fresh =>
          if IsChunksReleased fresh then mret None
          else
            y ← update (MarkChunksReleased fresh);
            match y with
            | Ok _ => mret None
            | Fail e => if IsConflict e then stamp_loop attempts' ns name else mret (Some e)
            end
      end
  end.

Definition stampChunksReleased (resv : Reservation) : prog (option Err) :=
  stamp_loop 3 (cr_Namespace resv) (cr_Name resv).

(** The status [releaseChunks] writes. *)
Definition released (cadv : ClusterAdvertisement) (count : Z) : ClusterAdvertisement :=
  let st := cr_status cadv in
  let next := GoInt.sub32 (ca_ReservedChunks st) count in
  let next := if next <? 0 then 0 else next in
  let avail := GoInt.sub32 (ca_TotalChunks st) next in
  let avail := if avail <? 0 then 0 else avail in
  cr_set_status (ca_set_chunks next avail st) cadv.

Fixpoint release_loop (attempts : nat) (resv : Reservation) : prog (option Err) :=
  match attempts with
  | O => mret (Some (errors_New ("exhausted conflict retries updating ClusterAdvertisement " +:+
                       GoStr.fmt_q (rs_ProviderClusterID (cr_spec resv)))))
  | Datatypes.S attempts' =>
      x ← get (S:=ClusterAdvertisementSpec) (T:=ClusterAdvertisementStatus)
            (cr_Namespace resv) (rs_ProviderClusterID (cr_spec resv));
      match x with
      | Fail e => if IsNotFound e then stampChunksReleased resv
                  else mret (Some (wrapf "get ClusterAdvertisement" e))
      | Ok cadv =>
          y ← status_update (released cadv (rs_ChunkCount (cr_spec resv)));
          match y with
          | Ok _ => stampChunksReleased resv
          | Fail e => if IsConflict e then release_loop attempts' resv
                      else mret (Some (wrapf "update ClusterAdvertisement status" e))
          end
      end
  end.

Definition releaseChunks (resv : Reservation) : prog (option Err) := release_loop 3 resv.

(** [fmt.Errorf("prefix: %w", err)] on an outcome. *)
Definition fails (prefix : string) (e : Err) : Outcome := (no_requeue, Some (wrapf prefix e)).
Definition finish (res : CtrlResult) (e : option Err) : Outcome :=
  match e with None => (res, None) | Some e => (no_requeue, Some e) end.

(** ** Guards *)

(** [ensureExpiry]: the Reservation as mutated in place, and the error. *)
Definition ensureExpiry (r : ReservationReconciler) (resv : Reservation) :
  prog (Reservation * option Err) :=
  let st := cr_status resv in
  match rt_ExpiresAt st with
  | Some _ => mret (resv, None)
  | None =>
      let createdAt := default (m_CreationTimestamp (cr_meta resv)) (rt_CreatedAt st) in
      let expires := createdAt + reservationTimeout r in
      let st := rt_set_lifetime (Some createdAt) (Some expires) st in
      let st := if rt_ObservedGeneration st =? 0
                then rt_set_observed (m_Generation (cr_meta resv)) st else st in
      let resv := cr_set_status st resv in
      x ← status_update resv;
      mret match x with Ok resv => (resv, None) | Fail e => (resv, Some e) end
  end.

(** [checkExpired]: whether the Reservation expired, and the requeue delay. *)
Definition checkExpired (resv : Reservation) : prog (bool * Duration) :=
  match rt_ExpiresAt (cr_status resv) with
  | None => mret (false, 0)
  | Some exp =>
      if isReservationTerminal (rt_Phase (cr_status resv)) then mret (false, 0)
      else
        t ← now;
        if t <? exp then t2 ← now; mret (false, exp - t2)
        else
          _ ← advancePhase resv ReservationPhaseExpired
                ("reservation timeout elapsed at " +:+ format_RFC3339 exp);
          mret (true, 0)
  end.

(** [checkProviderAvailable]: whether the Reservation was abandoned, and the
    error. *)
Definition checkProviderAvailable (resv : Reservation) : prog (bool * option Err) :=
  let phase := rt_Phase (cr_status resv) in
  let provider := rs_ProviderClusterID (cr_spec resv) in
  if isReservationTerminal phase then mret (false, None)
  else if decide (phase = ReservationPhaseUnpeering) then mret (false, None)
  else
    x ← get (S:=ClusterAdvertisementSpec) (T:=ClusterAdvertisementStatus) (cr_Namespace resv) provider;
    let verdict :=
      match x with
      | Ok cadv =>
          if ca_Available (cr_status cadv) then inl (false, None)
          else inr ("provider " +:+ GoStr.fmt_q provider +:+ " advertisement no longer available")
      | Fail e =>
          if IsNotFound e then
            inr ("provider " +:+ GoStr.fmt_q provider +:+ " advertisement no longer exists")
          else inl (false, Some (wrapf ("get ClusterAdvertisement " +:+ GoStr.fmt_q provider) e))
      end in
    match verdict with
    | inl out => mret out
    | inr msg =>
        c ← (if needsConsumerCleanup phase then ensureCleanupInstruction resv else mret None);
        match c with
        | Some e => mret (false, Some (wrapf "ensure Cleanup instruction" e))
        | None =>
            e ← advancePhase resv ReservationPhaseFailed msg;
            mret match e with Some e => (false, Some e) | None => (true, None) end
        end
    end.

(** ** Phase handlers *)
Definition generateKubeconfig (resv : Reservation) : ProviderInstruction :=
  let sp := cr_spec resv in
  mkCR (meta_named (providerInstructionGKName (rs_ConsumerClusterID sp) (rs_ProviderClusterID sp))
          (cr_Namespace resv))
    (mkPISpec (cr_Name resv) ProviderInstructionGenerateKubeconfig (rs_ProviderClusterID sp)
       (rs_ConsumerClusterID sp) (rs_ConsumerLiqoClusterID sp) (rs_ChunkCount sp) false
       (rt_ExpiresAt (cr_status resv)))
    instr_status_zero.

Definition handlePending (resv : Reservation) : prog Outcome :=
  x ← kubeconfigSecretExists resv;
  match x with
  | Fail e => mret (fails "check kubeconfig secret" e)
  | Ok true =>
      e ← advancePhase resv ReservationPhaseKubeconfigReady "reusing cached peering-user kubeconfig";
      mret (finish no_requeue e)
  | Ok false =>
      e ← ensureSharedProviderInstruction (generateKubeconfig resv);
      match e with
      | Some e => mret (fails "ensure GenerateKubeconfig instruction" e)
      | None =>
          e ← advancePhase resv ReservationPhaseGeneratingKubeconfig
                "queued GenerateKubeconfig instruction for provider";
          mret (finish no_requeue e)
      end
  end.

Definition handleGeneratingKubeconfig (r : ReservationReconciler) (resv : Reservation) : prog Outcome :=
  x ← kubeconfigSecretExists resv;
  match x with
  | Fail e => mret (fails "check kubeconfig secret" e)
  | Ok false => mret (after (gkResync r), None)
  | Ok true =>
      e ← advancePhase resv ReservationPhaseKubeconfigReady "peering-user kubeconfig delivered";
      mret (finish no_requeue e)
  end.

Definition peerInstruction (resv : Reservation) : ReservationInstruction :=
  consumerInstruction resv (reservationInstructionPeerName (cr_Name resv))
    ReservationInstructionPeer false (pair_secret_name resv) (rt_ExpiresAt (cr_status resv)).

Definition handleKubeconfigReady (resv : Reservation) : prog Outcome :=
  e ← ensureInstruction resv (peerInstruction resv);
  match e with
  | Some e => mret (fails "ensure Peer instruction" e)
  | None =>
      e ← advancePhase resv ReservationPhasePeering "queued Peer instruction for consumer";
      mret (finish no_requeue e)
  end.

Definition handleUnpeering (resv : Reservation) : prog Outcome :=
  l ← hasOtherHoldingReservation resv;
  match l with
  | Fail e => mret (fails "check sibling reservations" e)
  | Ok last =>
      e ← ensureInstruction resv
            (consumerInstruction resv (reservationInstructionUnpeerName (cr_Name resv))
               ReservationInstructionUnpeer (negb last) "" None);
      match e with
      | Some e => mret (fails "ensure Unpeer instruction" e)
      | None => mret (no_requeue, None)
      end
  end.

(** Tearing down the credential shared by the pair. *)
Definition teardownCredential (r : ReservationReconciler) (resv : Reservation) (gcRequeue : Duration) :
  prog Outcome :=
  x ← kubeconfigSecretExists resv;
  match x with
  | Fail e => mret (fails "check kubeconfig secret" e)
  | Ok false => mret (after gcRequeue, None)
  | Ok true =>
      e ← ensureConsumerCleanupShared resv;
      match e with
      | Some e => mret (fails "ensure consumer Cleanup" e)
      | None =>
          o ← hasOtherActiveReservation resv;
          match o with
          | Fail e => mret (fails "check sibling reservations" e)
          | Ok true => mret (after (gkResync r), None)
          | Ok false =>
              e ← ensureProviderCleanupInstruction resv;
              match e with
              | Some e => mret (fails "ensure ProviderInstruction Cleanup" e)
              | None =>
                  e ← deleteKubeconfigSecret resv;
                  match e with
                  | Some e => mret (fails "delete staging kubeconfig secret" e)
                  | None => mret (after gcRequeue, None)
                  end
              end
          end
      end
  end.

(** The rest of [handleTerminal], [terminatedAt] being set. *)
Definition collectTerminal (r : ReservationReconciler) (resv : Reservation) (terminatedAt : Time)
    (justStamped : bool) : prog Outcome :=
  let ttl := terminalTTL r in
  gc ← (if justStamped then mret false else t ← now; mret (ttl <=? t - terminatedAt));
  if (gc : bool) then
    x ← delete_cr resv;
    mret match x with
         | Ok _ => (no_requeue, None)
         | Fail e => (no_requeue, IgnoreNotFound e)
         end
  else
    t ← now;
    let gcRequeue := Z.max (ttl - (t - terminatedAt)) (gkResync r) in
    e ← (if IsChunksReleased resv then mret None else releaseChunks resv);
    match e with
    | Some e => mret (fails "release chunks" e)
    | None => teardownCredential r resv gcRequeue
    end.

Definition handleTerminal (r : ReservationReconciler) (resv : Reservation) : prog Outcome :=
  match rt_TerminatedAt (cr_status resv) with
  | Some t => collectTerminal r resv t false
  | None =>
      t ← now;
      x ← status_update (cr_set_status (rt_set_terminated (Some t) (cr_status resv)) resv);
      match x with
      | Fail e => mret (fails "stamp terminatedAt" e)
      | Ok resv => collectTerminal r resv (default t (rt_TerminatedAt (cr_status resv))) true
      end
  end.

Fixpoint finalizer_loop (attempts : nat) (ns name : string) : prog Outcome :=
  match attempts with
  | O => mret (no_requeue, Some (errors_New "exhausted conflict retries removing finalizer"))
  | Datatypes.S attempts' =>
      x ← get (S:=ReservationSpec) (T:=ReservationStatus) ns name;
      match x with
      | Fail e => mret (no_requeue, IgnoreNotFound e)
      | Ok fresh =>
          let '(fresh, changed) := RemoveFinalizer fresh ReservationFinalizer in
          if (changed : bool) then
            y ← update fresh;
            match y with
            | Ok _ => mret (no_requeue, None)
            | Fail e => if IsConflict e then finalizer_loop attempts' ns name
                        else mret (fails "remove finalizer" e)
            end
          else mret (no_requeue, None)
      end
  end.

Definition handleDeletion (resv : Reservation) : prog Outcome :=
  if ContainsFinalizer resv ReservationFinalizer then
    e ← (if IsChunksReleased resv then mret None else releaseChunks resv);
    match e with
    | Some e => mret (fails "release chunks on delete" e)
    | None =>
        e ← ensureConsumerCleanupShared resv;
        match e with
        | Some e => mret (fails "ensure consumer cleanup on delete" e)
        | None => finalizer_loop 3 (cr_Namespace resv) (cr_Name resv)
        end
    end
  else mret (no_requeue, None).

(** ** Reconcile *)
Definition dispatch (r : ReservationReconciler) (resv : Reservation) : prog Outcome :=
  match rt_Phase (cr_status resv) with
  | PhaseEmpty | ReservationPhasePending => handlePending resv
  | ReservationPhaseGeneratingKubeconfig => handleGeneratingKubeconfig r resv
  | ReservationPhaseKubeconfigReady => handleKubeconfigReady resv
  | ReservationPhaseUnpeering => handleUnpeering resv
  | ReservationPhaseReleased | ReservationPhaseFailed | ReservationPhaseExpired => handleTerminal r resv
  | ReservationPhasePeering | ReservationPhasePeered => mret (no_requeue, None)
  end.

(** The guards and the dispatch of a live Reservation. *)
Definition reconcileLive (r : ReservationReconciler) (resv : Reservation) : prog Outcome :=
  x ← ensureExpiry r resv;
  match x.2 with
  | Some e => mret (fails "backfill reservation expiry" e)
  | None =>
      let resv := x.1 in
      c ← checkExpired resv;
      if (c.1 : bool) then mret (after c.2, None)
      else
        a ← checkProviderAvailable resv;
        match a with
        | (true, e) => mret (no_requeue, e)
        | (false, Some e) => mret (no_requeue, Some e)
        | (false, None) => dispatch r resv
        end
  end.

Definition Reconcile (r : ReservationReconciler) (ns name : string) : prog Outcome :=
  x ← get (S:=ReservationSpec) (T:=ReservationStatus) ns name;
  match x with
  | Fail e => mret (no_requeue, IgnoreNotFound e)
  | Ok resv =>
      match m_DeletionTimestamp (cr_meta resv) with
      | Some _ => handleDeletion resv
      | None =>
          let '(resv, changed) := AddFinalizer resv ReservationFinalizer in
          if (changed : bool) then
            u ← update resv;
            match u with
            | Fail e => mret (fails "add finalizer" e)
            | Ok resv => reconcileLive r resv
            end
          else reconcileLive r resv
      end
  end.

(** ** Wake-ups on an advertisement change *)
Definition requestsForAdvertisement (cadv : ClusterAdvertisement) : prog (list (string * string)) :=
  x ← list_in (S:=ReservationSpec) (T:=ReservationStatus) (cr_Namespace cadv);
  mret match x with
       | Fail _ => []
       | Ok items =>
           (λ r, (cr_Namespace r, cr_Name r)) <$>
             filter (λ r, rs_ProviderClusterID (cr_spec r) = cr_Name cadv ∧
                          isReservationTerminal (rt_Phase (cr_status r)) = false) items
       end.
End ReservationController.
