(* ===== verification/ResourceRequestController.v ===== *)
(** * ResourceRequest reconciler
    (internal/controller/autoscaling/resourcerequest_controller.go)

    A user of a consumer cluster asks for capacity by hand with a
    ResourceRequest.  This reconciler sizes it, reserves it through the consumer
    agent's loopback API (the path Cluster Autoscaler takes), keeps the borrowed
    node out of scale-down, moves the reservation to a better provider and
    releases it on deletion.  Its outside calls are the agent's ([agent_call]);
    an [rr] the source mutates and then writes is the object passed on. *)
From stdpp Require Import base gmap strings list.
From Stdlib Require Import ZArith Lia.
From S2P Require Import Prelude ApiTypes ConsumerTypes Kube Effects Chunk Wire AgentClient Catalog.
From S2P Require Import Registry Placement ReservationApi AdvertisementApi Brain LocalApi.
From S2P Require Import GrpcServer ReservationController.
Import GoFloat.

Open Scope Z_scope.

Definition resourceRequestFinalizer : string :=
  "autoscaling.federation-autoscaler.io/release-reservation".
Definition pendingRequeue : Duration := 15 * Second.
Definition failedRequeue : Duration := 30 * Second.
Definition holdRequeue : Duration := 60 * Second.
Definition scaleDownDisabledAnnotation : string :=
  "cluster-autoscaler.kubernetes.io/scale-down-disabled".
Definition scaleDownDisabledValue : string := "true".
Definition virtualNodeReservationLabel : string := "federation-autoscaler.io/reservation".

(** The reconciler's fields.  [rrr_bounded]: the client implements
    [boundedNodeGroups]. *)
Record ResourceRequestReconciler := mkRRReconciler {
  rrr_hasAgent : bool;
  rrr_bounded : bool;
  rrr_ReEvalInterval : Duration
}.

Section ResourceRequestController.
Context `{Platform} `{GoRuntime}.

Abbreviation grpc := (eff agent_call agent_answer).

(** An agent call's error as the error a reconcile returns. *)
Definition agent_failure (e : CallError) : Err := errors_New (ce_text e).

Definition result_err {A} (x : Res A) : option Err :=
  match x with Ok _ => None | Fail e => Some e end.

Definition nodeGroupsFor (r : ResourceRequestReconciler) (rr : ResourceRequest) :
    grpc (NodeGroupListResponse + CallError) :=
  agent_ask (AgentNodeGroups (if rrr_bounded r then rrs_LatencyBound (cr_spec rr) else None)).

(** ** Sizing *)
Definition gpuRequested (req : ResourceList) : bool :=
  match req !! gpuResourceName with Some q => 0 <? q_MilliValue q | None => false end.

(** The loop of [chunksFor] over the keys it visits; [None] is the early
    return. *)
Fixpoint chunks_loop (req chunk : ResourceList) (names : list string) (n : Z) : option Z :=
  match names with
  | [] => Some n
  | name :: names =>
      let rv := q_MilliValue (rl_get req name) in
      if rv <=? 0 then chunks_loop req chunk names n
      else
        let cv := q_MilliValue (rl_get chunk name) in
        if bool_decide (chunk !! name = None) || (cv <=? 0) then None
        else
          let need := Z.quot (GoInt.to_int64 (rv + cv - 1)) cv in
          chunks_loop req chunk names (if n <? need then need else n)
  end.

Definition chunksFor (req chunk : ResourceList) : Z :=
  match chunks_loop req chunk (range_keys 0 (map_to_list req).*1) 0 with
  | None => 0
  | Some n => if n <? 1 then 0 else GoInt.to_int32 n
  end.

(** One round of [pickProviderAndSize]: the best group so far, its count and its
    head-room. *)
Definition pick_step (wantGPU : bool) (req : ResourceList)
    (best : option (NodeGroupView * Z * Z)) (g : NodeGroupView) : option (NodeGroupView * Z * Z) :=
  if negb (Bool.eqb wantGPU (bool_decide (ng_Type g = ChunkTypeGPU))) then best
  else
    let avail := GoInt.sub32 (ng_MaxSize g) (ng_CurrentReserved g) in
    if avail <=? 0 then best
    else
      let count := chunksFor req (ng_ChunkResources g) in
      if (count <=? 0) || (avail <? count) then best
      else match best with
           | None => Some (g, count, avail)
           | Some (_, _, bestAvail) => if bestAvail <? avail then Some (g, count, avail) else best
           end.

Definition pickProviderAndSize (groups : list NodeGroupView) (req : ResourceList) :
    option (NodeGroupView * Z) :=
  fst <$> foldl (pick_step (gpuRequested req) req) None groups.

(** The message for a request that needs several chunks. *)
Definition multiChunkUnsupported (count : Z) : option string :=
  if count <=? 1 then None
  else Some ("request needs " +:+ GoStr.fmt_d count +:+
             " chunks; a manual reservation currently covers exactly one chunk — " +:+
             "lower spec.resources to fit one chunk, or create " +:+ GoStr.fmt_d count +:+
             " separate ResourceRequests").

Definition manual_request (group : NodeGroupView) (count : Z) : ReservationRequest :=
  mkResvReq (ng_ProviderClusterID group) (ng_ID group) count (ng_Type group) [].

(** ** Status writes *)
Definition non_empty (new old : string) : string := if decide (new = "") then old else new.

Definition writePhase (rr : ResourceRequest) (phase : ResourceRequestPhase)
    (msg resID provider : string) (count : Z) : prog (option Err) :=
  let st := cr_status rr in
  let changed :=
    bool_decide (rrt_Phase st ≠ phase) || bool_decide (rrt_Message st ≠ msg) ||
    bool_decide (resID ≠ "" ∧ rrt_ReservationID st ≠ resID) ||
    bool_decide (provider ≠ "" ∧ rrt_ProviderClusterID st ≠ provider) ||
    bool_decide (count ≠ 0 ∧ rrt_ChunkCount st ≠ count) in
  if negb changed then mret None
  else
    lt ← (if decide (rrt_Phase st = phase) then mret (rrt_LastTransitionTime st)
          else t ← now; mret (Some t));
    x ← status_update (cr_set_status
          (mkRRStatus phase (non_empty resID (rrt_ReservationID st))
             (non_empty provider (rrt_ProviderClusterID st))
             (if count =? 0 then rrt_ChunkCount st else count)
             (rrt_MigrationCount st) msg lt) rr);
    mret (result_err x).

(** The setters share this tail: requeue unless the write failed. *)
Definition then_requeue (d : Duration) (e : option Err) : Outcome :=
  match e with Some err => (no_requeue, Some err) | None => (after d, None) end.

Definition setPending (rr : ResourceRequest) (msg : string) : prog Outcome :=
  e ← writePhase rr ResourceRequestPending msg "" "" 0; mret (then_requeue pendingRequeue e).

Definition setFailed (rr : ResourceRequest) (msg : string) : prog Outcome :=
  e ← writePhase rr ResourceRequestFailed msg "" "" 0; mret (then_requeue failedRequeue e).

Definition setReserved (rr : ResourceRequest) (resID provider : string) (count : Z) : prog Outcome :=
  e ← writePhase rr ResourceRequestReserved
        ("reserved " +:+ GoStr.fmt_d count +:+ " chunk(s) on " +:+ provider) resID provider count;
  mret (then_requeue pendingRequeue e).

Definition setMigrating (rr : ResourceRequest) (newID msg : string) : prog (option Err) :=
  t ← now;
  let st := cr_status rr in
  x ← status_update (cr_set_status
        (mkRRStatus ResourceRequestMigrating newID (rrt_ProviderClusterID st) (rrt_ChunkCount st)
           (GoInt.add32 (rrt_MigrationCount st) 1) msg (Some t)) rr);
  mret (result_err x).

(** ** Re-evaluation and migration *)
Definition isStableMetricPolicy (p : PlacementStrategy) : bool :=
  bool_decide (p ∈ [PlacementStrategyPrice; PlacementStrategyEco; PlacementStrategyLatency]).

Definition migrationMetricMargin : float64 := flit 1 1000000.

Definition metricStrictlyBetter (candidate current : float64) : bool :=
  flt candidate (fsub current (fmul current migrationMetricMargin)).

Definition findProviderView (groups : list NodeGroupView) (providerID : string) (t : ChunkType) :
    option NodeGroupView :=
  snd <$> list_find (λ g, ng_ProviderClusterID g = providerID ∧ ng_Type g = t) groups.

Definition nextReservationID (rr : ResourceRequest) : string :=
  "mr-" +:+ m_UID (cr_meta rr) +:+ "-m" +:+
  GoStr.fmt_d (GoInt.add32 (rrt_MigrationCount (cr_status rr)) 1).

(** Is [group] a better home than the reservation's current provider? *)
Definition better_home (groups : list NodeGroupView) (provider : string) (group : NodeGroupView) : bool :=
  match findProviderView groups provider (ng_Type group) with
  | None => true
  | Some cur => ng_HasMetric cur && ng_HasMetric group &&
                metricStrictlyBetter (ng_PlacementMetric group) (ng_PlacementMetric cur)
  end.

(** [maybeStartMigration]: [None] is "no change, keep holding"; the source's
    error returns, which stop the caller too, are outcomes. *)
Definition maybeStartMigration (r : ResourceRequestReconciler) (rr : ResourceRequest) :
    grpc (option Outcome) :=
  if rrr_ReEvalInterval r <=? 0 then mret None
  else
    due ← (match rrt_LastTransitionTime (cr_status rr) with
           | None => mret true
           | Some lt => t ← api now; mret (negb (t - lt <? rrr_ReEvalInterval r))
           end);
    if negb due then mret None
    else
      x ← nodeGroupsFor r rr;
      match (x : NodeGroupListResponse + CallError) with
      | inr _ => mret None
      | inl resp =>
          if negb (isStableMetricPolicy (nl_AppliedPlacement resp)) then mret None
          else
            match pickProviderAndSize (nl_NodeGroups resp) (rrs_Resources (cr_spec rr)) with
            | None => mret None
            | Some (group, _) =>
                let cur := rrt_ProviderClusterID (cr_status rr) in
                if decide (ng_ProviderClusterID group = cur) then mret None
                else if negb (better_home (nl_NodeGroups resp) cur group) then mret None
                else
                  d ← agent_ask (AgentDeleteReservation (rrt_ReservationID (cr_status rr)));
                  let gone := match (d : ReleaseResponse + CallError) with
                              | inl _ => None
                              | inr e => if IsMissing e then None else Some e
                              end in
                  match gone with
                  | Some e => mret (Some (no_requeue, Some (agent_failure e)))
                  | None =>
                      e ← api (setMigrating rr (nextReservationID rr)
                                 ("migrating from " +:+ cur +:+ " to " +:+ ng_ProviderClusterID group));
                      mret (Some (then_requeue pendingRequeue e))
                  end
            end
      end.

Definition completeMigration (r : ResourceRequestReconciler) (rr : ResourceRequest) : grpc Outcome :=
  x ← nodeGroupsFor r rr;
  match (x : NodeGroupListResponse + CallError) with
  | inr _ => mret (after pendingRequeue, None)
  | inl resp =>
      match pickProviderAndSize (nl_NodeGroups resp) (rrs_Resources (cr_spec rr)) with
      | None =>
          e ← api (writePhase rr ResourceRequestMigrating
                     "migrating — waiting for a provider with capacity" "" "" 0);
          mret (then_requeue pendingRequeue e)
      | Some (group, count) =>
          match multiChunkUnsupported count with
          | Some msg =>
              e ← api (writePhase rr ResourceRequestMigrating ("migrating — " +:+ msg) "" "" 0);
              mret (then_requeue pendingRequeue e)
          | None =>
              p ← agent_ask (AgentPostReservation (rrt_ReservationID (cr_status rr))
                               (manual_request group count));
              match (p : ReservationResponse + CallError) with
              | inr e => api (setFailed rr ("migration reservation failed: " +:+ ce_text e))
              | inl _ => api (setReserved rr (rrt_ReservationID (cr_status rr))
                                (ng_ProviderClusterID group) count)
              end
          end
      end
  end.

(** ** Holding *)
Definition disableScaleDown (name : string) : prog (Res bool) :=
  x ← get (S:=NodeSpec) (T:=NodeStatus) "" name;
  match x with
  | Fail e => mret (if IsNotFound e then Ok false else Fail e)
  | Ok node =>
      if decide (m_Annotations (cr_meta node) !! scaleDownDisabledAnnotation =
                 Some scaleDownDisabledValue) then mret (Ok true)
      else
        y ← annotate node scaleDownDisabledAnnotation scaleDownDisabledValue;
        mret match y with Ok _ => Ok true | Fail e => Fail e end
  end.

(** The loop over the listed VirtualNodeStates. *)
Fixpoint protect_loop (items : list VirtualNodeState) (protected : Z) : prog (Res Z) :=
  match items with
  | [] => mret (Ok protected)
  | vns :: items =>
      let nodeName := vt_VirtualNodeName (cr_status vns) in
      if decide (nodeName = "") then protect_loop items protected
      else
        x ← disableScaleDown nodeName;
        match (x : Res bool) with
        | Fail e => mret (Fail e)
        | Ok ok => protect_loop items (if ok then protected + 1 else protected)
        end
  end.

Definition protectReservationNodes (reservationID : string) : prog (Res Z) :=
  x ← list_all (S:=VirtualNodeStateSpec) (T:=VirtualNodeStateStatus);
  match x with
  | Fail e => mret (Fail e)
  | Ok items =>
      protect_loop (filter (λ v, m_Labels (cr_meta v) !! virtualNodeReservationLabel =
                                 Some reservationID) items) 0
  end.

Definition holdReservation (rr : ResourceRequest) : prog Outcome :=
  let provider := rrt_ProviderClusterID (cr_status rr) in
  x ← protectReservationNodes (rrt_ReservationID (cr_status rr));
  match (x : Res Z) with
  | Fail e => mret (no_requeue, Some e)
  | Ok protected =>
      if protected =? 0 then
        e ← writePhase rr ResourceRequestReserved
              ("reserved on " +:+ provider +:+ "; waiting for the virtual node") "" "" 0;
        mret (then_requeue pendingRequeue e)
      else
        e ← writePhase rr ResourceRequestActive
              ("held on " +:+ provider +:+ " — " +:+ GoStr.fmt_d protected +:+
               " node(s) protected from autoscaler scale-down") "" "" 0;
        mret (then_requeue holdRequeue e)
  end.

(** ** Reconcile, its deletion branch and its first reservation *)
Definition rr_finalize (rr : ResourceRequest) : grpc Outcome :=
  if negb (ContainsFinalizer rr resourceRequestFinalizer) then mret (no_requeue, None)
  else
    let id := rrt_ReservationID (cr_status rr) in
    stuck ← (if decide (id = "") then mret None
             else
               d ← agent_ask (AgentDeleteReservation id);
               mret match (d : ReleaseResponse + CallError) with
                    | inl _ => None
                    | inr e => if IsMissing e then None else Some e
                    end);
    match (stuck : option CallError) with
    | Some e => mret (no_requeue, Some (agent_failure e))
    | None =>
        x ← api (update (RemoveFinalizer rr resourceRequestFinalizer).1);
        mret (no_requeue, result_err x)
    end.

Definition rr_reserve (r : ResourceRequestReconciler) (rr : ResourceRequest) : grpc Outcome :=
  let reservationID := "mr-" +:+ m_UID (cr_meta rr) in
  x ← nodeGroupsFor r rr;
  match (x : NodeGroupListResponse + CallError) with
  | inr err => api (setPending rr ("broker node groups unavailable: " +:+ ce_text err))
  | inl resp =>
      match pickProviderAndSize (nl_NodeGroups resp) (rrs_Resources (cr_spec rr)) with
      | None => api (setPending rr "no provider with enough free capacity yet")
      | Some (group, count) =>
          match multiChunkUnsupported count with
          | Some msg => api (setPending rr msg)
          | None =>
              p ← agent_ask (AgentPostReservation reservationID (manual_request group count));
              match (p : ReservationResponse + CallError) with
              | inr e => api (setFailed rr ("reservation failed: " +:+ ce_text e))
              | inl _ => api (setReserved rr reservationID (ng_ProviderClusterID group) count)
              end
          end
      end
  end.

Definition Reconcile_ResourceRequest (r : ResourceRequestReconciler) (ns name : string) :
    grpc Outcome :=
  x ← api (get (S:=ResourceRequestSpec) (T:=ResourceRequestStatus) ns name);
  match (x : Res ResourceRequest) with
  | Fail e => mret (no_requeue, IgnoreNotFound e)
  | Ok rr =>
      if negb (rrr_hasAgent r) then
        mret (no_requeue, Some (errors_New "resourcerequest: agent client not configured"))
      else
        match m_DeletionTimestamp (cr_meta rr) with
        | Some _ => rr_finalize rr
        | None =>
            if negb (ContainsFinalizer rr resourceRequestFinalizer) then
              y ← api (update (AddFinalizer rr resourceRequestFinalizer).1);
              mret match (y : Res ResourceRequest) with
                   | Fail e => (no_requeue, Some e)
                   | Ok _ => (mkCtrl true 0, None)
                   end
            else if decide (rrt_ReservationID (cr_status rr) = "") then rr_reserve r rr
            else if decide (rrt_Phase (cr_status rr) = ResourceRequestMigrating) then
              completeMigration r rr
            else
              mig ← maybeStartMigration r rr;
              match (mig : option Outcome) with
              | Some res => mret res
              | None => api (holdReservation rr)
              end
        end
  end.
End ResourceRequestController.
