(* ===== verification/VirtualNodeStateController.v ===== *)
(** * VirtualNodeState reconciler
    (internal/controller/autoscaling/virtualnodestate_controller.go)

    Projects the consumer-side node that Liqo materialises for a borrowed chunk
    onto the VirtualNodeState the agent keeps for it; the status is what the
    Cluster Autoscaler is told about the chunk. *)
From stdpp Require Import base gmap strings list.
From Stdlib Require Import ZArith Lia.
From S2P Require Import Prelude ApiTypes ConsumerTypes Kube ReservationController.

Open Scope Z_scope.

Definition DefaultVirtualNodeStateRequeue : Duration := 30 * Second.

Record VirtualNodeStateReconciler := mkVNSReconciler { vnr_RequeueAfter : Duration }.

Definition vns_requeueAfter (r : VirtualNodeStateReconciler) : Duration :=
  if 0 <? vnr_RequeueAfter r then vnr_RequeueAfter r else DefaultVirtualNodeStateRequeue.

Definition readyReason (phase : VirtualNodeStatePhase) : string :=
  if decide (phase = VirtualNodeStatePhaseRunning) then "VirtualNodeReady" else "VirtualNodeNotReady".
Definition failedReason (phase : VirtualNodeStatePhase) : string :=
  if decide (phase = VirtualNodeStatePhaseFailed) then "VirtualNodeFailed" else "VirtualNodeNotFailed".

Section VirtualNodeStateController.
Context `{Platform}.

Definition nodeNameFor (vns : VirtualNodeState) : string :=
  if decide (vs_ResourceSliceName (cr_spec vns) = "") then vs_ProviderLiqoClusterID (cr_spec vns)
  else vs_ResourceSliceName (cr_spec vns).

(** The first Ready condition decides. *)
Definition nodeReady (node : Node) : bool :=
  match list_find (λ c, nc_Type c = NodeReady) (no_Conditions (cr_status node)) with
  | Some (_, c) => bool_decide (nc_Status c = ConditionTrue)
  | None => false
  end.

(** ** Status *)

(** [applyPhase]; the fields that follow it in every caller are arguments. *)
Definition applyPhase (st : VirtualNodeStateStatus) (phase : VirtualNodeStatePhase) (message : string) :
    prog VirtualNodeStateStatus :=
  lt ← (if decide (vt_Phase st = phase) then mret (vt_LastTransitionTime st)
        else t ← now; mret (Some t));
  mret (mkVNSStatus (vt_ObservedGeneration st) phase (vt_VirtualNodeName st) (vt_ProviderID st)
          (vt_ResourceSliceName st) (vt_Allocatable st) lt message (vt_Conditions st)).

(** The fields the projection overwrites. *)
Definition with_node (name providerID : string) (allocatable : ResourceList)
    (st : VirtualNodeStateStatus) : VirtualNodeStateStatus :=
  mkVNSStatus (vt_ObservedGeneration st) (vt_Phase st) name providerID (vt_ResourceSliceName st)
    allocatable (vt_LastTransitionTime st) (vt_Message st) (vt_Conditions st).

(** [setCondition]: updates the first condition of the type, or appends one. *)
Definition setCondition (conds : list Condition) (condType : string) (ok : bool)
    (reason msg : string) : prog (list Condition) :=
  let cs := if ok then ConditionTrue else ConditionFalse in
  match list_find (λ c, cond_Type c = condType) conds with
  | Some (i, c) =>
      lt ← (if decide (cond_Status c = cs) then mret (cond_LastTransitionTime c) else now);
      mret (<[i := mkCondition (cond_Type c) cs reason msg lt]> conds)
  | None => t ← now; mret (conds ++ [mkCondition condType cs reason msg t])
  end.

Definition with_conditions (conds : list Condition) (st : VirtualNodeStateStatus) :
    VirtualNodeStateStatus :=
  mkVNSStatus (vt_ObservedGeneration st) (vt_Phase st) (vt_VirtualNodeName st) (vt_ProviderID st)
    (vt_ResourceSliceName st) (vt_Allocatable st) (vt_LastTransitionTime st) (vt_Message st) conds.

Definition updateConditions (st : VirtualNodeStateStatus) : prog VirtualNodeStateStatus :=
  c1 ← setCondition (vt_Conditions st) VirtualNodeStateConditionReady
         (bool_decide (vt_Phase st = VirtualNodeStatePhaseRunning))
         (readyReason (vt_Phase st)) (vt_Message st);
  c2 ← setCondition c1 VirtualNodeStateConditionFailed
         (bool_decide (vt_Phase st = VirtualNodeStatePhaseFailed))
         (failedReason (vt_Phase st)) (vt_Message st);
  mret (with_conditions c2 st).

Definition resourceListEqual (a b : ResourceList) : bool :=
  bool_decide (size a = size b) &&
  forallb (λ kv : string * Quantity,
             match b !! kv.1 with Some vb => q_Cmp kv.2 vb =? 0 | None => false end) (map_to_list a).

Definition conditionsEqual (a b : list Condition) : bool :=
  let idx : gmap string Condition := foldl (λ ix c, <[cond_Type c := c]> ix) ∅ a in
  bool_decide (length a = length b) &&
  forallb (λ c, match idx !! cond_Type c with
                | Some ac => bool_decide (cond_Status ac = cond_Status c) &&
                             bool_decide (cond_Reason ac = cond_Reason c) &&
                             bool_decide (cond_Message ac = cond_Message c)
                | None => false
                end) b.

Definition statusEqual (a b : VirtualNodeStateStatus) : bool :=
  bool_decide (vt_Phase a = vt_Phase b) &&
  bool_decide (vt_VirtualNodeName a = vt_VirtualNodeName b) &&
  bool_decide (vt_ProviderID a = vt_ProviderID b) &&
  bool_decide (vt_ObservedGeneration a = vt_ObservedGeneration b) &&
  bool_decide (vt_Message a = vt_Message b) &&
  resourceListEqual (vt_Allocatable a) (vt_Allocatable b) &&
  conditionsEqual (vt_Conditions a) (vt_Conditions b).

(** ** The projection *)
Definition projectFromNode (st : VirtualNodeStateStatus) (nodeName : string) :
    prog (Res VirtualNodeStateStatus) :=
  x ← get (S:=NodeSpec) (T:=NodeStatus) "" nodeName;
  match x with
  | Fail e =>
      if IsNotFound e then
        st ← applyPhase st VirtualNodeStatePhaseCreating
               ("waiting for Liqo to materialise node " +:+ nodeName);
        mret (Ok (with_node "" "" ∅ st))
      else mret (Fail (wrapf ("get v1.Node " +:+ GoStr.fmt_q nodeName) e))
  | Ok node =>
      match m_DeletionTimestamp (cr_meta node) with
      | Some _ =>
          st ← applyPhase st VirtualNodeStatePhaseDeleting "Liqo virtual node is terminating";
          mret (Ok (with_node nodeName "" ∅ st))
      | None =>
          if negb (nodeReady node) then
            st ← applyPhase st VirtualNodeStatePhaseCreating
                   "Liqo virtual node registered, not Ready yet";
            mret (Ok (with_node nodeName "" ∅ st))
          else
            st ← applyPhase st VirtualNodeStatePhaseRunning "Liqo virtual node is ready";
            mret (Ok (with_node nodeName (no_ProviderID (cr_spec node))
                        (no_Allocatable (cr_status node)) st))
      end
  end.

(** The status the round starts from: generation and slice name refreshed. *)
Definition vns_base (vns : VirtualNodeState) : VirtualNodeStateStatus :=
  let st := cr_status vns in
  mkVNSStatus (m_Generation (cr_meta vns)) (vt_Phase st) (vt_VirtualNodeName st) (vt_ProviderID st)
    (vs_ResourceSliceName (cr_spec vns)) (vt_Allocatable st) (vt_LastTransitionTime st)
    (vt_Message st) (vt_Conditions st).

Definition Reconcile_VirtualNodeState (r : VirtualNodeStateReconciler) (ns name : string) :
    prog Outcome :=
  x ← get (S:=VirtualNodeStateSpec) (T:=VirtualNodeStateStatus) ns name;
  match x with
  | Fail e => mret (no_requeue, IgnoreNotFound e)
  | Ok vns =>
      match m_DeletionTimestamp (cr_meta vns) with
      | Some _ => mret (no_requeue, None)
      | None =>
          let nodeName := nodeNameFor vns in
          p ← (if decide (nodeName = "") then
                 st ← applyPhase (vns_base vns) VirtualNodeStatePhaseCreating
                        "VirtualNodeState missing resourceSliceName and providerLiqoClusterId";
                 mret (Ok (with_node "" "" ∅ st))
               else projectFromNode (vns_base vns) nodeName);
          match (p : Res VirtualNodeStateStatus) with
          | Fail e => mret (no_requeue, Some e)
          | Ok st =>
              st ← updateConditions st;
              if statusEqual (cr_status vns) st then mret (after (vns_requeueAfter r), None)
              else
                y ← status_update (cr_set_status st vns);
                mret match y with
                     | Fail e => (no_requeue, Some (wrapf "update VirtualNodeState status" e))
                     | Ok _ => (after (vns_requeueAfter r), None)
                     end
          end
      end
  end.

(** [requestsForNode]: the VirtualNodeStates a node event wakes up. *)
Definition requestsForNode (nodeName : string) : prog (list (string * string)) :=
  x ← list_all (S:=VirtualNodeStateSpec) (T:=VirtualNodeStateStatus);
  mret match x with
       | Fail _ => []
       | Ok items => (λ v, (cr_Namespace v, cr_Name v)) <$> filter (λ v, nodeNameFor v = nodeName) items
       end.
End VirtualNodeStateController.
