(* ===== verification/Housekeeping.v ===== *)
(** * Housekeeping reconcilers
    (internal/controller/broker/clusteradvertisement_controller.go,
    internal/controller/autoscaling/instruction.go,
    providerinstruction_controller.go, reservationinstruction_controller.go)

    Freshness of advertisements, and the life cycle of instructions: stamping,
    expiry and garbage collection.  The two instruction reconcilers are the same
    code for two types, modelled once over [InstructionSpec]. *)
From stdpp Require Import base gmap strings list.
From Stdlib Require Import ZArith Lia.
From S2P Require Import Prelude ApiTypes Kube ReservationController.

Open Scope Z_scope.

Definition DefaultAdvertisementStaleAfter : Duration := 90 * Second.
Definition DefaultEnforcedTTL : Duration := 5 * Minute.

(** [r.staleAfter()] and [r.ttl()] resolve a configured duration. *)
Definition staleAfter (configured : Duration) : Duration :=
  if 0 <? configured then configured else DefaultAdvertisementStaleAfter.
Definition enforcedTTL (configured : Duration) : Duration :=
  if 0 <? configured then configured else DefaultEnforcedTTL.

(** [isAdvertisementStale] evaluated at time [t]. *)
Definition isAdvertisementStale (lastSeen : option Time) (ttl : Duration) (t : Time) : bool :=
  match lastSeen with
  | None => true
  | Some l => ttl <? t - l
  end.

(** [instructionWakeup]; [None] is the zero time. *)
Definition instructionWakeup (t : Time) (expiresAt : option Time) (enforced : bool)
    (lastUpdateTime : option Time) (ttl : Duration) : Duration :=
  let wake := match enforced, lastUpdateTime with
              | true, Some l => Some (l + ttl)
              | _, _ => None
              end in
  let wake := match enforced, expiresAt with
              | false, Some e =>
                  match wake with
                  | None => Some e
                  | Some w => if e <? w then Some e else Some w
                  end
              | _, _ => wake
              end in
  match wake with
  | None => 0
  | Some w => if w <=? t then 0 else w - t
  end.

(** [enforcedExpired] at time [t]. *)
Definition enforcedExpired (lastUpdateTime : option Time) (ttl : Duration) (t : Time) : bool :=
  match lastUpdateTime with
  | None => false
  | Some l => ttl <=? t - l
  end.

(** What the instruction reconciler reads of a spec. *)
Class InstructionSpec (S : Type) := {
  in_ReservationID : S → string;
  in_ExpiresAt : S → option Time
}.

Section Housekeeping.
Context `{Platform}.

#[global] Instance pi_instruction : InstructionSpec ProviderInstructionSpec :=
  {| in_ReservationID := pi_ReservationID; in_ExpiresAt := pi_ExpiresAt |}.
#[global] Instance ri_instruction : InstructionSpec ReservationInstructionSpec :=
  {| in_ReservationID := ri_ReservationID; in_ExpiresAt := ri_ExpiresAt |}.

(** The status the advertisement reconciler wants. *)
Definition freshened (cadv : ClusterAdvertisement) (stale : bool) : ClusterAdvertisement :=
  let st := cr_status cadv in
  cr_set_status
    (mkCadvStatus (m_Generation (cr_meta cadv)) (ca_LastSeen st) (negb stale) (ca_TotalChunks st)
       (ca_ReservedChunks st) (if stale then 0 else ca_AvailableChunks st) (ca_Conditions st)) cadv.

(** [ClusterAdvertisementReconciler.Reconcile]. *)
Definition reconcileAdvertisement (staleAfterCfg : Duration) (ns name : string) : prog Outcome :=
  x ← get (S:=ClusterAdvertisementSpec) (T:=ClusterAdvertisementStatus) ns name;
  match x with
  | Fail e => mret (no_requeue, IgnoreNotFound e)
  | Ok cadv =>
      let st := cr_status cadv in
      let ttl := staleAfter staleAfterCfg in
      stale ← match ca_LastSeen st with
              | None => mret true
              | Some _ => t ← now; mret (isAdvertisementStale (ca_LastSeen st) ttl t)
              end;
      let patched := freshened cadv stale in
      let needUpdate :=
        negb (Bool.eqb (ca_Available (cr_status patched)) (ca_Available st)) ||
        negb (ca_ObservedGeneration (cr_status patched) =? ca_ObservedGeneration st) ||
        (stale && negb (ca_AvailableChunks st =? 0)) in
      e ← (if needUpdate then
             y ← status_update patched;
             mret match y with Ok _ => None | Fail e => Some e end
           else mret None);
      mret match e with
           | Some e => (no_requeue, Some e)
           | None => (after (Z.quot ttl 3), None)
           end
  end.

Definition failParentReservationOnExpiry (ns reservationID instructionName : string) :
  prog (option Err) :=
  if decide (reservationID = "") then mret None
  else
    x ← get (S:=ReservationSpec) (T:=ReservationStatus) ns reservationID;
    match x with
    | Fail e => mret (IgnoreNotFound e)
    | Ok resv =>
        if isReservationTerminal (rt_Phase (cr_status resv)) then mret None
        else
          y ← status_update (cr_set_status
                (rt_set_observed (m_Generation (cr_meta resv))
                   (rt_set_message ("instruction " +:+ GoStr.fmt_q instructionName +:+
                                    " expired before enforcement")
                      (rt_set_phase ReservationPhaseFailed (cr_status resv)))) resv);
          mret match y with Ok _ => None | Fail e => Some e end
    end.

(** The body the two instruction reconcilers share word for word. *)
Definition reconcileInstruction {S} `{!Resource S InstructionStatus} `{!InstructionSpec S}
    (ttlCfg : Duration) (ns name : string) : prog Outcome :=
  x ← get (S:=S) (T:=InstructionStatus) ns name;
  match x with
  | Fail e => mret (no_requeue, IgnoreNotFound e)
  | Ok o =>
      let st := cr_status o in
      let ttl := enforcedTTL ttlCfg in
      let collect :=
        d ← delete_cr o;
        mret (no_requeue, match d with Ok _ => None | Fail e => IgnoreNotFound e end) in
      let schedule :=
        t ← now;
        let wake := instructionWakeup t (in_ExpiresAt (cr_spec o)) (is_Enforced st)
                      (is_LastUpdateTime st) ttl in
        mret (if wake =? 0 then (no_requeue, None) else (after wake, None)) in
      match is_IssuedAt st with
      | None =>
          t ← now;
          y ← status_update (cr_set_status
                (is_set_issued (Some t) (m_Generation (cr_meta o)) st) o);
          mret match y with Ok _ => (mkCtrl true 0, None) | Fail e => (no_requeue, Some e) end
      | Some _ =>
          if is_Enforced st then
            gc ← match is_LastUpdateTime st with
                 | None => mret false
                 | Some _ => t ← now; mret (enforcedExpired (is_LastUpdateTime st) ttl t)
                 end;
            if (gc : bool) then collect else schedule
          else
            match in_ExpiresAt (cr_spec o) with
            | None => schedule
            | Some exp =>
                t ← now;
                if t <? exp then schedule
                else
                  e ← failParentReservationOnExpiry (cr_Namespace o)
                        (in_ReservationID (cr_spec o)) (cr_Name o);
                  match e with
                  | Some e => mret (no_requeue, Some e)
                  | None => collect
                  end
            end
      end
  end.

(** [ReservationInstructionReconciler.Reconcile]: the same bookkeeping on the
    consumer-side instructions. *)
Definition reconcileReservationInstruction (ttlCfg : Duration) (ns name : string) : prog Outcome :=
  reconcileInstruction (S:=ReservationInstructionSpec) ttlCfg ns name.

(** [ProviderInstructionReconciler.Reconcile]: on the provider-side ones. *)
Definition reconcileProviderInstruction (ttlCfg : Duration) (ns name : string) : prog Outcome :=
  reconcileInstruction (S:=ProviderInstructionSpec) ttlCfg ns name.
End Housekeeping.
