(* ===== verification/BrokerInvariant.v ===== *)
(** * The Broker's invariant and transitions

    What every handler and reconciler of the Broker keeps, run concurrently
    with any number of others over stale caches and failing requests: the chunk
    counters of every ClusterAdvertisement stay consistent and [reservedChunks]
    is never raised above [totalChunks]; a Reservation's spec is immutable, its
    release marker is never taken back and its phase moves only along the edges
    of [phase_move]; every object satisfies the schema its custom resource
    definition declares ([schema]).  [Rely] is what a program may assume of the
    others, [Guar] what each of its own requests establishes. *)
From stdpp Require Import base gmap strings list.
From Stdlib Require Import ZArith Lia.
From S2P Require Import Prelude ApiTypes Chunk Wire Kube Registry Placement ReservationApi.
From S2P Require Import InstructionsApi AdvertisementApi ReservationController Housekeeping.

Open Scope Z_scope.

(** Whether the callers are those the front end lets through: authenticated, and
    registered by a heartbeat that was validated.  The schema is kept only for
    such callers; the counters and transitions whoever calls. *)
Class Discipline := strict : Prop.

Section BrokerInvariant.
Context `{Platform} {caller : Discipline}.

(** ** The invariant *)
Definition counter (z : Z) : Prop := 0 ≤ z ≤ GoInt.int32_max.

Definition cadv_ok (st : ClusterAdvertisementStatus) : Prop :=
  counter (ca_TotalChunks st) ∧ counter (ca_ReservedChunks st) ∧
  0 ≤ ca_AvailableChunks st ≤ Z.max 0 (ca_TotalChunks st - ca_ReservedChunks st).

Definition obj_ok (o : Obj) : Prop :=
  match o with
  | OCadv c => cadv_ok (cr_status c)
  | OResv r => 1 ≤ rs_ChunkCount (cr_spec r) ≤ GoInt.int32_max
  | _ => True
  end.

(** Every version ever stored is consistent. *)
Definition valid (m : store) : Prop := ∀ o, o ∈ hist m → obj_ok o.

(** The validation markers of the custom resource definitions on the specs the
    Broker writes, and the name every stored object has. *)
Definition known_type (t : ChunkType) : Prop := t = ChunkTypeStandard ∨ t = ChunkTypeGPU.

Definition cadv_schema (sp : ClusterAdvertisementSpec) : Prop :=
  cs_ClusterID sp ≠ "" ∧ cs_LiqoClusterID sp ≠ "" ∧ known_type (cs_ClusterType sp).

Definition resv_schema (sp : ReservationSpec) : Prop :=
  rs_ConsumerClusterID sp ≠ "" ∧ rs_ConsumerLiqoClusterID sp ≠ "" ∧
  rs_ProviderClusterID sp ≠ "" ∧ rs_ProviderLiqoClusterID sp ≠ "" ∧
  1 ≤ rs_ChunkCount sp ≤ GoInt.int32_max ∧ known_type (rs_ChunkType sp).

Definition pi_schema (sp : ProviderInstructionSpec) : Prop :=
  pi_ReservationID sp ≠ "" ∧ pi_TargetClusterID sp ≠ "" ∧ 0 ≤ pi_ChunkCount sp ≤ GoInt.int32_max.

Definition ri_schema (sp : ReservationInstructionSpec) : Prop :=
  ri_ReservationID sp ≠ "" ∧ ri_TargetClusterID sp ≠ "" ∧ 0 ≤ ri_ChunkCount sp ≤ GoInt.int32_max.

Definition schema (o : Obj) : Prop :=
  match o with
  | OCadv c => cadv_schema (cr_spec c)
  | OResv r => cr_Name r ≠ "" ∧ resv_schema (cr_spec r)
  | OPI i => pi_schema (cr_spec i)
  | ORI i => ri_schema (cr_spec i)
  | _ => True
  end.

(** Every version ever stored satisfies its schema. *)
Definition typed (m : store) : Prop := ∀ o, o ∈ hist m → schema o.

(** ** The transitions *)

(** How the Broker may move a Reservation from phase [p] to [q]: by [q], the
    phases it may come from. *)
Definition phase_move (p q : ReservationPhase) : Prop :=
  p = q ∨
  match q with
  | PhaseEmpty => False
  | ReservationPhasePending => p = PhaseEmpty
  | ReservationPhaseGeneratingKubeconfig => p = PhaseEmpty ∨ p = ReservationPhasePending
  | ReservationPhaseKubeconfigReady =>
      p = PhaseEmpty ∨ p = ReservationPhasePending ∨ p = ReservationPhaseGeneratingKubeconfig
  | ReservationPhasePeering => p = ReservationPhaseKubeconfigReady
  | ReservationPhaseUnpeering =>
      isReservationTerminal p = false
  | ReservationPhaseReleased => p = ReservationPhaseUnpeering
  | ReservationPhaseExpired => isReservationTerminal p = false
  | ReservationPhasePeered | ReservationPhaseFailed => True
  end.

(** A Reservation's spec is immutable and its release marker is never taken
    back. *)
Definition resv_step (r r' : Reservation) : Prop :=
  cr_spec r' = cr_spec r ∧ phase_move (rt_Phase (cr_status r)) (rt_Phase (cr_status r')) ∧
  (IsChunksReleased r = true → IsChunksReleased r' = true).

(** A change that raises [reservedChunks] stays within [totalChunks]. *)
Definition cadv_step (c c' : ClusterAdvertisement) : Prop :=
  ca_ReservedChunks (cr_status c) < ca_ReservedChunks (cr_status c') →
  ca_ReservedChunks (cr_status c') ≤ ca_TotalChunks (cr_status c').

Definition step_ok (o o' : Obj) : Prop :=
  match o, o' with
  | OCadv c, OCadv c' => cadv_step c c'
  | OResv r, OResv r' => resv_step r r'
  | _, _ => True
  end.

Definition steps_ok (m m' : store) : Prop :=
  ∀ k o o', objs m !! k = Some o → objs m' !! k = Some o' → step_ok o o'.

Definition Rely (m m' : store) : Prop :=
  evolves m m' ∧ (valid m → valid m') ∧ (strict → typed m → typed m').
Definition Guar (m m' : store) : Prop := Rely m m' ∧ (valid m → steps_ok m m').

Lemma step_ok_refl o : step_ok o o.
Proof.
  destruct o; simpl; try done; [unfold cadv_step; lia|]. split_and!; [done|by left|done].
Qed.

#[global] Instance counters_rg : RelyGuarantee Rely Guar.
Proof.
  split.
  - by intros m m' [? _].
  - intros m1 m2 m3 (E1 & V1 & T1) (E2 & V2 & T2). split; [by eapply evolves_trans|auto].
  - intros m Hwf. split; [split; [by apply evolves_refl|done]|].
    intros _ k o o' E E'. rewrite E in E'. simplify_eq. apply step_ok_refl.
  - by intros m m' [? _].
Qed.

(** ** Writes that meet the guarantee *)
Lemma guar_put m k o o' :
  evolves m (put k o' m) → objs m !! k = Some o →
  (valid m → obj_ok o' ∧ step_ok o o') → (strict → typed m → schema o') → Guar m (put k o' m).
Proof.
  intros He Hk Ho Hsc. split; [split_and!; [done| |]|].
  - intros Hv x [->|Hx]%elem_of_cons; [by apply Ho|by apply Hv].
  - intros Hst Ht x [->|Hx]%elem_of_cons; [by apply Hsc|by apply Ht].
  - intros Hv k' x x' Hx Hx'. unfold put in Hx'; simpl in Hx'.
    apply lookup_insert_Some in Hx' as [[-> ->]|[_ Hx']].
    + rewrite Hk in Hx. simplify_eq. by apply Ho.
    + rewrite Hx in Hx'. simplify_eq. apply step_ok_refl.
Qed.

Lemma guar_new m k o' :
  evolves m (put k o' m) → objs m !! k = None → (valid m → obj_ok o') →
  (strict → typed m → schema o') → Guar m (put k o' m).
Proof.
  intros He Hk Ho Hsc. split; [split_and!; [done| |]|].
  - intros Hv x [->|Hx]%elem_of_cons; [by apply Ho|by apply Hv].
  - intros Hst Ht x [->|Hx]%elem_of_cons; [by apply Hsc|by apply Ht].
  - intros Hv k' x x' Hx Hx'. unfold put in Hx'; simpl in Hx'.
    apply lookup_insert_Some in Hx' as [[-> ->]|[_ Hx']]; [congruence|].
    rewrite Hx in Hx'. simplify_eq. apply step_ok_refl.
Qed.

Lemma guar_drop m k rv : evolves m (drop k rv m) → Guar m (drop k rv m).
Proof.
  intros He. split; [done|].
  intros Hv k' x x' Hx Hx'. unfold drop in Hx'; simpl in Hx'.
  apply lookup_delete_Some in Hx' as [_ Hx']. rewrite Hx in Hx'. simplify_eq. apply step_ok_refl.
Qed.

Lemma guar_retire m k o' :
  evolves m (retire k o' m) → (valid m → obj_ok o') → (strict → typed m → schema o') →
  Guar m (retire k o' m).
Proof.
  intros He Ho Hsc. split; [split_and!; [done| |]|].
  - intros Hv x [->|Hx]%elem_of_cons; [by apply Ho|by apply Hv].
  - intros Hst Ht x [->|Hx]%elem_of_cons; [by apply Hsc|by apply Ht].
  - intros Hv k' x x' Hx Hx'. unfold retire in Hx'; simpl in Hx'.
    apply lookup_delete_Some in Hx' as [_ Hx']. rewrite Hx in Hx'. simplify_eq. apply step_ok_refl.
Qed.

Lemma guar_put_or_drop m k o o' :
  evolves m (put_or_drop k o' m) → objs m !! k = Some o →
  (valid m → obj_ok o' ∧ step_ok o o') → (strict → typed m → schema o') →
  Guar m (put_or_drop k o' m).
Proof.
  unfold put_or_drop. intros He Hk Ho Hsc.
  repeat case_match; eauto using guar_put. apply guar_retire; [done| |done]. by intros [? _]%Ho.
Qed.

Lemma put_or_drop_hist k o m : o ∈ hist (put_or_drop k o m).
Proof. unfold put_or_drop. repeat case_match; constructor. Qed.

Lemma seen_valid m m' k o : seen m k o → Rely m m' → valid m' → obj_ok o.
Proof. intros [_ Ho] [(_ & _ & Hh) _] Hv. by apply Hv, Hh. Qed.

Lemma seen_typed m m' k o : seen m k o → Rely m m' → typed m' → schema o.
Proof. intros [_ Ho] [(_ & _ & Hh) _] Ht. by apply Ht, Hh. Qed.

Lemma seen_rely m m' k o : seen m k o → Rely m m' → seen m' k o.
Proof. intros Hs [He _]. by eapply seen_evolves. Qed.

(** ** Rules *)
Section Rules.
Context {S T : Type} `{!Resource S T}.
Implicit Types a : CR S T.

(** [a'] is how the server stores a write of [a] over [a0]. *)
Definition safe_change (m : store) (a0 a' : CR S T) : Prop :=
  ∀ m1, Rely m m1 →
    (valid m1 → obj_ok (to_obj a0) → obj_ok (to_obj a') ∧ step_ok (to_obj a0) (to_obj a')) ∧
    (strict → typed m1 → schema (to_obj a0) → schema (to_obj a')).

Lemma safe_status_update a0 a (Q : Res (CR S T) → store → Prop) m :
  seen m (cr_key a0) (to_obj a0) → cr_key a = cr_key a0 →
  m_ResourceVersion (cr_meta a) = m_ResourceVersion (cr_meta a0) →
  (∀ rv, safe_change m a0 (cr_on_status rv a0 a)) →
  (∀ m1 rv, Rely m m1 → let a' := cr_on_status rv a0 a in
    seen m1 (cr_key a0) (to_obj a') → Q (Ok a') m1) →
  (∀ m1 e, Rely m m1 → Q (Fail e) m1) →
  rg Rely Guar (status_update a) Q m.
Proof.
  intros Hs Hk Hv Hc HOk HFail. apply (rg_status_update Rely Guar a0 a); [done..| |done].
  intros m1 rv HR Hl Hrv a' m2 He.
  assert (Guar m1 m2) as HG.
  { apply (guar_put m1 _ (to_obj a0)); [done..| |].
    - intros Hval. apply (Hc rv m1 HR); [done|]. by eapply seen_valid.
    - intros Hst Hty. apply (Hc rv m1 HR); [done..|]. by eapply seen_typed. }
  split; [done|]. apply HOk.
  - eapply rely_trans; [exact HR|by apply guar_rely].
  - split; [by rewrite obj_key_typed|]. constructor.
Qed.

Lemma safe_update a0 a (Q : Res (CR S T) → store → Prop) m :
  seen m (cr_key a0) (to_obj a0) → cr_key a = cr_key a0 →
  m_ResourceVersion (cr_meta a) = m_ResourceVersion (cr_meta a0) →
  (∀ rv gen, safe_change m a0 (cr_on_update rv gen a0 a)) →
  (∀ m1 rv gen, Rely m m1 → let a' := cr_on_update rv gen a0 a in
    seen m1 (cr_key a0) (to_obj a') → Q (Ok a') m1) →
  (∀ m1 e, Rely m m1 → Q (Fail e) m1) →
  rg Rely Guar (update a) Q m.
Proof.
  intros Hs Hk Hv Hc HOk HFail. apply (rg_update Rely Guar a0 a); [done..| |done].
  intros m1 rv gen HR Hl Hrv a' m2 He.
  assert (Guar m1 m2) as HG.
  { apply (guar_put_or_drop m1 _ (to_obj a0)); [done..| |].
    - intros Hval. apply (Hc rv gen m1 HR); [done|]. by eapply seen_valid.
    - intros Hst Hty. apply (Hc rv gen m1 HR); [done..|]. by eapply seen_typed. }
  split; [done|]. apply HOk.
  - eapply rely_trans; [exact HR|by apply guar_rely].
  - split; [by rewrite obj_key_typed|]. apply put_or_drop_hist.
Qed.

(** What a creation stores. *)
Definition safe_object (m : store) (a : CR S T) : Prop :=
  ∀ m1 rv uid t, Rely m m1 →
    (valid m1 → obj_ok (to_obj (cr_on_create res_zero rv uid t a))) ∧
    (strict → typed m1 → schema (to_obj (cr_on_create res_zero rv uid t a))).

Lemma safe_create a (Q : Res (CR S T) → store → Prop) m :
  safe_object m a →
  (∀ m1 rv uid t, Rely m m1 → let a' := cr_on_create res_zero rv uid t a in
    seen m1 (cr_key a) (to_obj a') → Q (Ok a') m1) →
  (∀ m1 e, Rely m m1 → Q (Fail e) m1) →
  rg Rely Guar (create a) Q m.
Proof.
  intros Hc HOk HFail. apply (rg_create Rely Guar a); [|done].
  intros m1 rv uid t HR Hn Hrv a' m2 He.
  assert (Guar m1 m2) as HG by (apply guar_new; [done..| |]; intros; by apply (Hc m1)).
  split; [done|]. apply HOk.
  - eapply rely_trans; [exact HR|by apply guar_rely].
  - split; [by rewrite obj_key_typed|]. constructor.
Qed.

Lemma safe_delete a (Q : Res unit → store → Prop) m :
  (∀ m1 cur rv t, Rely m m1 → safe_change m1 cur (cr_on_delete rv t cur)) →
  (∀ m1 x, Rely m m1 → Q x m1) →
  rg Rely Guar (delete_cr a) Q m.
Proof.
  intros Hc HQ. apply (rg_delete Rely Guar a); [|auto].
  intros m1 cur rv t HR Hl Hrv m2 He.
  assert (Guar m1 m2) as HG.
  { unfold m2 in *. destruct (m_Finalizers (cr_meta cur)); [by apply guar_drop|].
    assert (store_wf m1) as Hwf by (by destruct HR as [(? & _) _]).
    assert (Rely m1 m1) as Hr by (by apply guar_rely, guar_refl).
    apply (wf_key _ Hwf) in Hl as Hin. destruct Hin as [_ Hin].
    apply (guar_put m1 _ (to_obj cur)); [done..| |].
    - intros Hval. apply (Hc m1 cur rv t HR m1 Hr); [done|]. by apply Hval.
    - intros Hst Hty. apply (Hc m1 cur rv t HR m1 Hr); [done..|]. by apply Hty. }
  split; [done|]. apply HQ. eapply rely_trans; [exact HR|by apply guar_rely].
Qed.
End Rules.

(** ** Safe programs

    A program all of whose requests meet the guarantee, from [m] on. *)
Definition safe {A} (m : store) (p : prog A) : Prop :=
  ∀ Q : A → store → Prop, (∀ a m1, Rely m m1 → Q a m1) → rg Rely Guar p Q m.

Lemma rely_refl m : store_wf m → Rely m m.
Proof. intros. by apply guar_rely, guar_refl. Qed.

Lemma rely_wf m m1 : Rely m m1 → store_wf m1.
Proof. by intros [[? _] _]. Qed.

Lemma safe_ret {A} m (a : A) : store_wf m → safe m (mret a).
Proof. intros Hwf Q HQ. by apply HQ, rely_refl. Qed.

Lemma safe_bind {A B} m (p : prog A) (f : A → prog B) :
  safe m p → (∀ a m1, Rely m m1 → safe m1 (f a)) → safe m (p ≫= f).
Proof.
  intros Hp Hf Q HQ. apply rg_bind, Hp. intros a m1 HR. apply Hf; [done|].
  intros b m2 HR2. apply HQ. by eapply rely_trans.
Qed.

Lemma safe_now m : safe m now.
Proof. intros Q HQ. apply rg_now; [apply _|]. auto. Qed.

Lemma safe_uuid m : safe m new_uuid.
Proof. intros Q HQ. apply rg_new_uuid; [apply _|]. auto. Qed.

Section SafeTyped.
Context {S T : Type} `{!Resource S T}.

Lemma safe_get m ns n : safe m (get (S:=S) (T:=T) ns n).
Proof. intros Q HQ. apply (rg_get Rely Guar); auto. Qed.

Lemma safe_bind_get {B} m ns n (f : Res (CR S T) → prog B) :
  (∀ a m1, Rely m m1 → cr_Namespace a = ns → cr_Name a = n →
     seen m1 (cr_key a) (to_obj a) → safe m1 (f (Ok a))) →
  (∀ e m1, Rely m m1 → safe m1 (f (Fail e))) →
  safe m (get ns n ≫= f).
Proof.
  intros HOk HF Q HQ. apply rg_bind, (rg_get Rely Guar).
  - intros m1 a HR Hns Hn Hs. apply HOk; [done..|unfold cr_key; by rewrite Hns, Hn|].
    intros b m2 HR2. apply HQ. by eapply rely_trans.
  - intros m1 e HR. apply HF; [done|]. intros b m2 HR2. apply HQ. by eapply rely_trans.
Qed.

Lemma safe_bind_list {B} m ns (f : Res (list (CR S T)) → prog B) :
  (∀ l m1, Rely m m1 → (∀ a, a ∈ l → seen m1 (cr_key a) (to_obj a)) → safe m1 (f (Ok l))) →
  (∀ e m1, Rely m m1 → safe m1 (f (Fail e))) →
  safe m (list_in ns ≫= f).
Proof.
  intros HOk HF Q HQ. apply rg_bind, (rg_list Rely Guar).
  - intros m1 l HR Hl. apply HOk; [done|intros a Ha; by apply Hl|].
    intros b m2 HR2. apply HQ. by eapply rely_trans.
  - intros m1 e HR. apply HF; [done|]. intros b m2 HR2. apply HQ. by eapply rely_trans.
Qed.

Lemma safe_list m ns : safe m (list_in (S:=S) (T:=T) ns).
Proof. intros Q HQ. apply (rg_list Rely Guar); auto. Qed.

Lemma safe_status m (a0 a : CR S T) :
  seen m (cr_key a0) (to_obj a0) → cr_key a = cr_key a0 →
  m_ResourceVersion (cr_meta a) = m_ResourceVersion (cr_meta a0) →
  (∀ rv, safe_change m a0 (cr_on_status rv a0 a)) → safe m (status_update a).
Proof. intros Hs Hk Hv Hc Q HQ. apply (safe_status_update a0 a); auto. Qed.

(** The continuation sees the object the server stored. *)
Lemma safe_bind_status {B} m (a0 a : CR S T) (f : Res (CR S T) → prog B) :
  seen m (cr_key a0) (to_obj a0) → cr_key a = cr_key a0 →
  m_ResourceVersion (cr_meta a) = m_ResourceVersion (cr_meta a0) →
  (∀ rv, safe_change m a0 (cr_on_status rv a0 a)) →
  (∀ rv m1, Rely m m1 → let a' := cr_on_status rv a0 a in
     seen m1 (cr_key a') (to_obj a') → safe m1 (f (Ok a'))) →
  (∀ e m1, Rely m m1 → safe m1 (f (Fail e))) →
  safe m (status_update a ≫= f).
Proof.
  intros Hs Hk Hv Hc HOk HF Q HQ. apply rg_bind, (safe_status_update a0 a); [done..| |].
  - intros m1 rv HR a' Ha. apply HOk; [done|done|].
    intros b m2 HR2. apply HQ. by eapply rely_trans.
  - intros m1 e HR. apply HF; [done|]. intros b m2 HR2. apply HQ. by eapply rely_trans.
Qed.

Lemma safe_upd m (a0 a : CR S T) :
  seen m (cr_key a0) (to_obj a0) → cr_key a = cr_key a0 →
  m_ResourceVersion (cr_meta a) = m_ResourceVersion (cr_meta a0) →
  (∀ rv gen, safe_change m a0 (cr_on_update rv gen a0 a)) → safe m (update a).
Proof. intros Hs Hk Hv Hc Q HQ. apply (safe_update a0 a); auto. Qed.

Lemma safe_bind_upd {B} m (a0 a : CR S T) (f : Res (CR S T) → prog B) :
  seen m (cr_key a0) (to_obj a0) → cr_key a = cr_key a0 →
  m_ResourceVersion (cr_meta a) = m_ResourceVersion (cr_meta a0) →
  (∀ rv gen, safe_change m a0 (cr_on_update rv gen a0 a)) →
  (∀ rv gen m1, Rely m m1 → let a' := cr_on_update rv gen a0 a in
     seen m1 (cr_key a') (to_obj a') → safe m1 (f (Ok a'))) →
  (∀ e m1, Rely m m1 → safe m1 (f (Fail e))) →
  safe m (update a ≫= f).
Proof.
  intros Hs Hk Hv Hc HOk HF Q HQ. apply rg_bind, (safe_update a0 a); [done..| |].
  - intros m1 rv gen HR a' Ha. apply HOk; [done|done|].
    intros b m2 HR2. apply HQ. by eapply rely_trans.
  - intros m1 e HR. apply HF; [done|]. intros b m2 HR2. apply HQ. by eapply rely_trans.
Qed.

Lemma safe_new m (a : CR S T) : safe_object m a → safe m (create a).
Proof. intros Hc Q HQ. apply (safe_create a); auto. Qed.

Lemma safe_bind_new {B} m (a : CR S T) (f : Res (CR S T) → prog B) :
  safe_object m a →
  (∀ rv uid t m1, Rely m m1 → let a' := cr_on_create res_zero rv uid t a in
     seen m1 (cr_key a') (to_obj a') → safe m1 (f (Ok a'))) →
  (∀ e m1, Rely m m1 → safe m1 (f (Fail e))) →
  safe m (create a ≫= f).
Proof.
  intros Hc HOk HF Q HQ. apply rg_bind, (safe_create a); [done| |].
  - intros m1 rv uid t HR a' Ha. apply HOk; [done|done|].
    intros b m2 HR2. apply HQ. by eapply rely_trans.
  - intros m1 e HR. apply HF; [done|]. intros b m2 HR2. apply HQ. by eapply rely_trans.
Qed.

Lemma safe_del m (a : CR S T) :
  (∀ m1 cur rv t, Rely m m1 → safe_change m1 cur (cr_on_delete rv t cur)) → safe m (delete_cr a).
Proof. intros Hc Q HQ. apply (safe_delete a); auto. Qed.
End SafeTyped.

(** Objects that carry no counters: a write that keeps the schema is safe. *)
Lemma safe_change_pi m (a0 a' : ProviderInstruction) :
  (pi_schema (cr_spec a0) → pi_schema (cr_spec a')) → safe_change m a0 a'.
Proof. intros E m1 _. by split. Qed.
Lemma safe_change_ri m (a0 a' : ReservationInstruction) :
  (ri_schema (cr_spec a0) → ri_schema (cr_spec a')) → safe_change m a0 a'.
Proof. intros E m1 _. by split. Qed.
Lemma safe_change_secret m (a0 a' : Secret) : safe_change m a0 a'.
Proof. by intros m1 _. Qed.
Lemma safe_change_resv m (a0 a' : Reservation) :
  cr_Name a' = cr_Name a0 → resv_step a0 a' → safe_change m a0 a'.
Proof.
  intros Hn Hs m1 _. destruct Hs as (Hsp & Hm & Hr). split; simpl; rewrite Hsp.
  - intros _ Hok. by split.
  - intros _ _ [? ?]. split; [by rewrite Hn|done].
Qed.

(** Metadata writes that keep the annotations, and status writes. *)
Lemma resv_step_status rv (r r' : Reservation) :
  phase_move (rt_Phase (cr_status r)) (rt_Phase (cr_status r')) → resv_step r (cr_on_status rv r r').
Proof. by intros. Qed.

Lemma resv_step_update rv gen (r r' : Reservation) :
  cr_spec r' = cr_spec r → (IsChunksReleased r = true → IsChunksReleased r' = true) →
  resv_step r (cr_on_update rv gen r r').
Proof. intros Hs Hm. split_and!; [done|by left|done]. Qed.

Lemma resv_step_delete rv t (r : Reservation) : resv_step r (cr_on_delete rv t r).
Proof. split_and!; [done|by left|done]. Qed.
Lemma safe_change_cadv m (a0 a' : ClusterAdvertisement) :
  (cadv_ok (cr_status a0) → cadv_ok (cr_status a') ∧ cadv_step a0 a') →
  (strict → cadv_schema (cr_spec a0) → cadv_schema (cr_spec a')) →
  safe_change m a0 a'.
Proof. intros E Hsc m1 _. split; simpl; auto. Qed.
End BrokerInvariant.

#[export] Hint Resolve safe_ret safe_now safe_uuid safe_get safe_list rely_wf : fed.
#[export] Hint Resolve safe_change_pi safe_change_ri safe_change_secret : fed.

(** Walk through a program: reads and pure branches are safe. *)
Ltac safe_step :=
  lazymatch goal with
  | |- safe _ (mret _) => apply safe_ret; eauto with fed
  | |- safe _ (get _ _ ≫= _) => apply safe_bind_get; intros
  | |- safe _ (list_in _ ≫= _) => apply safe_bind_list; intros
  | |- safe _ (now ≫= _) => apply safe_bind; [apply safe_now|intros]
  | |- safe _ (new_uuid ≫= _) => apply safe_bind; [apply safe_uuid|intros]
  | |- safe _ (match ?x with _ => _ end) => destruct x eqn:?
  | |- safe _ (let '(_, _) := ?x in _) => destruct x eqn:?
  end.
