(* ===== verification/BrokerSafety.v ===== *)
(** * Every Broker operation is safe

    Each handler and reconciler meets the guarantee of [BrokerInvariant], hence
    so does any concurrent mix of them. *)
From stdpp Require Import base gmap strings list relations.
From Stdlib Require Import ZArith Lia.
From S2P Require Import Prelude ApiTypes Chunk Wire Kube MemServer Registry Placement.
From S2P Require Import ReservationApi InstructionsApi AdvertisementApi.
From S2P Require Import ReservationController Housekeeping BrokerInvariant.

Open Scope Z_scope.

Section BrokerSafety.
Context `{Platform} {caller : Discipline}.

(** ** Counter arithmetic *)

(** Every counter write of the sources has this shape: a new reserved count
    that is not negative, and the free remainder of the total. *)
Lemma recomputed_ok total next :
  counter total → counter next →
  let avail := GoInt.sub32 total next in
  0 ≤ (if avail <? 0 then 0 else avail) ≤ Z.max 0 (total - next).
Proof.
  unfold counter, GoInt.int32_max. intros Ht Hn. cbv zeta. rewrite GoInt.sub32_id.
  - case_match; fed_bools; lia.
  - unfold GoInt.is_int32, GoInt.int32_min, GoInt.int32_max. lia.
Qed.

Lemma clamped_counter z : GoInt.is_int32 z → counter (if z <? 0 then 0 else z).
Proof.
  unfold counter, GoInt.is_int32, GoInt.int32_max, GoInt.int32_min.
  intros. case_match; fed_bools; lia.
Qed.

(** What a release adds to [reservedChunks]. *)
Definition credit (delta : Z) : Prop := GoInt.int32_min ≤ delta ≤ 0.

Lemma credit_neg32 n : 1 ≤ n ≤ GoInt.int32_max → credit (GoInt.neg32 n).
Proof.
  unfold credit, GoInt.int32_max, GoInt.int32_min. intros Hn.
  rewrite GoInt.neg32_id; [lia|]. unfold GoInt.is_int32, GoInt.int32_min, GoInt.int32_max. lia.
Qed.

Lemma adjusted_ok cadv delta :
  cadv_ok (cr_status cadv) → credit delta →
  cadv_ok (cr_status (adjusted cadv delta)) ∧
  ca_ReservedChunks (cr_status (adjusted cadv delta)) ≤ ca_ReservedChunks (cr_status cadv).
Proof.
  intros (Ht & Hr & Ha) Hd. unfold adjusted; simpl.
  pose proof (clamped_counter _ (GoInt.to_int32_range (ca_ReservedChunks (cr_status cadv) + delta))) as Hn.
  split; [split_and!; [done..|by apply recomputed_ok|by apply recomputed_ok]|].
  clear Hn. unfold counter, credit in *. unfold GoInt.int32_max, GoInt.int32_min in *.
  rewrite GoInt.add32_id by (unfold GoInt.is_int32, GoInt.int32_min, GoInt.int32_max; lia).
  case_match; fed_bools; lia.
Qed.

Lemma released_ok cadv n :
  cadv_ok (cr_status cadv) → 1 ≤ n ≤ GoInt.int32_max →
  cadv_ok (cr_status (released cadv n)) ∧
  ca_ReservedChunks (cr_status (released cadv n)) ≤ ca_ReservedChunks (cr_status cadv).
Proof.
  intros (Ht & Hr & Ha) Hd. unfold released; simpl.
  pose proof (clamped_counter _ (GoInt.to_int32_range (ca_ReservedChunks (cr_status cadv) - n))) as Hn.
  split; [split_and!; [done..|by apply recomputed_ok|by apply recomputed_ok]|].
  clear Hn. unfold counter in *. unfold GoInt.int32_max in *.
  rewrite GoInt.sub32_id by (unfold GoInt.is_int32, GoInt.int32_min, GoInt.int32_max; lia).
  case_match; fed_bools; lia.
Qed.

Lemma touched_ok cadv count t :
  cadv_ok (cr_status cadv) → counter count → cadv_ok (cr_status (touched cadv count t)).
Proof.
  intros (Ht & Hr & Ha) Hc. unfold touched; simpl.
  split_and!; [done..|by apply recomputed_ok|by apply recomputed_ok].
Qed.

Lemma freshened_ok cadv stale :
  cadv_ok (cr_status cadv) → cadv_ok (cr_status (freshened cadv stale)).
Proof. intros (Ht & Hr & Ha). unfold freshened, cadv_ok; simpl. destruct stale; split_and!; auto; lia. Qed.

(** ** The counter loops *)

(** [delta] is a release whenever the store is consistent. *)
Definition credit_at (m : store) (delta : Z) : Prop :=
  ∀ m1, Rely m m1 → valid m1 → credit delta.

Lemma credit_at_rely m m1 delta : Rely m m1 → credit_at m delta → credit_at m1 delta.
Proof. intros HR Hc m2 HR2. apply Hc. by eapply rely_trans. Qed.

Lemma credit_at_resv m k (resv : Reservation) :
  seen m k (OResv resv) → credit_at m (GoInt.neg32 (rs_ChunkCount (cr_spec resv))).
Proof. intros Hs m1 HR Hv. apply credit_neg32. exact (seen_valid _ _ _ _ Hs HR Hv). Qed.

Lemma adjust_loop_safe attempts ns id delta m :
  store_wf m → credit_at m delta → safe m (adjust_loop attempts ns id delta).
Proof.
  revert m. induction attempts as [|n IH]; intros m Hwf Hc; cbn [adjust_loop]; [by apply safe_ret|].
  safe_step; [|safe_step].
  apply (safe_bind_status _ a); [done..| | |].
  - intros rv m2 HR. split; [|done]. intros Hv Hok. simpl in *.
    pose proof (adjusted_ok a delta Hok) as [? ?]; [apply (Hc m2); [by eapply rely_trans|done]|].
    split; [done|]. unfold cadv_step. simpl in *. lia.
  - intros. safe_step.
  - intros e m2 HR2. safe_step; [|safe_step].
    apply IH; [eauto with fed|]. eapply credit_at_rely; [|done]. by eapply rely_trans.
Qed.

Lemma reserve_loop_safe attempts ns id count m :
  store_wf m → 1 ≤ count → safe m (reserve_loop attempts ns id count).
Proof.
  intros Hwf Hc. revert m Hwf. induction attempts as [|n IH]; intros m Hwf;
    cbn [reserve_loop]; [by apply safe_ret|].
  safe_step; [|safe_step]. cbv zeta. safe_step; [safe_step|].
  apply (safe_bind_status _ a); [done..| | |].
  - intros rv. apply safe_change_cadv; [|done]. intros (Ht & Hr & Ha). fed_bools.
    simpl. unfold counter in *. pose proof Ht. pose proof Hr. unfold GoInt.int32_max in *.
    rewrite GoInt.add32_id by (unfold GoInt.is_int32, GoInt.int32_min, GoInt.int32_max; lia).
    split; [|unfold cadv_step; simpl; lia]. split; simpl; [split; [lia|unfold GoInt.int32_max; lia]|].
    split; [split; [lia|unfold GoInt.int32_max; lia]|].
    apply recomputed_ok; unfold counter, GoInt.int32_max; lia.
  - intros. safe_step.
  - intros e m2 HR2. safe_step; [|safe_step]. apply IH. eauto with fed.
Qed.

Lemma mark_loop_safe attempts ns name m : store_wf m → safe m (mark_loop attempts ns name).
Proof.
  revert m. induction attempts as [|n IH]; intros m Hwf; cbn [mark_loop]; [by apply safe_ret|].
  safe_step; [|safe_step]. safe_step; [safe_step|].
  apply safe_bind.
  - apply (safe_upd _ a); [done..|]. intros rv gen.
    apply safe_change_resv; [done|]; apply resv_step_update; auto with fed.
  - intros x m2 HR2. safe_step; [safe_step|]. safe_step; [|safe_step]. apply IH. eauto with fed.
Qed.

Lemma stamp_loop_safe attempts ns name m : store_wf m → safe m (stamp_loop attempts ns name).
Proof.
  revert m. induction attempts as [|n IH]; intros m Hwf; cbn [stamp_loop]; [by apply safe_ret|].
  safe_step; [|safe_step]. safe_step; [safe_step|].
  apply safe_bind.
  - apply (safe_upd _ a); [done..|]. intros rv gen.
    apply safe_change_resv; [done|]; apply resv_step_update; auto with fed.
  - intros x m2 HR2. safe_step; [safe_step|]. safe_step; [|safe_step]. apply IH. eauto with fed.
Qed.

Lemma release_loop_safe attempts resv k m :
  store_wf m → seen m k (OResv resv) → safe m (release_loop attempts resv).
Proof.
  revert m. induction attempts as [|n IH]; intros m Hwf Hs; cbn [release_loop]; [by apply safe_ret|].
  safe_step.
  - apply (safe_bind_status _ a); [done..| | |].
    + intros rv m2 HR. split; [|done]. intros Hv Hok. simpl in *.
      pose proof (seen_valid _ _ _ _ Hs (rely_trans _ _ _ H0 HR) Hv) as Hn. simpl in Hn.
      destruct (released_ok a _ Hok Hn). split; [done|]. unfold cadv_step. simpl in *. lia.
    + intros. apply stamp_loop_safe. eauto with fed.
    + intros e m2 HR2. safe_step; [|safe_step]. apply IH; [eauto with fed|].
      eapply seen_rely; [done|]. by eapply rely_trans.
  - safe_step; [|safe_step]. apply stamp_loop_safe. eauto with fed.
Qed.

(** ** Reservation endpoints *)
Lemma initReservationStatus_safe s m (resv : Reservation) :
  store_wf m → seen m (cr_key resv) (OResv resv) → rt_Phase (cr_status resv) = PhaseEmpty →
  safe m (initReservationStatus s resv).
Proof.
  intros Hwf Hs Hp. unfold initReservationStatus. safe_step. cbv zeta.
  apply safe_bind; [|intros; safe_step].
  apply (safe_status _ resv); [by eapply seen_rely|done..|]. intros rv.
  apply safe_change_resv; [done|]; apply resv_step_status. by right.
Qed.

Lemma validate_count req : validateReservationRequest req = None → rq_ChunkCount req = 1.
Proof.
  unfold validateReservationRequest. repeat case_match; try done. intros _. fed_bools. lia.
Qed.

Lemma validate_typed req :
  validateReservationRequest req = None → rq_ProviderClusterID req ≠ "" ∧ known_type (rq_ChunkType req).
Proof.
  unfold validateReservationRequest, known_type.
  destruct (decide (rq_ProviderClusterID req = "")); [done|].
  destruct (_ <? 1); [done|]. destruct (1 <? _); [done|].
  destruct (decide (rq_ChunkType req = "")); [done|].
  destruct (decide (_ ≠ ChunkTypeStandard ∧ _)) as [|Hk]; [done|]. intros _. split; [done|].
  destruct (decide (rq_ChunkType req = ChunkTypeStandard)); [by left|].
  destruct (decide (rq_ChunkType req = ChunkTypeGPU)); [by right|]. tauto.
Qed.

(** The reads a creation starts with: the advertisement found is a stored
    version, the name is not empty. *)
Lemma find_bind_safe {B} ns p t (f : ClusterAdvertisement + Z * ErrorResponse → prog B) m :
  store_wf m →
  (∀ cadv m1, Rely m m1 → seen m1 (cr_key cadv) (OCadv cadv) → safe m1 (f (inl cadv))) →
  (∀ e m1, Rely m m1 → safe m1 (f (inr e))) → safe m (findAdvertisement ns p t ≫= f).
Proof.
  intros Hwf HOk HF Q HQ. unfold findAdvertisement. apply rg_bind, rg_bind, (rg_get Rely Guar).
  - intros m1 c HR Hns Hn Hs. simpl.
    assert (seen m1 (cr_key c) (OCadv c)) as Hsc by (unfold cr_key; by rewrite Hns, Hn).
    repeat case_match; first [apply HOk|apply HF]; try done;
      intros b m2 HR2; apply HQ; by eapply rely_trans.
  - intros m1 e HR. simpl. case_match; apply HF; try done; intros b m2 HR2; apply HQ; by eapply rely_trans.
Qed.

Lemma name_bind_safe {B} header (f : Res string → prog B) m :
  store_wf m →
  (∀ n m1, Rely m m1 → n ≠ "" → safe m1 (f (Ok n))) →
  (∀ e m1, Rely m m1 → safe m1 (f (Fail e))) → safe m (reservationName header ≫= f).
Proof.
  intros Hwf HOk HF Q HQ. unfold reservationName. case_decide as Hh.
  - apply rg_bind, rg_bind, rg_new_uuid; [apply _|]. intros u m1 HR. simpl. apply HOk; [done| |].
    + intros E. discriminate E.
    + intros b m2 HR2. apply HQ. by eapply rely_trans.
  - apply rg_bind. assert (Rely m m) by by apply rely_refl.
    case_match; simpl; [apply HOk|apply HF]; try done; intros b m2 HR2; by apply HQ.
Qed.

Lemma persistReservation_safe s requestID name consumerID entry req cadv k m :
  store_wf m → validateReservationRequest req = None → name ≠ "" →
  (strict → consumerID ≠ "" ∧ ce_LiqoClusterID entry ≠ "") → seen m k (OCadv cadv) →
  safe m (persistReservation s requestID name consumerID entry req cadv).
Proof.
  intros Hwf Hv Hn Hent Hs. unfold persistReservation. cbv zeta.
  pose proof (validate_count req Hv) as Hcount. destruct (validate_typed req Hv) as [Hprov Htype].
  apply safe_bind_new.
  - intros m5 rv uid t HR. split.
    + intros _. simpl. rewrite Hcount. unfold GoInt.int32_max. lia.
    + intros Hst Hty. destruct (Hent Hst). destruct (seen_typed _ _ _ _ Hs HR Hty) as (_ & Hliqo & _).
      split; [done|]. split_and!; simpl; try done; rewrite Hcount; unfold GoInt.int32_max; lia.
  - intros rv uid t m5 HR5 a' Ha. apply safe_bind.
    + apply initReservationStatus_safe; [eauto with fed|exact Ha|done].
    + intros. safe_step.
  - intros e' m5 HR5. apply safe_bind; [|intros; safe_step].
    apply adjust_loop_safe; [eauto with fed|]. intros m6 _ _. rewrite Hcount.
    apply credit_neg32. unfold GoInt.int32_max. lia.
Qed.

Lemma handleReservationCreate_safe s reg requestID consumerID idHeader body m :
  (strict → registry_wf reg) → store_wf m →
  safe m (handleReservationCreate s reg requestID consumerID idHeader body).
Proof.
  intros Hreg Hwf. unfold handleReservationCreate. destruct body as [req|]; [|safe_step].
  destruct (validateReservationRequest req) eqn:Hv; [safe_step|].
  destruct (Lookup consumerID reg) as [entry ok] eqn:Hl. destruct ok; cbn [negb]; [|safe_step].
  apply find_bind_safe; [done| |intros [? ?] ? ?; safe_step]. intros cadv m1 HR1 Hs.
  apply name_bind_safe; [eauto with fed| |intros; safe_step]. intros name m2 HR2 Hn.
  safe_step; [safe_step; safe_step|]. safe_step; [|safe_step]. unfold admitReservation. apply safe_bind.
  { apply reserve_loop_safe; [eauto with fed|]. by rewrite (validate_count req). }
  intros res m4 HR4. destruct res as [[[] avail]|]; [|safe_step..].
  apply (persistReservation_safe _ _ _ _ _ _ _ (cr_key cadv)); [eauto with fed|done|done| |].
  - intros Hst. unfold Lookup in Hl. destruct (reg !! consumerID) as [e0|] eqn:E; [|done].
    injection Hl as <-. destruct (Hreg Hst _ _ E) as (_ & ? & ?). done.
  - eapply seen_rely; [exact Hs|]. eapply rely_trans; [exact HR2|]. by eapply rely_trans.
Qed.

Lemma handleReservationRelease_safe s requestID callerID resName chunks m :
  store_wf m → safe m (handleReservationRelease s requestID callerID resName chunks).
Proof.
  intros Hwf. unfold handleReservationRelease. safe_step; [|safe_step].
  safe_step; [|safe_step]. safe_step; [|safe_step]. safe_step; [safe_step|].
  safe_step; [safe_step|]. unfold releaseReservation. cbv zeta.
  apply (safe_bind_status _ a); [done..| | |intros; safe_step].
  - intros rv. apply safe_change_resv; [done|]; apply resv_step_status. right. simpl.
    by destruct (rt_Phase (cr_status a)).
  - intros rv m2 HR2 a' Ha'. apply safe_bind.
    + apply adjust_loop_safe; [eauto with fed|]. apply (credit_at_resv _ (cr_key a)).
      by eapply seen_rely.
    + intros ae m3 HR3. apply safe_bind; [|intros; safe_step].
      safe_step; [safe_step|]. apply mark_loop_safe. eauto with fed.
Qed.

(** ** Instruction endpoints *)
Lemma touchInstructionDelivered_safe_pi m (o : ProviderInstruction) :
  store_wf m → seen m (cr_key o) (OPI o) → safe m (touchInstructionDelivered o).
Proof.
  intros Hwf Hs. unfold touchInstructionDelivered. safe_step. safe_step; [|safe_step].
  apply safe_bind; [|intros; safe_step].
  apply (safe_status _ o); [by eapply seen_rely|done..|]. intros. by apply safe_change_pi.
Qed.

Lemma touchInstructionDelivered_safe_ri m (o : ReservationInstruction) :
  store_wf m → seen m (cr_key o) (ORI o) → safe m (touchInstructionDelivered o).
Proof.
  intros Hwf Hs. unfold touchInstructionDelivered. safe_step. safe_step; [|safe_step].
  apply safe_bind; [|intros; safe_step].
  apply (safe_status _ o); [by eapply seen_rely|done..|]. intros. by apply safe_change_ri.
Qed.

Lemma collect_provider_safe callerID items out m :
  store_wf m → (∀ o, o ∈ items → seen m (cr_key o) (OPI o)) →
  safe m (collect_provider callerID items out).
Proof.
  revert out m. induction items as [|o items IH]; intros out m Hwf Hs; cbn [collect_provider].
  { by apply safe_ret. }
  safe_step; [apply IH; [done|set_solver]|]. apply safe_bind.
  - apply touchInstructionDelivered_safe_pi; [done|]. apply Hs. constructor.
  - intros _ m1 HR. apply IH; [eauto with fed|]. intros o' Ho'. eapply seen_rely; [|done].
    apply Hs. by constructor.
Qed.

Lemma view_consumer_safe ns ri m : store_wf m → safe m (view_consumer ns ri).
Proof.
  intros Hwf. unfold view_consumer. cbv zeta. apply safe_bind.
  - safe_step; [|safe_step]. apply safe_bind; [|intros; safe_step].
    unfold loadKubeconfig. safe_step; safe_step.
  - intros kc m1 HR. safe_step; [|safe_step]. safe_step; [|safe_step].
    apply safe_bind; [apply safe_get|]. intros; safe_step.
Qed.

Lemma collect_consumer_safe ns callerID items out m :
  store_wf m → (∀ o, o ∈ items → seen m (cr_key o) (ORI o)) →
  safe m (collect_consumer ns callerID items out).
Proof.
  revert out m. induction items as [|o items IH]; intros out m Hwf Hs; cbn [collect_consumer].
  { by apply safe_ret. }
  assert (∀ m1, Rely m m1 → ∀ o', o' ∈ items → seen m1 (cr_key o') (ORI o')) as Hs'.
  { intros m1 HR o' Ho'. eapply seen_rely; [|done]. apply Hs. by constructor. }
  safe_step; [apply IH; [done|apply Hs', rely_refl, Hwf]|]. apply safe_bind; [by apply view_consumer_safe|].
  intros v m1 HR. safe_step; [|apply IH; eauto with fed]. apply safe_bind.
  - apply touchInstructionDelivered_safe_ri; [eauto with fed|]. eapply seen_rely; [|done].
    apply Hs. constructor.
  - intros _ m2 HR2. apply IH; [eauto with fed|]. apply Hs'. by eapply rely_trans.
Qed.

Lemma collectInstructionsForCaller_safe ns callerID m :
  store_wf m → safe m (collectInstructionsForCaller ns callerID).
Proof.
  intros Hwf. unfold collectInstructionsForCaller. safe_step; [|safe_step]. apply safe_bind.
  { apply collect_provider_safe; [eauto with fed|done]. }
  intros out m2 HR2. safe_step; [|safe_step]. apply safe_bind; [|intros; safe_step].
  apply collect_consumer_safe; [eauto with fed|done].
Qed.

Lemma write_phase_safe m to msg (resv0 resv : Reservation) :
  store_wf m → seen m (cr_key resv0) (OResv resv0) → cr_meta resv = cr_meta resv0 →
  phase_move (rt_Phase (cr_status resv0)) to → safe m (write_phase to msg resv).
Proof.
  intros Hwf Hs Hm Hp. unfold write_phase. apply safe_bind; [|intros; safe_step].
  apply (safe_status _ resv0); [done|unfold cr_key, cr_Namespace, cr_Name; simpl; by rewrite Hm
    |simpl; by rewrite Hm|]. intros rv. apply safe_change_resv; [done|]; by apply resv_step_status.
Qed.

Lemma advanceReservationPhase_safe ns id from to msg m :
  store_wf m → (∀ p, from = PhaseEmpty ∨ p = from → phase_move p to) →
  safe m (advanceReservationPhase ns id from to msg).
Proof.
  intros Hwf Hp. unfold advanceReservationPhase, getReservation. safe_step; [|safe_step].
  safe_step; [safe_step|]. apply (write_phase_safe _ _ _ a); [eauto with fed|done|done|].
  apply Hp. apply andb_false_iff in Heqb as [Hb|Hb]; fed_bools;
    [left|right]; by apply dec_stable.
Qed.

Lemma createOrUpdateSecret_safe (sec : Secret) mutate m :
  store_wf m → (∀ x, cr_meta (mutate x) = cr_meta x) →
  safe m (createOrUpdateSecret sec mutate).
Proof.
  intros Hwf Hm. unfold createOrUpdateSecret. safe_step.
  - apply safe_bind; [|intros; safe_step].
    apply (safe_upd _ a); [done| | |intros; apply safe_change_secret].
    + unfold cr_key, cr_Namespace, cr_Name in *. rewrite Hm. simpl. congruence.
    + by rewrite Hm.
  - safe_step; [|safe_step]. apply safe_bind; [|intros; safe_step]. by apply safe_new.
Qed.

Lemma attach_first_safe id name items m :
  store_wf m → (∀ o, o ∈ items → seen m (cr_key o) (ORI o)) → safe m (attach_first id name items).
Proof.
  induction items as [|o items IH]; intros Hwf Hs; cbn [attach_first]; [by apply safe_ret|].
  cbv zeta. safe_step; [apply IH; [done|set_solver]|]. safe_step; [safe_step|].
  apply safe_bind; [|intros; safe_step].
  apply (safe_upd _ o); [apply Hs; constructor|done..|]. intros. by apply safe_change_ri.
Qed.

Lemma persistKubeconfigPayload_safe ns pi payload m :
  store_wf m → safe m (persistKubeconfigPayload ns pi payload).
Proof.
  intros Hwf. unfold persistKubeconfigPayload. cbv zeta. safe_step; [|safe_step].
  safe_step; [safe_step|]. apply safe_bind; [by apply createOrUpdateSecret_safe|].
  intros e m1 HR. safe_step; [safe_step|]. apply safe_bind.
  { unfold attachKubeconfigToPeer. safe_step; [|safe_step]. apply attach_first_safe; eauto with fed. }
  intros _ m2 HR2. apply safe_bind; [|intros; safe_step].
  apply advanceReservationPhase_safe; [eauto with fed|]. intros p [| ->]; [done|]. right. simpl. auto.
Qed.

Lemma markEnforced_safe_pi (o : ProviderInstruction) req m :
  store_wf m → seen m (cr_key o) (OPI o) → safe m (markInstructionEnforced o req).
Proof.
  intros Hwf Hs. unfold markInstructionEnforced. safe_step. apply safe_bind; [|intros; safe_step].
  apply (safe_status _ o); [by eapply seen_rely|done..|]. intros. by apply safe_change_pi.
Qed.

Lemma markEnforced_safe_ri (o : ReservationInstruction) req m :
  store_wf m → seen m (cr_key o) (ORI o) → safe m (markInstructionEnforced o req).
Proof.
  intros Hwf Hs. unfold markInstructionEnforced. safe_step. apply safe_bind; [|intros; safe_step].
  apply (safe_status _ o); [by eapply seen_rely|done..|]. intros. by apply safe_change_ri.
Qed.

Lemma applyPeerPayload_safe ns ri payload m : store_wf m → safe m (applyPeerPayload ns ri payload).
Proof.
  intros Hwf. unfold applyPeerPayload, getReservation. safe_step; [|safe_step]. cbv zeta.
  apply (write_phase_safe _ _ _ a); [eauto with fed|done|done|by right].
Qed.

Lemma applyProviderResult_safe ns requestID callerID pi req m :
  store_wf m → seen m (cr_key pi) (OPI pi) →
  safe m (applyProviderResult ns requestID callerID pi req).
Proof.
  intros Hwf Hs. unfold applyProviderResult. cbv zeta. safe_step; [|safe_step].
  safe_step; [safe_step|]. apply safe_bind.
  { safe_step; [by apply persistKubeconfigPayload_safe|safe_step]. }
  intros e1 m1 HR1. safe_step; [safe_step|]. apply safe_bind.
  { apply markEnforced_safe_pi; [eauto with fed|by eapply seen_rely]. }
  intros e2 m2 HR2. safe_step; [safe_step|]. apply safe_bind; [|intros; safe_step].
  safe_step; [|safe_step]. apply advanceReservationPhase_safe; [eauto with fed|by right].
Qed.

Lemma applyReservationResult_safe ns requestID callerID ri req m :
  store_wf m → seen m (cr_key ri) (ORI ri) →
  safe m (applyReservationResult ns requestID callerID ri req).
Proof.
  intros Hwf Hs. unfold applyReservationResult. cbv zeta. safe_step; [|safe_step].
  safe_step; [safe_step|]. apply safe_bind.
  { safe_step.
    - safe_step; [by apply applyPeerPayload_safe| |safe_step..].
      unfold applyUnpeerPayload. apply safe_bind; [|intros; safe_step].
      apply safe_bind; [apply advanceReservationPhase_safe; [done|]|intros; safe_step].
      intros p [| ->]; [done|by right].
    - safe_step; [|safe_step].
      apply safe_bind; [apply advanceReservationPhase_safe; [done|by right]|intros; safe_step]. }
  intros e1 m1 HR1. safe_step; [safe_step|]. apply safe_bind.
  { apply markEnforced_safe_ri; [eauto with fed|by eapply seen_rely]. }
  intros e2 m2 HR2. safe_step; safe_step.
Qed.

Lemma handleInstructionResult_safe s requestID callerID id body m :
  store_wf m → safe m (handleInstructionResult s requestID callerID id body).
Proof.
  intros Hwf. unfold handleInstructionResult. safe_step; [safe_step|]. safe_step; [|safe_step].
  safe_step; [safe_step|]. safe_step.
  - apply applyProviderResult_safe; eauto with fed.
  - safe_step; [|safe_step]. safe_step; [|safe_step; safe_step].
    apply applyReservationResult_safe; eauto with fed.
Qed.

(** ** Advertisement endpoints *)

(** What the Broker needs of a sizer. *)
Definition sizer_ok (f : Sizer) : Prop :=
  ∀ rl r, r ∈ f rl → counter (cr_Count r) ∧ (strict → known_type (cr_Type r)).

Lemma Size_sizer_ok : sizer_ok Size.
Proof.
  intros rl r. unfold Size. case_match; intros ->%list_elem_of_singleton;
    (split; [split; apply count_range|intros _; unfold known_type; simpl; auto]).
Qed.

(** The upsert and what may follow it: the continuation gets an object whose
    metadata and status are those of a stored version. *)
Lemma upsert_bind_safe {B} ns req res (f : Res ClusterAdvertisement → prog B) m :
  store_wf m → (strict → cadv_schema (spec_of_request req res)) →
  (∀ c c0 m1, Rely m m1 → seen m1 (cr_key c0) (OCadv c0) → cr_meta c = cr_meta c0 →
     cr_status c = cr_status c0 → safe m1 (f (Ok c))) →
  (∀ e m1, Rely m m1 → safe m1 (f (Fail e))) →
  safe m (upsertClusterAdvertisement ns req res ≫= f).
Proof.
  intros Hwf Hsp HOk HF Q HQ. unfold upsertClusterAdvertisement, CreateOrUpdate. cbv zeta.
  assert (∀ m0 m1 A (g : A → prog B) x, Rely m m0 → Rely m0 m1 → safe m1 (g x) → rg Rely Guar (g x) Q m1)
    as Hk.
  { intros m0 m1 A g x HR0 HR1 Hg. apply Hg. intros b m2 HR2. apply HQ.
    eapply rely_trans; [exact HR0|]. by eapply rely_trans. }
  apply rg_bind, rg_bind, rg_bind, (rg_get Rely Guar).
  - intros m1 a HR Hns Hn Hs.
    assert (seen m1 (cr_key a) (OCadv a)) as Hsa by (unfold cr_key; by rewrite Hns, Hn).
    assert (store_wf m1) as Hwf1 by eauto with fed.
    destruct (DeepEqual _ _).
    + simpl. apply (Hk m1 m1); [done|by apply rely_refl|]. by eapply (HOk _ a).
    + apply (safe_update a); [done..| | |].
      * intros rv gen. apply safe_change_cadv; [|by intros Hst _; apply Hsp].
        intros Hok. split; [exact Hok|]. unfold cadv_step. simpl. lia.
      * intros m2 rv gen HR2 a' Ha'. simpl. apply (Hk m1 m2); [done..|].
        eapply (HOk _ a'); [by eapply rely_trans|exact Ha'|done|done].
      * intros m2 e HR2. simpl. apply (Hk m1 m2); [done..|]. apply HF. by eapply rely_trans.
  - intros m1 e HR. destruct (IsNotFound e).
    + apply safe_create.
      * intros m2 rv uid t HR2. split; [|by intros Hst _; apply Hsp].
        intros _. simpl. unfold cadv_ok, counter, GoInt.int32_max; simpl. lia.
      * intros m2 rv uid t HR2 a' Ha'. simpl. apply (Hk m1 m2); [done..|].
        eapply (HOk _ a'); [by eapply rely_trans|exact Ha'|done|done].
      * intros m2 e2 HR2. simpl. apply (Hk m1 m2); [done..|]. apply HF. by eapply rely_trans.
    + simpl. apply (Hk m1 m1); [done|apply rely_refl; eauto with fed|]. by apply HF.
Qed.

Lemma validate_advertisement_ids req :
  validateAdvertisementRequest req = None → ar_ClusterID req ≠ "" ∧ ar_LiqoClusterID req ≠ "".
Proof. unfold validateAdvertisementRequest. by repeat case_decide. Qed.

Lemma handleAdvertisementUpsert_safe s requestID clusterID body m :
  sizer_ok (sv_sizer s) → store_wf m → safe m (handleAdvertisementUpsert s requestID clusterID body).
Proof.
  intros Hsz Hwf. unfold handleAdvertisementUpsert. safe_step; [|safe_step].
  safe_step; [safe_step|]. safe_step; [|safe_step]. safe_step; [safe_step|].
  assert (counter (cr_Count r) ∧ (strict → known_type (cr_Type r))) as [Hc Hty]
    by (apply (Hsz (ar_Resources a)); rewrite Heql; constructor).
  apply upsert_bind_safe; [done| | |intros; safe_step].
  { intros Hst. destruct (validate_advertisement_ids a); [done|]. split_and!; [done..|]. by apply Hty. }
  intros c c0 m1 HR Hs Hm Hst. apply safe_bind.
  - unfold touchClusterAdvertisementStatus. safe_step. apply safe_bind; [|intros; safe_step].
    apply (safe_status _ c0); [by eapply seen_rely|unfold cr_key, cr_Namespace, cr_Name; simpl; by rewrite Hm
      |simpl; by rewrite Hm|].
    intros rv. apply safe_change_cadv; [|done]. intros Hok. rewrite <-Hst in Hok.
    split; [by apply touched_ok|]. unfold cadv_step. simpl. rewrite Hst. lia.
  - intros _ m2 HR2. apply safe_bind; [|intros; safe_step].
    apply collectInstructionsForCaller_safe. eauto with fed.
Qed.

(** ** The reservation reconciler *)
Section Controller.
Implicit Types resv : Reservation.

Lemma advancePhase_safe m resv next msg :
  store_wf m → seen m (cr_key resv) (OResv resv) → phase_move (rt_Phase (cr_status resv)) next →
  safe m (advancePhase resv next msg).
Proof.
  intros Hwf Hs Hp. unfold advancePhase. safe_step; [safe_step|].
  apply safe_bind; [|intros; safe_step].
  apply (safe_status _ resv); [done..|]. intros rv. apply safe_change_resv; [done|]; by apply resv_step_status.
Qed.

Lemma anyOtherSibling_safe m resv counts : store_wf m → safe m (anyOtherSibling resv counts).
Proof. intros Hwf. unfold anyOtherSibling. safe_step; safe_step. Qed.

Lemma kubeconfigSecretExists_safe m resv : store_wf m → safe m (kubeconfigSecretExists resv).
Proof. intros Hwf. unfold kubeconfigSecretExists. safe_step; safe_step. Qed.

(** The instructions about a Reservation satisfy their schema when it does. *)
Lemma resv_count resv : schema (OResv resv) → 0 ≤ rs_ChunkCount (cr_spec resv) ≤ GoInt.int32_max.
Proof. intros (_ & _ & _ & _ & _ & ? & _). lia. Qed.

Lemma consumerInstruction_schema resv name kind last ref exp :
  schema (OResv resv) → ri_schema (cr_spec (consumerInstruction resv name kind last ref exp)).
Proof. intros Hr. pose proof (resv_count resv Hr). destruct Hr as (? & ? & _). split; [done|by split]. Qed.

Lemma providerCleanup_schema resv :
  schema (OResv resv) → pi_schema (cr_spec (providerCleanup resv)).
Proof. intros Hr. pose proof (resv_count resv Hr). destruct Hr as (? & _ & _ & ? & _). split; [done|by split]. Qed.

Lemma generateKubeconfig_schema resv :
  schema (OResv resv) → pi_schema (cr_spec (generateKubeconfig resv)).
Proof. intros Hr. pose proof (resv_count resv Hr). destruct Hr as (? & _ & _ & ? & _). split; [done|by split]. Qed.

(** Where the schema is kept, [resv] is a version that was stored. *)
Definition source (m : store) (resv : Reservation) : Prop :=
  strict → ∃ k, seen m k (OResv resv).

Lemma seen_source m k resv : seen m k (OResv resv) → source m resv.
Proof. by exists k. Qed.

Lemma source_rely m m1 resv : source m resv → Rely m m1 → source m1 resv.
Proof. intros Hs HR [k Hk]%Hs. exists k. by eapply seen_rely. Qed.

Lemma source_typed m m1 resv : source m resv → Rely m m1 → strict → typed m1 → schema (OResv resv).
Proof. intros Hs HR [k Hk]%Hs Hty. by eapply seen_typed. Qed.

Lemma create_ri_safe m resv (ri : ReservationInstruction) :
  source m resv → (schema (OResv resv) → ri_schema (cr_spec ri)) → safe m (create ri).
Proof.
  intros Hs Hri. apply safe_new. intros m1 rv uid t HR. split; [done|]. intros Hst Hty. apply Hri.
  by eapply source_typed.
Qed.

Lemma ensureInstruction_safe m resv ri :
  store_wf m → source m resv → (schema (OResv resv) → ri_schema (cr_spec ri)) →
  safe m (ensureInstruction resv ri).
Proof.
  intros Hwf Hs Hri. unfold ensureInstruction.
  apply safe_bind; [by apply (create_ri_safe _ resv)|intros; safe_step].
Qed.

Lemma ensureSharedRI_safe m resv ri :
  store_wf m → source m resv → (schema (OResv resv) → ri_schema (cr_spec ri)) →
  safe m (ensureSharedReservationInstruction ri).
Proof.
  intros Hwf Hs Hri. unfold ensureSharedReservationInstruction.
  apply safe_bind; [by apply (create_ri_safe _ resv)|intros; safe_step].
Qed.

Lemma ensureSharedPI_safe m resv pi :
  store_wf m → source m resv → (schema (OResv resv) → pi_schema (cr_spec pi)) →
  safe m (ensureSharedProviderInstruction pi).
Proof.
  intros Hwf Hseen Hpi. unfold ensureSharedProviderInstruction. apply safe_bind.
  { apply safe_new. intros m1 rv uid t HR. split; [done|]. intros Hst Hty. apply Hpi. by eapply source_typed. }
  intros x m1 HR. safe_step; [safe_step|]. safe_step; [|safe_step].
  apply safe_bind_get; [|intros; safe_step]. intros ex m2 HR2 _ _ Hs. safe_step; [|safe_step].
  assert (Rely m m2) as HR02 by (by eapply rely_trans).
  apply (safe_bind_upd _ ex); [done..| | |intros; safe_step].
  { intros rv gen m3 HR3. split; [done|]. intros Hst Hty _. apply Hpi.
    eapply source_typed; [exact Hseen|by eapply rely_trans|done..]. }
  intros rv gen m3 HR3 a' Ha'. safe_step. apply safe_bind; [|intros; safe_step].
  apply (safe_status _ a'); [by eapply seen_rely|done..|]. intros. by apply safe_change_pi.
Qed.

Lemma emitConsumerCleanup_safe m resv owned :
  store_wf m → source m resv → safe m (emitConsumerCleanup resv owned).
Proof.
  intros Hwf Hs. unfold emitConsumerCleanup. apply safe_bind; [by apply anyOtherSibling_safe|].
  intros x m1 HR. safe_step; [|safe_step]. cbv zeta.
  pose proof (source_rely _ _ _ Hs HR) as Hs1.
  safe_step; [eapply ensureInstruction_safe|eapply ensureSharedRI_safe];
    eauto using consumerInstruction_schema with fed.
Qed.

Lemma handlePending_safe m resv :
  store_wf m → seen m (cr_key resv) (OResv resv) →
  rt_Phase (cr_status resv) = PhaseEmpty ∨ rt_Phase (cr_status resv) = ReservationPhasePending →
  safe m (handlePending resv).
Proof.
  intros Hwf Hs Hp. unfold handlePending. apply safe_bind; [by apply kubeconfigSecretExists_safe|].
  intros x m1 HR. safe_step; [|safe_step]. safe_step.
  - apply safe_bind; [|intros; safe_step].
    apply advancePhase_safe; [eauto with fed|by eapply seen_rely|right; simpl; tauto].
  - apply safe_bind.
    { eapply ensureSharedPI_safe; [eauto with fed|by eapply seen_source, seen_rely|
        apply generateKubeconfig_schema]. }
    intros e m2 HR2. safe_step; [safe_step|]. apply safe_bind; [|intros; safe_step].
    apply advancePhase_safe; [eauto with fed| |by right].
    eapply seen_rely; [done|]. by eapply rely_trans.
Qed.

Lemma handleGeneratingKubeconfig_safe m r resv :
  store_wf m → seen m (cr_key resv) (OResv resv) →
  rt_Phase (cr_status resv) = ReservationPhaseGeneratingKubeconfig →
  safe m (handleGeneratingKubeconfig r resv).
Proof.
  intros Hwf Hs Hp. unfold handleGeneratingKubeconfig.
  apply safe_bind; [by apply kubeconfigSecretExists_safe|].
  intros x m1 HR. safe_step; [|safe_step]. safe_step; [|safe_step].
  apply safe_bind; [|intros; safe_step].
  apply advancePhase_safe; [eauto with fed|by eapply seen_rely|right; simpl; tauto].
Qed.

Lemma handleKubeconfigReady_safe m resv :
  store_wf m → seen m (cr_key resv) (OResv resv) →
  rt_Phase (cr_status resv) = ReservationPhaseKubeconfigReady → safe m (handleKubeconfigReady resv).
Proof.
  intros Hwf Hs Hp. unfold handleKubeconfigReady. apply safe_bind.
  { eapply ensureInstruction_safe; [done|by eapply seen_source|apply consumerInstruction_schema]. }
  intros e m1 HR. safe_step; [safe_step|]. apply safe_bind; [|intros; safe_step].
  apply advancePhase_safe; [eauto with fed|by eapply seen_rely|by right].
Qed.

Lemma handleUnpeering_safe m resv :
  store_wf m → source m resv → safe m (handleUnpeering resv).
Proof.
  intros Hwf Hs. unfold handleUnpeering. apply safe_bind; [by apply anyOtherSibling_safe|].
  intros x m1 HR. safe_step; [|safe_step]. apply safe_bind.
  { eapply ensureInstruction_safe; [eauto with fed|by eapply source_rely|apply consumerInstruction_schema]. }
  intros e m2 HR2. safe_step; safe_step.
Qed.

Lemma teardownCredential_safe m r resv gc :
  store_wf m → source m resv → safe m (teardownCredential r resv gc).
Proof.
  intros Hwf Hs. unfold teardownCredential. apply safe_bind; [by apply kubeconfigSecretExists_safe|].
  intros x m1 HR. safe_step; [|safe_step]. safe_step; [|safe_step].
  apply safe_bind; [apply emitConsumerCleanup_safe; eauto using source_rely with fed|]. intros e m2 HR2.
  safe_step; [safe_step|]. apply safe_bind; [apply anyOtherSibling_safe; eauto with fed|].
  intros o m3 HR3. safe_step; [|safe_step]. safe_step; [safe_step|].
  apply safe_bind.
  { eapply ensureSharedPI_safe; [eauto with fed| |apply providerCleanup_schema].
    eapply source_rely; [exact Hs|]. eapply rely_trans; [exact HR|]. by eapply rely_trans. }
  intros e2 m4 HR4.
  safe_step; [safe_step|]. apply safe_bind.
  - unfold deleteKubeconfigSecret. apply safe_bind; [|intros; safe_step].
    apply safe_del. intros. apply safe_change_secret.
  - intros e3 m5 HR5. safe_step; safe_step.
Qed.

Lemma collectTerminal_safe m r resv k t js :
  store_wf m → seen m k (OResv resv) → safe m (collectTerminal r resv t js).
Proof.
  intros Hwf Hs. unfold collectTerminal. cbv zeta. apply safe_bind.
  { safe_step; [safe_step|]. safe_step; safe_step. }
  intros gc m1 HR. safe_step.
  - apply safe_bind; [|intros; safe_step].
    apply safe_del. intros. apply safe_change_resv; [done|]; apply resv_step_delete.
  - safe_step. apply safe_bind.
    + safe_step; [safe_step|]. apply (release_loop_safe _ _ k); [eauto with fed|].
      eapply seen_rely; [done|]. by eapply rely_trans.
    + intros e m3 HR3. safe_step; [safe_step|]. apply teardownCredential_safe; [eauto with fed|].
      eapply seen_source, seen_rely; [exact Hs|]. eapply rely_trans; [exact HR|]. by eapply rely_trans.
Qed.

Lemma handleTerminal_safe m r resv :
  store_wf m → seen m (cr_key resv) (OResv resv) → safe m (handleTerminal r resv).
Proof.
  intros Hwf Hs. unfold handleTerminal. safe_step; [by eapply collectTerminal_safe|].
  safe_step. apply (safe_bind_status _ resv); [by eapply seen_rely|done..| | |intros; safe_step].
  - intros rv. apply safe_change_resv; [done|]; apply resv_step_status. by left.
  - intros rv m2 HR2 a' Ha'. eapply collectTerminal_safe; [eauto with fed|exact Ha'].
Qed.

Lemma finalizer_loop_safe attempts ns name m : store_wf m → safe m (finalizer_loop attempts ns name).
Proof.
  revert m. induction attempts as [|n IH]; intros m Hwf; cbn [finalizer_loop]; [by apply safe_ret|].
  safe_step; [|safe_step]. unfold RemoveFinalizer. safe_step; [|safe_step].
  apply safe_bind.
  - apply (safe_upd _ a); [done..|]. intros rv gen. apply safe_change_resv; [done|]; by apply resv_step_update.
  - intros x m2 HR2. safe_step; [safe_step|]. safe_step; [|safe_step]. apply IH. eauto with fed.
Qed.

Lemma handleDeletion_safe m resv :
  store_wf m → seen m (cr_key resv) (OResv resv) → safe m (handleDeletion resv).
Proof.
  intros Hwf Hs. unfold handleDeletion. safe_step; [|safe_step]. apply safe_bind.
  { safe_step; [safe_step|]. by eapply release_loop_safe. }
  intros e m1 HR. safe_step; [safe_step|].
  apply safe_bind; [apply emitConsumerCleanup_safe; eauto using seen_source, seen_rely with fed|]. intros e2 m2 HR2.
  safe_step; [safe_step|]. apply finalizer_loop_safe. eauto with fed.
Qed.

Lemma checkExpired_safe m resv :
  store_wf m → seen m (cr_key resv) (OResv resv) → safe m (checkExpired resv).
Proof.
  intros Hwf Hs. unfold checkExpired. safe_step; [|safe_step]. safe_step; [safe_step|].
  safe_step. safe_step; [safe_step; safe_step|]. apply safe_bind; [|intros; safe_step].
  apply advancePhase_safe; [eauto with fed|by eapply seen_rely|by right].
Qed.

Lemma checkProviderAvailable_safe m resv :
  store_wf m → seen m (cr_key resv) (OResv resv) → safe m (checkProviderAvailable resv).
Proof.
  intros Hwf Hs. unfold checkProviderAvailable. cbv zeta. safe_step; [safe_step|].
  safe_step; [safe_step|]. apply safe_bind; [apply safe_get|]. intros x m1 HR.
  safe_step; [safe_step|]. apply safe_bind.
  { safe_step; [apply emitConsumerCleanup_safe; eauto using seen_source, seen_rely with fed|safe_step]. }
  intros c m2 HR2. safe_step; [safe_step|]. apply safe_bind; [|intros; safe_step].
  apply advancePhase_safe; [eauto with fed| |by right].
  eapply seen_rely; [done|]. by eapply rely_trans.
Qed.

Lemma dispatch_safe m r resv :
  store_wf m → seen m (cr_key resv) (OResv resv) → safe m (dispatch r resv).
Proof.
  intros Hwf Hs. unfold dispatch.
  destruct (rt_Phase (cr_status resv)) eqn:Hp;
    eauto using seen_source, handlePending_safe, handleGeneratingKubeconfig_safe, handleKubeconfigReady_safe,
      handleUnpeering_safe, handleTerminal_safe, safe_ret.
Qed.

Lemma reconcileGuarded_safe m r resv :
  store_wf m → seen m (cr_key resv) (OResv resv) →
  safe m (c ← checkExpired resv;
          if (c.1 : bool) then mret (after c.2, None)
          else a ← checkProviderAvailable resv;
               match a with
               | (true, e) => mret (no_requeue, e)
               | (false, Some e) => mret (no_requeue, Some e)
               | (false, None) => dispatch r resv
               end).
Proof.
  intros Hwf Hs. apply safe_bind; [by apply checkExpired_safe|]. intros c m1 HR.
  safe_step; [safe_step|].
  apply safe_bind; [apply checkProviderAvailable_safe; [eauto with fed|by eapply seen_rely]|].
  intros [b e] m2 HR2. safe_step; [safe_step|]. safe_step; [safe_step|].
  apply dispatch_safe; [eauto with fed|]. eapply seen_rely; [done|]. by eapply rely_trans.
Qed.

Lemma reconcileLive_safe m r resv :
  store_wf m → seen m (cr_key resv) (OResv resv) → safe m (reconcileLive r resv).
Proof.
  intros Hwf Hs Q HQ. unfold reconcileLive. apply rg_bind.
  assert (∀ (x : Reservation * option Err) m1, Rely m m1 →
    (x.2 = None → seen m1 (cr_key x.1) (OResv x.1)) →
    rg Rely Guar
      (match x.2 with
       | Some e => mret (fails "backfill reservation expiry" e)
       | None => c ← checkExpired x.1;
           if (c.1 : bool) then mret (after c.2, None)
           else a ← checkProviderAvailable x.1;
                match a with
                | (true, e) => mret (no_requeue, e)
                | (false, Some e) => mret (no_requeue, Some e)
                | (false, None) => dispatch r x.1
                end
       end) Q m1) as Hk.
  { intros [rs [e|]] m1 HR Hx; simpl in *.
    - apply HQ, HR.
    - apply reconcileGuarded_safe; [eauto with fed|by apply Hx|].
      intros o m2 HR2. apply HQ. by eapply rely_trans. }
  unfold ensureExpiry. cbv zeta. destruct (rt_ExpiresAt (cr_status resv)).
  - apply (Hk (resv, None)); [by apply rely_refl|done].
  - apply rg_bind, (safe_status_update resv); [done|done|done| | |].
    + intros rv. apply safe_change_resv; [done|]; apply resv_step_status. left. simpl. by case_match.
    + intros m1 rv HR a' Ha'. by apply (Hk (a', None)).
    + intros m1 e HR. by apply (Hk (_, Some e)).
Qed.

Lemma Reconcile_safe m r ns name : store_wf m → safe m (Reconcile r ns name).
Proof.
  intros Hwf. unfold Reconcile. safe_step; [|safe_step].
  safe_step; [apply handleDeletion_safe; eauto with fed|].
  unfold AddFinalizer. destruct (ContainsFinalizer a ReservationFinalizer); [apply reconcileLive_safe; eauto with fed|].
  apply (safe_bind_upd _ a); [done..| | |intros; safe_step].
  - intros rv gen. apply safe_change_resv; [done|]; by apply resv_step_update.
  - intros rv gen m2 HR2 a' Ha'. apply reconcileLive_safe; eauto with fed.
Qed.
End Controller.

(** ** Housekeeping *)
Lemma reconcileAdvertisement_safe m cfg ns name : store_wf m → safe m (reconcileAdvertisement cfg ns name).
Proof.
  intros Hwf. unfold reconcileAdvertisement. safe_step; [|safe_step]. cbv zeta. apply safe_bind.
  { safe_step; [safe_step; safe_step|safe_step]. }
  intros stale m2 HR2. apply safe_bind; [|intros; safe_step]. safe_step; [|safe_step].
  apply safe_bind; [|intros; safe_step].
  apply (safe_status _ a); [by eapply seen_rely|done..|].
  intros rv. apply safe_change_cadv; [|done]. intros Hok. split; [by apply freshened_ok|].
  unfold cadv_step. simpl. lia.
Qed.

Lemma failParent_safe m ns id name : store_wf m → safe m (failParentReservationOnExpiry ns id name).
Proof.
  intros Hwf. unfold failParentReservationOnExpiry. safe_step; [safe_step|]. safe_step; [|safe_step].
  safe_step; [safe_step|]. apply safe_bind; [|intros; safe_step].
  apply (safe_status _ a); [done..|]. intros rv.
  apply safe_change_resv; [done|]; apply resv_step_status. by right.
Qed.

Lemma reconcileInstruction_safe {S} `{!Resource S InstructionStatus} `{!InstructionSpec S} m cfg ns name :
  (∀ m' (a a' : CR S InstructionStatus), cr_spec a' = cr_spec a → safe_change m' a a') →
  store_wf m → safe m (reconcileInstruction (S:=S) cfg ns name).
Proof.
  intros Hc Hwf. unfold reconcileInstruction. safe_step; [|safe_step]. cbv zeta.
  assert (∀ m1, store_wf m1 → safe m1 (d ← delete_cr a;
    mret (no_requeue, match d with Ok _ => None | Fail e => IgnoreNotFound e end))) as Hdel.
  { intros m0 Hwf1. apply safe_bind; [|intros; safe_step]. apply safe_del. intros. by apply Hc. }
  safe_step.
  - safe_step.
    + apply safe_bind; [safe_step; [safe_step; safe_step|safe_step]|].
      intros gc m2 HR2. safe_step; [apply Hdel; eauto with fed|]. safe_step. safe_step.
    + safe_step; [|safe_step; safe_step]. safe_step. safe_step; [safe_step; safe_step|].
      apply safe_bind; [apply failParent_safe; eauto with fed|]. intros e m3 HR3.
      safe_step; [safe_step|]. apply Hdel. eauto with fed.
  - safe_step. apply safe_bind; [|intros; safe_step].
    apply (safe_status _ a); [by eapply seen_rely|done..|]. intros. by apply Hc.
Qed.

(** ** The Broker as a pool of programs *)
Definition discard {A} (p : prog A) : prog unit := p ≫= λ _, mret tt.

(** Everything the Broker process runs against the API server: its HTTP
    handlers, whatever the caller sends, and its four reconcilers.  Only the
    schema of a new Reservation asks for a registry that heartbeats filled. *)
Inductive broker_program `{GoRuntime} (s : Server) : prog unit → Prop :=
| bp_create reg rid cid hdr body :
    (strict → registry_wf reg) →
    broker_program s (discard (handleReservationCreate s reg rid cid hdr body))
| bp_release rid cid name chunks :
    broker_program s (discard (handleReservationRelease s rid cid name chunks))
| bp_get rid cid name : broker_program s (discard (handleReservationGet s rid cid name))
| bp_list rid cid : broker_program s (discard (handleReservationList s rid cid))
| bp_instructions rid cid : broker_program s (discard (handleInstructionsList s rid cid))
| bp_result rid cid id body : broker_program s (discard (handleInstructionResult s rid cid id body))
| bp_advertise rid cid body : broker_program s (discard (handleAdvertisementUpsert s rid cid body))
| bp_snapshot rid cid path : broker_program s (discard (handleAdvertisementGet s rid path cid))
| bp_nodegroups reg rid cid : broker_program s (discard (handleNodeGroupsList s reg rid cid))
| bp_heartbeat reg rid cid body : broker_program s (discard (handleHeartbeat reg rid cid body))
| bp_reservation r ns name : broker_program s (discard (Reconcile r ns name))
| bp_advertisement cfg ns name : broker_program s (discard (reconcileAdvertisement cfg ns name))
| bp_provider_instruction cfg ns name :
    broker_program s (discard (reconcileInstruction (S:=ProviderInstructionSpec) cfg ns name))
| bp_reservation_instruction cfg ns name :
    broker_program s (discard (reconcileInstruction (S:=ReservationInstructionSpec) cfg ns name)).

Lemma discard_safe {A} m (p : prog A) : safe m p → rg Rely Guar (discard p) (λ _ _, True) m.
Proof. intros Hp. apply rg_bind, Hp. done. Qed.

Lemma broker_program_safe `{GoRuntime} s p m :
  sizer_ok (sv_sizer s) → broker_program s p → store_wf m → rg Rely Guar p (λ _ _, True) m.
Proof.
  intros Hsz Hp Hwf. destruct Hp; apply discard_safe.
  - by apply handleReservationCreate_safe.
  - by apply handleReservationRelease_safe.
  - unfold handleReservationGet. safe_step; [safe_step|]. safe_step; [|safe_step]. safe_step; safe_step.
  - unfold handleReservationList. safe_step; safe_step.
  - unfold handleInstructionsList.
    apply safe_bind; [by apply collectInstructionsForCaller_safe|intros; safe_step].
  - by apply handleInstructionResult_safe.
  - by apply handleAdvertisementUpsert_safe.
  - unfold handleAdvertisementGet. safe_step; [safe_step|]. safe_step; [|safe_step]. safe_step; safe_step.
  - unfold handleNodeGroupsList. safe_step; [|safe_step]. apply safe_bind.
    { unfold ownByProvider. safe_step; safe_step. }
    intros o m4 HR. safe_step; [|safe_step]. safe_step. safe_step. safe_step.
  - unfold handleHeartbeat. safe_step; [|safe_step]. safe_step; [safe_step|].
    safe_step; [|safe_step]. safe_step. safe_step. safe_step.
  - by apply Reconcile_safe.
  - by apply reconcileAdvertisement_safe.
  - apply reconcileInstruction_safe; [|done]. intros m' a a' E. apply safe_change_pi. by rewrite E.
  - apply reconcileInstruction_safe; [|done]. intros m' a a' E. apply safe_change_ri. by rewrite E.
Qed.

(** *** What holds in every reachable state *)
Section Reachable.
Context `{GoRuntime} (s : Server) (m m1 : store) (ts : list (prog unit)).
Hypothesis sizer_counts : sizer_ok (sv_sizer s).
Hypothesis start_wf : store_wf m.
Hypothesis start_valid : valid m.
Hypothesis reached : rtc (pool_step Rely (broker_program s)) ([], m) (ts, m1).

Lemma reachable_valid : store_wf m1 ∧ valid m1.
Proof.
  assert (∀ p m, broker_program s p → store_wf m → rg Rely Guar p (λ _ _, True) m) as Hall
    by (intros; by eapply broker_program_safe).
  destruct (pool_safe Rely Guar _ Hall _ _ start_wf reached) as [[Hwf1 _] [_ [Hv1 _]]]. auto.
Qed.

Lemma reachable_typed : strict → typed m → typed m1.
Proof.
  assert (∀ p m, broker_program s p → store_wf m → rg Rely Guar p (λ _ _, True) m) as Hall
    by (intros; by eapply broker_program_safe).
  by destruct (pool_safe Rely Guar _ Hall _ _ start_wf reached) as [_ [_ [_ Ht]]].
Qed.

Lemma reachable_steps i r k x m2 :
  ts !! i = Some (Call r k) → cached m1 r x m2 → steps_ok m1 m2.
Proof.
  assert (∀ p m, broker_program s p → store_wf m → rg Rely Guar p (λ _ _, True) m) as Hall
    by (intros; by eapply broker_program_safe).
  intros Hi Hc.
  destruct (pool_request_guarantee Rely Guar _ Hall _ _ _ _ _ _ _ _ start_wf reached Hi Hc) as [_ Hno].
  apply Hno, reachable_valid.
Qed.

(** C1: Any number of concurrent HTTP requests and reconciliations, interleaved
    at every API call, over stale reads and failing requests and beside other
    well-behaved writers, keep every advertisement's counters consistent: total
    and reserved are non-negative int32 values, available never exceeds what is
    free, and no request that raises the reserved count leaves it above the
    total, so a provider is never over-committed by the Broker. *)
Theorem broker_never_overcommits :
  (∀ k c, objs m1 !! k = Some (OCadv c) → cadv_ok (cr_status c)) ∧
  (∀ i r k x m2, ts !! i = Some (Call r k) → cached m1 r x m2 →
     ∀ key c c', objs m1 !! key = Some (OCadv c) → objs m2 !! key = Some (OCadv c') →
       ca_ReservedChunks (cr_status c) < ca_ReservedChunks (cr_status c') →
       ca_ReservedChunks (cr_status c') ≤ ca_TotalChunks (cr_status c')).
Proof.
  destruct reachable_valid as [Hwf1 Hv1]. split.
  - intros k c Hk. apply (Hv1 (OCadv c)). by apply (wf_key _ Hwf1 k).
  - intros i r k x m2 Hi Hc key c c' Hk Hk'. exact (reachable_steps _ _ _ _ _ Hi Hc _ _ _ Hk Hk').
Qed.


(** C10: Under the same concurrency, when callers are authenticated and
    registered through validated heartbeats, every object in the Broker's
    store, and every object any pending request of the Broker would store,
    satisfies the schema of its custom resource definition: identifiers are not
    empty, chunk types are the two known ones, a Reservation holds at least one
    chunk, an instruction names its reservation and its target. *)
Theorem broker_writes_well_typed :
  strict → typed m →
  (∀ k o, objs m1 !! k = Some o → schema o) ∧
  (∀ i r k x m2, ts !! i = Some (Call r k) → cached m1 r x m2 →
     ∀ key o, objs m2 !! key = Some o → schema o).
Proof.
  intros Hst Hty. pose proof (reachable_typed Hst Hty) as Ht1. destruct reachable_valid as [Hwf1 _].
  split; [intros k o Hk; apply Ht1; by apply (wf_key _ Hwf1 k)|].
  assert (∀ p m, broker_program s p → store_wf m → rg Rely Guar p (λ _ _, True) m) as Hall
    by (intros; by eapply broker_program_safe).
  intros i r k x m2 Hi Hc key o Ho.
  destruct (pool_request_guarantee Rely Guar _ Hall _ _ _ _ _ _ _ _ start_wf reached Hi Hc)
    as [(He & _ & Ht) _].
  apply (Ht Hst Ht1). destruct He as (Hwf2 & _). by apply (wf_key _ Hwf2 key).
Qed.
End Reachable.
End BrokerSafety.

(** ** A concrete run *)
Module SafetyWitness.
#[local] Existing Instance MilliPlatform.platform.
#[local] Instance runtime : GoRuntime :=
  {| range_keys := λ _ l, l; rand_Intn := λ _ _, 0%nat |}.

#[local] Instance anyone : Discipline := False.
Definition front_end : Discipline := True.

Definition srv1 : Server := mkServer "broker" Size (24 * Hour).

(** A provider with three chunks, one of them reserved, not seen lately. *)
Definition cadv1 : ClusterAdvertisement :=
  mkCR (meta_set_version 7 "uid-7" (meta_named "prov" "broker"))
    (mkCadvSpec "prov" "liqo-prov" ChunkTypeStandard ∅ None ∅ None [] ∅ ∅ false "")
    (mkCadvStatus 1 None true 3 1 2 []).

Definition m0 : store := store_of [OCadv cadv1] 7.

Lemma m0_wf : store_wf m0.
Proof.
  apply store_of_wf; [repeat constructor; vm_compute; discriminate|].
  apply NoDup_singleton.
Qed.

Lemma m0_valid : valid m0.
Proof.
  intros o ->%list_elem_of_singleton. repeat split; vm_compute; discriminate.
Qed.

(** The freshness reconciler is started and reads the advertisement; its next
    request writes the status. *)
Lemma broker_never_overcommits_witness :
  ∃ ts, rtc (pool_step Rely (broker_program srv1)) ([], m0) (ts, m0) ∧ length ts = 1%nat ∧
    ∀ k c, objs m0 !! k = Some (OCadv c) → cadv_ok (cr_status c).
Proof.
  pose (p := discard (reconcileAdvertisement 0 "broker" "prov")).
  assert (∃ ts, rtc (pool_step Rely (broker_program srv1)) ([], m0) (ts, m0) ∧ length ts = 1%nat)
    as (ts & Hrtc & Hlen).
  { eexists. split.
    - eapply rtc_l; [apply (step_start _ _ _ _ p); constructor|].
      eapply rtc_l; [|apply rtc_refl].
      eapply (step_request _ _ _ m0 0%nat (Get (KClusterAdvertisement, "broker", "prov")) _
        (Ok (OCadv cadv1))); [reflexivity|].
      split; [reflexivity|]. split; [reflexivity|constructor].
    - reflexivity. }
  exists ts. split_and!; [exact Hrtc|exact Hlen|].
  apply (broker_never_overcommits srv1 m0 m0 ts Size_sizer_ok m0_wf m0_valid Hrtc).
Defined.

(** An authenticated consumer, known by its heartbeat, asks for a chunk; the
    Broker has read the advertisement. *)
Definition registry1 : ConsumerRegistry :=
  {["cons" := mkEntry "cons" "liqo-cons" 0 (mkPolicy "") "" "" ∅ "" "" GoFloat.fzero GoFloat.fzero false]}.
Definition request1 : ReservationRequest :=
  mkResvReq "prov" "" 1 ChunkTypeStandard [].

Lemma broker_writes_well_typed_witness :
  ∃ ts, rtc (pool_step (Rely (caller:=front_end)) (broker_program (caller:=front_end) srv1)) ([], m0) (ts, m0) ∧
    length ts = 1%nat ∧ ∀ k o, objs m0 !! k = Some o → schema o.
Proof.
  pose (p := discard (handleReservationCreate srv1 registry1 "rid" "cons" "res-1" (Ok request1))).
  assert (broker_program (caller:=front_end) srv1 p) as Hp.
  { constructor. intros _ k e He. unfold registry1 in He.
    apply lookup_singleton_Some in He as [<- <-]. by split_and!. }
  assert (∃ ts, rtc (pool_step (Rely (caller:=front_end)) (broker_program (caller:=front_end) srv1))
    ([], m0) (ts, m0) ∧ length ts = 1%nat) as (ts & Hrtc & Hlen).
  { eexists. split.
    - eapply rtc_l; [by apply (step_start _ _ _ _ p)|].
      eapply rtc_l; [|apply rtc_refl].
      eapply (step_request _ _ _ m0 0%nat (Get (KClusterAdvertisement, "broker", "prov")) _
        (Ok (OCadv cadv1))); [reflexivity|].
      split; [reflexivity|]. split; [reflexivity|constructor].
    - reflexivity. }
  exists ts. split_and!; [exact Hrtc|exact Hlen|].
  apply (broker_writes_well_typed (caller:=front_end) srv1 m0 m0 ts Size_sizer_ok m0_wf m0_valid Hrtc I).
  intros o ->%list_elem_of_singleton. split_and!; [discriminate..|by left].
Defined.

(** A peered Reservation that does not carry the finalizer yet. *)
Definition resv1 : Reservation :=
  mkCR (meta_set_version 9 "uid-9" (meta_named "res-1" "broker"))
    (mkResvSpec "cons" "liqo-cons" "prov" "liqo-prov" 1 ChunkTypeStandard ∅ [])
    (mkResvStatus 1 ReservationPhasePeered (Some 0) (Some (24 * Hour)) [] None "" []).

Definition m9 : store := store_of [OCadv cadv1; OResv resv1] 9.

Lemma m9_wf : store_wf m9.
Proof.
  apply store_of_wf; [repeat constructor; vm_compute; discriminate|].
  apply NoDup_cons; split; [|apply NoDup_singleton]. by intros ?%list_elem_of_singleton.
Qed.

Lemma m9_valid : valid m9.
Proof.
  intros o [->|[->|?%elem_of_nil]%elem_of_cons]%elem_of_cons;
    [repeat split; vm_compute; discriminate..|done].
Qed.

Definition key1 : Kind * string * string := (KReservation, "broker", "res-1").

End SafetyWitness.
