(* ===== verification/Ledger.v ===== *)
(** * The chunk ledger

    On a server that answers every request, a provider's [reservedChunks] is
    exactly the sum of the chunk counts of its reservations whose chunks have
    not been given back.  This file defines the ledger, shows how each kind of
    write moves it, and gives the programs that leave it alone ([neutral]);
    [ReservationProofs] and [ReconcileProofs] use it for the handlers. *)
From stdpp Require Import base gmap strings list.
From Stdlib Require Import ZArith Lia.
From S2P Require Import Prelude ApiTypes Kube BrokerInvariant.

Open Scope Z_scope.

(** The kinds the ledger is about, stores that agree on them, and programs that
    leave them alone. *)
Definition bookkept (kd : Kind) : Prop := kd = KReservation ∨ kd = KClusterAdvertisement.

Abbreviation booked := (λ k : Kind * string * string, bookkept k.1.1).
Abbreviation books_same := (same_on booked).
Abbreviation neutral := (spares booked).

(** Whoever calls: the schema is not asked for. *)
#[local] Instance anyone : Discipline := False.

Section Ledger.
Context `{Platform}.

(** What one object charges to provider [p] of namespace [ns]. *)
Definition resv_charge (ns p : string) (r : Reservation) : Z :=
  if decide (cr_Namespace r = ns ∧ rs_ProviderClusterID (cr_spec r) = p) then
    if IsChunksReleased r then 0 else rs_ChunkCount (cr_spec r)
  else 0.

Definition charge (ns p : string) (o : Obj) : Z :=
  match o with OResv r => resv_charge ns p r | _ => 0 end.

Definition held_in (ns p : string) (os : gmap Key Obj) : Z :=
  map_fold (λ _ o acc, charge ns p o + acc) 0 os.
Definition held (ns p : string) (m : store) : Z := held_in ns p (objs m).

(** The books balance: every stored advertisement reserves what is held. *)
Definition ledger (m : store) : Prop :=
  ∀ ns p c, objs m !! (KClusterAdvertisement, ns, p) = Some (OCadv c) →
    ca_ReservedChunks (cr_status c) = held ns p m.

Lemma held_in_insert_new ns p k o os :
  os !! k = None → held_in ns p (<[k := o]> os) = charge ns p o + held_in ns p os.
Proof.
  intros Hk. unfold held_in.
  apply (map_fold_insert_L (λ _ o acc, charge ns p o + acc)); [intros; lia|done].
Qed.

Lemma held_in_delete ns p k o os :
  os !! k = Some o → held_in ns p os = charge ns p o + held_in ns p (delete k os).
Proof.
  intros Hk. unfold held_in.
  apply (map_fold_delete_L (λ _ o acc, charge ns p o + acc)); [intros; lia|done].
Qed.

Lemma held_new ns p k o m : objs m !! k = None → held ns p (put k o m) = charge ns p o + held ns p m.
Proof. apply held_in_insert_new. Qed.

Lemma held_put ns p k o o' m :
  objs m !! k = Some o → held ns p (put k o' m) = charge ns p o' - charge ns p o + held ns p m.
Proof.
  intros Hk. unfold held, put; simpl. rewrite <-(insert_delete_eq (objs m)).
  rewrite held_in_insert_new by apply lookup_delete_eq.
  rewrite (held_in_delete ns p k o (objs m)) by done. lia.
Qed.

Lemma held_removed ns p k o m os :
  objs m !! k = Some o → os = delete k (objs m) →
  held_in ns p os = held ns p m - charge ns p o.
Proof. intros Hk ->. unfold held. rewrite (held_in_delete ns p k o (objs m)) by done. lia. Qed.

(** ** Neutral steps *)
Lemma charge_kind ns p o : obj_kind o ≠ KReservation → charge ns p o = 0.
Proof. by destruct o. Qed.

Lemma books_held ns p m m' : store_wf m → books_same m m' → held ns p m' = held ns p m.
Proof.
  intros Hwf [Hwf' Hk].
  assert (∀ m0, store_wf m0 →
    held ns p m0 = held_in ns p (filter (λ kv, bookkept kv.1.1.1) (objs m0))) as Hf.
  { intros m0 Hwf0. unfold held, held_in.
    assert (∀ k o, objs m0 !! k = Some o → ¬ bookkept k.1.1 → charge ns p o = 0) as Hz.
    { intros k o Hl Hn. apply charge_kind. intros E. apply Hn. left.
      destruct (wf_key _ Hwf0 _ _ Hl) as [<- _]. exact E. }
    revert Hz. generalize (objs m0). clear. intros os.
    induction os as [|k o os Hn IH] using map_ind; intros Hz; [by rewrite map_filter_empty|].
    rewrite map_fold_insert_L by (lia || done).
    rewrite IH by (intros k' o' Hl; apply Hz; rewrite lookup_insert_ne; congruence).
    destruct (decide (bookkept k.1.1)) as [Hb|Hb].
    - rewrite map_filter_insert_True by done.
      rewrite map_fold_insert_L; [done|lia|]. apply map_lookup_filter_None. by left.
    - rewrite map_filter_insert_False, delete_id by done.
      rewrite (Hz k o) by (done || apply lookup_insert_eq). lia. }
  rewrite !Hf by done. f_equal. apply map_eq. intros k. apply option_eq. intros o.
  rewrite !map_lookup_filter_Some. simpl. split; intros [Hl Hb]; split; try done;
    by rewrite ?Hk, ?Hl in *.
Qed.

Lemma books_ledger m m' : store_wf m → books_same m m' → ledger m → ledger m'.
Proof.
  intros Hwf Hs Hl ns p c Hc. rewrite (books_held ns p m m') by done. apply Hl.
  destruct Hs as [_ Hk]. rewrite <-Hk; [done|]. by right.
Qed.

(** ** Balanced stores *)
Record balanced (m : store) : Prop := {
  bl_wf : store_wf m;
  bl_valid : valid m;
  bl_ledger : ledger m
}.

Lemma valid_charge ns p m k o : balanced m → objs m !! k = Some o → 0 ≤ charge ns p o.
Proof.
  intros Hb Hk. destruct o as [ |r| | | | | | | | | | | | ]; simpl; try lia. unfold resv_charge.
  assert (obj_ok (OResv r)) as Hok by (apply (bl_valid _ Hb), (wf_key _ (bl_wf _ Hb) k); done).
  simpl in Hok. repeat case_match; lia.
Qed.

Lemma held_in_nonneg ns p os : (∀ k o, os !! k = Some o → 0 ≤ charge ns p o) → 0 ≤ held_in ns p os.
Proof.
  intros Hnn. unfold held_in. apply (map_fold_weak_ind (λ r os', os' ⊆ os → 0 ≤ r)); [done| |done].
  intros k o os' r Hn IH Hsub. assert (os !! k = Some o) as Hk.
  { eapply lookup_weaken; [|exact Hsub]. apply lookup_insert_eq. }
  specialize (Hnn _ _ Hk).
  assert (os' ⊆ os) as Hs by (etrans; [by apply insert_subseteq|done]). specialize (IH Hs). lia.
Qed.

(** What a stored Reservation charges is at most what its provider reserves. *)
Lemma charge_le_reserved m k r c :
  balanced m → objs m !! k = Some (OResv r) →
  objs m !! (KClusterAdvertisement, cr_Namespace r, rs_ProviderClusterID (cr_spec r)) = Some (OCadv c) →
  IsChunksReleased r = false → rs_ChunkCount (cr_spec r) ≤ ca_ReservedChunks (cr_status c).
Proof.
  intros Hb Hk Hc Hr. rewrite (bl_ledger _ Hb _ _ _ Hc). unfold held.
  set (ns := cr_Namespace r). set (p := rs_ProviderClusterID (cr_spec r)).
  rewrite (held_in_delete ns p k (OResv r)) by done.
  assert (0 ≤ held_in ns p (delete k (objs m))).
  { apply held_in_nonneg. intros k' o [_ Hl]%lookup_delete_Some. by eapply valid_charge. }
  simpl. unfold resv_charge. rewrite decide_True by done. rewrite Hr. lia.
Qed.

(** A write that keeps what the Reservation charges. *)
Lemma balanced_resv_put m k r r' :
  balanced m → objs m !! k = Some (OResv r) → store_wf (put k (OResv r') m) →
  cr_spec r' = cr_spec r → cr_Namespace r' = cr_Namespace r →
  IsChunksReleased r' = IsChunksReleased r → balanced (put k (OResv r') m).
Proof.
  intros Hb Hk Hwf Hs Hn Hm. split; [done| |].
  - intros o [->|Ho]%elem_of_cons; [|by apply (bl_valid _ Hb)]. simpl. rewrite Hs.
    apply (bl_valid _ Hb (OResv r)), (wf_key _ (bl_wf _ Hb) k); done.
  - intros ns p c Hc. rewrite (held_put ns p k (OResv r)) by done. simpl.
    unfold resv_charge. rewrite Hs, Hn, Hm.
    unfold put in Hc. simpl in Hc. apply lookup_insert_Some in Hc as [[_ ?]|[_ Hc]]; [done|].
    rewrite (bl_ledger _ Hb _ _ _ Hc). lia.
Qed.

(** Removing or releasing a Reservation that charges nothing. *)
Lemma balanced_resv_retire m k r r' :
  balanced m → objs m !! k = Some (OResv r) → store_wf (retire k (OResv r') m) →
  cr_spec r' = cr_spec r → IsChunksReleased r = true → balanced (retire k (OResv r') m).
Proof.
  intros Hb Hk Hwf Hs Hm. split; [done| |].
  - intros o [->|Ho]%elem_of_cons; [|by apply (bl_valid _ Hb)]. simpl. rewrite Hs.
    apply (bl_valid _ Hb (OResv r)), (wf_key _ (bl_wf _ Hb) k); done.
  - intros ns p c Hc. unfold retire, held in *. simpl in *.
    rewrite (held_removed ns p k (OResv r) m) by done. simpl. unfold resv_charge. rewrite Hm.
    apply lookup_delete_Some in Hc as [_ Hc]. rewrite (bl_ledger _ Hb _ _ _ Hc).
    unfold held. case_match; lia.
Qed.

(** A write of an advertisement that keeps the reserved count. *)
Lemma balanced_cadv_put m k c c' :
  balanced m → objs m !! k = Some (OCadv c) → store_wf (put k (OCadv c') m) →
  cadv_ok (cr_status c') → ca_ReservedChunks (cr_status c') = ca_ReservedChunks (cr_status c) →
  balanced (put k (OCadv c') m).
Proof.
  intros Hb Hk Hwf Hok Hr. split; [done| |].
  - intros o [->|Ho]%elem_of_cons; [done|by apply (bl_valid _ Hb)].
  - intros ns p c2 Hc. rewrite (held_put ns p k (OCadv c)) by done. simpl.
    unfold put in Hc. simpl in Hc. apply lookup_insert_Some in Hc as [[-> [= <-]]|[_ Hc]].
    + rewrite Hr, (bl_ledger _ Hb _ _ _ Hk). lia.
    + rewrite (bl_ledger _ Hb _ _ _ Hc). lia.
Qed.

(** What a marked version of a Reservation leaves of the books. *)
Lemma held_release ns p k r r' m :
  objs m !! k = Some (OResv r) → IsChunksReleased r' = true →
  held ns p (put_or_drop k (OResv r') m) = held ns p m - resv_charge ns p r.
Proof.
  intros Hk Hr'. assert (resv_charge ns p r' = 0) as Hz.
  { unfold resv_charge. rewrite Hr'. by destruct (decide _). }
  pose proof (held_put ns p k (OResv r) (OResv r') m Hk) as Hp. simpl in Hp. rewrite Hz in Hp.
  unfold put_or_drop. destruct (m_DeletionTimestamp _); [destruct (m_Finalizers _)|]; [|lia..].
  unfold retire, held. simpl. by rewrite (held_removed ns p k (OResv r) m).
Qed.

Lemma lookup_put_or_drop k o m k' x :
  objs (put_or_drop k o m) !! k' = Some x → x = o ∨ objs m !! k' = Some x.
Proof.
  unfold put_or_drop, put, retire. repeat case_match; simpl;
    rewrite ?lookup_insert_Some, ?lookup_delete_Some; naive_solver.
Qed.

Lemma hist_put_or_drop k o m : hist (put_or_drop k o m) = o :: hist m.
Proof. unfold put_or_drop. by repeat case_match. Qed.

(** Giving the chunks of a Reservation back and marking it, in this order. *)
Lemma balanced_credit m k r r' c c' :
  let kc := (KClusterAdvertisement, cr_Namespace r, rs_ProviderClusterID (cr_spec r)) in
  let m1 := put kc (OCadv c') m in
  let m2 := put_or_drop k (OResv r') m1 in
  balanced m → objs m !! k = Some (OResv r) → objs m !! kc = Some (OCadv c) →
  IsChunksReleased r = false → IsChunksReleased r' = true → cr_spec r' = cr_spec r →
  cadv_ok (cr_status c') →
  ca_ReservedChunks (cr_status c') = ca_ReservedChunks (cr_status c) - rs_ChunkCount (cr_spec r) →
  store_wf m2 → balanced m2.
Proof.
  intros kc m1 m2 Hb Hk Hc Hr Hr' Hs Hok Hcr Hwf2.
  assert (k ≠ kc) as Hne by (intros ->; congruence).
  assert (objs m1 !! k = Some (OResv r)) as Hk1 by (unfold m1, put; simpl; by rewrite lookup_insert_ne).
  split; [done| |].
  - intros o. unfold m2. rewrite hist_put_or_drop. simpl. rewrite !elem_of_cons. intros [->|[->|Ho]].
    + simpl. rewrite Hs. apply (bl_valid _ Hb (OResv r)), (wf_key _ (bl_wf _ Hb) k); done.
    + done.
    + by apply (bl_valid _ Hb).
  - intros ns p x [?|Hx]%lookup_put_or_drop; [done|]. unfold m2.
    rewrite (held_release ns p k r r' m1) by done. unfold m1 in *.
    rewrite (held_put ns p kc (OCadv c)) by done. simpl. unfold resv_charge. rewrite Hr.
    unfold put in Hx. simpl in Hx. apply lookup_insert_Some in Hx as [[E [= <-]]|[Hkne Hx]].
    + unfold kc in E. simplify_eq. rewrite decide_True by done.
      rewrite Hcr, (bl_ledger _ Hb _ _ _ Hc). lia.
    + rewrite decide_False; [rewrite (bl_ledger _ Hb _ _ _ Hx); lia|].
      intros [<- <-]. by apply Hkne.
Qed.

(** Marking a Reservation whose provider is gone. *)
Lemma balanced_orphan m k r r' :
  let m' := put_or_drop k (OResv r') m in
  balanced m → objs m !! k = Some (OResv r) →
  objs m !! (KClusterAdvertisement, cr_Namespace r, rs_ProviderClusterID (cr_spec r)) = None →
  cr_spec r' = cr_spec r → IsChunksReleased r' = true → store_wf m' → balanced m'.
Proof.
  intros m' Hb Hk Hc Hs Hr' Hwf. split; [done| |].
  - intros o. unfold m'. rewrite hist_put_or_drop, elem_of_cons. intros [->|Ho].
    + simpl. rewrite Hs. apply (bl_valid _ Hb (OResv r)), (wf_key _ (bl_wf _ Hb) k); done.
    + by apply (bl_valid _ Hb).
  - intros ns p x [?|Hx]%lookup_put_or_drop; [done|]. unfold m'.
    rewrite (held_release ns p k r r' m) by done. unfold resv_charge.
    rewrite decide_False; [rewrite (bl_ledger _ Hb _ _ _ Hx); lia|].
    intros [<- <-]. simpl in *. congruence.
Qed.

(** ** Programs that leave the books alone *)
Lemma rg_reliable {A} (p : prog A) Q m :
  store_wf m → rg Rely Guar p Q m → wp reliable p Q m.
Proof.
  revert m. induction p as [a|r k IH]; intros m Hwf; simpl; [done|].
  intros Hp x m' [Hs _]. destruct (Hp m x m' (rely_refl _ Hwf) (serves_cached _ _ _ _ Hwf Hs)) as [_ Hk].
  apply IH; [|done]. by apply (serves_evolves _ _ _ _ Hwf Hs).
Qed.

(** A safe program that leaves the books alone keeps the store balanced and
    every reservation and advertisement as it was. *)
Lemma wp_neutral_safe {A} (p : prog A) (Q : A → store → Prop) m :
  balanced m → neutral p → safe m p →
  (∀ a m', balanced m' → books_same m m' → Q a m') → wp reliable p Q m.
Proof.
  intros Hb Hn Hs HQ. pose proof (bl_wf _ Hb) as Hwf.
  eapply wp_mono; [|apply wp_and; [by apply (wp_spares booked)|apply (rg_reliable _ (λ _ m', Rely m m')); [done|by apply Hs]]].
  intros a m' [Hsame [_ [HV _]]]. apply HQ; [|done].
  split; [apply Hsame|by apply HV, (bl_valid _ Hb)|]. eapply books_ledger; [done|done|]. apply (bl_ledger _ Hb).
Qed.
End Ledger.

(** Walk through a program whose writes are all neutral. *)
Ltac neutral_tac := spares_tac; try (by intros [?|?]).
