(* ===== verification/ReservationProofs.v ===== *)
(** * Reservation endpoints: what they do

    Functional behaviour of the reservation handlers and of the chunk-counter
    loops on a reliable server, and the ledger they keep. *)
From stdpp Require Import base gmap strings list.
From Stdlib Require Import ZArith Lia.
From S2P Require Import Prelude ApiTypes Chunk Wire Kube MemServer Registry Placement.
From S2P Require Import ReservationApi InstructionsApi ReservationController BrokerInvariant BrokerSafety Ledger.

Open Scope Z_scope.

(** Store keys of the two accounted kinds. *)
Abbreviation cadv_key ns p := (KClusterAdvertisement, ns, p).
Abbreviation resv_key ns n := (KReservation, ns, n).

(** Whoever calls: the schema is not asked for. *)
#[local] Instance anyone : Discipline := False.

Section ReservationProofs.
Context `{Platform}.

(** ** The counter loops *)

Lemma cadv_key_of (c : ClusterAdvertisement) ns p :
  cr_Namespace c = ns → cr_Name c = p → cr_key c = cadv_key ns p.
Proof. intros <- <-. done. Qed.

Lemma resv_key_of (r : Reservation) ns n :
  cr_Namespace r = ns → cr_Name r = n → cr_key r = resv_key ns n.
Proof. intros <- <-. done. Qed.

Lemma wp_adjust n ns p delta (Q : option Err → store → Prop) m :
  store_wf m →
  (∀ c rv, objs m !! cadv_key ns p = Some (OCadv c) → rev m < rv →
     let m' := put (cadv_key ns p) (OCadv (cr_on_status rv c (adjusted c delta))) m in
     store_wf m' → Q None m') →
  (∀ e, objs m !! cadv_key ns p = None → e_kind e = ENotFound → Q (Some e) m) →
  wp reliable (adjust_loop (S n) ns p delta) Q m.
Proof.
  intros Hwf HOk HNone. cbn [adjust_loop]. apply wp_bind, wp_get; [done| |].
  - intros c Hc Hns Hn. apply wp_bind, (wp_status_current c); [done| |done|].
    { by rewrite (cadv_key_of _ _ _ Hns Hn). }
    rewrite (cadv_key_of _ _ _ Hns Hn). intros rv Hrv c' Hwf'. apply wp_ret. by apply HOk.
  - intros e Hc He. apply wp_ret. by apply HNone.
Qed.

(** The advertisement after [count] chunks were taken. *)
Definition taken (c : ClusterAdvertisement) (count : Z) : ClusterAdvertisement :=
  let st := cr_status c in
  cr_set_status (ca_set_chunks (ca_ReservedChunks st + count)
                   (ca_TotalChunks st - (ca_ReservedChunks st + count)) st) c.

Lemma wp_reserve n ns p count (Q : Res (bool * Z) → store → Prop) m :
  store_wf m → valid m → 1 ≤ count →
  (∀ c rv, objs m !! cadv_key ns p = Some (OCadv c) → count ≤ ca_AvailableChunks (cr_status c) →
     rev m < rv →
     let m' := put (cadv_key ns p) (OCadv (cr_on_status rv c (taken c count))) m in
     store_wf m' →
     Q (Ok (true, ca_TotalChunks (cr_status c) - (ca_ReservedChunks (cr_status c) + count))) m') →
  (∀ c, objs m !! cadv_key ns p = Some (OCadv c) → ca_AvailableChunks (cr_status c) < count →
     Q (Ok (false, ca_AvailableChunks (cr_status c))) m) →
  (∀ e, objs m !! cadv_key ns p = None → e_kind e = ENotFound → Q (Fail e) m) →
  wp reliable (reserve_loop (S n) ns p count) Q m.
Proof.
  intros Hwf Hv Hc HOk HFull HNone. cbn [reserve_loop]. apply wp_bind, wp_get; [done| |].
  - intros c Hl Hns Hn.
    assert (cadv_ok (cr_status c)) as (Ht & Hr & Ha).
    { apply (Hv (OCadv c)). by apply (wf_key _ Hwf (cadv_key ns p)). }
    cbv zeta. destruct (Z.ltb_spec (ca_AvailableChunks (cr_status c)) count) as [Hlt|Hge].
    { apply wp_ret. by apply HFull. }
    unfold counter, GoInt.int32_max in *.
    rewrite GoInt.add32_id by (unfold GoInt.is_int32, GoInt.int32_min, GoInt.int32_max; lia).
    rewrite GoInt.sub32_id by (unfold GoInt.is_int32, GoInt.int32_min, GoInt.int32_max; lia).
    rewrite (proj2 (Z.ltb_ge _ 0)) by lia.
    apply wp_bind, (wp_status_current c); [done| |done|].
    { by rewrite (cadv_key_of _ _ _ Hns Hn). }
    rewrite (cadv_key_of _ _ _ Hns Hn). intros rv Hrv c' Hwf'. apply wp_ret. by apply HOk.
  - intros e Hl He. apply wp_ret. by apply HNone.
Qed.

(** Marking: the API's and the controller's loop. *)
Lemma wp_mark n ns name r (Q : option Err → store → Prop) m :
  store_wf m → objs m !! resv_key ns name = Some (OResv r) →
  (IsChunksReleased r = true → Q None m) →
  (∀ rv gen, IsChunksReleased r = false → rev m < rv →
     let m' := put_or_drop (resv_key ns name)
                 (OResv (cr_on_update rv gen r (MarkChunksReleased r))) m in
     store_wf m' → Q None m') →
  wp reliable (mark_loop (S n) ns name) Q m ∧ wp reliable (stamp_loop (S n) ns name) Q m.
Proof.
  intros Hwf Hl Hdone HOk. destruct (wf_key _ Hwf _ _ Hl) as [Hk _]. inversion Hk as [[Hns Hn]].
  rewrite Hns, Hn.
  split; cbn [mark_loop stamp_loop]; (apply wp_bind, (wp_get_found _ _ r); [done..|]);
    (destruct (IsChunksReleased r) eqn:Hr; [by apply wp_ret, Hdone|]);
    (apply wp_bind, (wp_update_current r); [done|by rewrite (resv_key_of r ns name)|done|done|]);
    rewrite (resv_key_of r ns name) by done; intros rv gen Hrv r' Hwf'; by apply wp_ret, HOk.
Qed.

Lemma wp_release_loop n resv (Q : option Err → store → Prop) m :
  store_wf m →
  (∀ c rv, objs m !! cadv_key (cr_Namespace resv) (rs_ProviderClusterID (cr_spec resv)) = Some (OCadv c) →
     rev m < rv →
     let m' := put (cadv_key (cr_Namespace resv) (rs_ProviderClusterID (cr_spec resv)))
                 (OCadv (cr_on_status rv c (released c (rs_ChunkCount (cr_spec resv))))) m in
     store_wf m' → wp reliable (stampChunksReleased resv) Q m') →
  (objs m !! cadv_key (cr_Namespace resv) (rs_ProviderClusterID (cr_spec resv)) = None →
     wp reliable (stampChunksReleased resv) Q m) →
  wp reliable (release_loop (S n) resv) Q m.
Proof.
  intros Hwf HOk HNone. cbn [release_loop]. apply wp_bind, wp_get; [done| |].
  - intros c Hc Hns Hn. apply wp_bind, (wp_status_current c); [done| |done|].
    { by rewrite (cadv_key_of _ _ _ Hns Hn). }
    rewrite (cadv_key_of _ _ _ Hns Hn). intros rv Hrv c' Hwf'. by apply HOk.
  - intros e Hc He. unfold IsNotFound. rewrite bool_decide_eq_true_2 by done. by apply HNone.
Qed.

(** ** POST /api/v1/reservations *)

(** The store after an admitted request: one chunk of an available provider is
    taken and one Pending Reservation stands for it; nothing else changed. *)
Record created (s : Server) (consumerID : string) (entry : ConsumerEntry) (req : ReservationRequest)
    (m m' : store) (c c' : ClusterAdvertisement) (r : Reservation) : Prop := {
  cd_wf : store_wf m';
  cd_cadv : objs m !! cadv_key (sv_namespace s) (rq_ProviderClusterID req) = Some (OCadv c);
  cd_available : ca_Available (cr_status c) = true ∧ cs_ClusterType (cr_spec c) = rq_ChunkType req;
  cd_room : 1 ≤ ca_AvailableChunks (cr_status c);
  cd_fresh : objs m !! cr_key r = None;
  cd_objs : objs m' = <[cr_key r := OResv r]>
    (<[cadv_key (sv_namespace s) (rq_ProviderClusterID req) := OCadv c']> (objs m));
  cd_taken : cr_status c' = cr_status (taken c 1) ∧ cr_spec c' = cr_spec c;
  cd_spec : cr_spec r = mkResvSpec consumerID (ce_LiqoClusterID entry) (rq_ProviderClusterID req)
    (cs_LiqoClusterID (cr_spec c)) 1 (rq_ChunkType req) (perChunkResources s c) (rq_Namespaces req);
  cd_ns : cr_Namespace r = sv_namespace s;
  cd_phase : rt_Phase (cr_status r) = ReservationPhasePending;
  cd_expiry : ∃ t, rt_CreatedAt (cr_status r) = Some t ∧
    rt_ExpiresAt (cr_status r) = Some (t + sv_reservationTimeout s);
  cd_unmarked : IsChunksReleased r = false
}.

Lemma created_ledger s cid entry req m m' c c' r :
  created s cid entry req m m' c c' r → ledger m → ledger m'.
Proof.
  intros Hc Hl ns p x Hx. destruct Hc as [_ Hk _ _ Hfresh Hobjs [Ht _] Hspec Hns _ _ Hun].
  set (k := cadv_key (sv_namespace s) (rq_ProviderClusterID req)) in *.
  assert (∀ p, cr_key r ≠ cadv_key ns p) as Hne by done.
  assert (held ns p m' = resv_charge ns p r + held ns p m) as Hheld.
  { unfold held. rewrite Hobjs, held_in_insert_new.
    - f_equal. pose proof (held_put ns p k (OCadv c) (OCadv c') m Hk) as E.
      unfold held, put in E; simpl in E. rewrite E. lia.
    - by rewrite lookup_insert_ne by done. }
  rewrite Hobjs, lookup_insert_ne in Hx by done. rewrite Hheld. unfold resv_charge.
  rewrite Hns, Hun, Hspec. simpl.
  apply lookup_insert_Some in Hx as [[E [= <-]]|[Hkne Hx]].
  - unfold k in E. simplify_eq. rewrite decide_True by done. rewrite Ht. simpl.
    rewrite (Hl _ _ _ Hk). lia.
  - rewrite decide_False; [by rewrite (Hl _ _ _ Hx)|]. intros [<- <-]. by apply Hkne.
Qed.

Lemma wp_init s (r : Reservation) (Q : Reservation * option Err → store → Prop) m :
  store_wf m → objs m !! cr_key r = Some (OResv r) →
  (∀ t rv, rev m < rv →
     let r' := cr_on_status rv r (cr_set_status (mkResvStatus (m_Generation (cr_meta r))
       ReservationPhasePending (Some t) (Some (t + sv_reservationTimeout s)) [] None "" []) r) in
     store_wf (put (cr_key r) (OResv r') m) → Q (r', None) (put (cr_key r) (OResv r') m)) →
  wp reliable (initReservationStatus s r) Q m.
Proof.
  intros Hwf Hl HQ. unfold initReservationStatus. apply wp_bind, wp_now. intros t. cbv zeta.
  apply wp_bind, (wp_status_current r); [done..|]. intros rv Hrv r' Hwf'. apply wp_ret. by apply HQ.
Qed.

Lemma wp_admit s rid name cid entry req c (Q : Response ReservationResponse → store → Prop) m :
  store_wf m → valid m → rq_ChunkCount req = 1 →
  objs m !! cadv_key (sv_namespace s) (rq_ProviderClusterID req) = Some (OCadv c) →
  ca_Available (cr_status c) = true → cs_ClusterType (cr_spec c) = rq_ChunkType req →
  objs m !! resv_key (sv_namespace s) name = None →
  (∀ m' c' r, cr_Name r = name → created s cid entry req m m' c c' r →
     Q (JSON StatusCreated (reservationResponseFromCR r)) m') →
  (∀ e, ca_AvailableChunks (cr_status c) < 1 → er_Code e = ErrCodeInsufficientCapacity →
     Q (Error StatusConflict e) m) →
  wp reliable (admitReservation s rid name cid entry req c) Q m.
Proof.
  intros Hwf Hv Hcount Hl Hav Hty Hfresh HOk HFull. unfold admitReservation.
  destruct (wf_key _ Hwf _ _ Hl) as [Hk _]. inversion Hk as [[Hns Hn]].
  change (m_Name (cr_meta c)) with (cr_Name c) in Hn. rewrite Hn, Hcount.
  apply wp_bind, wp_reserve; [done|done|lia| | |by intros; simplify_eq].
  2:{ intros c2 Hc2 Hlt. rewrite Hl in Hc2. simplify_eq. by apply wp_ret, HFull. }
  intros c2 rv Hc2 Hroom Hrv m1 Hwf1. rewrite Hl in Hc2. simplify_eq.
  unfold persistReservation. cbv zeta.
  set (resv := buildReservation _ _ _ _ _ _ _).
  assert (cr_key resv = resv_key (sv_namespace s) name) as Hkey by done.
  apply wp_bind, wp_create; [done| |].
  2:{ intros e o Ho _. rewrite Hkey in Ho. unfold m1 in Ho. simpl in Ho.
      rewrite lookup_insert_ne in Ho by done. congruence. }
  intros rv2 uid t Hnone Hrv2 r1 Hwf2. apply wp_bind, wp_init; [done|apply lookup_insert_eq|].
  intros t2 rv3 Hrv3 r2 Hwf3. apply wp_ret. apply (HOk _ (cr_on_status rv c2 (taken c2 1)) r2); [done|].
  split; try done.
  - change (cr_key r2) with (cr_key resv). unfold m1 in *. simpl. by rewrite insert_insert_eq.
  - change (cr_spec r2) with (cr_spec resv). simpl. by rewrite Hcount.
  - by exists t2.
Qed.

(** The name a request asks for: its X-Reservation-Id header, or a fresh one. *)
Definition named (header name : string) : Prop :=
  (header = "" ∧ ∃ u, name = "res-" +:+ u) ∨
  (header ≠ "" ∧ IsDNS1123Subdomain header = [] ∧ name = header).

(** The stored advertisement of the requested provider can serve the request. *)
Definition usable (s : Server) (req : ReservationRequest) (m : store) (c : ClusterAdvertisement) : Prop :=
  objs m !! cadv_key (sv_namespace s) (rq_ProviderClusterID req) = Some (OCadv c) ∧
  cs_ClusterType (cr_spec c) = rq_ChunkType req ∧ ca_Available (cr_status c) = true.

(** What POST /api/v1/reservations answers to the valid request [req] of
    consumer [cid] and the store it leaves, case by case. *)
Inductive create_outcome (s : Server) (reg : ConsumerRegistry) (cid header : string)
    (req : ReservationRequest) (m : store) : Response ReservationResponse → store → Prop :=
| co_no_heartbeat e :
    (Lookup cid reg).2 = false →
    create_outcome s reg cid header req m (Error StatusPreconditionFailed e) m
| co_no_provider e :
    (Lookup cid reg).2 = true →
    (∀ c, objs m !! cadv_key (sv_namespace s) (rq_ProviderClusterID req) = Some (OCadv c) →
       cs_ClusterType (cr_spec c) ≠ rq_ChunkType req) →
    create_outcome s reg cid header req m (Error StatusNotFound e) m
| co_unavailable c e :
    (Lookup cid reg).2 = true →
    objs m !! cadv_key (sv_namespace s) (rq_ProviderClusterID req) = Some (OCadv c) →
    cs_ClusterType (cr_spec c) = rq_ChunkType req → ca_Available (cr_status c) = false →
    create_outcome s reg cid header req m (Error StatusServiceUnavailable e) m
| co_bad_name c e :
    (Lookup cid reg).2 = true → usable s req m c →
    header ≠ "" → IsDNS1123Subdomain header ≠ [] →
    create_outcome s reg cid header req m (Error StatusBadRequest e) m
| co_known c name existing :
    (Lookup cid reg).2 = true → usable s req m c → named header name →
    objs m !! resv_key (sv_namespace s) name = Some (OResv existing) →
    sameReservationRequest (cr_spec existing) req cid
      (ce_LiqoClusterID (Lookup cid reg).1) (cs_LiqoClusterID (cr_spec c)) = true →
    create_outcome s reg cid header req m (JSON StatusOK (reservationResponseFromCR existing)) m
| co_clash c name existing e :
    (Lookup cid reg).2 = true → usable s req m c → named header name →
    objs m !! resv_key (sv_namespace s) name = Some (OResv existing) →
    sameReservationRequest (cr_spec existing) req cid
      (ce_LiqoClusterID (Lookup cid reg).1) (cs_LiqoClusterID (cr_spec c)) = false →
    er_Code e = ErrCodeConflict →
    create_outcome s reg cid header req m (Error StatusConflict e) m
| co_full c name e :
    (Lookup cid reg).2 = true → usable s req m c → named header name →
    objs m !! resv_key (sv_namespace s) name = None → ca_AvailableChunks (cr_status c) < 1 →
    er_Code e = ErrCodeInsufficientCapacity →
    create_outcome s reg cid header req m (Error StatusConflict e) m
| co_created c c' r m' :
    (Lookup cid reg).2 = true → usable s req m c → named header (cr_Name r) →
    created s cid (Lookup cid reg).1 req m m' c c' r →
    create_outcome s reg cid header req m (JSON StatusCreated (reservationResponseFromCR r)) m'.

Lemma wp_create_named s reg rid cid header req c (Q : Response ReservationResponse → store → Prop) m :
  store_wf m → valid m → validateReservationRequest req = None →
  (Lookup cid reg).2 = true → usable s req m c →
  (∀ x m', create_outcome s reg cid header req m x m' → Q x m') →
  ∀ name, named header name →
  wp reliable
    (x ← get (S:=ReservationSpec) (T:=ReservationStatus) (sv_namespace s) name;
     match x with
     | Ok existing =>
         if sameReservationRequest (cr_spec existing) req cid
              (ce_LiqoClusterID (Lookup cid reg).1) (cs_LiqoClusterID (cr_spec c))
         then mret (JSON StatusOK (reservationResponseFromCR existing))
         else mret (fail_with StatusConflict ErrCodeConflict
           ("reservation " +:+ GoStr.fmt_q name +:+ " already exists with a different spec") rid)
     | Fail e =>
         if IsNotFound e then admitReservation s rid name cid (Lookup cid reg).1 req c
         else mret (fail_with StatusInternalServerError ErrCodeInternalError
                      "reservation read failed" rid)
     end) Q m.
Proof.
  intros Hwf Hv Hval Hreg Hus HQ name Hname. pose proof Hus as (Hl & Hty & Hav).
  apply wp_bind, wp_get; [done| |].
  - intros ex Hex _ _. destruct (sameReservationRequest _ _ _ _ _) eqn:E; apply wp_ret, HQ.
    + by eapply co_known.
    + by eapply co_clash.
  - intros e Hnone He. unfold IsNotFound. rewrite bool_decide_eq_true_2 by done.
    apply (wp_admit s rid name cid (Lookup cid reg).1 req c); try done; [by apply validate_count|..].
    + intros m' c' r Hr Hcr. apply HQ. eapply co_created; [done|done|by rewrite Hr|done].
    + intros e' Hlt Hcode. apply HQ. by eapply co_full.
Qed.

Lemma wp_handleReservationCreate s reg rid cid header req
    (Q : Response ReservationResponse → store → Prop) m :
  store_wf m → valid m → validateReservationRequest req = None →
  (∀ x m', create_outcome s reg cid header req m x m' → Q x m') →
  wp reliable (handleReservationCreate s reg rid cid header (Ok req)) Q m.
Proof.
  intros Hwf Hv Hval HQ. unfold handleReservationCreate. rewrite Hval.
  destruct (Lookup cid reg) as [entry ok] eqn:Hlk. destruct ok; simpl negb; cbv iota.
  2:{ apply wp_ret, HQ, co_no_heartbeat. by rewrite Hlk. }
  assert ((Lookup cid reg).2 = true) as Hreg by by rewrite Hlk.
  unfold findAdvertisement. apply wp_bind, wp_bind, wp_get; [done| |].
  2:{ intros e Hn He. apply wp_ret. unfold IsNotFound. rewrite bool_decide_eq_true_2 by done.
      apply wp_ret, HQ, co_no_provider; [done|]. intros c Hc. simpl in *. congruence. }
  intros c Hc _ _. apply wp_ret. case_decide as Hty.
  2:{ apply wp_ret, HQ, co_no_provider; [done|]. intros c2 Hc2. simpl in *. congruence. }
  destruct (ca_Available (cr_status c)) eqn:Hav; [|by apply wp_ret, HQ, (co_unavailable _ _ _ _ _ _ c)].
  assert (usable s req m c) as Hus by done.
  pose proof (wp_create_named s reg rid cid header req c Q m Hwf Hv Hval Hreg Hus HQ) as Hgo.
  rewrite Hlk in Hgo. apply wp_bind. unfold reservationName. case_decide as Hh.
  - apply wp_bind, wp_new_uuid. intros u. apply wp_ret, Hgo. left. split; [done|by exists u].
  - destruct (IsDNS1123Subdomain header) eqn:Hd.
    + apply wp_ret, Hgo. right. by rewrite Hd.
    + apply wp_ret, wp_ret, HQ. apply (co_bad_name _ _ _ _ _ _ c); [done..|]. by rewrite Hd.
Qed.

Lemma create_outcome_ledger s reg cid header req m x m' :
  create_outcome s reg cid header req m x m' → ledger m → ledger m'.
Proof. destruct 1; try done. by eapply created_ledger. Qed.

(** A rejected body changes nothing. *)
Lemma wp_create_rejected s reg rid cid header body (Q : Response ReservationResponse → store → Prop) m :
  match body with Ok req => validateReservationRequest req ≠ None | Fail _ => True end →
  (∀ e, Q (Error StatusBadRequest e) m) →
  wp reliable (handleReservationCreate s reg rid cid header body) Q m.
Proof.
  intros Hb HQ. unfold handleReservationCreate. destruct body as [req|e]; [|by apply wp_ret, HQ].
  destruct (validateReservationRequest req); [by apply wp_ret, HQ|done].
Qed.

Lemma wp_create_balanced s reg rid cid header body m :
  balanced m →
  wp reliable (handleReservationCreate s reg rid cid header body) (λ _ m', balanced m') m.
Proof.
  intros Hb. pose proof (bl_wf _ Hb) as Hwf.
  assert (wp reliable (handleReservationCreate s reg rid cid header body) (λ _ m', ledger m') m) as Hl.
  { pose proof (bl_ledger _ Hb) as Hl. destruct body as [req|e]; [|by apply wp_create_rejected].
    destruct (validateReservationRequest req) eqn:Hval;
      [apply wp_create_rejected; [by rewrite Hval|done]|].
    apply wp_handleReservationCreate; [done|apply Hb|done|].
    intros x m' Ho. by eapply create_outcome_ledger. }
  eapply wp_mono; [|apply wp_and; [exact Hl|apply (rg_reliable _ (λ _ m', Rely m m')); [done|]]].
  - intros a m' [Hl' [(Hwf' & _) [HV _]]]. split; [done|by apply HV, Hb|done].
  - by apply handleReservationCreate_safe.
Qed.

(** The retry of an admitted request finds the Reservation it created. *)
Lemma created_retry s reg cid header req m m' m'' c c' r x :
  validateReservationRequest req = None → (Lookup cid reg).2 = true → usable s req m c →
  header ≠ "" → named header (cr_Name r) → created s cid (Lookup cid reg).1 req m m' c c' r →
  create_outcome s reg cid header req m' x m'' →
  x = JSON StatusOK (reservationResponseFromCR r) ∧ m'' = m'.
Proof.
  intros Hval Hreg (Hl & Hty & Hav) Hh Hname Hcr Ho.
  destruct Hname as [[? _]|(_ & Hdns & Hn)]; [done|]. pose proof (cd_objs _ _ _ _ _ _ _ _ _ Hcr) as Hobjs.
  assert (objs m' !! resv_key (sv_namespace s) header = Some (OResv r)) as Hr.
  { rewrite Hobjs, (resv_key_of r (sv_namespace s) header (cd_ns _ _ _ _ _ _ _ _ _ Hcr) Hn).
    apply lookup_insert_eq. }
  destruct (cd_taken _ _ _ _ _ _ _ _ _ Hcr) as [Ht Hsp].
  assert (objs m' !! cadv_key (sv_namespace s) (rq_ProviderClusterID req) = Some (OCadv c')) as Hc'.
  { rewrite Hobjs, lookup_insert_ne by done. apply lookup_insert_eq. }
  assert (∀ c2, usable s req m' c2 → c2 = c') as Huse.
  { intros c2 (Hc2 & _). simpl in *. congruence. }
  assert (∀ n, named header n → n = header) as Hnm by (by intros n [[? _]|(_ & _ & ->)]).
  destruct Ho as [e Hf|e _ Hno|c2 e _ Hc2 _ Hna|c2 e _ _ _ Hbad|c2 n ex _ Hus Hnn Hex _
    |c2 n ex e _ Hus Hnn Hex Hne _|c2 n e _ _ Hnn Hex _ _|c2 c2' r2 m2 _ _ Hnn Hcr2].
  - congruence.
  - destruct (Hno c' Hc'). by rewrite Hsp.
  - rewrite Hc' in Hc2. simplify_eq. rewrite Ht in Hna. simpl in Hna. congruence.
  - done.
  - apply Hnm in Hnn as ->. rewrite Hr in Hex. by simplify_eq.
  - apply Hnm in Hnn as ->. rewrite Hr in Hex. simplify_eq. apply Huse in Hus as ->.
    rewrite (cd_spec _ _ _ _ _ _ _ _ _ Hcr), Hsp in Hne. unfold sameReservationRequest in Hne.
    simpl in Hne. rewrite (validate_count _ Hval) in Hne. by rewrite !bool_decide_eq_true_2 in Hne.
  - apply Hnm in Hnn as ->. congruence.
  - apply Hnm in Hnn as Hn2. pose proof (cd_fresh _ _ _ _ _ _ _ _ _ Hcr2) as Hf.
    rewrite (resv_key_of r2 (sv_namespace s) header (cd_ns _ _ _ _ _ _ _ _ _ Hcr2) Hn2) in Hf. congruence.
Qed.

(** ** DELETE /api/v1/reservations/{id} *)

(** Both ways of giving [n] chunks back leave the same counters. *)
Definition given_back (c c' : ClusterAdvertisement) (n : Z) : Prop :=
  let st := cr_status c in
  cr_spec c' = cr_spec c ∧ cadv_ok (cr_status c') ∧
  ca_TotalChunks (cr_status c') = ca_TotalChunks st ∧
  ca_ReservedChunks (cr_status c') = Z.max 0 (ca_ReservedChunks st - n) ∧
  ca_AvailableChunks (cr_status c') = Z.max 0 (ca_TotalChunks st - Z.max 0 (ca_ReservedChunks st - n)).

Lemma adjusted_released c n : 1 ≤ n ≤ GoInt.int32_max → adjusted c (GoInt.neg32 n) = released c n.
Proof.
  intros Hn. unfold adjusted, released. rewrite GoInt.neg32_id; [done|].
  unfold GoInt.is_int32, GoInt.int32_min, GoInt.int32_max in *. lia.
Qed.

Lemma released_given_back c n :
  cadv_ok (cr_status c) → 1 ≤ n ≤ GoInt.int32_max → given_back c (released c n) n.
Proof.
  intros Hok Hn. pose proof (released_ok c n Hok Hn) as [Hok' _]. destruct Hok as (Ht & Hr & _).
  unfold counter, GoInt.int32_max in *. split; [done|]. split; [done|].
  unfold released. simpl. rewrite GoInt.sub32_id by
    (unfold GoInt.is_int32, GoInt.int32_min, GoInt.int32_max; lia).
  assert ((if ca_ReservedChunks (cr_status c) - n <? 0 then 0 else ca_ReservedChunks (cr_status c) - n)
    = Z.max 0 (ca_ReservedChunks (cr_status c) - n)) as -> by (case_match; fed_bools; lia).
  rewrite GoInt.sub32_id by (unfold GoInt.is_int32, GoInt.int32_min, GoInt.int32_max; lia).
  split_and!; [done..|]. case_match; fed_bools; lia.
Qed.

(** An object the server keeps when it is updated. *)
Definition kept (r : Reservation) : Prop :=
  m_DeletionTimestamp (cr_meta r) = None ∨ m_Finalizers (cr_meta r) ≠ [].

Lemma put_or_drop_kept k (r : Reservation) m : kept r → put_or_drop k (OResv r) m = put k (OResv r) m.
Proof. unfold put_or_drop. simpl. intros [->|Hf]; [done|]. by repeat case_match. Qed.

(** The store after a release: the Reservation is Unpeering, its provider got
    its chunks back, and the Reservation is marked when it did; nothing else
    changed. *)
Record released_store (resv : Reservation) (m m' : store) : Prop := {
  rl_frame : ∀ k, k ≠ cr_key resv →
    k ≠ cadv_key (cr_Namespace resv) (rs_ProviderClusterID (cr_spec resv)) → objs m' !! k = objs m !! k;
  rl_gone : objs m !! cadv_key (cr_Namespace resv) (rs_ProviderClusterID (cr_spec resv)) = None →
    objs m' !! cadv_key (cr_Namespace resv) (rs_ProviderClusterID (cr_spec resv)) = None;
  rl_credit : ∀ c,
    objs m !! cadv_key (cr_Namespace resv) (rs_ProviderClusterID (cr_spec resv)) = Some (OCadv c) →
    ∃ c', objs m' !! cadv_key (cr_Namespace resv) (rs_ProviderClusterID (cr_spec resv)) = Some (OCadv c') ∧
      given_back c c' (rs_ChunkCount (cr_spec resv));
  rl_resv : kept resv → ∃ r', objs m' !! cr_key resv = Some (OResv r') ∧ cr_spec r' = cr_spec resv ∧
    rt_Phase (cr_status r') = ReservationPhaseUnpeering ∧
    (is_Some (objs m !! cadv_key (cr_Namespace resv) (rs_ProviderClusterID (cr_spec resv))) →
       IsChunksReleased r' = true);
  rl_after : ∀ r', objs m' !! cr_key resv = Some (OResv r') →
    cr_spec r' = cr_spec resv ∧ rt_Phase (cr_status r') = ReservationPhaseUnpeering
}.

Lemma cr_key_cadv_ne (r : Reservation) ns p : cr_key r ≠ cadv_key ns p.
Proof. done. Qed.

Lemma released_store_intro resv m m3 r3 c c' :
  let kc := cadv_key (cr_Namespace resv) (rs_ProviderClusterID (cr_spec resv)) in
  objs m !! kc = Some (OCadv c) → given_back c c' (rs_ChunkCount (cr_spec resv)) →
  cr_spec r3 = cr_spec resv → rt_Phase (cr_status r3) = ReservationPhaseUnpeering →
  IsChunksReleased r3 = true →
  (objs m3 = <[cr_key resv := OResv r3]> (<[kc := OCadv c']> (objs m)) ∨
   ¬ kept resv ∧ objs m3 !! cr_key resv = None ∧
   ∀ k, k ≠ cr_key resv → objs m3 !! k = <[kc := OCadv c']> (objs m) !! k) →
  released_store resv m m3.
Proof.
  intros kc Hc Hgb Hs Hp Hm Hobjs.
  assert (∀ k, k ≠ cr_key resv → objs m3 !! k = <[kc := OCadv c']> (objs m) !! k) as Hk3.
  { destruct Hobjs as [->|(_ & _ & Hk)]; [|done]. intros k Hk. by rewrite lookup_insert_ne. }
  split.
  - intros k Hk Hkc. rewrite Hk3 by done. by rewrite lookup_insert_ne.
  - intros Hn. fold kc in Hn. congruence.
  - intros c2 Hc2. fold kc in Hc2. rewrite Hc in Hc2. simplify_eq. exists c'. split; [|done].
    fold kc. rewrite Hk3 by done. apply lookup_insert_eq.
  - intros Hkept. destruct Hobjs as [->|[? _]]; [|done]. exists r3. split; [apply lookup_insert_eq|done].
  - intros r'. destruct Hobjs as [->|(_ & -> & _)]; [|done]. rewrite lookup_insert_eq. by intros [= <-].
Qed.

(** The objects after the three writes of a release: the status, the provider's
    counters, and the marker, which drops an object nothing holds any more. *)
Lemma release_objs resv r1 r3 c' kc m :
  kc ≠ cr_key resv →
  m_Finalizers (cr_meta r3) = m_Finalizers (cr_meta resv) →
  m_DeletionTimestamp (cr_meta r3) = m_DeletionTimestamp (cr_meta resv) →
  let m2 := put kc (OCadv c') (put (cr_key resv) (OResv r1) m) in
  let m3 := put_or_drop (cr_key resv) (OResv r3) m2 in
  objs m3 = <[cr_key resv := OResv r3]> (<[kc := OCadv c']> (objs m)) ∨
  ¬ kept resv ∧ objs m3 !! cr_key resv = None ∧
  ∀ k, k ≠ cr_key resv → objs m3 !! k = <[kc := OCadv c']> (objs m) !! k.
Proof.
  intros Hne Hf Hd m2 m3. unfold kept. rewrite <-Hf, <-Hd.
  assert (objs (put (cr_key resv) (OResv r3) m2) =
    <[cr_key resv := OResv r3]> (<[kc := OCadv c']> (objs m))) as E.
  { unfold m2, put. simpl. rewrite (insert_insert_ne (objs m)) by done. apply insert_insert_eq. }
  unfold m3, put_or_drop. simpl. repeat case_match; try by left.
  right. split; [intros [?|?]; congruence|]. split; [apply lookup_delete_eq|]. intros k Hk. unfold m2, put, retire. simpl.
  rewrite lookup_delete_ne by done. rewrite !lookup_insert. repeat case_decide; congruence.
Qed.

Lemma wp_releaseReservation s rid resv (Q : Response ReleaseResponse → store → Prop) m :
  store_wf m → valid m → cr_Namespace resv = sv_namespace s →
  objs m !! cr_key resv = Some (OResv resv) →
  (∀ m', released_store resv m m' →
     (balanced m → IsChunksReleased resv = false → balanced m') →
     Q (JSON StatusAccepted (mkReleaseResp (cr_Name resv) ReservationPhaseUnpeering 0)) m') →
  wp reliable (releaseReservation s rid resv) Q m.
Proof.
  intros Hwf Hv Hns Hl HQ. unfold releaseReservation. cbv zeta.
  assert (obj_ok (OResv resv)) as Hcount by (by apply Hv, (wf_key _ Hwf (cr_key resv))). simpl in Hcount.
  apply wp_bind, (wp_status_current resv); [done..|]. intros rv Hrv r1 Hwf1.
  set (m1 := put (cr_key resv) (to_obj r1) m) in *.
  assert (objs m1 !! cr_key resv = Some (OResv r1)) as Hl1 by apply lookup_insert_eq.
  assert (balanced m → balanced m1) as Hb1.
  { intros Hb. by apply (balanced_resv_put m _ resv r1). }
  assert (∀ p, objs m1 !! cadv_key (cr_Namespace resv) p = objs m !! cadv_key (cr_Namespace resv) p) as Hc1.
  { intros p. apply lookup_insert_ne, cr_key_cadv_ne. }
  unfold adjustReservedChunks. rewrite <-Hns. apply wp_bind, wp_adjust; [done| |].
  - intros c rv2 Hc Hrv2 m2 Hwf2. rewrite Hc1 in Hc.
    assert (cadv_ok (cr_status c)) as Hok.
    { apply (Hv (OCadv c)). by apply (wf_key _ Hwf (cadv_key (cr_Namespace resv) (rs_ProviderClusterID (cr_spec resv)))). }
    pose proof (released_given_back c _ Hok Hcount) as Hgb.
    rewrite <-(adjusted_released c _ Hcount) in Hgb.
    set (c' := cr_on_status rv2 c (adjusted c (GoInt.neg32 (rs_ChunkCount (cr_spec resv))))) in *.
    assert (objs m2 !! cr_key resv = Some (OResv r1)) as Hl2.
    { unfold m2, put. simpl. by rewrite lookup_insert_ne. }
    assert (objs m2 !! cadv_key (cr_Namespace resv) (rs_ProviderClusterID (cr_spec resv)) = Some (OCadv c'))
      as Hc2 by apply lookup_insert_eq.
    apply wp_bind. refine (proj1 (wp_mark 2 _ _ r1 _ m2 Hwf2 Hl2 _ _)).
    + intros Hm. apply wp_ret, HQ; 
        [|intros _ Hun; change (IsChunksReleased resv = true) in Hm; congruence].
      apply (released_store_intro resv m m2 r1 c c'); [done..|]. left. unfold m2, m1, put. simpl.
      by rewrite insert_insert_ne.
    + intros rv3 gen Hm Hrv3 m3 Hwf3. apply wp_ret, HQ.
      * apply (released_store_intro resv m m3 (cr_on_update rv3 gen r1 (MarkChunksReleased r1)) c c');
          [done..|apply IsChunksReleased_Mark|].
        by apply (release_objs resv r1).
      * intros Hb Hun. apply (balanced_credit m1 _ r1 _ c c'); try done.
        -- by apply Hb1.
        -- by rewrite Hc1.
        -- apply IsChunksReleased_Mark.
        -- apply Hgb.
        -- destruct Hgb as (_ & _ & _ & Hr & _). etrans; [exact Hr|].
           pose proof (charge_le_reserved m _ resv c Hb Hl Hc Hun).
           change (cr_spec r1) with (cr_spec resv). lia.
  - intros e Hc He. apply wp_bind, wp_ret, wp_ret, HQ; [split|].
    + intros k Hk _. by apply lookup_insert_ne.
    + by rewrite Hc1.
    + intros c Hc'. rewrite Hc1 in Hc. congruence.
    + intros _. exists r1. split_and!; [done..|]. rewrite <-Hc1, Hc. by intros [? ?].
    + intros r'. unfold m1, put. simpl. rewrite lookup_insert_eq. by intros [= <-].
    + intros Hb _. by apply Hb1.
Qed.

(** What DELETE /api/v1/reservations/{id} answers and the store it leaves. *)
Inductive release_outcome (s : Server) (caller name query : string) (m : store) :
  Response ReleaseResponse → store → Prop :=
| ro_missing e :
    objs m !! resv_key (sv_namespace s) name = None →
    release_outcome s caller name query m (Error StatusNotFound e) m
| ro_forbidden resv e :
    objs m !! resv_key (sv_namespace s) name = Some (OResv resv) →
    caller ≠ rs_ConsumerClusterID (cr_spec resv) →
    release_outcome s caller name query m (Error StatusForbidden e) m
| ro_bad_query resv e e' :
    objs m !! resv_key (sv_namespace s) name = Some (OResv resv) →
    caller = rs_ConsumerClusterID (cr_spec resv) → parseChunksQuery query = Fail e' →
    release_outcome s caller name query m (Error StatusBadRequest e) m
| ro_partial resv n e :
    objs m !! resv_key (sv_namespace s) name = Some (OResv resv) →
    caller = rs_ConsumerClusterID (cr_spec resv) → parseChunksQuery query = Ok n →
    n ≠ 0 → n ≠ rs_ChunkCount (cr_spec resv) →
    release_outcome s caller name query m (Error StatusNotImplemented e) m
| ro_again resv n :
    objs m !! resv_key (sv_namespace s) name = Some (OResv resv) →
    caller = rs_ConsumerClusterID (cr_spec resv) → parseChunksQuery query = Ok n →
    n = 0 ∨ n = rs_ChunkCount (cr_spec resv) → release_skips (rt_Phase (cr_status resv)) = true →
    release_outcome s caller name query m
      (JSON StatusAccepted (mkReleaseResp name (rt_Phase (cr_status resv)) 0)) m
| ro_released resv n m' :
    objs m !! resv_key (sv_namespace s) name = Some (OResv resv) →
    caller = rs_ConsumerClusterID (cr_spec resv) → parseChunksQuery query = Ok n →
    n = 0 ∨ n = rs_ChunkCount (cr_spec resv) → release_skips (rt_Phase (cr_status resv)) = false →
    released_store resv m m' →
    release_outcome s caller name query m
      (JSON StatusAccepted (mkReleaseResp name ReservationPhaseUnpeering 0)) m'.

(** A Reservation whose chunks were given back is past holding them. *)
Definition marks_settled (m : store) : Prop :=
  ∀ k r, objs m !! k = Some (OResv r) → IsChunksReleased r = true →
    release_skips (rt_Phase (cr_status r)) = true.

Lemma wp_handleReservationRelease s rid caller name query (Q : Response ReleaseResponse → store → Prop) m :
  store_wf m → valid m →
  (∀ x m', release_outcome s caller name query m x m' →
     (balanced m → marks_settled m → balanced m') → Q x m') →
  wp reliable (handleReservationRelease s rid caller name query) Q m.
Proof.
  intros Hwf Hv HQ. unfold handleReservationRelease. apply wp_bind, wp_get; [done| |].
  2:{ intros e Hn He. apply wp_ret. unfold reservation_read_error, IsNotFound.
      rewrite bool_decide_eq_true_2 by done. by apply HQ; [apply ro_missing|]. }
  intros resv Hl Hns Hn. simpl in Hl. destruct (decide _) as [Hcaller|Hcaller].
  2:{ apply wp_ret, HQ; [|done]. by eapply ro_forbidden. }
  destruct (parseChunksQuery query) as [n|e'] eqn:Hq.
  2:{ apply wp_ret, HQ; [|done]. by eapply ro_bad_query. }
  assert (negb (n =? 0) && negb (n =? rs_ChunkCount (cr_spec resv)) = true → n ≠ 0 ∧ n ≠ rs_ChunkCount (cr_spec resv))
    as Hpart by (intros E; fed_bools; lia).
  assert (negb (n =? 0) && negb (n =? rs_ChunkCount (cr_spec resv)) = false →
    n = 0 ∨ n = rs_ChunkCount (cr_spec resv)) as Hfull.
  { intros [E|E]%andb_false_iff; apply negb_false_iff, Z.eqb_eq in E; tauto. }
  destruct (negb (n =? 0) && _).
  { destruct (Hpart eq_refl). apply wp_ret, HQ; [by eapply ro_partial|done]. }
  specialize (Hfull eq_refl). destruct (release_skips (rt_Phase (cr_status resv))) eqn:Hskip.
  { rewrite Hn. apply wp_ret, HQ; [by eapply ro_again|done]. }
  apply wp_releaseReservation; [done..|by rewrite (resv_key_of _ _ _ Hns Hn)|].
  intros m' Hrel Hbal. rewrite Hn. apply HQ; [by eapply ro_released|].
  intros Hb Hset. apply Hbal; [done|]. apply not_true_is_false. intros Hm.
  by rewrite (Hset _ _ Hl Hm) in Hskip.
Qed.

(** A release marks only what it moves to Unpeering, so it keeps the marks
    settled, and the next release of the same Reservation finds nothing to do. *)
Lemma release_outcome_again s caller name query m x m' y m'' :
  release_outcome s caller name query m (JSON StatusAccepted x) m' →
  (∀ r, objs m !! resv_key (sv_namespace s) name = Some (OResv r) → kept r) →
  store_wf m → release_outcome s caller name query m' y m'' →
  y = JSON StatusAccepted x ∧ m'' = m'.
Proof.
  intros H1 Hkept Hwf H2.
  assert (∃ r n, objs m' !! resv_key (sv_namespace s) name = Some (OResv r) ∧
    caller = rs_ConsumerClusterID (cr_spec r) ∧ parseChunksQuery query = Ok n ∧
    (n = 0 ∨ n = rs_ChunkCount (cr_spec r)) ∧ release_skips (rt_Phase (cr_status r)) = true ∧
    x = mkReleaseResp name (rt_Phase (cr_status r)) 0) as (r & n & Hl & Hc & Hq & Hn & Hs & ->).
  { inversion H1 as [| | | |r n Hl Hc Hq Hn Hs E1 E2|r n m1 Hl Hc Hq Hn Hs Hrel E1 E2]; subst.
    - by exists r, n.
    - destruct (rl_resv _ _ _ Hrel (Hkept _ Hl)) as (r' & Hr' & Hsp & Hp & _).
      assert (cr_key r = resv_key (sv_namespace s) name) as Hk
        by (destruct (wf_key _ Hwf _ _ Hl) as [<- _]; done).
      rewrite Hk in Hr'. exists r', n. rewrite Hsp, Hp. done. }
  destruct H2 as [e Hl2|r2 e Hl2 ?|r2 e e' Hl2 ? Hq2|r2 n2 e Hl2 ? Hq2 ??|r2 n2 Hl2 ? Hq2 ??
    |r2 n2 m2 Hl2 ? Hq2 ? Hs2]; rewrite Hl in Hl2; simplify_eq; try done; try congruence.
  assert (n2 = n) as -> by congruence. by destruct Hn.
Qed.

(** ** GET /api/v1/reservations *)
Lemma typed_list_names ns (m : store) :
  store_wf m → NoDup (cr_Name <$> typed_list (S:=ReservationSpec) (T:=ReservationStatus) ns m).
Proof.
  intros Hwf. unfold typed_list, list_of. set (f := filter _ (objs m)).
  pose proof (NoDup_fst_map_to_list f) as Hnd.
  assert (∀ k o, (k, o) ∈ map_to_list f → k = obj_key o ∧ k.1 = (KReservation, ns)) as Hkey.
  { intros k o Hin. apply elem_of_map_to_list, map_lookup_filter_Some in Hin as [Hl Hk].
    by destruct (wf_key _ Hwf _ _ Hl). }
  revert Hnd Hkey. generalize (map_to_list f). clear f.
  intros l. induction l as [|[k o] l IH]; intros Hnd Hkey; [constructor|].
  rewrite fmap_cons in Hnd. apply NoDup_cons in Hnd as [Hni Hnd].
  assert (∀ k o, (k, o) ∈ l → k = obj_key o ∧ k.1 = (KReservation, ns)) as Hkey'
    by (intros k' o' ?; apply Hkey; by constructor).
  destruct (Hkey k o) as [Hk Hkns]; [constructor|]. simpl.
  destruct o as [ |r| | | | | | | | | | | | ]; try (by subst k; discriminate Hkns). simpl. apply NoDup_cons. split; [|by apply IH].
  intros Hin. apply list_elem_of_fmap in Hin as (r' & E & Hin). apply list_elem_of_omap in Hin as (o' & Ho' & Hr').
  apply list_elem_of_fmap in Ho' as ([k' o2] & -> & Hin'). simpl in Hr'. destruct o2 as [ |r2| | | | | | | | | | | | ]; simplify_eq.
  destruct (Hkey' _ _ Hin') as [Hk' Hkns']. apply Hni. apply list_elem_of_fmap. exists (k', OResv r').
  split; [|done]. subst. unfold obj_key in *. simpl in *. unfold cr_Name in E. by rewrite E in *; congruence.
Qed.

(** ** On any server that answers its requests *)
Section OnServer.
Context {W : Type} `{!ApiServer W} `{!ServerMeets W reliable}.
Variables (s : Server) (reg : ConsumerRegistry) (requestID cid header : string).

Lemma run_create req (w : W) :
  store_wf (view w) → valid (view w) → validateReservationRequest req = None →
  let out := run (handleReservationCreate s reg requestID cid header (Ok req)) w in
  create_outcome s reg cid header req (view w) out.1 (view out.2) ∧
  store_wf (view out.2) ∧ valid (view out.2).
Proof.
  intros Hwf Hv Hval out.
  apply (wp_adequate reliable _ (λ x m', create_outcome s reg cid header req (view w) x m' ∧
           store_wf m' ∧ valid m')).
  eapply wp_mono; [|apply wp_and; [by apply wp_handleReservationCreate|
    apply (rg_reliable _ (λ _ m', Rely (view w) m')); [done|by apply handleReservationCreate_safe]]].
  intros x m' [Ho [(Hwf' & _) [HV _]]]. auto.
Qed.

(** GET /api/v1/reservations answers 200 with exactly the caller's
    reservations, and with the same list, sorted by name, in whatever order the
    API server returned them; nothing is written. *)
Theorem handleReservationList_exact (w : W) :
  store_wf (view w) →
  let own := filter (λ r : Reservation, rs_ConsumerClusterID (cr_spec r) = cid)
               (typed_list (sv_namespace s) (view w)) in
  let out := run (handleReservationList s requestID cid) w in
  out.1 = JSON StatusOK
    (GoSort.SliceStable (λ a b, GoStr.str_lt (rr_ReservationID a) (rr_ReservationID b))
       (reservationResponseFromCR <$> own)) ∧ view out.2 = view w.
Proof.
  intros Hwf own. apply (wp_adequate reliable _ (λ x m', x = JSON StatusOK
    (GoSort.SliceStable (λ a b, GoStr.str_lt (rr_ReservationID a) (rr_ReservationID b))
       (reservationResponseFromCR <$> own)) ∧ m' = view w)).
  unfold handleReservationList. apply wp_bind, wp_list. intros l Hl. apply wp_ret. split; [|done].
  f_equal. apply GoSort.SliceStable_key_unique; [apply _|apply GoStr.str_lt_total| |].
  - unfold own. by rewrite Hl.
  - rewrite Hl, <-list_fmap_compose.
    eapply sublist_NoDup; [by apply (typed_list_names (sv_namespace s) (view w))|].
    apply (fmap_sublist (rr_ReservationID ∘ reservationResponseFromCR)), sublist_filter.
Qed.

(** C7: Every answer of POST /api/v1/reservations to a valid request is the
    documented one for the state it found: 412 without a heartbeat, 404 for an
    unknown provider or chunk type, 503 for an unavailable one, 400 for a bad
    name, 200 for a repeated request, 409 for a name taken by another request or
    a provider without a free chunk, each leaving the store as it was, and
    otherwise 201 with exactly one chunk of the provider taken and one fresh
    Pending Reservation for it. *)
Theorem handleReservationCreate_outcome req (w : W) :
  store_wf (view w) → valid (view w) → validateReservationRequest req = None →
  let out := run (handleReservationCreate s reg requestID cid header (Ok req)) w in
  create_outcome s reg cid header req (view w) out.1 (view out.2).
Proof. apply run_create. Qed.

(** POST /api/v1/reservations is idempotent under a client-chosen
    X-Reservation-Id: repeating a request that was answered 201 is answered 200
    with the same body and takes no further chunk, even when the provider is
    full by then. *)
Theorem handleReservationCreate_retry req (w : W) body :
  store_wf (view w) → valid (view w) → header ≠ "" →
  let post := handleReservationCreate s reg requestID cid header (Ok req) in
  (run post w).1 = JSON StatusCreated body →
  let again := run post (run post w).2 in
  again.1 = JSON StatusOK body ∧ view again.2 = view (run post w).2.
Proof.
  intros Hwf Hv Hh post Hfirst again.
  assert (validateReservationRequest req = None) as Hval.
  { unfold post, handleReservationCreate in Hfirst.
    destruct (validateReservationRequest req); [discriminate|done]. }
  destruct (run_create req w Hwf Hv Hval) as (Ho1 & Hwf1 & Hv1).
  destruct (run_create req (run post w).2 Hwf1 Hv1 Hval) as (Ho2 & _).
  fold post in Ho1, Ho2. rewrite Hfirst in Ho1.
  inversion Ho1 as [| | | | | | |c c' r m' Hreg Hus Hname Hcr]; subst.
  by apply (created_retry s reg cid header req (view w) _ _ c c' r).
Qed.

(** Whatever POST /api/v1/reservations is sent, on a store whose books
    balance (every provider's reserved count is the sum of its unreleased
    reservations) they balance afterwards. *)
Theorem handleReservationCreate_balanced body (w : W) :
  balanced (view w) →
  balanced (view (run (handleReservationCreate s reg requestID cid header body) w).2).
Proof. intros Hb. apply (wp_adequate reliable _ (λ _ m', balanced m')). by apply wp_create_balanced. Qed.


(** A release keeps the books balanced, provided no Reservation that still
    holds chunks carries the released marker. *)
Theorem handleReservationRelease_balanced name query (w : W) :
  balanced (view w) → marks_settled (view w) →
  balanced (view (run (handleReservationRelease s requestID cid name query) w).2).
Proof.
  intros Hb Hs. apply (wp_adequate reliable _ (λ _ m', balanced m')).
  apply wp_handleReservationRelease; [apply Hb..|]. auto.
Qed.

(** DELETE is idempotent: repeating an accepted release is accepted with
    the same body and gives no chunk back twice. *)
Theorem handleReservationRelease_retry name query (w : W) body :
  store_wf (view w) → valid (view w) →
  (∀ r, objs (view w) !! (KReservation, sv_namespace s, name) = Some (OResv r) → kept r) →
  let del := handleReservationRelease s requestID cid name query in
  (run del w).1 = JSON StatusAccepted body →
  (run del (run del w).2).1 = JSON StatusAccepted body ∧
  view (run del (run del w).2).2 = view (run del w).2.
Proof.
  intros Hwf Hv Hkept del Hfirst.
  assert (∀ w0, store_wf (view w0) → valid (view w0) →
    release_outcome s cid name query (view w0) (run del w0).1 (view (run del w0).2) ∧
    store_wf (view (run del w0).2) ∧ valid (view (run del w0).2)) as Hrun.
  { intros w0 Hwf0 Hv0.
    apply (wp_adequate reliable _ (λ x m', release_outcome s cid name query (view w0) x m' ∧
             store_wf m' ∧ valid m')).
    eapply wp_mono; [|apply wp_and; [by apply (wp_handleReservationRelease _ _ _ _ _
        (release_outcome s cid name query (view w0)))|
      apply (rg_reliable _ (λ _ m', Rely (view w0) m')); [done|by apply handleReservationRelease_safe]]].
    intros x m' [Ho [(Hwf' & _) [HV _]]]. auto. }
  destruct (Hrun w Hwf Hv) as (H1 & Hwf1 & Hv1). destruct (Hrun _ Hwf1 Hv1) as (H2 & _).
  rewrite Hfirst in H1. by eapply release_outcome_again.
Qed.
End OnServer.
End ReservationProofs.

(** ** Concrete runs *)
Module ReservationWitness.
Import SafetyWitness.
#[local] Existing Instance MilliPlatform.platform.

Definition w9 : mem := mem_init m9.
Definition reg1 : ConsumerRegistry :=
  Touch "cons" "liqo-cons" (mkPolicy PlacementStrategyStandard) "" "" None None 0 ∅.
Definition req1 : ReservationRequest := mkResvReq "prov" "" 1 ChunkTypeStandard [].

Lemma w9_wf : store_wf (view w9).
Proof. exact m9_wf. Qed.

Lemma w9_valid : valid (view w9).
Proof. exact m9_valid. Qed.

Lemma m9_lookup k r :
  objs m9 !! k = Some (OResv r) → k = key1 ∧ r = resv1.
Proof.
  unfold m9, store_of. simpl. intros [[_ ?]|[_ Hl]]%lookup_insert_Some; [done|].
  apply lookup_insert_Some in Hl as [[<- [= <-]]|[_ Hl]]; [done|]. by rewrite lookup_empty in Hl.
Qed.

Lemma w9_balanced : balanced (view w9).
Proof.
  split; [exact m9_wf|exact m9_valid|]. change (ledger m9). intros ns p c Hc.
  unfold m9, store_of in Hc. simpl in Hc.
  apply lookup_insert_Some in Hc as [[[= <- <-] [= <-]]|[_ Hc]]; [reflexivity|].
  apply lookup_insert_Some in Hc as [[_ ?]|[_ Hc]]; [done|]. by rewrite lookup_empty in Hc.
Qed.

Lemma handleReservationCreate_outcome_witness :
  ∃ c c' r m', created srv1 "cons" (Lookup "cons" reg1).1 req1 m9 m' c c' r.
Proof.
  assert (∃ body, (run (handleReservationCreate srv1 reg1 "rid" "cons" "res-2" (Ok req1)) w9).1 =
    JSON StatusCreated body) as [body E] by (eexists; reflexivity).
  pose proof (handleReservationCreate_outcome srv1 reg1 "rid" "cons" "res-2" req1 w9
    w9_wf w9_valid eq_refl) as Ho.
  cbv zeta in Ho. rewrite E in Ho. inversion Ho. eauto.
Defined.

Lemma handleReservationList_exact_witness :
  (run (handleReservationList srv1 "rid" "cons") w9).1 =
    JSON StatusOK [reservationResponseFromCR resv1].
Proof. exact (proj1 (handleReservationList_exact srv1 "rid" "cons" w9 w9_wf)). Defined.

Lemma handleReservationCreate_retry_witness :
  ∃ body, let post := handleReservationCreate srv1 reg1 "rid" "cons" "res-2" (Ok req1) in
    rr_ReservationID body = "res-2" ∧ (run post (run post w9).2).1 = JSON StatusOK body.
Proof.
  assert (∃ body, (run (handleReservationCreate srv1 reg1 "rid" "cons" "res-2" (Ok req1)) w9).1 =
    JSON StatusCreated body ∧ rr_ReservationID body = "res-2") as (body & E & Hid)
    by (eexists; split; reflexivity).
  exists body. split; [exact Hid|].
  destruct (handleReservationCreate_retry srv1 reg1 "rid" "cons" "res-2" req1 w9 body
    w9_wf w9_valid) as [Hagain _]; [discriminate|exact E|exact Hagain].
Defined.

Lemma handleReservationCreate_balanced_witness :
  balanced (mem_store (run (handleReservationCreate srv1 reg1 "rid" "cons" "res-2" (Ok req1)) w9).2).
Proof. apply (handleReservationCreate_balanced srv1 reg1 "rid" "cons" "res-2" (Ok req1) w9 w9_balanced). Defined.


Lemma w9_settled : marks_settled (view w9).
Proof. intros k r [_ ->]%m9_lookup. done. Qed.

Lemma handleReservationRelease_balanced_witness :
  balanced (mem_store (run (handleReservationRelease srv1 "rid" "cons" "res-1" "1") w9).2).
Proof. apply (handleReservationRelease_balanced srv1 "rid" "cons" "res-1" "1" w9 w9_balanced w9_settled). Defined.

Lemma handleReservationRelease_retry_witness :
  let del := handleReservationRelease srv1 "rid" "cons" "res-1" "" in
  mem_store (run del (run del w9).2).2 = mem_store (run del w9).2.
Proof.
  apply (handleReservationRelease_retry srv1 "rid" "cons" "res-1" "" w9
    (mkReleaseResp "res-1" ReservationPhaseUnpeering 0) w9_wf w9_valid); [|reflexivity].
  intros r [_ ->]%m9_lookup. by left.
Defined.
End ReservationWitness.
