(* ===== verification/ReconcileProofs.v ===== *)
(** * The Reservation reconciler: what it does

    On a reliable server, reconciling a Reservation in any state keeps the
    chunk ledger balanced; a terminal Reservation gives its chunks back exactly
    once; a deleted one loses the finalizer only after it did. *)
From stdpp Require Import base gmap strings list.
From Stdlib Require Import ZArith Lia.
From S2P Require Import Prelude ApiTypes Chunk Wire Kube MemServer Registry Placement.
From S2P Require Import ReservationApi InstructionsApi AdvertisementApi ReservationController Housekeeping.
From S2P Require Import BrokerInvariant BrokerSafety Ledger ReservationProofs.

Open Scope Z_scope.

(** Whoever calls: the schema is not asked for. *)
#[local] Instance anyone : Discipline := False.

Section ReconcileProofs.
Context `{Platform}.

Lemma source_anyone m resv : source m resv.
Proof. by intros []. Qed.

(** [resv] is what the store holds under its key. *)
Definition current (m : store) (resv : Reservation) : Prop :=
  objs m !! cr_key resv = Some (OResv resv).

(** ** Neutral parts *)
Lemma anyOtherSibling_neutral resv counts : neutral (anyOtherSibling resv counts).
Proof. unfold anyOtherSibling. neutral_tac. Qed.

Lemma kubeconfigSecretExists_neutral resv : neutral (kubeconfigSecretExists resv).
Proof. unfold kubeconfigSecretExists. neutral_tac. Qed.

Lemma ensureInstruction_neutral resv ri : neutral (ensureInstruction resv ri).
Proof. unfold ensureInstruction. neutral_tac. Qed.

Lemma ensureSharedPI_neutral pi : neutral (ensureSharedProviderInstruction pi).
Proof. unfold ensureSharedProviderInstruction. neutral_tac. Qed.

Lemma emitConsumerCleanup_neutral resv owned : neutral (emitConsumerCleanup resv owned).
Proof.
  unfold emitConsumerCleanup. apply spares_bind; [apply anyOtherSibling_neutral|].
  intros [last|e]; [|done]. destruct owned; [apply ensureInstruction_neutral|].
  unfold ensureSharedReservationInstruction. neutral_tac.
Qed.

Lemma teardownCredential_neutral r resv gc : neutral (teardownCredential r resv gc).
Proof.
  unfold teardownCredential. apply spares_bind; [apply kubeconfigSecretExists_neutral|].
  intros [[]|e]; [|done..]. apply spares_bind; [apply emitConsumerCleanup_neutral|].
  intros [e|]; [done|]. apply spares_bind; [apply anyOtherSibling_neutral|].
  intros [[]|e]; [done| |done]. apply spares_bind; [apply ensureSharedPI_neutral|].
  intros [e|]; [done|]. unfold deleteKubeconfigSecret. neutral_tac.
Qed.

Lemma handleUnpeering_neutral resv : neutral (handleUnpeering resv).
Proof.
  unfold handleUnpeering. apply spares_bind; [apply anyOtherSibling_neutral|].
  intros [last|e]; [|done]. apply spares_bind; [apply ensureInstruction_neutral|].
  intros [e|]; done.
Qed.

Lemma books_current m m' resv : books_same m m' → current m resv → current m' resv.
Proof. intros [_ Hk] Hc. unfold current. rewrite Hk; [done|by left]. Qed.

(** Running a neutral part keeps the books and the Reservation. *)
Lemma wp_aside {A B} (p : prog A) (f : A → prog B) (Q : B → store → Prop) m resv :
  balanced m → current m resv → neutral p → safe m p →
  (∀ a m', balanced m' → current m' resv → wp reliable (f a) Q m') →
  wp reliable (p ≫= f) Q m.
Proof.
  intros Hb Hc Hn Hs Hf. apply wp_bind, wp_neutral_safe; [done..|].
  intros a m' Hb' Hsame. apply Hf; [done|]. by eapply books_current.
Qed.

(** ** Writes of the Reservation *)
Lemma wp_status_resv resv st (Q : Res Reservation → store → Prop) m :
  balanced m → current m resv →
  (∀ rv, let r' := cr_on_status rv resv (cr_set_status st resv) in
     let m' := put (cr_key resv) (OResv r') m in
     balanced m' → current m' r' → Q (Ok r') m') →
  wp reliable (status_update (cr_set_status st resv)) Q m.
Proof.
  intros Hb Hc HQ. apply (wp_status_current resv); [apply Hb|done..|].
  intros rv Hrv r' Hwf. apply HQ; [|apply lookup_insert_eq].
  by apply (balanced_resv_put m _ resv).
Qed.

Lemma wp_advancePhase resv next msg (Q : option Err → store → Prop) m :
  balanced m → current m resv → (∀ m', balanced m' → Q None m') →
  wp reliable (advancePhase resv next msg) Q m.
Proof.
  intros Hb Hc HQ. unfold advancePhase. destruct (decide _); [by apply wp_ret, HQ|].
  apply wp_bind, wp_status_resv; [done..|]. intros rv r' m' Hb' _. by apply wp_ret, HQ.
Qed.

(** ** Giving the chunks back *)
Lemma IsChunksReleased_update rv gen (r r' : Reservation) :
  IsChunksReleased (cr_on_update rv gen r r') = IsChunksReleased r'.
Proof. done. Qed.

(** The Reservation stored under [k] is marked, and keeps the finalizers and
    the deletion mark of [r0]. *)
Definition settled_at (m : store) (k : Kind * string * string) (r0 : Reservation) : Prop :=
  ∀ r, objs m !! k = Some (OResv r) → IsChunksReleased r = true ∧
    m_Finalizers (cr_meta r) = m_Finalizers (cr_meta r0) ∧
    m_DeletionTimestamp (cr_meta r) = m_DeletionTimestamp (cr_meta r0).

Lemma settled_put m k rv gen (r r' : Reservation) :
  IsChunksReleased r' = true → m_DeletionTimestamp (cr_meta r') = m_DeletionTimestamp (cr_meta r) →
  settled_at (put_or_drop k (OResv (cr_on_update rv gen r r')) m) k r'.
Proof.
  intros Hr Hd r2. unfold put_or_drop. repeat case_match; unfold put, retire; simpl.
  all: rewrite ?lookup_insert_eq, ?lookup_delete_eq; intros; by simplify_eq.
Qed.

Lemma wp_releaseChunks resv (Q : option Err → store → Prop) m :
  balanced m → current m resv → IsChunksReleased resv = false →
  (∀ m', balanced m' → settled_at m' (cr_key resv) resv → 
     (kept resv → ∃ r', objs m' !! cr_key resv = Some (OResv r')) → Q None m') →
  wp reliable (releaseChunks resv) Q m.
Proof.
  intros Hb Hc Hun HQ. pose proof (bl_wf _ Hb) as Hwf. pose proof (bl_valid _ Hb) as Hv.
  assert (obj_ok (OResv resv)) as Hcount by (by apply Hv, (wf_key _ Hwf (cr_key resv))). simpl in Hcount.
  apply wp_release_loop; [done| |].
  - intros c rv Hcadv Hrv m1 Hwf1.
    assert (cadv_ok (cr_status c)) as Hok by (by apply (Hv (OCadv c)), (wf_key _ Hwf _ _ Hcadv)).
    pose proof (released_given_back c _ Hok Hcount) as Hgb.
    assert (objs m1 !! cr_key resv = Some (OResv resv)) as Hl1.
    { unfold m1, put. simpl. by rewrite lookup_insert_ne. }
    refine (proj2 (wp_mark 2 _ _ resv _ m1 Hwf1 Hl1 _ _)); [congruence|].
    intros rv2 gen _ Hrv2 m2 Hwf2. apply HQ.
    + apply (balanced_credit m (resv_key (cr_Namespace resv) (cr_Name resv)) resv
        (cr_on_update rv2 gen resv (MarkChunksReleased resv)) c
        (cr_on_status rv c (released c (rs_ChunkCount (cr_spec resv)))));
        [done..|apply IsChunksReleased_Mark|done|apply Hgb| |done].
      destruct Hgb as (_ & _ & _ & Hr & _). etrans; [exact Hr|].
      pose proof (charge_le_reserved m _ resv c Hb Hc Hcadv Hun). lia.
    + exact (settled_put m1 (resv_key (cr_Namespace resv) (cr_Name resv)) rv2 gen resv _
        (IsChunksReleased_Mark resv) eq_refl).
    + intros Hk. eexists. unfold m2. rewrite put_or_drop_kept by done. apply lookup_insert_eq.
  - intros Hnone. refine (proj2 (wp_mark 2 _ _ resv _ m Hwf Hc _ _)); [congruence|].
    intros rv2 gen _ Hrv2 m2 Hwf2. apply HQ.
    + apply (balanced_orphan m (resv_key (cr_Namespace resv) (cr_Name resv)) resv (cr_on_update rv2 gen resv (MarkChunksReleased resv)));
        [done..|apply IsChunksReleased_Mark|done].
    + exact (settled_put m (resv_key (cr_Namespace resv) (cr_Name resv)) rv2 gen resv _
        (IsChunksReleased_Mark resv) eq_refl).
    + intros Hk. eexists. unfold m2. rewrite put_or_drop_kept by done. apply lookup_insert_eq.
Qed.

(** ** Deletion *)

(** Nothing is stored under [k], or a marked Reservation without the
    finalizer. *)
Definition let_go (m : store) (k : Kind * string * string) : Prop :=
  ∀ r, objs m !! k = Some (OResv r) →
    IsChunksReleased r = true ∧ ReservationFinalizer ∉ m_Finalizers (cr_meta r).

Lemma balanced_update_marked m k rv gen (r r' : Reservation) :
  let m' := put_or_drop k (OResv (cr_on_update rv gen r r')) m in
  balanced m → objs m !! k = Some (OResv r) → store_wf m' → cr_spec r' = cr_spec r →
  IsChunksReleased r = true → IsChunksReleased r' = true → balanced m'.
Proof.
  intros m' Hb Hk Hwf Hs Hr Hr'. unfold m', put_or_drop in *.
  destruct (m_DeletionTimestamp _); [destruct (m_Finalizers _)|].
  - by apply (balanced_resv_retire m k r).
  - apply (balanced_resv_put m k r); try done. by rewrite IsChunksReleased_update, Hr, Hr'.
  - apply (balanced_resv_put m k r); try done. by rewrite IsChunksReleased_update, Hr, Hr'.
Qed.

Lemma wp_finalizer_loop n ns name r0 (Q : CtrlResult * option Err → store → Prop) m :
  balanced m → settled_at m (resv_key ns name) r0 →
  (∀ m', balanced m' → let_go m' (resv_key ns name) →
     (m_Finalizers (cr_meta r0) = [ReservationFinalizer] → m_DeletionTimestamp (cr_meta r0) ≠ None →
        objs m' !! resv_key ns name = None) →
     Q (no_requeue, None) m') →
  wp reliable (finalizer_loop (S n) ns name) Q m.
Proof.
  intros Hb Hs HQ. cbn [finalizer_loop]. apply wp_bind, wp_get; [apply Hb| |].
  2:{ intros e Hn He. apply wp_ret. unfold IgnoreNotFound, IsNotFound.
      rewrite bool_decide_eq_true_2 by done. apply HQ; [done| |]; intros r; simpl in *; congruence. }
  intros fresh Hl Hns Hn. simpl in Hl. destruct (Hs _ Hl) as (Hm & Hf & Hd).
  assert (cr_key fresh = resv_key ns name) as Hkey by by apply resv_key_of.
  unfold RemoveFinalizer. cbv iota beta zeta.
  destruct (ContainsFinalizer fresh ReservationFinalizer) eqn:Hcf; unfold ContainsFinalizer in Hcf.
  - set (fresh' := cr_set_meta _ fresh).
    apply wp_bind, (wp_update_current fresh); [apply Hb|by rewrite Hkey|done..|].
    rewrite Hkey. intros rv gen Hrv a' Hwf. apply wp_ret, HQ.
    + by apply (balanced_update_marked m _ rv gen fresh fresh').
    + intros r Hr. apply lookup_put_or_drop in Hr as Hr'.
      assert (settled_at (put_or_drop (resv_key ns name) (OResv a') m) (resv_key ns name)
        fresh') as Hset by by apply settled_put.
      destruct (Hset _ Hr) as (Hr1 & -> & _). split; [done|]. simpl. rewrite list_elem_of_filter. tauto.
    + intros Hf0 Hd0. unfold put_or_drop. simpl. rewrite Hf, Hf0, filter_cons_False by tauto. simpl.
      destruct (m_DeletionTimestamp (cr_meta fresh)); [apply lookup_delete_eq|congruence].
  - apply bool_decide_eq_false in Hcf. apply wp_ret, HQ; [done| |].
    + intros r Hr. rewrite Hl in Hr. by simplify_eq.
    + intros Hf0. rewrite Hf, Hf0 in Hcf. by destruct Hcf; constructor.
Qed.

Lemma settled_books m m' k r0 :
  books_same m m' → k.1.1 = KReservation → settled_at m k r0 → settled_at m' k r0.
Proof. intros [_ Hk] Hkd Hs r. rewrite Hk; [apply Hs|by left]. Qed.

(** The release step shared by deletion and terminal handling. *)
Lemma wp_release_unless resv (Q : option Err → store → Prop) m :
  balanced m → current m resv →
  (∀ m', balanced m' → settled_at m' (cr_key resv) resv → Q None m') →
  wp reliable (if IsChunksReleased resv then mret None else releaseChunks resv) Q m.
Proof.
  intros Hb Hc HQ. destruct (IsChunksReleased resv) eqn:Hm.
  - apply wp_ret, HQ; [done|]. intros r Hr. unfold current in Hc. rewrite Hc in Hr. by simplify_eq.
  - apply wp_releaseChunks; [done..|]. auto.
Qed.

(** The consumer's cleanup request is stored, now or already. *)
Lemma wp_emitConsumerCleanup resv owned (Q : option Err → store → Prop) m :
  balanced m →
  (∀ m', balanced m' → books_same m m' →
     is_Some (objs m' !! (KReservationInstruction, cr_Namespace resv,
                          reservationInstructionCleanupName (cr_Name resv))) → Q None m') →
  wp reliable (emitConsumerCleanup resv owned) Q m.
Proof.
  intros Hb HQ. set (k := (KReservationInstruction, _, _)) in HQ.
  assert (wp reliable (emitConsumerCleanup resv owned) (λ e m', e = None ∧ is_Some (objs m' !! k)) m) as Hok.
  { unfold emitConsumerCleanup, hasOtherHoldingReservation, anyOtherSibling.
    apply wp_bind, wp_bind, wp_list. intros l _. apply wp_ret. cbv zeta beta iota.
    assert (∀ ri : ReservationInstruction, cr_key ri = k →
      wp reliable (ensureSharedReservationInstruction ri) (λ e m', e = None ∧ is_Some (objs m' !! k)) m) as Hri.
    { intros ri Hkey. apply wp_bind, wp_create; [apply Hb|..]; rewrite Hkey.
      - intros rv uid t Hn Hrv a' Hwf. apply wp_ret. split; [done|]. eexists. apply lookup_insert_eq.
      - intros e o Ho He. apply wp_ret. unfold IsAlreadyExists. rewrite bool_decide_eq_true_2 by done. by eauto. }
    destruct owned; by apply Hri. }
  eapply wp_mono; [|apply wp_and; [exact Hok|]].
  2:{ apply (wp_neutral_safe _ (λ _ m', balanced m' ∧ books_same m m')); [done|
        apply emitConsumerCleanup_neutral|apply emitConsumerCleanup_safe; [apply Hb|apply source_anyone]|by auto]. }
  intros e m' [[-> Hs] [Hb' Hsame]]. by apply HQ.
Qed.

Lemma wp_handleDeletion resv (Q : CtrlResult * option Err → store → Prop) m :
  balanced m → current m resv → ReservationFinalizer ∈ m_Finalizers (cr_meta resv) →
  m_DeletionTimestamp (cr_meta resv) ≠ None →
  (∀ m', balanced m' → let_go m' (cr_key resv) →
     (m_Finalizers (cr_meta resv) = [ReservationFinalizer] → objs m' !! cr_key resv = None) →
     Q (no_requeue, None) m') →
  wp reliable (handleDeletion resv) Q m.
Proof.
  intros Hb Hc Hf Hd HQ. unfold handleDeletion, ContainsFinalizer. rewrite bool_decide_eq_true_2 by done.
  apply wp_bind, wp_release_unless; [done..|]. intros m1 Hb1 Hs1.
  apply wp_bind, wp_emitConsumerCleanup; [done|]. intros m2 Hb2 Hsame _.
  pose proof (settled_books _ _ (cr_key resv) _ Hsame eq_refl Hs1) as Hs2.
  apply (wp_finalizer_loop _ _ _ resv); [done..|].
  intros m3 Hb3 Hg Hgone. apply HQ; [done..|]. intros Hf1. by apply Hgone.
Qed.

(** ** Terminal phases *)

(** The Reservation stored under [k] was given its due: it is marked, or its
    deletion was requested. *)
Definition winding_up (m : store) (k : Kind * string * string) : Prop :=
  ∀ r, objs m !! k = Some (OResv r) →
    IsChunksReleased r = true ∨ m_DeletionTimestamp (cr_meta r) ≠ None.

Lemma wp_collectTerminal r resv t js (Q : CtrlResult * option Err → store → Prop) m :
  balanced m → current m resv → ReservationFinalizer ∈ m_Finalizers (cr_meta resv) →
  (∀ m' e, balanced m' → winding_up m' (cr_key resv) → Q e m') →
  wp reliable (collectTerminal r resv t js) Q m.
Proof.
  intros Hb Hc Hf HQ. unfold collectTerminal. apply wp_bind.
  assert (∀ gc : bool, wp reliable (if gc then
      x ← delete_cr resv;
      mret (match x with Ok _ => (no_requeue, None) | Fail e => (no_requeue, IgnoreNotFound e) end)
    else
      t0 ← now;
      let gcRequeue := Z.max (terminalTTL r - (t0 - t)) (gkResync r) in
      e ← (if IsChunksReleased resv then mret None else releaseChunks resv);
      match e with
      | Some e => mret (fails "release chunks" e)
      | None => teardownCredential r resv gcRequeue
      end) Q m) as Hgc.
  { intros [].
    - apply wp_bind, wp_delete; [apply Hb| |intros e Hn; unfold current in Hc; simpl in *; congruence].
      intros cur rv t1 Hcur Hrv m' Hwf. unfold current in Hc. rewrite Hc in Hcur. simplify_eq.
      simpl in Hcur. simplify_eq. unfold m' in *. destruct (m_Finalizers (cr_meta cur)) eqn:Hfs;
        [by apply elem_of_nil in Hf|].
      apply wp_ret, HQ; [by apply (balanced_resv_put m _ cur)|].
      intros r'. unfold put. simpl. rewrite lookup_insert_eq. intros. simplify_eq. by right.
    - apply wp_bind, wp_now. intros t0. cbv zeta. apply wp_bind, wp_release_unless; [done..|].
      intros m1 Hb1 Hs1. apply wp_neutral_safe; [done|apply teardownCredential_neutral|
        apply teardownCredential_safe; [apply Hb1|apply source_anyone]|].
      intros e m2 Hb2 Hsame. apply HQ; [done|]. intros r' Hr'. left.
      pose proof (settled_books _ _ (cr_key resv) _ Hsame eq_refl Hs1) as Hs2. by apply Hs2. }
  destruct js; [apply wp_ret, (Hgc false)|]. apply wp_bind, wp_now. intros t0. apply wp_ret, Hgc.
Qed.

Lemma wp_handleTerminal r resv (Q : CtrlResult * option Err → store → Prop) m :
  balanced m → current m resv → ReservationFinalizer ∈ m_Finalizers (cr_meta resv) →
  (∀ m' e, balanced m' → winding_up m' (cr_key resv) → Q e m') →
  wp reliable (handleTerminal r resv) Q m.
Proof.
  intros Hb Hc Hf HQ. unfold handleTerminal.
  destruct (rt_TerminatedAt (cr_status resv)); [by apply wp_collectTerminal|].
  apply wp_bind, wp_now. intros t. apply wp_bind, wp_status_resv; [done..|].
  intros rv r' m' Hb' Hc'. by apply wp_collectTerminal.
Qed.

(** ** Guards and dispatch *)

(** Phase handlers of the phases that are not terminal only move the phase and
    write instructions. *)
Lemma wp_phase_handler r resv (Q : CtrlResult * option Err → store → Prop) m :
  balanced m → current m resv → isReservationTerminal (rt_Phase (cr_status resv)) = false →
  (∀ m' e, balanced m' → Q e m') → wp reliable (dispatch r resv) Q m.
Proof.
  intros Hb Hc Ht HQ.
  assert (∀ m1 next msg, balanced m1 → current m1 resv →
    wp reliable (e ← advancePhase resv next msg; mret (finish no_requeue e)) Q m1) as Hadv.
  { intros m1 next msg Hb1 Hc1. apply wp_bind, wp_advancePhase; [done..|].
    intros m2 Hb2. by apply wp_ret, HQ. }
  assert (∀ (f : Res bool → prog (CtrlResult * option Err)),
    (∀ b m1, balanced m1 → current m1 resv → wp reliable (f b) Q m1) →
    wp reliable (kubeconfigSecretExists resv ≫= f) Q m) as Hsec.
  { intros f Hf. apply (wp_aside _ _ _ _ resv); [done..|apply kubeconfigSecretExists_neutral|
      by apply kubeconfigSecretExists_safe, Hb|done]. }
  unfold dispatch. destruct (rt_Phase (cr_status resv)); try discriminate Ht.
  1,2: apply Hsec; intros [[]|e] m1 Hb1 Hc1; [by apply Hadv| |by apply wp_ret, HQ];
    apply (wp_aside _ _ _ _ resv); [done..|apply ensureSharedPI_neutral|
      apply (ensureSharedPI_safe _ resv); [apply Hb1|apply source_anyone|apply generateKubeconfig_schema]|];
    intros [e|] m2 Hb2 Hc2; [by apply wp_ret, HQ|by apply Hadv].
  - apply Hsec. intros [[]|e] m1 Hb1 Hc1; [by apply Hadv|by apply wp_ret, HQ..].
  - apply (wp_aside _ _ _ _ resv); [done..|apply ensureInstruction_neutral|
      apply ensureInstruction_safe; [apply Hb|apply source_anyone|apply consumerInstruction_schema]|].
    intros [e|] m2 Hb2 Hc2; [by apply wp_ret, HQ|by apply Hadv].
  - by apply wp_ret, HQ.
  - by apply wp_ret, HQ.
  - apply wp_neutral_safe; [done|apply handleUnpeering_neutral|
      apply handleUnpeering_safe; [apply Hb|apply source_anyone]|auto].
Qed.

(** The expiry guard either leaves everything alone or ends the round. *)
Lemma wp_checkExpired resv (Q : bool * Duration → store → Prop) m :
  balanced m → current m resv → (∀ d, Q (false, d) m) →
  (∀ m', balanced m' → isReservationTerminal (rt_Phase (cr_status resv)) = false → Q (true, 0) m') →
  wp reliable (checkExpired resv) Q m.
Proof.
  intros Hb Hc HF HT. unfold checkExpired. destruct (rt_ExpiresAt (cr_status resv)) as [exp|];
    [|by apply wp_ret, HF].
  destruct (isReservationTerminal (rt_Phase (cr_status resv))); [by apply wp_ret, HF|].
  apply wp_bind, wp_now. intros t. destruct (t <? exp).
  - apply wp_bind, wp_now. intros t2. by apply wp_ret, HF.
  - apply wp_bind, wp_advancePhase; [done..|]. intros m' Hb'. by apply wp_ret, HT.
Qed.

Lemma wp_checkProviderAvailable resv (Q : bool * option Err → store → Prop) m :
  balanced m → current m resv → Q (false, None) m →
  (∀ m', balanced m' → isReservationTerminal (rt_Phase (cr_status resv)) = false → Q (true, None) m') →
  wp reliable (checkProviderAvailable resv) Q m.
Proof.
  intros Hb Hc HF HT. unfold checkProviderAvailable.
  destruct (isReservationTerminal (rt_Phase (cr_status resv))); [by apply wp_ret|].
  destruct (decide _); [by apply wp_ret|].
  assert (∀ msg m1, balanced m1 → current m1 resv → wp reliable
    (e ← advancePhase resv ReservationPhaseFailed msg;
     mret (match e with Some e => (false, Some e) | None => (true, None) end)) Q m1) as Hadv.
  { intros msg m1 Hb1 Hc1. apply wp_bind, wp_advancePhase; [done..|]. intros m2 Hb2. by apply wp_ret, HT. }
  assert (∀ msg, wp reliable
    (c ← (if needsConsumerCleanup (rt_Phase (cr_status resv)) then ensureCleanupInstruction resv else mret None);
     match c with
     | Some e => mret (false, Some (wrapf "ensure Cleanup instruction" e))
     | None => e ← advancePhase resv ReservationPhaseFailed msg;
               mret (match e with Some e => (false, Some e) | None => (true, None) end)
     end) Q m) as Hgive.
  { intros msg. apply wp_bind. destruct (needsConsumerCleanup _).
    - apply wp_emitConsumerCleanup; [done|]. intros m1 Hb1 Hsame _. apply Hadv; [done|].
      by eapply books_current.
    - apply wp_ret. by apply Hadv. }
  apply wp_bind, wp_get; [apply Hb| |].
  - intros c Hcadv _ _. cbv zeta. destruct (ca_Available (cr_status c)); [by apply wp_ret|apply Hgive].
  - intros e Hn He. unfold IsNotFound. rewrite bool_decide_eq_true_2 by done. apply Hgive.
Qed.

(** What one round leaves of the Reservation [resv] it started from. *)
Definition reconciled (resv : Reservation) (m' : store) : Prop :=
  balanced m' ∧
  (isReservationTerminal (rt_Phase (cr_status resv)) = true → winding_up m' (cr_key resv)).

Lemma wp_reconcileGuarded r resv (Q : CtrlResult * option Err → store → Prop) m :
  balanced m → current m resv → ReservationFinalizer ∈ m_Finalizers (cr_meta resv) →
  (∀ m' e, reconciled resv m' → Q e m') →
  wp reliable
    (c ← checkExpired resv;
     if (c.1 : bool) then mret (after c.2, None)
     else
       a ← checkProviderAvailable resv;
       match a with
       | (true, e) => mret (no_requeue, e)
       | (false, Some e) => mret (no_requeue, Some e)
       | (false, None) => dispatch r resv
       end) Q m.
Proof.
  intros Hb Hc Hf HQ. apply wp_bind, wp_checkExpired; [done..| |].
  2:{ intros m' Hb' Ht. apply wp_ret, HQ. split; [done|]. congruence. }
  intros d. cbv iota beta. simpl fst. apply wp_bind, wp_checkProviderAvailable; [done..| |].
  2:{ intros m' Hb' Ht. apply wp_ret, HQ. split; [done|]. congruence. }
  destruct (isReservationTerminal (rt_Phase (cr_status resv))) eqn:Ht.
  - assert (dispatch r resv = handleTerminal r resv) as ->
      by (unfold dispatch; by destruct (rt_Phase (cr_status resv))).
    apply wp_handleTerminal; [done..|]. intros m' e Hb' Hw. by apply HQ.
  - apply wp_phase_handler; [done..|]. intros m' e Hb'. apply HQ. split; [done|]. congruence.
Qed.

Lemma wp_reconcileLive r resv (Q : CtrlResult * option Err → store → Prop) m :
  balanced m → current m resv → ReservationFinalizer ∈ m_Finalizers (cr_meta resv) →
  (∀ m' e, reconciled resv m' → Q e m') → wp reliable (reconcileLive r resv) Q m.
Proof.
  intros Hb Hc Hf HQ. unfold reconcileLive, ensureExpiry.
  destruct (rt_ExpiresAt (cr_status resv)) eqn:He.
  - apply wp_bind, wp_ret. simpl fst. simpl snd. by apply wp_reconcileGuarded.
  - apply wp_bind, wp_bind. cbv zeta. apply wp_status_resv; [done..|]. intros rv r' m' Hb' Hc'.
    apply wp_ret. simpl fst. simpl snd. cbv iota. apply wp_reconcileGuarded; [done..|].
    intros m2 e [Hb2 Hw]. apply HQ. split; [done|]. intros Ht. apply Hw. simpl.
    by destruct (rt_ObservedGeneration _ =? 0).
Qed.

Lemma wp_Reconcile r ns name (Q : CtrlResult * option Err → store → Prop) m :
  balanced m →
  (∀ m' e, balanced m' →
     (∀ resv, objs m !! resv_key ns name = Some (OResv resv) →
        match m_DeletionTimestamp (cr_meta resv) with
        | None => isReservationTerminal (rt_Phase (cr_status resv)) = true →
            winding_up m' (resv_key ns name)
        | Some _ => ReservationFinalizer ∈ m_Finalizers (cr_meta resv) →
            e = (no_requeue, None) ∧ let_go m' (resv_key ns name) ∧
            (m_Finalizers (cr_meta resv) = [ReservationFinalizer] → objs m' !! resv_key ns name = None)
        end) → Q e m') →
  wp reliable (Reconcile r ns name) Q m.
Proof.
  intros Hb HQ. unfold Reconcile. apply wp_bind, wp_get; [apply Hb| |].
  2:{ intros e Hn He. apply wp_ret, HQ; [done|]. intros resv Hl. simpl in *. congruence. }
  intros resv Hl Hns Hn. simpl in Hl.
  assert (cr_key resv = resv_key ns name) as Hkey by by apply resv_key_of.
  assert (current m resv) as Hc by by unfold current; rewrite Hkey.
  assert (∀ resv2, objs m !! resv_key ns name = Some (OResv resv2) → resv2 = resv) as Huniq.
  { intros resv2 Hl2. rewrite Hl in Hl2. by simplify_eq. }
  destruct (m_DeletionTimestamp (cr_meta resv)) as [d|] eqn:Hd.
  - destruct (decide (ReservationFinalizer ∈ m_Finalizers (cr_meta resv))) as [Hf|Hf].
    + apply wp_handleDeletion; [done..|by rewrite Hd|]. rewrite Hkey. intros m' Hb' Hg Hgone.
      apply HQ; [done|]. intros resv2 ->%Huniq. by rewrite Hd.
    + unfold handleDeletion, ContainsFinalizer. rewrite bool_decide_eq_false_2 by done.
      apply wp_ret, HQ; [done|]. intros resv2 ->%Huniq. by rewrite Hd.
  - unfold AddFinalizer, ContainsFinalizer. case_bool_decide as Hf; cbv iota beta.
    + apply wp_reconcileLive; [done..|]. intros m' e [Hb' Hw]. apply HQ; [done|].
      intros resv2 ->%Huniq. rewrite Hd, <-Hkey. done.
    + set (resv1 := cr_set_meta _ resv).
      apply wp_bind, (wp_update_current resv); [apply Hb|done..|]. intros rv gen Hrv a' Hwf.
      change (to_obj a') with (OResv a') in *.
      assert (put_or_drop (cr_key resv) (OResv a') m = put (cr_key resv) (OResv a') m) as Hput
        by (apply put_or_drop_kept; left; exact Hd).
      rewrite Hput in *. apply wp_reconcileLive.
      * by apply (balanced_resv_put m _ resv).
      * apply lookup_insert_eq.
      * simpl. apply elem_of_app. right. constructor.
      * intros m' e [Hb' Hw]. apply HQ; [done|]. intros resv2 ->%Huniq. rewrite Hd, <-Hkey. exact Hw.
Qed.

(** ** On any server that answers its requests *)
Section OnServer.
Context {W : Type} `{!ApiServer W} `{!ServerMeets W reliable}.
Variables (r : ReservationReconciler) (ns name : string).

(** C3: One round of the Reservation reconciler, whatever the phase, the
    deletion state and the provider's state, keeps the books balanced: every
    provider's reserved count stays the sum of its unreleased reservations. *)
Theorem Reconcile_balanced (w : W) :
  balanced (view w) → balanced (view (run (Reconcile r ns name) w).2).
Proof.
  intros Hb. apply (wp_adequate reliable _ (λ _ m', balanced m')). apply wp_Reconcile; auto.
Qed.


(** C12: One round on a Reservation being deleted lets it go only after its
    chunks were given back: the finalizer is removed, what is still stored under
    its name is marked as released, and when the reconciler's was the last
    finalizer the object is gone, with the books balanced. *)
Theorem Reconcile_deletion_releases (w : W) resv d :
  balanced (view w) → objs (view w) !! (KReservation, ns, name) = Some (OResv resv) →
  m_DeletionTimestamp (cr_meta resv) = Some d →
  ReservationFinalizer ∈ m_Finalizers (cr_meta resv) →
  let out := run (Reconcile r ns name) w in
  out.1 = (no_requeue, None) ∧ balanced (view out.2) ∧ let_go (view out.2) (KReservation, ns, name) ∧
  (m_Finalizers (cr_meta resv) = [ReservationFinalizer] →
     objs (view out.2) !! (KReservation, ns, name) = None).
Proof.
  intros Hb Hl Hd Hf. apply (wp_adequate reliable _
    (λ e m', e = (no_requeue, None) ∧ balanced m' ∧ let_go m' (KReservation, ns, name) ∧
       (m_Finalizers (cr_meta resv) = [ReservationFinalizer] →
          objs m' !! (KReservation, ns, name) = None))).
  apply wp_Reconcile; [done|]. intros m' e Hb' Hpost. specialize (Hpost _ Hl). rewrite Hd in Hpost.
  destruct (Hpost Hf) as (-> & Hg & Hgone). done.
Qed.
End OnServer.
End ReconcileProofs.

(** ** Concrete rounds *)
Module ReconcileWitness.
Import SafetyWitness ReservationWitness.
#[local] Existing Instance MilliPlatform.platform.

(** The provider of [SafetyWitness] beside one Reservation holding a chunk. *)
Definition store1 (r : Reservation) : store := store_of [OCadv cadv1; OResv r] 9.

Lemma store1_balanced r :
  cr_key r = key1 → m_ResourceVersion (cr_meta r) = 9 → cr_spec r = cr_spec resv1 →
  IsChunksReleased r = false → balanced (store1 r).
Proof.
  intros Hk Hv Hs Hm. split.
  - apply store_of_wf; [repeat constructor; [vm_compute; discriminate|unfold obj_rv; simpl; lia]|].
    change (obj_key <$> [OCadv cadv1; OResv r]) with [cr_key cadv1; cr_key r]. rewrite Hk.
    apply NoDup_cons; split; [|apply NoDup_singleton]. by intros ?%list_elem_of_singleton.
  - intros o [->|[->|?%elem_of_nil]%elem_of_cons]%elem_of_cons; [..|done].
    + repeat split; vm_compute; discriminate.
    + simpl. rewrite Hs. split; vm_compute; discriminate.
  - assert (objs (store1 r) = <[cr_key cadv1 := OCadv cadv1]> {[key1 := OResv r]}) as Hobjs.
    { unfold store1, store_of. simpl. change (obj_key (OResv r)) with (cr_key r). by rewrite Hk. }
    intros ns p c. unfold held. rewrite Hobjs. intros Hc.
    apply lookup_insert_Some in Hc as [[[= <- <-] [= <-]]|[_ Hc]].
    2:{ by apply lookup_singleton_Some in Hc as [??]. }
    rewrite held_in_insert_new by (by apply lookup_singleton_ne).
    unfold held_in. rewrite map_fold_singleton. simpl. unfold resv_charge.
    rewrite Hm, Hs. injection Hk as Hns _. unfold cr_Namespace in *. rewrite Hns. reflexivity.
Qed.

Definition at_phase (ph : ReservationPhase) (d : option Z) (f : list string) : Reservation :=
  mkCR (mkMeta "res-1" "broker" "uid-9" 9 1 0 d f ∅ ∅ None) (cr_spec resv1)
    (mkResvStatus 1 ph (Some 0) (Some (24 * Hour)) [] None "" []).

Lemma at_phase_balanced ph d f : balanced (store1 (at_phase ph d f)).
Proof. by apply store1_balanced. Qed.

Definition rec0 : ReservationReconciler := mkReconciler 0 0 0.

Lemma w_balanced ph d f : balanced (view (mem_init (store1 (at_phase ph d f)))).
Proof. apply at_phase_balanced. Qed.

Lemma Reconcile_balanced_witness :
  balanced (mem_store (run (Reconcile rec0 "broker" "res-1")
    (mem_init (store1 (at_phase ReservationPhasePeered None [])))).2).
Proof. exact (Reconcile_balanced rec0 "broker" "res-1" _ (w_balanced ReservationPhasePeered None [])). Defined.


Lemma Reconcile_deletion_releases_witness :
  objs (mem_store (run (Reconcile rec0 "broker" "res-1")
    (mem_init (store1 (at_phase ReservationPhasePeered (Some 5) [ReservationFinalizer])))).2) !! key1 = None.
Proof.
  apply (Reconcile_deletion_releases rec0 "broker" "res-1" _
    (at_phase ReservationPhasePeered (Some 5) [ReservationFinalizer]) 5
    (w_balanced ReservationPhasePeered (Some 5) [ReservationFinalizer])); try reflexivity. constructor.
Defined.
End ReconcileWitness.
