(* ===== verification/CredentialProofs.v ===== *)
(** * The credential a (consumer, provider) pair shares

    All reservations of a pair use one staged kubeconfig Secret and one peering
    user at the provider.  A reconciliation round tears them down only for the
    last active reservation of the pair, and tells the consumer to drop the
    tunnel only with the last reservation that holds a chunk. *)
From stdpp Require Import base gmap strings list.
From Stdlib Require Import ZArith Lia.
From S2P Require Import Prelude ApiTypes Chunk Wire Kube MemServer Registry Placement.
From S2P Require Import ReservationApi InstructionsApi AdvertisementApi ReservationController Housekeeping.
From S2P Require Import BrokerInvariant BrokerSafety Ledger ReservationProofs ReconcileProofs.

Open Scope Z_scope.

Section CredentialProofs.
Context `{Platform}.

(** [other] is another Reservation of the same pair, not being deleted, in one
    of the phases [counts]. *)
Definition sibling (counts : ReservationPhase → bool) (resv other : Reservation) (m : store) : Prop :=
  current m other ∧ cr_Namespace other = cr_Namespace resv ∧ counts_sibling counts resv other = true.

Lemma wp_anyOtherSibling resv counts (Q : Res bool → store → Prop) m :
  store_wf m →
  (∀ b, (b = true ↔ ∃ other, sibling counts resv other m) → Q (Ok b) m) →
  wp reliable (anyOtherSibling resv counts) Q m.
Proof.
  intros Hwf HQ. unfold anyOtherSibling. apply wp_bind, wp_list. intros l Hl. apply wp_ret, HQ.
  rewrite existsb_exists. unfold sibling, current. split.
  - intros (o & Ho & Hcs). exists o. apply list_elem_of_In in Ho. rewrite Hl in Ho.
    apply (elem_of_typed_list _ _ _ Hwf) in Ho as [Hns Hk]. done.
  - intros (o & Hk & Hns & Hcs). exists o. split; [|done]. apply list_elem_of_In. rewrite Hl.
    by apply (elem_of_typed_list _ _ _ Hwf).
Qed.

(** ** The keys a round leaves alone while a sibling is active *)
Definition others (ns name : string) (k : Kind * string * string) : Prop :=
  k.1.1 = KSecret ∨ (k.1.1 = KReservation ∧ k ≠ resv_key ns name).

Section Round.
Variables (ns name : string).
Local Abbreviation P := (others ns name).

(** An active sibling of [resv] is stored. *)
Definition shared (resv : Reservation) (m : store) : Prop :=
  ∃ other, sibling (λ p, negb (isReservationTerminal p)) resv other m.

Lemma sibling_name counts resv other m : sibling counts resv other m → cr_Name other ≠ cr_Name resv.
Proof.
  intros (_ & _ & Hc). unfold counts_sibling in Hc. rewrite !andb_true_iff in Hc.
  destruct Hc as [[[[Hn _] _] _] _]. by apply bool_decide_eq_true in Hn.
Qed.

Lemma shared_same resv m m' :
  cr_key resv = resv_key ns name → same_on P m m' → shared resv m → shared resv m'.
Proof.
  intros Hk [_ Hs] (o & Ho). exists o. pose proof (sibling_name _ _ _ _ Ho) as Hne.
  destruct Ho as (Hc & Hns & Hcs). split; [|done]. unfold current in *. rewrite Hs; [done|].
  right. split; [done|]. intros E. apply Hne. inversion E; inversion Hk; unfold cr_Name; congruence.
Qed.

Definition spared {A} (p : prog A) (m : store) : Prop := wp reliable p (λ _ m', same_on P m m') m.

Lemma spared_bind {A B} (p : prog A) (f : A → prog B) m :
  spared p m → (∀ a m1, same_on P m m1 → spared (f a) m1) → spared (p ≫= f) m.
Proof.
  intros Hp Hf. apply wp_bind. eapply wp_mono; [|exact Hp]. intros a m1 H1. simpl.
  eapply wp_mono; [|apply (Hf a m1 H1)]. intros b m2 H2. exact (same_on_trans _ _ _ _ H1 H2).
Qed.

Lemma spared_spares {A} (p : prog A) m : store_wf m → spares P p → spared p m.
Proof. apply wp_spares. Qed.

Lemma spared_ret {A} (a : A) m : store_wf m → spared (mret a) m.
Proof. intros Hwf. by apply same_on_refl. Qed.

(** What the parts of a round write to. *)
Lemma others_pi (p : ProviderInstruction) : ¬ P (obj_key (OPI p)).
Proof. by intros [?|[??]]. Qed.
Lemma others_ri (p : ReservationInstruction) : ¬ P (obj_key (ORI p)).
Proof. by intros [?|[??]]. Qed.
Lemma others_cadv (c : ClusterAdvertisement) : ¬ P (obj_key (OCadv c)).
Proof. by intros [?|[??]]. Qed.
Lemma others_own (r : Reservation) : cr_key r = resv_key ns name → ¬ P (obj_key (OResv r)).
Proof. intros Hk [?|[_ Hne]]; [done|]. by apply Hne. Qed.

Ltac own := first [exact (others_pi _)|exact (others_ri _)|exact (others_cadv _)|by apply others_own].

Lemma emitConsumerCleanup_spares resv owned : spares P (emitConsumerCleanup resv owned).
Proof.
  unfold emitConsumerCleanup, hasOtherHoldingReservation, anyOtherSibling, ensureInstruction,
    ensureSharedReservationInstruction. spares_tac; own.
Qed.

Lemma ensureSharedPI_spares pi : spares P (ensureSharedProviderInstruction pi).
Proof. unfold ensureSharedProviderInstruction. spares_tac; own. Qed.

Lemma kubeconfigSecretExists_spares resv : spares P (kubeconfigSecretExists resv).
Proof. unfold kubeconfigSecretExists. spares_tac. Qed.

Lemma advancePhase_spares resv next msg :
  cr_key resv = resv_key ns name → spares P (advancePhase resv next msg).
Proof. intros Hk. unfold advancePhase. spares_tac; own. Qed.

(** The loops read the object they write back. *)
Lemma stamp_loop_spared n m : store_wf m → spared (stamp_loop n ns name) m.
Proof.
  revert m. induction n as [|n IH]; intros m Hwf; [by apply spared_ret|]. cbn [stamp_loop].
  apply wp_bind, wp_get; [done| |by intros; apply spared_ret].
  intros fresh _ Hns Hn. assert (cr_key fresh = resv_key ns name) as Hk by by apply resv_key_of.
  destruct (IsChunksReleased fresh); [by apply spared_ret|].
  apply spared_bind; [apply spared_spares; [done|]; spares_tac; by apply others_own|].
  intros [r|e] m1 [Hwf1 _]; [by apply spared_ret|].
  destruct (IsConflict e); [by apply IH|by apply spared_ret].
Qed.

Lemma release_loop_spared n resv m :
  store_wf m → cr_key resv = resv_key ns name → spared (release_loop n resv) m.
Proof.
  intros Hwf Hk. assert (∀ m, store_wf m → spared (stampChunksReleased resv) m) as Hstamp.
  { intros m1 Hwf1. unfold stampChunksReleased. inversion Hk as [[Hns Hn]].
    pose proof (stamp_loop_spared 3 m1 Hwf1) as Hs. by rewrite <-Hns, <-Hn in Hs. }
  revert m Hwf. induction n as [|n IH]; intros m Hwf; [by apply spared_ret|]. cbn [release_loop].
  apply spared_bind; [by apply spared_spares; [|spares_tac]|].
  intros [c|e] m1 [Hwf1 _].
  - apply spared_bind; [apply spared_spares; [done|]; spares_tac; own|].
    intros [c'|e] m2 [Hwf2 _]; [by apply Hstamp|].
    destruct (IsConflict e); [by apply IH|by apply spared_ret].
  - destruct (IsNotFound e); [by apply Hstamp|by apply spared_ret].
Qed.

Lemma finalizer_loop_spared n m : store_wf m → spared (finalizer_loop n ns name) m.
Proof.
  revert m. induction n as [|n IH]; intros m Hwf; [by apply spared_ret|]. cbn [finalizer_loop].
  apply wp_bind, wp_get; [done| |by intros; apply spared_ret].
  intros fresh _ Hns Hn. assert (cr_key fresh = resv_key ns name) as Hk by by apply resv_key_of.
  unfold RemoveFinalizer. cbv iota beta zeta.
  destruct (ContainsFinalizer fresh ReservationFinalizer); [|by apply spared_ret].
  apply spared_bind; [apply spared_spares; [done|]; spares_tac; by apply others_own|].
  intros [r|e] m1 [Hwf1 _]; [by apply spared_ret|].
  destruct (IsConflict e); [by apply IH|by apply spared_ret].
Qed.

(** ** Teardown *)

(** While a sibling is active, the shared Secret stays. *)
Lemma teardownCredential_spared r resv gc m :
  store_wf m → cr_key resv = resv_key ns name → shared resv m →
  spared (teardownCredential r resv gc) m.
Proof.
  intros Hwf Hk Hsh. unfold teardownCredential.
  apply spared_bind; [by apply spared_spares, kubeconfigSecretExists_spares|].
  intros [[]|e] m1 H1; [|by apply spared_ret, H1..].
  apply spared_bind; [by apply spared_spares, emitConsumerCleanup_spares; apply H1|].
  intros [e|] m2 H2; [by apply spared_ret, H2|].
  pose proof (shared_same _ _ _ Hk (same_on_trans _ _ _ _ H1 H2) Hsh) as Hsh2.
  apply wp_bind, wp_anyOtherSibling; [apply H2|]. intros b Hb.
  rewrite (proj2 Hb Hsh2). by apply spared_ret, H2.
Qed.

Lemma release_unless_spared resv m :
  store_wf m → cr_key resv = resv_key ns name →
  spared (if IsChunksReleased resv then mret None else releaseChunks resv) m.
Proof. intros Hwf Hk. destruct (IsChunksReleased resv); [by apply spared_ret|by apply release_loop_spared]. Qed.

Lemma collectTerminal_spared r resv t js m :
  store_wf m → cr_key resv = resv_key ns name → shared resv m →
  spared (collectTerminal r resv t js) m.
Proof.
  intros Hwf Hk Hsh. unfold collectTerminal.
  apply spared_bind; [apply spared_spares; [done|]; spares_tac|]. intros gc m1 H1.
  destruct gc.
  - apply spared_bind; [apply spared_spares; [apply H1|]|].
    + split; [|done]. rewrite Hk. by intros [?|[_ ?]].
    + intros x m2 [Hwf2 _]. by apply spared_ret.
  - apply spared_bind; [apply spared_spares; [apply H1|]; spares_tac|]. intros t0 m2 H2. cbv zeta.
    apply spared_bind; [by apply release_unless_spared; [apply H2|]|]. intros [e|] m3 H3; [by apply spared_ret, H3|].
    apply teardownCredential_spared; [apply H3|done|].
    eapply shared_same; [done|exact H3|]. eapply shared_same; [done|exact H2|].
    by eapply shared_same.
Qed.

(** ** The whole round *)
Lemma put_own_same k o m : k = resv_key ns name → store_wf (put k o m) → same_on P m (put k o m).
Proof.
  intros -> Hwf. split; [done|]. intros k Hk. unfold put; simpl. apply lookup_insert_ne.
  intros <-. by destruct Hk as [?|[_ ?]].
Qed.

Lemma spared_status {B} resv st (f : Res Reservation → prog B) m :
  store_wf m → current m resv → cr_key resv = resv_key ns name →
  (∀ rv m1, same_on P m m1 → let r' := cr_on_status rv resv (cr_set_status st resv) in
     current m1 r' → spared (f (Ok r')) m1) →
  spared (status_update (cr_set_status st resv) ≫= f) m.
Proof.
  intros Hwf Hc Hk Hf. apply wp_bind, (wp_status_current resv); [done..|]. intros rv Hrv r' Hwf'.
  pose proof (put_own_same _ (OResv r') m Hk Hwf') as Hs.
  eapply wp_mono; [|apply (Hf rv); [exact Hs|apply lookup_insert_eq]].
  intros b m2 H2. exact (same_on_trans _ _ _ _ Hs H2).
Qed.

Lemma handleTerminal_spared r resv m :
  store_wf m → current m resv → cr_key resv = resv_key ns name → shared resv m →
  spared (handleTerminal r resv) m.
Proof.
  intros Hwf Hc Hk Hsh. unfold handleTerminal.
  destruct (rt_TerminatedAt (cr_status resv)); [by apply collectTerminal_spared|].
  apply wp_bind, wp_now. intros t. apply spared_status; [done..|]. intros rv m1 H1 r' Hc1.
  apply collectTerminal_spared; [apply H1|done|]. exact (shared_same resv m m1 Hk H1 Hsh).
Qed.

Lemma dispatch_spared r resv m :
  store_wf m → current m resv → cr_key resv = resv_key ns name → shared resv m →
  spared (dispatch r resv) m.
Proof.
  intros Hwf Hc Hk Hsh.
  destruct (isReservationTerminal (rt_Phase (cr_status resv))) eqn:Ht.
  { assert (dispatch r resv = handleTerminal r resv) as ->
      by (unfold dispatch; by destruct (rt_Phase (cr_status resv))).
    by apply handleTerminal_spared. }
  apply spared_spares; [done|]. unfold dispatch.
  destruct (rt_Phase (cr_status resv)); try discriminate Ht; try exact I;
    unfold handlePending, handleGeneratingKubeconfig, handleKubeconfigReady, handleUnpeering,
      hasOtherHoldingReservation, anyOtherSibling, kubeconfigSecretExists, ensureInstruction,
      ensureSharedProviderInstruction, advancePhase; spares_tac; own.
Qed.

Lemma checkExpired_spares resv : cr_key resv = resv_key ns name → spares P (checkExpired resv).
Proof. intros Hk. unfold checkExpired, advancePhase. spares_tac; own. Qed.

Lemma checkProviderAvailable_spares resv :
  cr_key resv = resv_key ns name → spares P (checkProviderAvailable resv).
Proof.
  intros Hk. unfold checkProviderAvailable, ensureCleanupInstruction. cbv zeta.
  spares_tac; try apply emitConsumerCleanup_spares; by apply advancePhase_spares.
Qed.

(** A guard that lets the round go on wrote nothing. *)
Lemma checkExpired_quiet resv m :
  wp reliable (checkExpired resv) (λ c m', c.1 = false → m' = m) m.
Proof.
  unfold checkExpired. destruct (rt_ExpiresAt _); [|by apply wp_ret].
  destruct (isReservationTerminal _); [by apply wp_ret|].
  apply wp_bind, wp_now. intros t0. destruct (_ <? _).
  - apply wp_bind, wp_now. intros t2. by apply wp_ret.
  - apply wp_bind, wp_always. intros e m'. by apply wp_ret.
Qed.

Lemma checkProviderAvailable_quiet resv m :
  store_wf m → wp reliable (checkProviderAvailable resv) (λ a m', a = (false, None) → m' = m) m.
Proof.
  intros Hwf. unfold checkProviderAvailable. destruct (isReservationTerminal _); [by apply wp_ret|].
  destruct (decide _); [by apply wp_ret|].
  assert (∀ msg, wp reliable
    (c ← (if needsConsumerCleanup (rt_Phase (cr_status resv)) then ensureCleanupInstruction resv else mret None);
     match c with
     | Some e => mret (false, Some (wrapf "ensure Cleanup instruction" e))
     | None => e ← advancePhase resv ReservationPhaseFailed msg;
               mret (match e with Some e => (false, Some e) | None => (true, None) end)
     end) (λ a m', a = (false, None) → m' = m) m) as Hgive.
  { intros msg. apply wp_bind, wp_always. intros [e|] m1; [by apply wp_ret|].
    apply wp_bind, wp_always. intros [e|] m2; by apply wp_ret. }
  apply wp_bind, wp_get; [done| |].
  - intros c _ _ _. cbv zeta. destruct (ca_Available _); [by apply wp_ret|apply Hgive].
  - intros e _ He. unfold IsNotFound. rewrite bool_decide_eq_true_2 by done. apply Hgive.
Qed.

Lemma spared_quiet {A B} (p : prog A) (f : A → prog B) (go : A → Prop) m :
  store_wf m → spares P p → wp reliable p (λ a m', go a → m' = m) m →
  (∀ a, go a → spared (f a) m) → (∀ a m1, store_wf m1 → ¬ go a → spared (f a) m1) →
  (∀ a, Decision (go a)) → spared (p ≫= f) m.
Proof.
  intros Hwf Hsp Hq Hgo Hstop Hdec. apply wp_bind.
  eapply wp_mono; [|apply wp_and; [by apply (wp_spares P)|exact Hq]].
  intros a m1 [H1 Hm]. destruct (decide (go a)) as [Hg|Hg].
  - rewrite (Hm Hg). by apply Hgo.
  - eapply wp_mono; [|apply Hstop; [apply H1|done]]. intros b m2 H2. exact (same_on_trans _ _ _ _ H1 H2).
Qed.

Lemma reconcileGuarded_spared r resv m :
  store_wf m → current m resv → cr_key resv = resv_key ns name → shared resv m →
  spared
    (c ← checkExpired resv;
     if (c.1 : bool) then mret (after c.2, None)
     else
       a ← checkProviderAvailable resv;
       match a with
       | (true, e) => mret (no_requeue, e)
       | (false, Some e) => mret (no_requeue, Some e)
       | (false, None) => dispatch r resv
       end) m.
Proof.
  intros Hwf Hc Hk Hsh.
  apply (spared_quiet _ _ (λ c, c.1 = false)); [done|by apply checkExpired_spares|apply checkExpired_quiet| | |apply _].
  - intros [b d] Hb. simpl in *. subst b.
    apply (spared_quiet _ _ (λ a, a = (false, None))); [done|by apply checkProviderAvailable_spares|
      by apply checkProviderAvailable_quiet| | |].
    + intros a ->. by apply dispatch_spared.
    + intros [[] [e|]] m1 Hwf1 Hn; first [by apply spared_ret|by destruct Hn].
    + intros [[] [e|]]; first [by left|by right].
  - intros [[] d] m1 Hwf1 Hn; [by apply spared_ret|done].
Qed.

Lemma reconcileLive_spared r resv m :
  store_wf m → current m resv → cr_key resv = resv_key ns name → shared resv m →
  spared (reconcileLive r resv) m.
Proof.
  intros Hwf Hc Hk Hsh. unfold reconcileLive, ensureExpiry. destruct (rt_ExpiresAt (cr_status resv)).
  - apply wp_bind, wp_ret. by apply reconcileGuarded_spared.
  - apply wp_bind, wp_bind. cbv zeta. apply (wp_status_current resv); [done..|]. intros rv Hrv r' Hwf'.
    pose proof (put_own_same _ (OResv r') m Hk Hwf') as Hs. apply wp_ret.
    eapply wp_mono; [|apply (reconcileGuarded_spared r r'); [done|apply lookup_insert_eq|done|
      exact (shared_same resv _ _ Hk Hs Hsh)]].
    intros b m2 H2. exact (same_on_trans _ _ _ _ Hs H2).
Qed.

Lemma Reconcile_spared r resv m :
  store_wf m → objs m !! resv_key ns name = Some (OResv resv) → shared resv m →
  spared (Reconcile r ns name) m.
Proof.
  intros Hwf Hl Hsh. destruct (wf_key _ Hwf _ _ Hl) as [Hk _]. change (cr_key resv = resv_key ns name) in Hk.
  assert (current m resv) as Hc by by unfold current; rewrite Hk.
  unfold Reconcile. apply wp_bind, (wp_get_found _ _ resv); [done..|].
  destruct (m_DeletionTimestamp (cr_meta resv)) eqn:Hd.
  - unfold handleDeletion. destruct (ContainsFinalizer _ _); [|by apply spared_ret].
    apply spared_bind; [by apply release_unless_spared|]. intros [e|] m1 H1; [by apply spared_ret, H1|].
    apply spared_bind; [by apply spared_spares, emitConsumerCleanup_spares; apply H1|].
    intros [e|] m2 H2; [by apply spared_ret, H2|]. inversion Hk as [[Hns Hn]].
    change (m_Namespace (cr_meta resv)) with (cr_Namespace resv) in Hns.
    change (m_Name (cr_meta resv)) with (cr_Name resv) in Hn.
    rewrite Hns, Hn. by apply finalizer_loop_spared, H2.
  - unfold AddFinalizer. destruct (ContainsFinalizer _ _); cbv iota beta; [by apply reconcileLive_spared|].
    apply wp_bind, (wp_update_current resv); [done..|]. intros rv gen Hrv a' Hwf'.
    change (to_obj a') with (OResv a') in *.
    assert (put_or_drop (cr_key resv) (OResv a') m = put (cr_key resv) (OResv a') m) as Hput
      by (apply put_or_drop_kept; left; exact Hd).
    rewrite Hput in *. pose proof (put_own_same _ (OResv a') m Hk Hwf') as Hs.
    eapply wp_mono; [|apply (reconcileLive_spared r a'); [done|apply lookup_insert_eq|done|
      exact (shared_same resv _ _ Hk Hs Hsh)]].
    intros b m2 H2. exact (same_on_trans _ _ _ _ Hs H2).
Qed.
End Round.

(** ** What the last reservation of a pair leaves *)

(** An instruction that was stored is delivered again: pending, whatever cycle
    stored it first. *)
Definition pending_pi (m : store) (k : Kind * string * string) : Prop :=
  ∃ p, objs m !! k = Some (OPI p) ∧ is_Enforced (cr_status p) = false.

Lemma wp_ensureSharedPI pi (Q : option Err → store → Prop) m :
  store_wf m →
  (∀ m', store_wf m' → (∀ k, k ≠ cr_key pi → objs m' !! k = objs m !! k) →
     pending_pi m' (cr_key pi) → Q None m') →
  (∀ m' e, (∀ k, k ≠ cr_key pi → objs m' !! k = objs m !! k) → Q (Some e) m') →
  wp reliable (ensureSharedProviderInstruction pi) Q m.
Proof.
  intros Hwf HOk HErr. unfold ensureSharedProviderInstruction. apply wp_bind, wp_create; [done| |].
  - intros rv uid t Hn Hrv a' Hwf'. apply wp_ret, HOk; [done| |].
    + intros k Hk. by apply lookup_insert_ne.
    + exists a'. split; [apply lookup_insert_eq|done].
  - intros e o Ho He. unfold IsAlreadyExists. rewrite bool_decide_eq_true_2 by done.
    apply wp_bind, wp_get; [done| |by intros; apply wp_ret, HErr].
    intros ex Hex Hns Hn. assert (cr_key ex = cr_key pi) as Hkey by (unfold cr_key; by rewrite Hns, Hn).
    destruct (is_Enforced (cr_status ex)) eqn:Henf.
    2:{ apply wp_ret, HOk; [done..|]. by exists ex. }
    apply wp_bind, (wp_update_current ex); [done|by rewrite Hkey|done..|]. rewrite Hkey.
    intros rv gen Hrv ex1 Hwf1. apply wp_bind, wp_now. intros t.
    assert (∀ k, k ≠ cr_key pi → objs (put_or_drop (cr_key pi) (to_obj ex1) m) !! k = objs m !! k) as Hfr.
    { intros k Hk. unfold put_or_drop, put, retire. repeat case_match; simpl;
        by rewrite ?lookup_insert_ne, ?lookup_delete_ne. }
    assert (cr_key (cr_set_status (rearmed t (cr_status ex1)) ex1) = cr_key pi) as Hk2 by exact Hkey.
    apply wp_bind, wp_status_update; [done| |]; rewrite Hk2.
    + intros cur rv2 Hcur Hv Hrv2 a' Hwf2. apply wp_ret, HOk; [done|..].
      * intros k Hk. unfold put. simpl. rewrite lookup_insert_ne by done. by apply Hfr.
      * exists a'. split; [apply lookup_insert_eq|done].
    + intros e2 _. apply wp_ret, HErr. apply Hfr.
Qed.

(** ** On any server that answers its requests *)
Section OnServer.
Context {W : Type} `{!ApiServer W} `{!ServerMeets W reliable}.

(** C14: While another Reservation of the same (consumer, provider) pair is
    active, a reconciliation round of this one, in whatever phase or deletion
    state, removes no kubeconfig Secret and touches no other Reservation: the
    credential the siblings share is torn down only after the last of them. *)
Theorem Reconcile_keeps_shared_credential r ns name resv other (w : W) :
  store_wf (view w) → objs (view w) !! (KReservation, ns, name) = Some (OResv resv) →
  objs (view w) !! cr_key other = Some (OResv other) → cr_Namespace other = ns →
  counts_sibling (λ p, negb (isReservationTerminal p)) resv other = true →
  let m' := view (run (Reconcile r ns name) w).2 in
  (∀ n, objs m' !! (KSecret, ns, n) = objs (view w) !! (KSecret, ns, n)) ∧
  (∀ n, n ≠ name → objs m' !! (KReservation, ns, n) = objs (view w) !! (KReservation, ns, n)).
Proof.
  intros Hwf Hl Ho Hns Hcs. destruct (wf_key _ Hwf _ _ Hl) as [Hk _].
  assert (cr_Namespace resv = ns) as Hrn by by injection Hk.
  apply (wp_adequate reliable _ (λ _ m',
    (∀ n : string, objs m' !! (KSecret, ns, n) = objs (view w) !! (KSecret, ns, n)) ∧
    (∀ n, n ≠ name → objs m' !! (KReservation, ns, n) = objs (view w) !! (KReservation, ns, n)))).
  eapply wp_mono; [|apply (Reconcile_spared ns name r resv (view w)); [done..|]].
  - intros e m' [_ Hs]. split; intros n; [|intros Hne]; apply Hs; [by left|].
    right. split; [done|]. congruence.
  - exists other. split; [done|]. split; [|done]. by rewrite Hns, Hrn.
Qed.

(** A round that finds no other active Reservation of the pair, with the
    shared Secret still staged, ends without error only after it has queued the
    provider's Cleanup instruction, pending delivery even when an earlier cycle
    had enforced it, and removed the Secret. *)
Theorem teardownCredential_last r resv gc sec (w : W) :
  store_wf (view w) →
  objs (view w) !! (KSecret, cr_Namespace resv, pair_secret_name resv) = Some (OSecret sec) →
  m_Finalizers (cr_meta sec) = [] →
  (∀ other, objs (view w) !! cr_key other = Some (OResv other) →
     cr_Namespace other = cr_Namespace resv →
     counts_sibling (λ p, negb (isReservationTerminal p)) resv other = false) →
  let out := run (teardownCredential r resv gc) w in
  out.1.2 = None →
  out.1 = (after gc, None) ∧
  objs (view out.2) !! (KSecret, cr_Namespace resv, pair_secret_name resv) = None ∧
  pending_pi (view out.2) (cr_key (providerCleanup resv)).
Proof.
  intros Hwf Hsec Hfin Hno. apply (wp_adequate reliable _ (λ e m', e.2 = None → e = (after gc, None) ∧
    objs m' !! (KSecret, cr_Namespace resv, pair_secret_name resv) = None ∧
    pending_pi m' (cr_key (providerCleanup resv)))).
  unfold teardownCredential, kubeconfigSecretExists.
  apply wp_bind, wp_bind, (wp_get_found _ _ sec); [done..|]. apply wp_ret.
  pose (P := λ k : Kind * string * string, k.1.1 = KSecret ∨ k.1.1 = KReservation).
  assert (spares P (emitConsumerCleanup resv false)) as Hsp.
  { unfold emitConsumerCleanup, hasOtherHoldingReservation, anyOtherSibling,
      ensureSharedReservationInstruction. spares_tac. by intros [?|?]. }
  apply wp_bind. eapply wp_mono; [|apply (wp_spares P); [exact Hwf|exact Hsp]].
  intros [e|] m1 [Hwf1 Hs1]; [by apply wp_ret|].
  apply wp_bind, wp_anyOtherSibling; [done|]. intros b Hb.
  assert (b = false) as ->.
  { destruct b; [|done]. destruct (proj1 Hb eq_refl) as (o & Ho & Hns & Hcs).
    unfold current in Ho. rewrite Hs1 in Ho by (by right). by rewrite Hno in Hcs. }
  apply wp_bind, wp_ensureSharedPI; [done| |by intros; apply wp_ret].
  intros m2 Hwf2 Hfr Hpend. unfold deleteKubeconfigSecret.
  apply wp_bind, wp_bind, wp_delete; [done| |].
  - intros cur rv t Hcur Hrv m' Hwf'. change (cr_key _) with
      (KSecret, cr_Namespace resv, pair_secret_name resv) in Hcur, m'.
    assert (cur = sec) as ->.
    { rewrite Hfr in Hcur by done. rewrite Hs1 in Hcur by (by left). rewrite Hsec in Hcur. by inversion Hcur. }
    apply wp_ret, wp_ret. intros _. unfold m'. rewrite Hfin. split_and!; [done|apply lookup_delete_eq|].
    destruct Hpend as (p & Hp & He). exists p. split; [|done]. unfold drop. simpl.
    by rewrite lookup_delete_ne.
  - intros e Hn He. apply wp_ret. unfold IgnoreNotFound, IsNotFound.
    rewrite bool_decide_eq_true_2 by done. by apply wp_ret.
Qed.

(** C24: In the Unpeering phase the consumer is told to drop the tunnel to the
    provider exactly with the pair's last Reservation that holds a chunk: the
    Unpeer instruction is stored afterwards, for the Reservation's consumer, and
    when it is new its LastChunk flag says whether no sibling holds one. *)
Theorem handleUnpeering_last_chunk resv (w : W) :
  let k := (KReservationInstruction, cr_Namespace resv, reservationInstructionUnpeerName (cr_Name resv)) in
  store_wf (view w) →
  let out := run (handleUnpeering resv) w in
  out.1 = (no_requeue, None) ∧
  (is_Some (objs (view w) !! k) → view out.2 = view w) ∧
  (objs (view w) !! k = None → ∃ ri, objs (view out.2) !! k = Some (ORI ri) ∧
     ri_Kind (cr_spec ri) = ReservationInstructionUnpeer ∧
     ri_TargetClusterID (cr_spec ri) = rs_ConsumerClusterID (cr_spec resv) ∧
     (ri_LastChunk (cr_spec ri) = true ↔
        ¬ ∃ other, objs (view w) !! cr_key other = Some (OResv other) ∧
          cr_Namespace other = cr_Namespace resv ∧ counts_sibling holding_phase resv other = true)).
Proof.
  intros k Hwf. apply (wp_adequate reliable _ (λ e m', e = (no_requeue, None) ∧
    (is_Some (objs (view w) !! k) → m' = view w) ∧
    (objs (view w) !! k = None → ∃ ri, objs m' !! k = Some (ORI ri) ∧
     ri_Kind (cr_spec ri) = ReservationInstructionUnpeer ∧
     ri_TargetClusterID (cr_spec ri) = rs_ConsumerClusterID (cr_spec resv) ∧
     (ri_LastChunk (cr_spec ri) = true ↔
        ¬ ∃ other, objs (view w) !! cr_key other = Some (OResv other) ∧
          cr_Namespace other = cr_Namespace resv ∧ counts_sibling holding_phase resv other = true)))).
  unfold handleUnpeering. apply wp_bind, wp_anyOtherSibling; [done|]. intros b Hb.
  unfold ensureInstruction. set (ri := SetControllerReference _ _).
  assert (cr_key ri = k) as Hk by done.
  apply wp_bind, wp_bind, wp_create; [done|..]; rewrite Hk.
  - intros rv uid t Hn Hrv a' Hwf'. apply wp_ret, wp_ret.
    split_and!; [done|rewrite Hn; by intros [??]|]. intros _. exists a'.
    split_and!; [apply lookup_insert_eq|done..|]. simpl. unfold sibling, current in Hb. rewrite <-Hb.
    destruct b; simpl; intuition discriminate.
  - intros e o Ho He. apply wp_ret. unfold IsAlreadyExists. rewrite bool_decide_eq_true_2 by done.
    apply wp_ret. split_and!; [done..|]. congruence.
Qed.
End OnServer.
End CredentialProofs.

(** ** Concrete rounds *)
Module CredentialWitness.
Import SafetyWitness ReservationWitness ReconcileWitness.
#[local] Existing Instance MilliPlatform.platform.

Definition secret1 : Secret :=
  mkCR (meta_set_version 5 "uid-5" (meta_named "kubeconfig-cons-prov" "broker"))
    {[ kubeconfigSecretKey := "apiVersion: v1" ]} tt.

Definition sibling1 (ph : ReservationPhase) : Reservation :=
  mkCR (mkMeta "res-2" "broker" "uid-8" 8 1 0 None [] ∅ ∅ None) (cr_spec resv1)
    (mkResvStatus 1 ph (Some 0) (Some (24 * Hour)) [] None "" []).

Definition failed1 : Reservation := at_phase ReservationPhaseFailed None [].
Definition store2 : store :=
  store_of [OSecret secret1; OResv (sibling1 ReservationPhasePeered); OResv failed1] 9.
Definition store3 : store :=
  store_of [OSecret secret1; OResv (sibling1 ReservationPhaseExpired); OResv failed1] 9.

Lemma nodup3 ph : NoDup (obj_key <$> [OSecret secret1; OResv (sibling1 ph); OResv failed1]).
Proof. cbn. apply NoDup_ListNoDup. repeat constructor; cbn; intuition discriminate. Qed.

Lemma store2_wf : store_wf (view (mem_init store2)).
Proof. apply store_of_wf; [repeat constructor; vm_compute; discriminate|apply nodup3]. Qed.

Lemma store3_wf : store_wf (view (mem_init store3)).
Proof. apply store_of_wf; [repeat constructor; vm_compute; discriminate|apply nodup3]. Qed.

Lemma Reconcile_keeps_shared_credential_witness :
  objs (mem_store (run (Reconcile rec0 "broker" "res-1") (mem_init store2)).2)
    !! (KSecret, "broker", "kubeconfig-cons-prov") = Some (OSecret secret1).
Proof.
  destruct (Reconcile_keeps_shared_credential rec0 "broker" "res-1" failed1
    (sibling1 ReservationPhasePeered) (mem_init store2) store2_wf) as [Hs _]; [reflexivity..|].
  apply (Hs "kubeconfig-cons-prov").
Defined.

Lemma teardownCredential_last_witness :
  objs (mem_store (run (teardownCredential rec0 failed1 0) (mem_init store3)).2)
    !! (KSecret, "broker", "kubeconfig-cons-prov") = None.
Proof.
  destruct (teardownCredential_last rec0 failed1 0 secret1 (mem_init store3) store3_wf) as (_ & Hs & _);
    [reflexivity..| |reflexivity|exact Hs].
  intros other Hl _. change (view (mem_init store3)) with store3 in Hl.
  unfold store3, store_of in Hl. simpl in Hl.
  apply lookup_insert_Some in Hl as [[_ ?]|[_ Hl]]; [done|].
  apply lookup_insert_Some in Hl as [[_ [= <-]]|[_ Hl]]; [reflexivity|].
  apply lookup_insert_Some in Hl as [[_ [= <-]]|[_ Hl]]; [reflexivity|]. by rewrite lookup_empty in Hl.
Defined.

Lemma handleUnpeering_last_chunk_witness :
  ∃ ri, objs (mem_store (run (handleUnpeering failed1) (mem_init store3)).2)
      !! (KReservationInstruction, "broker", "unpeer-res-1") = Some (ORI ri) ∧
    ri_TargetClusterID (cr_spec ri) = "cons".
Proof.
  destruct (handleUnpeering_last_chunk failed1 (mem_init store3) store3_wf) as (_ & _ & Hnew).
  destruct (Hnew eq_refl) as (ri & Hri & _ & Ht & _). exists ri. split; [exact Hri|exact Ht].
Defined.
End CredentialWitness.
