(* ===== verification/Progress.v ===== *)
(** * The Reservation reconciler: progress

    On a reliable server no round leaves a live Reservation waiting for nobody:
    either the round advances it, or the instruction of the party whose turn it
    is lies in the store. *)
From stdpp Require Import base gmap strings list.
From Stdlib Require Import ZArith Lia.
From S2P Require Import Prelude ApiTypes Chunk Wire Kube MemServer Registry Placement.
From S2P Require Import ReservationApi InstructionsApi AdvertisementApi ReservationController Housekeeping.
From S2P Require Import BrokerInvariant BrokerSafety Ledger ReservationProofs ReconcileProofs.
From S2P Require Import CredentialProofs.

Open Scope Z_scope.

Section Progress.
Context `{Platform}.

(** The Reservation [name] of specification [sp] is stored in phase [p]. *)
Definition stands (ns name : string) (sp : ReservationSpec) (p : ReservationPhase) (m : store) : Prop :=
  ∃ r, objs m !! resv_key ns name = Some (OResv r) ∧ cr_spec r = sp ∧ rt_Phase (cr_status r) = p.

(** No provider is there to serve it. *)
Definition provider_gone (ns : string) (sp : ReservationSpec) (m : store) : Prop :=
  ∀ c, objs m !! cadv_key ns (rs_ProviderClusterID sp) = Some (OCadv c) → ca_Available (cr_status c) = false.

Definition pair_secret (ns : string) (sp : ReservationSpec) : Key :=
  (KSecret, ns, ctl_kubeconfigSecretName (rs_ConsumerClusterID sp) (rs_ProviderClusterID sp)).
Definition gk_key (ns : string) (sp : ReservationSpec) : Key :=
  (KProviderInstruction, ns,
   providerInstructionGKName (rs_ConsumerClusterID sp) (rs_ProviderClusterID sp)).

(** What a round in phase [p] from store [m] hands on: the next phase, with the
    instruction that phase waits for, or a retry. *)
Definition handed_on (rc : ReservationReconciler) (ns name : string) (sp : ReservationSpec)
    (p : ReservationPhase) (m : store) (out : Outcome) (m' : store) : Prop :=
  let ready := is_Some (objs m !! pair_secret ns sp) in
  match p with
  | PhaseEmpty | ReservationPhasePending =>
      (ready ∧ stands ns name sp ReservationPhaseKubeconfigReady m') ∨
      (¬ ready ∧ stands ns name sp ReservationPhaseGeneratingKubeconfig m' ∧
         pending_pi m' (gk_key ns sp)) ∨
      (¬ ready ∧ stands ns name sp p m' ∧ is_Some out.2)
  | ReservationPhaseGeneratingKubeconfig =>
      (ready ∧ stands ns name sp ReservationPhaseKubeconfigReady m') ∨
      (¬ ready ∧ stands ns name sp p m' ∧ out = (after (gkResync rc), None))
  | ReservationPhaseKubeconfigReady =>
      stands ns name sp ReservationPhasePeering m' ∧
      is_Some (objs m' !! (KReservationInstruction, ns, reservationInstructionPeerName name))
  | ReservationPhaseUnpeering =>
      stands ns name sp p m' ∧
      is_Some (objs m' !! (KReservationInstruction, ns, reservationInstructionUnpeerName name))
  | _ => stands ns name sp p m'
  end.

Definition progressed (rc : ReservationReconciler) (ns name : string) (sp : ReservationSpec)
    (p : ReservationPhase) (m : store) (out : Outcome) (m' : store) : Prop :=
  stands ns name sp ReservationPhaseExpired m' ∨
  (p ≠ ReservationPhaseUnpeering ∧ provider_gone ns sp m ∧ stands ns name sp ReservationPhaseFailed m') ∨
  handed_on rc ns name sp p m out m'.

(** ** The steps of a round *)
Section Round.
Context (rc : ReservationReconciler) (ns name : string) (resv : Reservation).
Hypothesis Hns : cr_Namespace resv = ns.
Hypothesis Hname : cr_Name resv = name.

Lemma own_key : cr_key resv = resv_key ns name.
Proof using Hns Hname. by apply resv_key_of. Qed.

Lemma wp_advance next msg (Q : option Err → store → Prop) m :
  store_wf m → current m resv →
  (∀ m', stands ns name (cr_spec resv) next m' →
     (∀ k, k ≠ resv_key ns name → objs m' !! k = objs m !! k) → Q None m') →
  wp reliable (advancePhase resv next msg) Q m.
Proof using Hns Hname.
  intros Hwf Hc HQ. unfold advancePhase. destruct (decide _) as [Hp|Hp].
  - apply wp_ret, HQ; [|done]. exists resv. by rewrite <-own_key.
  - apply wp_bind, (wp_status_current resv); [done..|]. intros rv Hrv r' Hwf'. apply wp_ret, HQ.
    + exists r'. rewrite <-own_key. by split; [apply lookup_insert_eq|].
    + intros k Hk. rewrite <-own_key in Hk. by apply lookup_insert_ne.
Qed.

Lemma wp_secret (Q : Res bool → store → Prop) m :
  store_wf m →
  (is_Some (objs m !! pair_secret ns (cr_spec resv)) → Q (Ok true) m) →
  (¬ is_Some (objs m !! pair_secret ns (cr_spec resv)) → Q (Ok false) m) →
  wp reliable (kubeconfigSecretExists resv) Q m.
Proof using Hns.
  intros Hwf HT HF. unfold kubeconfigSecretExists. rewrite Hns. apply wp_bind, wp_get; [done| |].
  - intros sec Hs _ _. apply wp_ret, HT. by eexists.
  - intros e Hn He. apply wp_ret. unfold IsNotFound. rewrite bool_decide_eq_true_2 by done.
    apply HF. change (objs m !! pair_secret ns (cr_spec resv) = None) in Hn. rewrite Hn. by intros [? ?].
Qed.

(** An instruction for the consumer is there afterwards. *)
Lemma wp_ensure_instruction iname kind last ref exp (Q : option Err → store → Prop) m :
  store_wf m → current m resv →
  (∀ m', store_wf m' → current m' resv →
     is_Some (objs m' !! (KReservationInstruction, ns, iname)) → Q None m') →
  wp reliable (ensureInstruction resv (consumerInstruction resv iname kind last ref exp)) Q m.
Proof using Hns.
  intros Hwf Hc HQ. unfold ensureInstruction. apply wp_bind, wp_create; [done| |].
  - intros rv uid t Hn Hrv a' Hwf'. apply wp_ret, HQ; [done| |].
    + unfold current, put. simpl. by rewrite lookup_insert_ne.
    + rewrite <-Hns. eexists. apply lookup_insert_eq.
  - intros e o Ho He. unfold IsAlreadyExists. rewrite bool_decide_eq_true_2 by done.
    apply wp_ret, HQ; [done..|]. rewrite <-Hns. by exists o.
Qed.

Lemma wp_dispatch m :
  store_wf m → current m resv → isReservationTerminal (rt_Phase (cr_status resv)) = false →
  wp reliable (dispatch rc resv)
    (handed_on rc ns name (cr_spec resv) (rt_Phase (cr_status resv)) m) m.
Proof using Hns Hname.
  intros Hwf Hc Ht.
  assert (stands ns name (cr_spec resv) (rt_Phase (cr_status resv)) m) as Hst
    by (exists resv; by rewrite <-own_key).
  unfold dispatch, handed_on. destruct (rt_Phase (cr_status resv)) eqn:Hp; try discriminate Ht.
  1,2: apply wp_bind, wp_secret; [done|..]; intros Hsec;
    [apply wp_bind, wp_advance; [done..|]; intros m' Hs' _; apply wp_ret; by left|];
    apply wp_bind, wp_ensureSharedPI; [done|..];
    [intros m1 Hwf1 Hfr Hpi|intros m1 e Hfr; apply wp_ret; right; right; split_and!; [done| |done];
       destruct Hst as (r & Hr & ?); exists r; by rewrite Hfr];
    apply wp_bind, wp_advance; [done|unfold current; by rewrite Hfr|]; intros m2 Hs2 Hfr2;
    apply wp_ret; right; left; split_and!; [done..|];
    destruct Hpi as (p & Hl & He); exists p; rewrite Hfr2 by done;
    change (gk_key ns (cr_spec resv)) with (KProviderInstruction, ns, cr_Name (generateKubeconfig resv));
    rewrite <-Hns; by split.
  - apply wp_bind, wp_secret; [done|..]; intros Hsec.
    + apply wp_bind, wp_advance; [done..|]. intros m' Hs' _. apply wp_ret. by left.
    + apply wp_ret. by right.
  - unfold handleKubeconfigReady, peerInstruction. rewrite Hname.
    apply wp_bind, wp_ensure_instruction; [done..|]. intros m1 Hwf1 Hc1 Hri.
    apply wp_bind, wp_advance; [done..|]. intros m2 Hs2 Hfr. apply wp_ret. split; [done|]. by rewrite Hfr.
  - by apply wp_ret.
  - by apply wp_ret.
  - unfold handleUnpeering. rewrite Hname. apply wp_bind, wp_bind, wp_list.
    intros l _. apply wp_ret, wp_bind, wp_ensure_instruction; [done..|].
    intros m1 Hwf1 Hc1 Hri. apply wp_ret. split; [|done]. exists resv. by rewrite <-own_key.
Qed.

(** The guards let the round go on with nothing written, or end it. *)
Lemma wp_expired (Q : bool * Duration → store → Prop) m :
  store_wf m → current m resv → (∀ d, Q (false, d) m) →
  (∀ m', stands ns name (cr_spec resv) ReservationPhaseExpired m' → Q (true, 0) m') →
  wp reliable (checkExpired resv) Q m.
Proof using Hns Hname.
  intros Hwf Hc HF HT. unfold checkExpired. destruct (rt_ExpiresAt (cr_status resv)) as [exp|];
    [|by apply wp_ret, HF].
  destruct (isReservationTerminal (rt_Phase (cr_status resv))); [by apply wp_ret, HF|].
  apply wp_bind, wp_now. intros t. destruct (t <? exp).
  - apply wp_bind, wp_now. intros t2. by apply wp_ret, HF.
  - apply wp_bind, wp_advance; [done..|]. intros m' Hs _. by apply wp_ret, HT.
Qed.

Lemma wp_provider (Q : bool * option Err → store → Prop) m :
  store_wf m → current m resv → Q (false, None) m →
  (∀ m', rt_Phase (cr_status resv) ≠ ReservationPhaseUnpeering → provider_gone ns (cr_spec resv) m →
     stands ns name (cr_spec resv) ReservationPhaseFailed m' → Q (true, None) m') →
  wp reliable (checkProviderAvailable resv) Q m.
Proof using Hns Hname.
  intros Hwf Hc HF HT. unfold checkProviderAvailable. rewrite Hns.
  destruct (isReservationTerminal (rt_Phase (cr_status resv))); [by apply wp_ret|].
  destruct (decide _) as [Hu|Hu]; [by apply wp_ret|].
  assert (∀ msg m1, provider_gone ns (cr_spec resv) m → store_wf m1 → current m1 resv → wp reliable
    (e ← advancePhase resv ReservationPhaseFailed msg;
     mret (match e with Some e => (false, Some e) | None => (true, None) end)) Q m1) as Hadv.
  { intros msg m1 Hg Hwf1 Hc1. apply wp_bind, wp_advance; [done..|]. intros m2 Hs _. by apply wp_ret, HT. }
  assert (∀ msg, provider_gone ns (cr_spec resv) m → wp reliable
    (c ← (if needsConsumerCleanup (rt_Phase (cr_status resv)) then ensureCleanupInstruction resv else mret None);
     match c with
     | Some e => mret (false, Some (wrapf "ensure Cleanup instruction" e))
     | None => e ← advancePhase resv ReservationPhaseFailed msg;
               mret (match e with Some e => (false, Some e) | None => (true, None) end)
     end) Q m) as Hgive.
  { intros msg Hg. apply wp_bind. destruct (needsConsumerCleanup _); [|by apply wp_ret, Hadv].
    apply wp_bind, wp_bind, wp_list. intros l _. apply wp_ret, wp_ensure_instruction; [done..|].
    intros m1 Hwf1 Hc1 _. by apply Hadv. }
  apply wp_bind, wp_get; [done| |].
  - intros c Hl _ _. cbv zeta. destruct (ca_Available (cr_status c)) eqn:Ha; [by apply wp_ret|].
    apply Hgive. intros c2 Hc2. change (objs m !! cadv_key ns (rs_ProviderClusterID (cr_spec resv)) = Some (OCadv c)) in Hl. congruence.
  - intros e Hn He. unfold IsNotFound. rewrite bool_decide_eq_true_2 by done.
    apply Hgive. intros c2 Hc2. change (objs m !! cadv_key ns (rs_ProviderClusterID (cr_spec resv)) = None) in Hn. congruence.
Qed.

Lemma wp_guarded m :
  store_wf m → current m resv → isReservationTerminal (rt_Phase (cr_status resv)) = false →
  wp reliable
    (c ← checkExpired resv;
     if (c.1 : bool) then mret (after c.2, None)
     else
       a ← checkProviderAvailable resv;
       match a with
       | (true, e) => mret (no_requeue, e)
       | (false, Some e) => mret (no_requeue, Some e)
       | (false, None) => dispatch rc resv
       end) (progressed rc ns name (cr_spec resv) (rt_Phase (cr_status resv)) m) m.
Proof using Hns Hname.
  intros Hwf Hc Ht. apply wp_bind, wp_expired; [done..| |by intros m' Hs; apply wp_ret; left].
  intros d. apply wp_bind, wp_provider; [done..| |by intros m' ???; apply wp_ret; right; left].
  eapply wp_mono; [|by apply wp_dispatch]. intros out m' Ho. by right; right.
Qed.
End Round.

(** A change of the Reservation itself is no news for a round. *)
Lemma progressed_from rc ns name sp p m m1 out m' :
  (∀ k, k ≠ resv_key ns name → objs m1 !! k = objs m !! k) →
  progressed rc ns name sp p m1 out m' → progressed rc ns name sp p m out m'.
Proof.
  intros Hfr. unfold progressed, handed_on, provider_gone. rewrite !Hfr by done. done.
Qed.

Lemma wp_live rc ns name resv m :
  cr_Namespace resv = ns → cr_Name resv = name → store_wf m → current m resv →
  isReservationTerminal (rt_Phase (cr_status resv)) = false →
  wp reliable (reconcileLive rc resv)
    (progressed rc ns name (cr_spec resv) (rt_Phase (cr_status resv)) m) m.
Proof.
  intros Hns Hn Hwf Hc Ht. unfold reconcileLive, ensureExpiry.
  destruct (rt_ExpiresAt (cr_status resv)) eqn:He; [apply wp_bind, wp_ret; by apply wp_guarded|].
  apply wp_bind, wp_bind. cbv zeta. apply (wp_status_current resv); [done..|].
  intros rv Hrv r' Hwf'. apply wp_ret.
  assert (cr_spec r' = cr_spec resv ∧ rt_Phase (cr_status r') = rt_Phase (cr_status resv)) as [Es Ep]
    by (split; [done|]; simpl; by destruct (rt_ObservedGeneration _ =? 0)).
  eapply wp_mono; [|apply (wp_guarded rc ns name r'); [done|done|done|apply lookup_insert_eq|by rewrite Ep]].
  intros out m' Ho. rewrite Es, Ep in Ho. eapply progressed_from; [|exact Ho].
  intros k Hk. apply lookup_insert_ne. by rewrite (resv_key_of resv ns name).
Qed.

Lemma wp_Reconcile_progress rc ns name resv m :
  store_wf m → objs m !! resv_key ns name = Some (OResv resv) →
  m_DeletionTimestamp (cr_meta resv) = None →
  isReservationTerminal (rt_Phase (cr_status resv)) = false →
  wp reliable (Reconcile rc ns name)
    (progressed rc ns name (cr_spec resv) (rt_Phase (cr_status resv)) m) m.
Proof.
  intros Hwf Hl Hd Ht. unfold Reconcile. apply wp_bind, wp_get; [done| |].
  2: { intros e Hn _. change (objs m !! resv_key ns name = None) in Hn. congruence. }
  intros resv2 Hl2 Hns Hn. change (objs m !! resv_key ns name = Some (OResv resv2)) in Hl2.
  rewrite Hl in Hl2. injection Hl2 as <-. rewrite Hd.
  pose proof (resv_key_of resv ns name Hns Hn) as Hkey.
  assert (current m resv) as Hc by by unfold current; rewrite Hkey.
  unfold AddFinalizer, ContainsFinalizer. case_bool_decide; cbv iota beta; [by apply wp_live|].
  set (resv1 := cr_set_meta _ resv).
  apply wp_bind, (wp_update_current resv); [done..|]. intros rv gen Hrv a' Hwf'.
  change (to_obj a') with (OResv a') in *.
  assert (put_or_drop (cr_key resv) (OResv a') m = put (cr_key resv) (OResv a') m) as Hput
    by (apply put_or_drop_kept; left; exact Hd).
  rewrite Hput in *.
  eapply wp_mono; [|apply (wp_live rc ns name a'); [done|done|done|apply lookup_insert_eq|done]].
  intros out m' Ho. eapply progressed_from; [|exact Ho].
  intros k Hk. apply lookup_insert_ne. by rewrite Hkey.
Qed.

(** ** On any server that answers its requests *)
Section OnServer.
Context {W : Type} `{!ApiServer W} `{!ServerMeets W reliable}.

End OnServer.
End Progress.

(** ** A concrete round *)
Module ProgressWitness.
Import SafetyWitness ReservationWitness ReconcileWitness.
#[local] Existing Instance MilliPlatform.platform.

Definition phase_of (m : store) : option ReservationPhase :=
  match objs m !! (KReservation, "broker", "res-1") with
  | Some (OResv r) => Some (rt_Phase (cr_status r))
  | _ => None
  end.

End ProgressWitness.
