(* ===== verification/InstructionProofs.v ===== *)
(** * Instruction endpoints: what they deliver and accept

    Delivery: an agent gets exactly the pending instructions addressed to it,
    and a kubeconfig only through a Peer instruction of its own.  Results: only
    the addressed cluster may report one, and a repeated report is harmless. *)
From stdpp Require Import base gmap strings list.
From Stdlib Require Import ZArith Lia.
From S2P Require Import Prelude ApiTypes Chunk Wire Kube MemServer Registry Placement.
From S2P Require Import ReservationApi InstructionsApi AdvertisementApi ReservationController Housekeeping.
From S2P Require Import BrokerInvariant BrokerSafety Ledger ReservationProofs ReconcileProofs CredentialProofs.

Open Scope Z_scope.

(** ** mergeStrings *)
Lemma merge_step_elem out x y : y ∈ merge_step out x ↔ y ∈ out ∨ y = x.
Proof.
  unfold merge_step. case_decide; [naive_solver|].
  rewrite elem_of_app, list_elem_of_singleton. done.
Qed.

Lemma merge_step_nodup out x : NoDup out → NoDup (merge_step out x).
Proof.
  intros Hnd. unfold merge_step. case_decide; [done|]. apply NoDup_app. split_and!; [done| |apply NoDup_singleton].
  intros y Hy ->%list_elem_of_singleton. done.
Qed.

Lemma merge_step_prefix out x : out `prefix_of` merge_step out x.
Proof. unfold merge_step. case_decide; [done|]. by apply prefix_app_r. Qed.

Lemma merge_fold_elem l out y : y ∈ foldl merge_step out l ↔ y ∈ out ∨ y ∈ l.
Proof.
  revert out. induction l as [|x l IH]; intros out; simpl.
  - rewrite elem_of_nil. tauto.
  - rewrite IH, merge_step_elem, elem_of_cons. tauto.
Qed.

Lemma merge_fold_nodup l out : NoDup out → NoDup (foldl merge_step out l).
Proof. revert out. induction l as [|x l IH]; intros out; simpl; auto using merge_step_nodup. Qed.

Lemma merge_fold_prefix l out : out `prefix_of` foldl merge_step out l.
Proof.
  revert out. induction l as [|x l IH]; intros out; simpl; [done|].
  etrans; [apply (merge_step_prefix out x)|apply IH].
Qed.

(** Adding what is there already changes nothing. *)
Lemma merge_fold_id l out : (∀ x, x ∈ l → x ∈ out) → foldl merge_step out l = out.
Proof.
  revert out. induction l as [|x l IH]; intros out Hl; simpl; [done|].
  unfold merge_step at 2. rewrite decide_True by (apply Hl; constructor).
  apply IH. intros y Hy. apply Hl. by constructor.
Qed.

Lemma merge_fold_dedup l : NoDup l → foldl merge_step [] l = l.
Proof.
  assert (∀ l out, NoDup (out ++ l) → foldl merge_step out l = out ++ l) as Hgen.
  { clear l. induction l as [|x l IH]; intros out Hnd; simpl; [by rewrite app_nil_r|].
    unfold merge_step at 2. apply NoDup_app in Hnd as (Ho & Hd & Hxl). apply NoDup_cons in Hxl as [Hx Hl].
    rewrite decide_False by (intros Hin; apply (Hd _ Hin); constructor).
    rewrite IH, <-app_assoc; [done|]. rewrite <-app_assoc. apply NoDup_app. split_and!; [done| |].
    - intros y Hy. apply Hd, Hy.
    - by constructor. }
  intros Hnd. apply (Hgen l []). done.
Qed.

(** Merging the node names an agent reports: the result has exactly the
    names of both lists; over a list without duplicates it extends the recorded
    list at its end without duplicates, and a repeated report changes nothing. *)
Theorem mergeStrings_correct existing fresh :
  NoDup existing →
  let out := mergeStrings existing fresh in
  (∀ x, x ∈ out ↔ x ∈ existing ∨ x ∈ fresh) ∧ NoDup out ∧ existing `prefix_of` out ∧
  mergeStrings out fresh = out.
Proof.
  intros Hnd out. unfold out, mergeStrings. destruct fresh as [|f fresh].
  - split_and!; [|done..]. intros x. rewrite elem_of_nil. tauto.
  - rewrite (merge_fold_dedup existing) by done.
    assert (NoDup (foldl merge_step existing (f :: fresh))) as Hnd2 by by apply merge_fold_nodup.
    split_and!; [|done|apply merge_fold_prefix|].
    + intros x. by rewrite merge_fold_elem.
    + rewrite merge_fold_dedup by done. apply merge_fold_id. intros x Hx. apply merge_fold_elem. by right.
Qed.

Example mergeStrings_correct_witness :
  NoDup ["n1"; "n2"] ∧ mergeStrings ["n1"; "n2"] ["n2"; "n3"] = ["n1"; "n2"; "n3"] ∧
  mergeStrings ["n1"; "n2"; "n3"] ["n2"; "n3"] = ["n1"; "n2"; "n3"].
Proof.
  assert (NoDup ["n1"; "n2"]) as Hnd by (apply NoDup_ListNoDup; repeat constructor; cbn; intuition discriminate).
  split; [exact Hnd|]. split; [reflexivity|].
  exact (proj2 (proj2 (proj2 (mergeStrings_correct ["n1"; "n2"] ["n2"; "n3"] Hnd)))).
Defined.

Section InstructionProofs.
Context `{Platform}.

(** ** Delivery *)

(** Pending instructions addressed to [caller]. *)
Abbreviation for_consumer caller := (λ ri : ReservationInstruction,
  ri_TargetClusterID (cr_spec ri) = caller ∧ is_Enforced (cr_status ri) = false).
Abbreviation for_provider caller := (λ pi : ProviderInstruction,
  pi_TargetClusterID (cr_spec pi) = caller ∧ is_Enforced (cr_status pi) = false).

(** The kinds delivery reads but never writes. *)
Definition unwritten (k : Kind * string * string) : Prop :=
  k.1.1 ≠ KProviderInstruction ∧ k.1.1 ≠ KReservationInstruction.

Definition not_provider (k : Kind * string * string) : Prop := k.1.1 ≠ KProviderInstruction.

Lemma touch_pi_spares (o : ProviderInstruction) : spares not_provider (touchInstructionDelivered o).
Proof. unfold touchInstructionDelivered. spares_tac. by intros []. Qed.

Lemma touch_ri_spares (o : ReservationInstruction) : spares unwritten (touchInstructionDelivered o).
Proof. unfold touchInstructionDelivered. spares_tac. by intros [? ?]. Qed.

Lemma wp_collect_provider caller items out (Q : list InstructionView → store → Prop) m :
  store_wf m →
  (∀ m', same_on not_provider m m' →
     Q (out ++ (viewFromProviderInstruction <$>
          filter (for_provider caller) items)) m') →
  wp reliable (collect_provider caller items out) Q m.
Proof.
  revert out m. induction items as [|pi items IH]; intros out m Hwf HQ; cbn [collect_provider].
  - apply wp_ret. specialize (HQ m). rewrite app_nil_r in HQ. by apply HQ.
  - destruct (bool_decide _ || is_Enforced _) eqn:Hskip.
    + apply IH; [done|]. intros m' Hs. specialize (HQ m' Hs). rewrite filter_cons_False in HQ; [done|].
      intros [Ht He]. apply orb_true_iff in Hskip as [Hb|Hb]; fed_bools; congruence.
    + apply orb_false_iff in Hskip as [Ht He].
      apply wp_bind. eapply wp_mono; [|apply (wp_spares not_provider); [done|apply touch_pi_spares]].
      intros [] m1 Hs1. apply IH; [apply Hs1|]. intros m2 Hs2.
      specialize (HQ m2 (same_on_trans _ _ _ _ Hs1 Hs2)). rewrite filter_cons_True in HQ.
      * by rewrite fmap_cons, cons_middle, (assoc_L (++)) in HQ.
      * split; [|done]. apply bool_decide_eq_false in Ht. by apply dec_stable in Ht.
Qed.

(** The staged kubeconfig a Peer instruction refers to. *)
Definition staged (m : store) (ns ref : string) : option string :=
  match objs m !! (KSecret, ns, ref) with
  | Some (OSecret sec) =>
      match cr_spec sec !! kubeconfigSecretKey with
      | Some b => if decide (b = "") then None else Some b
      | None => None
      end
  | _ => None
  end.

(** What delivering [ri] to its consumer says in state [m]. *)
Definition delivered (m : store) (ns : string) (ri : ReservationInstruction) : option InstructionView :=
  let sp := cr_spec ri in
  let view := viewFromReservationInstruction ri in
  let with_resv v :=
    match objs m !! (KReservation, ns, ri_ReservationID sp) with
    | Some (OResv resv) => iv_decorate (rs_Resources (cr_spec resv)) (rs_Namespaces (cr_spec resv)) v
    | _ => v
    end in
  match ri_Kind sp with
  | ReservationInstructionPeer =>
      if decide (ri_KubeconfigRef sp = "") then Some (with_resv view)
      else (λ kc, with_resv (iv_set_kubeconfig kc view)) <$> staged m ns (ri_KubeconfigRef sp)
  | ReservationInstructionUnpeer => Some (with_resv view)
  | _ => Some view
  end.

Lemma wp_loadKubeconfig ns ref (Q : Res string → store → Prop) m :
  store_wf m →
  (∀ kc, staged m ns ref = Some kc → Q (Ok kc) m) → (∀ e, staged m ns ref = None → Q (Fail e) m) →
  wp reliable (loadKubeconfig ns ref) Q m.
Proof.
  intros Hwf HOk HF. unfold loadKubeconfig. apply wp_bind, wp_get; [done| |]; unfold staged in *.
  - intros sec Hs _ _. simpl in Hs. rewrite Hs in HOk, HF. apply wp_ret.
    destruct (cr_spec sec !! kubeconfigSecretKey) as [b|]; [|by apply HF].
    destruct (decide (b = "")); [by apply HF|by apply HOk].
  - intros e Hn _. simpl in Hn. rewrite Hn in HF. by apply wp_ret, HF.
Qed.

Lemma wp_view_consumer ns ri (Q : option InstructionView → store → Prop) m :
  store_wf m → Q (delivered m ns ri) m → wp reliable (view_consumer ns ri) Q m.
Proof.
  intros Hwf HQ.
  assert (∀ view, Q (Some (match objs m !! (KReservation, ns, ri_ReservationID (cr_spec ri)) with
      | Some (OResv resv) => iv_decorate (rs_Resources (cr_spec resv)) (rs_Namespaces (cr_spec resv)) view
      | _ => view end)) m →
    wp reliable (r ← getReservation ns (ri_ReservationID (cr_spec ri));
      mret (Some match r with
                 | Ok resv => iv_decorate (rs_Resources (cr_spec resv)) (rs_Namespaces (cr_spec resv)) view
                 | Fail _ => view
                 end)) Q m) as Hresv.
  { intros view Hv. apply wp_bind, wp_get; [done| |].
    - intros resv Hl _ _. simpl in Hl. rewrite Hl in Hv. by apply wp_ret.
    - intros e Hn _. simpl in Hn. rewrite Hn in Hv. by apply wp_ret. }
  unfold view_consumer, delivered in *. cbv zeta in *.
  destruct (ri_Kind (cr_spec ri)); cbn [bool_decide andb orb] in *.
  - rewrite bool_decide_eq_true_2 by done. cbn [andb orb].
    destruct (decide (ri_KubeconfigRef (cr_spec ri) = "")) as [Hr|Hr].
    + rewrite bool_decide_eq_false_2 by tauto. apply wp_bind, wp_ret. by apply Hresv.
    + rewrite bool_decide_eq_true_2 by done. apply wp_bind, wp_bind, wp_loadKubeconfig; [done| |].
      * intros kc Hkc. rewrite Hkc in HQ. apply wp_ret. by apply Hresv.
      * intros e Hkc. rewrite Hkc in HQ. by apply wp_ret, wp_ret.
  - rewrite bool_decide_eq_false_2 by done. cbn [andb orb]. rewrite bool_decide_eq_true_2 by done.
    apply wp_bind, wp_ret. by apply Hresv.
  - rewrite !bool_decide_eq_false_2 by done. by apply wp_bind, wp_ret, wp_ret.
  - rewrite !bool_decide_eq_false_2 by done. by apply wp_bind, wp_ret, wp_ret.
Qed.

Lemma delivered_same m m' ns ri : same_on unwritten m m' → delivered m' ns ri = delivered m ns ri.
Proof. intros [_ Hs]. unfold delivered, staged. by rewrite !Hs. Qed.

Lemma wp_collect_consumer ns caller items out (Q : list InstructionView → store → Prop) m :
  store_wf m →
  (∀ m', same_on unwritten m m' → Q (out ++ omap (delivered m ns) (filter (for_consumer caller) items)) m') →
  wp reliable (collect_consumer ns caller items out) Q m.
Proof.
  revert out m. induction items as [|ri items IH]; intros out m Hwf HQ; cbn [collect_consumer].
  - apply wp_ret. specialize (HQ m). rewrite app_nil_r in HQ. by apply HQ.
  - destruct (bool_decide _ || is_Enforced _) eqn:Hskip.
    + apply IH; [done|]. intros m' Hs. specialize (HQ m' Hs). rewrite filter_cons_False in HQ; [done|].
      intros [Ht He]. apply orb_true_iff in Hskip as [Hb|Hb]; fed_bools; congruence.
    + apply orb_false_iff in Hskip as [Ht He].
      assert (for_consumer caller ri) as Hfor.
      { split; [|done]. apply bool_decide_eq_false in Ht. by apply dec_stable in Ht. }
      rewrite filter_cons_True in HQ by done. apply wp_bind, wp_view_consumer; [done|].
      simpl in HQ. destruct (delivered m ns ri) as [view|] eqn:Hd; [|by apply IH].
      apply wp_bind. eapply wp_mono; [|apply (wp_spares unwritten); [done|apply touch_ri_spares]].
      intros [] m1 Hs1. apply IH; [apply Hs1|]. intros m2 Hs2.
      specialize (HQ m2 (same_on_trans _ _ _ _ Hs1 Hs2)).
      rewrite cons_middle, (assoc_L (++)) in HQ.
      assert (∀ l, omap (delivered m1 ns) l = omap (delivered m ns) l) as ->; [|done].
      intros l. apply list_omap_ext, Forall_Forall2_diag, Forall_true. intros; by apply delivered_same.
Qed.

(** [v] is due to [caller] in state [m]. *)
Definition due (m : store) (ns caller : string) (v : InstructionView) : Prop :=
  (∃ pi, objs m !! cr_key pi = Some (OPI pi) ∧ cr_Namespace pi = ns ∧ for_provider caller pi ∧
     v = viewFromProviderInstruction pi) ∨
  (∃ ri, objs m !! cr_key ri = Some (ORI ri) ∧ cr_Namespace ri = ns ∧ for_consumer caller ri ∧
     delivered m ns ri = Some v).

Lemma wp_collectInstructions ns caller (Q : Res (list InstructionView) → store → Prop) m :
  store_wf m →
  (∀ views m', same_on unwritten m m' → (∀ v, v ∈ views ↔ due m ns caller v) → Q (Ok views) m') →
  wp reliable (collectInstructionsForCaller ns caller) Q m.
Proof.
  intros Hwf HQ. unfold collectInstructionsForCaller. apply wp_bind, wp_list. intros pis Hpis.
  apply wp_bind, wp_collect_provider; [done|]. intros m1 Hs1.
  apply wp_bind, wp_list. intros ris Hris. apply wp_bind, wp_collect_consumer; [apply Hs1|].
  intros m2 Hs2. apply wp_ret, HQ.
  { destruct Hs1 as [_ Hs1], Hs2 as [Hwf2 Hs2]. split; [done|]. intros k Hk. rewrite Hs2 by done.
    apply Hs1, Hk. }
  assert (∀ ri, delivered m1 ns ri = delivered m ns ri) as Hdel.
  { intros ri. apply delivered_same. split; [apply Hs1|]. intros k [Hk _]. by apply Hs1. }
  intros v. simpl. rewrite elem_of_app, list_elem_of_fmap, list_elem_of_omap. unfold due. f_equiv.
  - split.
    + intros (pi & -> & [Hf Hpi]%list_elem_of_filter). rewrite Hpis in Hpi.
      apply (elem_of_typed_list _ _ _ Hwf) in Hpi as [??]. by exists pi.
    + intros (pi & Hk & Hns & Hf & ->). exists pi. split; [done|]. apply list_elem_of_filter.
      split; [done|]. rewrite Hpis. by apply (elem_of_typed_list _ _ _ Hwf).
  - destruct Hs1 as [Hwf1 Hs1]. split.
    + intros (ri & [Hf Hri]%list_elem_of_filter & Hd). rewrite Hris in Hri.
      apply (elem_of_typed_list _ _ _ Hwf1) in Hri as [Hns Hk]. rewrite Hs1 in Hk by done.
      exists ri. by rewrite <-Hdel.
    + intros (ri & Hk & Hns & Hf & Hd). exists ri. split; [|by rewrite Hdel]. apply list_elem_of_filter.
      split; [done|]. rewrite Hris. apply (elem_of_typed_list _ _ _ Hwf1). split; [done|]. by rewrite Hs1.
Qed.

(** A view carries a kubeconfig only for a Peer instruction. *)
Lemma delivered_kubeconfig m ns ri v :
  delivered m ns ri = Some v → iv_Kubeconfig v ≠ "" →
  ri_Kind (cr_spec ri) = ReservationInstructionPeer ∧
  staged m ns (ri_KubeconfigRef (cr_spec ri)) = Some (iv_Kubeconfig v).
Proof.
  unfold delivered. intros Hd Hne. cbv zeta in Hd.
  destruct (ri_Kind (cr_spec ri)); [destruct (decide _); [|destruct (staged _ _ _) as [kc|]]|..];
    destruct (objs m !! (KReservation, ns, ri_ReservationID (cr_spec ri))) as [[]|]; simplify_eq/=; done.
Qed.

(** ** Results *)

(** Where the result of a consumer instruction moves its Reservation. *)
Definition result_phase (kind : ReservationInstructionKind) (status : string) (old : ReservationPhase) :
  ReservationPhase :=
  if decide (status = ResultStatusFailed) then ReservationPhaseFailed
  else
    match kind with
    | ReservationInstructionPeer => ReservationPhasePeered
    | ReservationInstructionUnpeer =>
        if decide (old = ReservationPhaseUnpeering) then ReservationPhaseReleased else old
    | _ => old
    end.

(** The virtual nodes it records. *)
Definition result_vnodes (kind : ReservationInstructionKind) (req : InstructionResultRequest)
    (old : list string) : list string :=
  if decide (ir_Status req = ResultStatusFailed) then old
  else
    match kind, ir_Payload req with
    | ReservationInstructionPeer, Some p => mergeStrings old (pl_VirtualNodeNames p)
    | _, _ => old
    end.

(** The Reservation [r'] is [r] after the result [req] of an instruction of
    kind [kind]. *)
Definition advanced (kind : ReservationInstructionKind) (req : InstructionResultRequest)
    (r r' : Reservation) : Prop :=
  cr_spec r' = cr_spec r ∧
  rt_Phase (cr_status r') = result_phase kind (ir_Status req) (rt_Phase (cr_status r)) ∧
  rt_VirtualNodeNames (cr_status r') = result_vnodes kind req (rt_VirtualNodeNames (cr_status r)) ∧
  m_Annotations (cr_meta r') = m_Annotations (cr_meta r).

Lemma wp_getReservation_found ns id r (Q : Res Reservation → store → Prop) m :
  store_wf m → objs m !! resv_key ns id = Some (OResv r) → Q (Ok r) m →
  wp reliable (getReservation ns id) Q m.
Proof. intros. by apply (wp_get_found _ _ r). Qed.

Lemma wp_write_phase r st to msg (Q : option Err → store → Prop) m :
  store_wf m → current m r →
  (∀ rv, let r' := cr_on_status rv r (cr_set_status (rt_set_message msg (rt_set_phase to st)) r) in
     let m' := put (cr_key r) (OResv r') m in store_wf m' → Q None m') →
  wp reliable (write_phase to msg (cr_set_status st r)) Q m.
Proof.
  intros Hwf Hc HQ. unfold write_phase. apply wp_bind, (wp_status_current r); [done..|].
  intros rv Hrv r' Hwf'. by apply wp_ret, (HQ rv).
Qed.

Lemma wp_advanceReservationPhase ns id r from to msg (Q : option Err → store → Prop) m :
  store_wf m → current m r → cr_key r = resv_key ns id →
  (from ≠ PhaseEmpty → rt_Phase (cr_status r) ≠ from → ∀ e, Q (Some e) m) →
  (from = PhaseEmpty ∨ rt_Phase (cr_status r) = from → ∀ rv,
     let r' := cr_on_status rv r (cr_set_status (rt_set_message msg (rt_set_phase to (cr_status r))) r) in
     let m' := put (cr_key r) (OResv r') m in store_wf m' → Q None m') →
  wp reliable (advanceReservationPhase ns id from to msg) Q m.
Proof.
  intros Hwf Hc Hk HNo HYes. unfold advanceReservationPhase. unfold current in Hc. rewrite Hk in Hc.
  apply wp_bind, (wp_getReservation_found ns id r); [done..|].
  assert (current m r) as Hc' by by unfold current; rewrite Hk.
  destruct (bool_decide (from ≠ PhaseEmpty) && _) eqn:E.
  - apply andb_true_iff in E as [E1 E2]. fed_bools. by apply wp_ret, HNo.
  - apply andb_false_iff in E. assert (r = cr_set_status (cr_status r) r) as -> by by destruct r.
    apply wp_write_phase; [done..|]. apply HYes.
    destruct E as [E|E]; apply bool_decide_eq_false in E; apply dec_stable in E; tauto.
Qed.

(** The Reservation part of a consumer's result. *)
Lemma wp_apply_effect ns ri req r (Q : option Err → store → Prop) m :
  store_wf m → current m r → cr_key r = resv_key ns (ri_ReservationID (cr_spec ri)) →
  validateInstructionResult req = None →
  (∀ m' r', store_wf m' → objs m' = <[cr_key r := OResv r']> (objs m) →
     advanced (ri_Kind (cr_spec ri)) req r r' → Q None m') →
  wp reliable
    (if decide (ir_Status req = ResultStatusSucceeded) then
       match ri_Kind (cr_spec ri) with
       | ReservationInstructionPeer => applyPeerPayload ns ri (ir_Payload req)
       | ReservationInstructionUnpeer => _ ← applyUnpeerPayload ns ri; mret None
       | _ => mret None
       end
     else if decide (ir_Status req = ResultStatusFailed) then
       _ ← advanceReservationPhase ns (ri_ReservationID (cr_spec ri)) PhaseEmpty ReservationPhaseFailed
             (match ir_Error req with Some e => ee_Message e | None => "" end);
       mret None
     else mret None) Q m.
Proof.
  intros Hwf Hc Hk Hval HQ.
  assert (objs m = <[cr_key r := OResv r]> (objs m)) as Hid by (symmetry; by apply insert_id).
  destruct (decide (ir_Status req = ResultStatusSucceeded)) as [Hok|Hbad].
  - assert (ir_Status req ≠ ResultStatusFailed) as Hnf by (rewrite Hok; done).
    unfold advanced, result_phase, result_vnodes in HQ. rewrite decide_False in HQ by done.
    destruct (ri_Kind (cr_spec ri)).
    + unfold applyPeerPayload. pose proof Hc as Hc2. unfold current in Hc2. rewrite Hk in Hc2.
      apply wp_bind, (wp_getReservation_found ns _ r); [done..|]. cbv zeta.
      apply wp_write_phase; [done..|]. intros rv r' m' Hwf'. apply (HQ m' r'); [done..|].
      split_and!; try done. simpl. rewrite decide_False by done. by destruct (ir_Payload req).
    + unfold applyUnpeerPayload. apply wp_bind, wp_bind.
      apply (wp_advanceReservationPhase _ _ r); [done..| |].
      * intros _ Hne e. apply wp_ret, wp_ret, (HQ m r); [done..|].
        rewrite decide_False by done. rewrite decide_False by done. done.
      * intros [?|Hph] rv r' m' Hwf'; [done|]. apply wp_ret, wp_ret, (HQ m' r'); [done..|].
        rewrite Hph, decide_True by done. rewrite decide_False by done. done.
    + apply wp_ret, (HQ m r); [done..|]. by rewrite decide_False by done.
    + apply wp_ret, (HQ m r); [done..|]. by rewrite decide_False by done.
  - assert (ir_Status req = ResultStatusFailed) as Hf.
    { unfold validateInstructionResult in Hval. rewrite decide_False in Hval by done.
      destruct (decide (ir_Status req = ResultStatusFailed)); [done|discriminate]. }
    rewrite decide_True by done. unfold advanced, result_phase, result_vnodes in HQ.
    apply wp_bind, (wp_advanceReservationPhase _ _ r); [done..| |].
    + by intros ?.
    + intros _ rv r' m' Hwf'. apply wp_ret, (HQ m' r'); [done..|]. by rewrite !decide_True by done.
Qed.

(** ** Staging the kubeconfig *)
Lemma wp_createOrUpdateSecret (sec : Secret) kc (Q : option Err → store → Prop) m :
  let sk := (KSecret, cr_Namespace sec, cr_Name sec) in
  store_wf m → cr_spec sec = ∅ → m_DeletionTimestamp (cr_meta sec) = None →
  (∀ s0, objs m !! sk = Some (OSecret s0) → m_DeletionTimestamp (cr_meta s0) = None) →
  (∀ m', same_on (λ k, k ≠ sk) m m' → (∃ s', objs m' !! sk = Some (OSecret s') ∧
     cr_spec s' = {[ kubeconfigSecretKey := kc ]}) → Q None m') →
  wp reliable (createOrUpdateSecret sec
    (λ sec, cr_set_spec (<[kubeconfigSecretKey := kc]> (cr_spec sec)) sec)) Q m.
Proof.
  intros sk Hwf Hemp Hnd Hlive HQ. unfold createOrUpdateSecret. apply wp_bind, wp_get; [done| |].
  - intros ex Hex Hns Hn. simpl in Hex. cbv zeta.
    apply wp_bind, (wp_update_current ex); [done| |unfold cr_key; by rewrite Hns, Hn|done|].
    { unfold cr_key. rewrite Hns, Hn. exact Hex. }
    assert (cr_key ex = sk) as -> by (unfold cr_key; by rewrite Hns, Hn).
    intros rv gen Hrv s' Hwf'. apply wp_ret. specialize (Hlive _ Hex).
    assert (put_or_drop sk (to_obj s') m = put sk (to_obj s') m) as Hput
      by (unfold put_or_drop; simpl; by rewrite Hlive).
    rewrite Hput in *. apply HQ.
    + split; [done|]. intros k Hk. by apply lookup_insert_ne.
    + exists s'. split; [apply lookup_insert_eq|]. simpl. by rewrite Hemp.
  - intros e Hn He. unfold IsNotFound. rewrite bool_decide_eq_true_2 by done.
    apply wp_bind, wp_create; [done| |].
    + change (cr_key _) with sk. intros rv uid t _ Hrv s' Hwf'. apply wp_ret, HQ.
      * split; [done|]. intros k Hk. by apply lookup_insert_ne.
      * exists s'. split; [apply lookup_insert_eq|]. simpl. by rewrite Hemp.
    + intros e2 o Ho _. exfalso. change (objs m !! sk = Some o) in Ho.
      change (objs m !! sk = None) in Hn. congruence.
Qed.

Lemma attachKubeconfigToPeer_spares ns id sn :
  spares (λ k, k.1.1 ≠ KReservationInstruction) (attachKubeconfigToPeer ns id sn).
Proof.
  unfold attachKubeconfigToPeer. apply spares_bind; [by spares_tac|]. intros [items|e]; [|done].
  induction items as [|ri items IH]; cbn [attach_first]; [done|]. cbv zeta.
  destruct (_ || _); [done|]. spares_tac. by intros [].
Qed.

(** What a delivered kubeconfig leaves behind. *)
Definition kubeconfig_stored (m m' : store) (ns : string) (pi : ProviderInstruction) (kc : string) : Prop :=
  let sp := cr_spec pi in
  staged m' ns (kubeconfigSecretName (pi_ConsumerClusterID sp) (pi_TargetClusterID sp)) = Some kc ∧
  (∀ r, objs m !! resv_key ns (pi_ReservationID sp) = Some (OResv r) →
     ∃ r', objs m' !! resv_key ns (pi_ReservationID sp) = Some (OResv r') ∧
       rt_Phase (cr_status r') =
         if decide (rt_Phase (cr_status r) = ReservationPhaseGeneratingKubeconfig)
         then ReservationPhaseKubeconfigReady else rt_Phase (cr_status r)).

Lemma wp_persistKubeconfigPayload ns pi payload (Q : option Err → store → Prop) m :
  let sk := (KSecret, ns, kubeconfigSecretName (pi_ConsumerClusterID (cr_spec pi)) (pi_TargetClusterID (cr_spec pi))) in
  store_wf m → pl_Kubeconfig payload ≠ "" →
  (∀ s0, objs m !! sk = Some (OSecret s0) → m_DeletionTimestamp (cr_meta s0) = None) →
  (∀ m', same_on (λ k, k.1.1 = KProviderInstruction) m m' →
     kubeconfig_stored m m' ns pi (pl_Kubeconfig payload) → Q None m') →
  wp reliable (persistKubeconfigPayload ns pi (Some payload)) Q m.
Proof.
  intros sk Hwf Hkc Hlive HQ. unfold persistKubeconfigPayload. rewrite decide_False by done. cbv zeta.
  apply wp_bind, wp_createOrUpdateSecret; [done|done|done|exact Hlive|]. intros m1 Hs1 (s' & Hsec & Hdata).
  change (same_on (λ k, k ≠ sk) m m1) in Hs1. change (objs m1 !! sk = Some (OSecret s')) in Hsec.
  apply wp_bind. eapply wp_mono; [|apply wp_spares; [apply Hs1|apply attachKubeconfigToPeer_spares]].
  intros e m2 [Hwf2 Hs2]. destruct Hs1 as [Hwf1 Hs1].
  assert (staged m2 ns (kubeconfigSecretName (pi_ConsumerClusterID (cr_spec pi))
    (pi_TargetClusterID (cr_spec pi))) = Some (pl_Kubeconfig payload)) as Hst.
  { unfold staged. rewrite Hs2 by done. fold sk. rewrite Hsec, Hdata, lookup_singleton_eq.
    by rewrite decide_False by done. }
  assert (∀ k, k.1.1 = KReservation ∨ k.1.1 = KProviderInstruction → objs m2 !! k = objs m !! k) as Hfr.
  { intros k Hk. rewrite Hs2 by (destruct Hk as [->| ->]; done). apply Hs1. by intros ->; destruct Hk. }
  destruct (objs m !! resv_key ns (pi_ReservationID (cr_spec pi))) as [o|] eqn:Hr.
  - destruct (wf_key _ Hwf _ _ Hr) as [Hk _]. destruct o as [ |r| | | | | | | | | | | | ]; try discriminate Hk.
    change (cr_key r = resv_key ns (pi_ReservationID (cr_spec pi))) in Hk.
    assert (current m2 r) as Hc2 by (unfold current; rewrite Hk, Hfr by (by left); done).
    apply wp_bind, (wp_advanceReservationPhase _ _ r); [done..| |].
    + intros _ Hne e2. apply wp_ret, HQ; [split; [done|intros k Hkk; apply Hfr; by right]|].
      split; [done|]. intros r2 Hr2. rewrite Hr in Hr2. simplify_eq. exists r2.
      rewrite Hfr by (by left). by rewrite decide_False.
    + intros [?|Hph] rv r' m3 Hwf3; [done|]. apply wp_ret, HQ.
      * split; [done|]. intros k Hkk. unfold m3, put. simpl. rewrite lookup_insert_ne by (by intros <-).
        apply Hfr. by right.
      * split.
        -- unfold staged in *. unfold m3, put. simpl. by rewrite lookup_insert_ne by done.
        -- intros r2 Hr2. rewrite Hr in Hr2. simplify_eq. exists r'. rewrite <-Hk.
           split; [apply lookup_insert_eq|]. by rewrite decide_True.
  - apply wp_bind. unfold advanceReservationPhase, getReservation. apply wp_bind, wp_get; [done| |].
    + intros r Hr2 _ _. simpl in Hr2. rewrite Hfr, Hr in Hr2 by (by left). discriminate.
    + intros e2 _ _. apply wp_ret, wp_ret, HQ; [split; [done|intros k Hkk; apply Hfr; by right]|].
      split; [done|]. intros r2 Hr2. congruence.
Qed.

(** ** On any server that answers its requests *)
Section OnServer.
Context {W : Type} `{!ApiServer W} `{!ServerMeets W reliable}.

(** GET /api/v1/instructions answers 200 with exactly the pending
    instructions addressed to the calling cluster: every instruction of either
    kind that targets the caller and is not yet enforced, except a Peer whose
    kubeconfig is not staged yet, and nothing else; only instructions are
    written. *)
Theorem handleInstructionsList_exact s requestID caller (w : W) :
  store_wf (view w) →
  let out := run (handleInstructionsList s requestID caller) w in
  ∃ views, out.1 = JSON StatusOK views ∧ same_on unwritten (view w) (view out.2) ∧
    ∀ v, v ∈ views ↔ due (view w) (sv_namespace s) caller v.
Proof.
  intros Hwf. apply (wp_adequate reliable _ (λ x m', ∃ views, x = JSON StatusOK views ∧
    same_on unwritten (view w) m' ∧ ∀ v, v ∈ views ↔ due (view w) (sv_namespace s) caller v)).
  unfold handleInstructionsList. apply wp_bind, wp_collectInstructions; [done|].
  intros views m' Hs Hv. apply wp_ret. by exists views.
Qed.

(** C25: No agent is handed another cluster's credential: a delivered view that
    carries a kubeconfig stands for a stored, pending Peer instruction addressed
    to the caller, and the kubeconfig is the content of the Secret that
    instruction refers to. *)
Theorem handleInstructionsList_confidential s requestID caller (w : W) views v :
  store_wf (view w) →
  (run (handleInstructionsList s requestID caller) w).1 = JSON StatusOK views →
  v ∈ views → iv_Kubeconfig v ≠ "" →
  ∃ ri, objs (view w) !! cr_key ri = Some (ORI ri) ∧
    ri_TargetClusterID (cr_spec ri) = caller ∧ is_Enforced (cr_status ri) = false ∧
    ri_Kind (cr_spec ri) = ReservationInstructionPeer ∧
    staged (view w) (sv_namespace s) (ri_KubeconfigRef (cr_spec ri)) = Some (iv_Kubeconfig v).
Proof.
  intros Hwf Hout Hv Hne.
  assert (∃ views, (run (handleInstructionsList s requestID caller) w).1 = JSON StatusOK views ∧
    ∀ v, v ∈ views ↔ due (view w) (sv_namespace s) caller v) as (views' & Hout' & Hdue).
  { apply (wp_adequate reliable _ (λ x m', ∃ views, x = JSON StatusOK views ∧
      ∀ v, v ∈ views ↔ due (view w) (sv_namespace s) caller v)).
    unfold handleInstructionsList. apply wp_bind, wp_collectInstructions; [done|].
    intros views' m' Hs Hv'. apply wp_ret. by exists views'. }
  rewrite Hout in Hout'. simplify_eq. apply Hdue in Hv as [(pi & _ & _ & _ & ->)|(ri & Hk & _ & [Ht He] & Hd)].
  - done.
  - destruct (delivered_kubeconfig _ _ _ _ Hd Hne) as [Hkind Hst]. by exists ri.
Qed.

Variables (s : Server) (requestID caller id : string) (req : InstructionResultRequest).
Hypothesis id_given : id ≠ "".
Hypothesis valid_result : validateInstructionResult req = None.
Local Abbreviation post := (handleInstructionResult s requestID caller id (Ok req)).
Local Abbreviation pi_key := (KProviderInstruction, sv_namespace s, id).
Local Abbreviation ri_key := (KReservationInstruction, sv_namespace s, id).

Lemma wp_post_provider pi (Q : Response bool → store → Prop) m :
  store_wf m → objs m !! pi_key = Some (OPI pi) →
  wp reliable (applyProviderResult (sv_namespace s) requestID caller pi req) Q m →
  wp reliable post Q m.
Proof.
  intros Hwf Hl Hq. unfold handleInstructionResult. rewrite decide_False by done. rewrite valid_result.
  by apply wp_bind, (wp_get_found _ _ pi).
Qed.

Lemma wp_post_consumer ri (Q : Response bool → store → Prop) m :
  store_wf m → objs m !! pi_key = None → objs m !! ri_key = Some (ORI ri) →
  wp reliable (applyReservationResult (sv_namespace s) requestID caller ri req) Q m →
  wp reliable post Q m.
Proof.
  intros Hwf Hn Hl Hq. unfold handleInstructionResult. rewrite decide_False by done. rewrite valid_result.
  apply wp_bind, wp_get; [done|simpl; intros; congruence|]. intros e _ He.
  unfold IsNotFound. rewrite bool_decide_eq_true_2 by done. by apply wp_bind, (wp_get_found _ _ ri).
Qed.

(** A result is taken only from the cluster the instruction addresses: any
    other caller is answered 403, an unknown instruction 404, and a report for an
    instruction that is already enforced is accepted; in all these cases nothing
    is written. *)
Theorem handleInstructionResult_guarded (w : W) :
  store_wf (view w) →
  (∀ pi, objs (view w) !! pi_key = Some (OPI pi) →
     pi_TargetClusterID (cr_spec pi) ≠ caller ∨ is_Enforced (cr_status pi) = true) →
  (objs (view w) !! pi_key = None → ∀ ri, objs (view w) !! ri_key = Some (ORI ri) →
     ri_TargetClusterID (cr_spec ri) ≠ caller ∨ is_Enforced (cr_status ri) = true) →
  let out := run post w in
  view out.2 = view w ∧
  match objs (view w) !! pi_key, objs (view w) !! ri_key with
  | Some (OPI pi), _ =>
      if decide (pi_TargetClusterID (cr_spec pi) = caller) then out.1 = JSON StatusOK true
      else ∃ e, out.1 = Error StatusForbidden e
  | None, Some (ORI ri) =>
      if decide (ri_TargetClusterID (cr_spec ri) = caller) then out.1 = JSON StatusOK true
      else ∃ e, out.1 = Error StatusForbidden e
  | _, _ => ∃ e, out.1 = Error StatusNotFound e
  end.
Proof.
  intros Hwf Hpi Hri. apply (wp_adequate reliable _ (λ x m', m' = view w ∧
    match objs (view w) !! pi_key, objs (view w) !! ri_key with
    | Some (OPI pi), _ => if decide (pi_TargetClusterID (cr_spec pi) = caller) then x = JSON StatusOK true
                          else ∃ e, x = Error StatusForbidden e
    | None, Some (ORI ri) => if decide (ri_TargetClusterID (cr_spec ri) = caller) then x = JSON StatusOK true
                             else ∃ e, x = Error StatusForbidden e
    | _, _ => ∃ e, x = Error StatusNotFound e
    end)).
  destruct (objs (view w) !! pi_key) as [o|] eqn:Ep.
  - destruct (wf_key _ Hwf _ _ Ep) as [Hk _]. destruct o as [ | |pi| | | | | | | | | | | ]; try discriminate Hk.
    apply (wp_post_provider pi); [done..|]. unfold applyProviderResult. specialize (Hpi pi eq_refl).
    destruct (decide _) as [Ht|Ht]; [|apply wp_ret; split; [done|by eexists]].
    destruct Hpi as [?|He]; [done|]. rewrite He. by apply wp_ret.
  - destruct (objs (view w) !! ri_key) as [o|] eqn:Er.
    + destruct (wf_key _ Hwf _ _ Er) as [Hk _]. destruct o as [ | | |ri| | | | | | | | | | ]; try discriminate Hk.
      apply (wp_post_consumer ri); [done..|]. unfold applyReservationResult. specialize (Hri eq_refl ri eq_refl).
      destruct (decide _) as [Ht|Ht]; [|apply wp_ret; split; [done|by eexists]].
      destruct Hri as [?|He]; [done|]. rewrite He. by apply wp_ret.
    + unfold handleInstructionResult. rewrite decide_False by done. rewrite valid_result.
      apply wp_bind, wp_get; [done|simpl; intros; congruence|]. intros e _ He.
      unfold IsNotFound. rewrite bool_decide_eq_true_2 by done.
      apply wp_bind, wp_get; [done|simpl; intros; congruence|]. intros e2 _ He2.
      rewrite bool_decide_eq_true_2 by done. apply wp_ret. split; [done|by eexists].
Qed.

(** An accepted first result of a consumer instruction takes effect exactly
    once: the instruction is enforced, and its Reservation becomes Peered with
    the reported nodes merged (Peer), Released if it was Unpeering (Unpeer) or
    Failed (any failure); its spec and released marker stay. *)
Theorem handleInstructionResult_consumer ri r (w : W) :
  store_wf (view w) → objs (view w) !! pi_key = None → objs (view w) !! ri_key = Some (ORI ri) →
  ri_TargetClusterID (cr_spec ri) = caller → is_Enforced (cr_status ri) = false →
  objs (view w) !! (KReservation, sv_namespace s, ri_ReservationID (cr_spec ri)) = Some (OResv r) →
  let out := run post w in
  out.1 = JSON StatusOK true ∧
  ∃ r' ri', advanced (ri_Kind (cr_spec ri)) req r r' ∧ is_Enforced (cr_status ri') = true ∧
    objs (view out.2) = <[ri_key := ORI ri']>
      (<[(KReservation, sv_namespace s, ri_ReservationID (cr_spec ri)) := OResv r']> (objs (view w))).
Proof.
  intros Hwf Hn Hl Ht He Hr. destruct (wf_key _ Hwf _ _ Hr) as [Hkr _].
  change (cr_key r = (KReservation, sv_namespace s, ri_ReservationID (cr_spec ri))) in Hkr.
  destruct (wf_key _ Hwf _ _ Hl) as [Hki _]. change (cr_key ri = ri_key) in Hki.
  apply (wp_adequate reliable _ (λ x m', x = JSON StatusOK true ∧
    ∃ r' ri', advanced (ri_Kind (cr_spec ri)) req r r' ∧ is_Enforced (cr_status ri') = true ∧
    objs m' = <[ri_key := ORI ri']>
      (<[(KReservation, sv_namespace s, ri_ReservationID (cr_spec ri)) := OResv r']> (objs (view w))))).
  apply (wp_post_consumer ri); [done..|]. unfold applyReservationResult. rewrite decide_True by done.
  rewrite He. apply wp_bind, (wp_apply_effect _ _ _ r); [done|by unfold current; rewrite Hkr|done..|].
  intros m1 r' Hwf1 Hobjs Hadv. unfold markInstructionEnforced.
  apply wp_bind, wp_bind, wp_now. intros t. apply wp_bind, (wp_status_current ri); [done| |done|].
  { rewrite Hki, Hobjs, lookup_insert_ne by (by rewrite Hkr). done. }
  intros rv Hrv ri' Hwf2. apply wp_ret, wp_ret. split; [done|]. exists r', ri'. split_and!; [done..|].
  unfold put. simpl. by rewrite Hki, Hobjs, Hkr.
Qed.

(** A provider's successful GenerateKubeconfig result stages the credential
    before it is acknowledged: the pair's Secret holds exactly the reported
    kubeconfig, the instruction is enforced, and a Reservation that waited for it
    moves on to KubeconfigReady. *)
Theorem handleInstructionResult_kubeconfig pi payload (w : W) :
  store_wf (view w) → objs (view w) !! pi_key = Some (OPI pi) →
  pi_Kind (cr_spec pi) = ProviderInstructionGenerateKubeconfig →
  pi_TargetClusterID (cr_spec pi) = caller → is_Enforced (cr_status pi) = false →
  ir_Status req = ResultStatusSucceeded → ir_Payload req = Some payload → pl_Kubeconfig payload ≠ "" →
  (∀ s0, objs (view w) !! (KSecret, sv_namespace s,
       kubeconfigSecretName (pi_ConsumerClusterID (cr_spec pi)) caller) = Some (OSecret s0) →
     m_DeletionTimestamp (cr_meta s0) = None) →
  let out := run post w in
  out.1 = JSON StatusOK true ∧
  kubeconfig_stored (view w) (view out.2) (sv_namespace s) pi (pl_Kubeconfig payload) ∧
  ∃ pi', objs (view out.2) !! pi_key = Some (OPI pi') ∧ is_Enforced (cr_status pi') = true.
Proof.
  intros Hwf Hl Hkind Ht He Hst Hpl Hkc Hlive. destruct (wf_key _ Hwf _ _ Hl) as [Hki _].
  change (cr_key pi = pi_key) in Hki.
  apply (wp_adequate reliable _ (λ x m', x = JSON StatusOK true ∧
    kubeconfig_stored (view w) m' (sv_namespace s) pi (pl_Kubeconfig payload) ∧
    ∃ pi', objs m' !! pi_key = Some (OPI pi') ∧ is_Enforced (cr_status pi') = true)).
  apply (wp_post_provider pi); [done..|]. unfold applyProviderResult. rewrite decide_True by done.
  rewrite He, Hst, Hkind, Hpl. rewrite (bool_decide_eq_true_2 (ResultStatusSucceeded = ResultStatusSucceeded)) by done.
  rewrite (bool_decide_eq_true_2 (ProviderInstructionGenerateKubeconfig = ProviderInstructionGenerateKubeconfig)) by done. cbn [andb].
  apply wp_bind, wp_persistKubeconfigPayload; [done..|by rewrite Ht|]. intros m1 [Hwf1 Hs1] Hkst.
  unfold markInstructionEnforced. apply wp_bind, wp_bind, wp_now. intros t.
  apply wp_bind, (wp_status_current pi); [done| |done|].
  { rewrite Hki, Hs1 by done. done. }
  intros rv Hrv pi' Hwf2. apply wp_ret. rewrite bool_decide_eq_false_2 by done. cbn [andb].
  apply wp_bind, wp_ret, wp_ret. split; [done|]. split.
  - destruct Hkst as [Hsg Hres]. unfold kubeconfig_stored, staged, put in *. rewrite Hki. simpl.
    split; [by rewrite lookup_insert_ne by done|]. intros r Hr. destruct (Hres r Hr) as (r' & Hr' & Hp).
    exists r'. by rewrite lookup_insert_ne by done.
  - exists pi'. rewrite Hki. split; [apply lookup_insert_eq|done].
Qed.
End OnServer.
End InstructionProofs.

(** ** Concrete requests *)
Module InstructionWitness.
Import SafetyWitness ReservationWitness ReconcileWitness CredentialWitness.
#[local] Existing Instance MilliPlatform.platform.

(** A Peer instruction for the consumer "cons" with a staged kubeconfig, and a
    GenerateKubeconfig instruction for the provider "prov". *)
Definition peering1 : Reservation := at_phase ReservationPhasePeering None [].
Definition generating1 : Reservation := at_phase ReservationPhaseGeneratingKubeconfig None [].
Definition peer1 : ReservationInstruction :=
  mkCR (meta_set_version 4 "uid-4" (meta_named "peer-res-1" "broker"))
    (cr_spec (peerInstruction peering1)) instr_status_zero.
Definition gk1 : ProviderInstruction :=
  mkCR (meta_set_version 3 "uid-3" (meta_named "gk-cons-prov" "broker"))
    (cr_spec (generateKubeconfig generating1)) instr_status_zero.

Definition store4 : store := store_of [OSecret secret1; OResv peering1; ORI peer1] 9.
Definition store5 : store := store_of [OResv generating1; OPI gk1] 9.

Lemma store4_wf : store_wf (view (mem_init store4)).
Proof.
  apply store_of_wf; [repeat constructor; vm_compute; discriminate|].
  cbn. apply NoDup_ListNoDup. repeat constructor; cbn; intuition discriminate.
Qed.

Lemma store5_wf : store_wf (view (mem_init store5)).
Proof.
  apply store_of_wf; [repeat constructor; vm_compute; discriminate|].
  cbn. apply NoDup_ListNoDup. repeat constructor; cbn; intuition discriminate.
Qed.

Lemma handleInstructionsList_exact_witness :
  ∃ views, (run (handleInstructionsList srv1 "rid" "cons") (mem_init store4)).1 = JSON StatusOK views ∧
    ∀ v, v ∈ views ↔ due store4 "broker" "cons" v.
Proof.
  destruct (handleInstructionsList_exact srv1 "rid" "cons" (mem_init store4) store4_wf)
    as (views & Hout & _ & Hv).
  exists views. split; [exact Hout|exact Hv].
Defined.

Lemma handleInstructionsList_confidential_witness :
  ∃ ri, objs store4 !! cr_key ri = Some (ORI ri) ∧ ri_TargetClusterID (cr_spec ri) = "cons".
Proof.
  assert (∃ v, (run (handleInstructionsList srv1 "rid" "cons") (mem_init store4)).1 = JSON StatusOK [v] ∧
    iv_Kubeconfig v = "apiVersion: v1") as (v & Hout & Hkc) by (eexists; split; reflexivity).
  destruct (handleInstructionsList_confidential srv1 "rid" "cons" (mem_init store4) [v] v store4_wf Hout)
    as (ri & Hl & Ht & _); [constructor|rewrite Hkc; discriminate|].
  exists ri. split; [exact Hl|exact Ht].
Defined.

Definition peered1 : InstructionResultRequest :=
  mkResultReq ResultStatusSucceeded
    (Some (mkPayload PayloadKindPeer "" None ["vn-1"] [] 0 false None [])) None.

Lemma handleInstructionResult_guarded_witness :
  ∃ e, (run (handleInstructionResult srv1 "rid" "mallory" "peer-res-1" (Ok peered1)) (mem_init store4)).1 =
    Error StatusForbidden e.
Proof.
  destruct (handleInstructionResult_guarded srv1 "rid" "mallory" "peer-res-1" peered1) with (w := mem_init store4)
    as [_ Hout]; [discriminate|reflexivity|apply store4_wf|by intros pi|..].
  - intros _ ri Hri. left. change (objs store4 !! (KReservationInstruction, "broker", "peer-res-1") = Some (ORI ri)) in Hri.
    assert (Some (ORI peer1) = Some (ORI ri)) as E by exact Hri. injection E as <-. discriminate.
  - exact Hout.
Defined.

Lemma handleInstructionResult_consumer_witness :
  ∃ r', objs (mem_store (run (handleInstructionResult srv1 "rid" "cons" "peer-res-1" (Ok peered1))
      (mem_init store4)).2) !! key1 = Some (OResv r') ∧
    rt_Phase (cr_status r') = ReservationPhasePeered ∧ rt_VirtualNodeNames (cr_status r') = ["vn-1"].
Proof.
  destruct (handleInstructionResult_consumer srv1 "rid" "cons" "peer-res-1" peered1) with
    (ri := peer1) (r := peering1) (w := mem_init store4)
    as (_ & r' & ri' & (_ & Hp & Hv & _) & _ & Hobjs); [discriminate|reflexivity|apply store4_wf|reflexivity..|].
  exists r'. split_and!; [|exact Hp|exact Hv].
  change (objs (view (run (handleInstructionResult srv1 "rid" "cons" "peer-res-1" (Ok peered1))
    (mem_init store4)).2) !! key1 = Some (OResv r')).
  rewrite Hobjs. reflexivity.
Defined.

Definition generated1 : InstructionResultRequest :=
  mkResultReq ResultStatusSucceeded
    (Some (mkPayload PayloadKindKubeconfig "kind: Config" None [] [] 0 false None [])) None.

Lemma handleInstructionResult_kubeconfig_witness :
  staged (mem_store (run (handleInstructionResult srv1 "rid" "prov" "gk-cons-prov" (Ok generated1))
      (mem_init store5)).2) "broker" "kubeconfig-cons-prov" = Some "kind: Config".
Proof.
  destruct (handleInstructionResult_kubeconfig srv1 "rid" "prov" "gk-cons-prov" generated1) with
    (pi := gk1) (payload := mkPayload PayloadKindKubeconfig "kind: Config" None [] [] 0 false None [])
    (w := mem_init store5) as (_ & [Hs _] & _);
    [discriminate|reflexivity|apply store5_wf|reflexivity|reflexivity|reflexivity|reflexivity|reflexivity|
     reflexivity|discriminate| |exact Hs].
  intros s0 Hs0. discriminate Hs0.
Defined.
End InstructionWitness.
