(* ===== verification/HousekeepingProofs.v ===== *)
(** * Advertisements and instruction upkeep: what they do

    Ingesting an advertisement keeps what is reserved and recomputes what is
    free; the freshness reconciler withdraws a silent provider; the instruction
    reconcilers remove an instruction only when it was enforced, or expired with
    its Reservation ended. *)
From stdpp Require Import base gmap strings list.
From Stdlib Require Import ZArith Lia.
From S2P Require Import Prelude ApiTypes Chunk Wire Kube MemServer Registry Placement.
From S2P Require Import ReservationApi InstructionsApi AdvertisementApi ReservationController Housekeeping.
From S2P Require Import BrokerInvariant BrokerSafety Ledger ReservationProofs ReconcileProofs.
From S2P Require Import CredentialProofs InstructionProofs.

Open Scope Z_scope.

Section HousekeepingProofs.
Context `{Platform}.

(** ** POST /api/v1/advertisements *)

(** The advertisement [c'] stored after ingesting [req], sized as [res], over
    the one stored before. *)
Record ingested (req : AdvertisementRequest) (res : Result) (old : option ClusterAdvertisement)
    (c' : ClusterAdvertisement) : Prop := {
  ig_spec : cr_spec c' = spec_of_request req res ∨
    ∃ c, old = Some c ∧ cr_spec c' = cr_spec c ∧
      DeepEqual c (cr_set_spec (spec_of_request req res) c) = true;
  ig_total : ca_TotalChunks (cr_status c') = cr_Count res;
  ig_reserved : ca_ReservedChunks (cr_status c') =
    match old with Some c => ca_ReservedChunks (cr_status c) | None => 0 end;
  ig_available : ca_AvailableChunks (cr_status c') =
    Z.max 0 (cr_Count res - ca_ReservedChunks (cr_status c'));
  ig_seen : is_Some (ca_LastSeen (cr_status c')) ∧ ca_Available (cr_status c') = true
}.

Definition stored_cadv (m : store) (ns id : string) : option ClusterAdvertisement :=
  match objs m !! cadv_key ns id with Some (OCadv c) => Some c | _ => None end.

Lemma touched_available c n t :
  counter (ca_ReservedChunks (cr_status c)) → counter n →
  ca_AvailableChunks (cr_status (touched c n t)) = Z.max 0 (n - ca_ReservedChunks (cr_status c)).
Proof.
  unfold counter, GoInt.int32_max. intros Hr Hn. unfold touched. simpl.
  rewrite GoInt.sub32_id by (unfold GoInt.is_int32, GoInt.int32_min, GoInt.int32_max; lia).
  case_match; fed_bools; lia.
Qed.

(** The status write over the stored object [c0], from a copy with its
    metadata and status. *)
Lemma wp_touch c0 c res (Q : option Err → store → Prop) m :
  store_wf m → objs m !! cr_key c0 = Some (OCadv c0) → cr_meta c = cr_meta c0 →
  (∀ t rv, let c' := cr_on_status rv c0 (touched c (cr_Count res) t) in
     store_wf (put (cr_key c0) (OCadv c') m) → Q None (put (cr_key c0) (OCadv c') m)) →
  wp reliable (touchClusterAdvertisementStatus c res) Q m.
Proof.
  intros Hwf Hl Hm HQ. unfold touchClusterAdvertisementStatus. apply wp_bind, wp_now. intros t.
  apply wp_bind, (wp_status_current c0); [done..|]. intros rv Hrv c' Hwf'. by apply wp_ret, (HQ t rv).
Qed.

Lemma wp_upsert_touch {B} ns req res (f : Res ClusterAdvertisement → prog B) (Q : B → store → Prop) m :
  store_wf m → valid m → counter (cr_Count res) →
  (∀ c, stored_cadv m ns (ar_ClusterID req) = Some c → m_DeletionTimestamp (cr_meta c) = None) →
  (∀ c m1 c0, store_wf m1 → objs m1 !! cadv_key ns (ar_ClusterID req) = Some (OCadv c0) →
     cr_meta c = cr_meta c0 → cr_key c0 = cadv_key ns (ar_ClusterID req) →
     (∀ k, k ≠ cadv_key ns (ar_ClusterID req) → objs m1 !! k = objs m !! k) →
     (∀ t rv, ingested req res (stored_cadv m ns (ar_ClusterID req))
        (cr_on_status rv c0 (touched c (cr_Count res) t))) →
     wp reliable (f (Ok c)) Q m1) →
  wp reliable (upsertClusterAdvertisement ns req res ≫= f) Q m.
Proof.
  intros Hwf Hv Hcnt Hlive Hf. apply wp_bind. unfold upsertClusterAdvertisement, CreateOrUpdate. cbv zeta.
  apply wp_bind, wp_bind, wp_get; [done| |].
  - intros ex Hex Hns Hn. change (objs m !! cadv_key ns (ar_ClusterID req) = Some (OCadv ex)) in Hex.
    change (cr_Namespace ex = ns) in Hns. change (cr_Name ex = ar_ClusterID req) in Hn.
    assert (stored_cadv m ns (ar_ClusterID req) = Some ex) as Hold by (unfold stored_cadv; by rewrite Hex).
    assert (cr_key ex = cadv_key ns (ar_ClusterID req)) as Hkey by by apply cadv_key_of.
    assert (cadv_ok (cr_status ex)) as (Ht & Hr & _)
      by (apply (Hv (OCadv ex)); by apply (wf_key _ Hwf _ _ Hex)).
    destruct (DeepEqual ex (cr_set_spec (spec_of_request req res) ex)) eqn:Hde.
    + apply wp_ret, wp_ret. apply (Hf (cr_set_spec (spec_of_request req res) ex) m ex); [done..|].
      intros t rv. rewrite Hold. split; simpl; [right; by exists ex|done|done| |done].
      exact (touched_available ex (cr_Count res) t Hr Hcnt).
    + apply (wp_update_current ex); [done|by rewrite Hkey|done..|]. rewrite Hkey.
      intros rv gen Hrv a' Hwf'. specialize (Hlive _ Hold).
      assert (put_or_drop (cadv_key ns (ar_ClusterID req)) (to_obj a') m =
              put (cadv_key ns (ar_ClusterID req)) (to_obj a') m) as Hput
        by (unfold put_or_drop; simpl; by rewrite Hlive).
      rewrite Hput in *. apply wp_ret. apply (Hf a' _ a'); [done|apply lookup_insert_eq|done|exact Hkey|..].
      * intros k Hk. by apply lookup_insert_ne.
      * intros t rv2. rewrite Hold. split; simpl; [by left|done|done| |done].
        exact (touched_available ex (cr_Count res) t Hr Hcnt).
  - intros e Hn He. change (objs m !! cadv_key ns (ar_ClusterID req) = None) in Hn. unfold IsNotFound. rewrite bool_decide_eq_true_2 by done.
    assert (stored_cadv m ns (ar_ClusterID req) = None) as Hold by (unfold stored_cadv; by rewrite Hn).
    apply wp_create; [done| |].
    + change (cr_key _) with (cadv_key ns (ar_ClusterID req)).
      intros rv uid t _ Hrv a' Hwf'. apply wp_ret. apply (Hf a' _ a'); [done|apply lookup_insert_eq|done|done|..].
      * intros k Hk. by apply lookup_insert_ne.
      * intros t2 rv2. rewrite Hold. split; simpl; [by left|done|done| |done].
        refine (touched_available a' (cr_Count res) t2 _ Hcnt). simpl. unfold counter, GoInt.int32_max. lia.
    + intros e2 o Ho _. exfalso. change (objs m !! cadv_key ns (ar_ClusterID req) = Some o) in Ho. congruence.
Qed.

(** ** On any server that answers its requests *)
Section OnServer.
Context {W : Type} `{!ApiServer W} `{!ServerMeets W reliable}.

(** C37: A provider's valid advertisement of its own cluster is accepted with
    200 and stored: the new total is the chunk count of the advertised
    resources, what is reserved is untouched by re-advertising, what is free is
    the rest (never negative), and the provider is available; no other
    advertisement, no Reservation and no Secret changes. *)
Theorem handleAdvertisementUpsert_correct s requestID req res rest (w : W) :
  store_wf (view w) → valid (view w) → validateAdvertisementRequest req = None →
  sv_sizer s (ar_Resources req) = res :: rest → counter (cr_Count res) →
  (∀ c, stored_cadv (view w) (sv_namespace s) (ar_ClusterID req) = Some c →
     m_DeletionTimestamp (cr_meta c) = None) →
  let out := run (handleAdvertisementUpsert s requestID (ar_ClusterID req) (Ok req)) w in
  (∃ body, out.1 = JSON StatusOK body ∧ ap_ChunkCount body = cr_Count res) ∧
  (∃ c', objs (view out.2) !! (KClusterAdvertisement, sv_namespace s, ar_ClusterID req) = Some (OCadv c') ∧
     ingested req res (stored_cadv (view w) (sv_namespace s) (ar_ClusterID req)) c') ∧
  (∀ k, unwritten k → k ≠ (KClusterAdvertisement, sv_namespace s, ar_ClusterID req) →
     objs (view out.2) !! k = objs (view w) !! k).
Proof.
  intros Hwf Hv Hval Hsz Hcnt Hlive. set (k0 := (KClusterAdvertisement, sv_namespace s, ar_ClusterID req)).
  apply (wp_adequate reliable _ (λ x m',
    (∃ body, x = JSON StatusOK body ∧ ap_ChunkCount body = cr_Count res) ∧
    (∃ c', objs m' !! k0 = Some (OCadv c') ∧
       ingested req res (stored_cadv (view w) (sv_namespace s) (ar_ClusterID req)) c') ∧
    (∀ k, unwritten k → k ≠ k0 → objs m' !! k = objs (view w) !! k))).
  unfold handleAdvertisementUpsert. rewrite Hval, decide_True, Hsz by done.
  apply wp_upsert_touch; [done..|].
  intros c m1 c0 Hwf1 Hl Hm Hk Hfr Hig. apply wp_bind, (wp_touch c0); [done|by rewrite Hk|done|].
  rewrite Hk. intros t rv c' Hwf2. apply wp_bind, wp_collectInstructions; [done|].
  intros views m3 [Hwf3 Hs3] _. apply wp_ret. split_and!; [by eexists| |].
  - exists c'. split; [|apply Hig]. rewrite Hs3 by done. apply lookup_insert_eq.
  - intros k Hu Hne. rewrite Hs3 by done. unfold put. simpl. rewrite lookup_insert_ne by done. by apply Hfr.
Qed.
End OnServer.

(** ** A consumer's own share of each provider *)
Definition own_share (consumer p : string) (r : Reservation) : Z :=
  if decide (rs_ConsumerClusterID (cr_spec r) = consumer ∧ rs_ProviderClusterID (cr_spec r) = p ∧
             ReservationHoldsChunk (rt_Phase (cr_status r)) = true)
  then Z.max 1 (rs_ChunkCount (cr_spec r)) else 0.

Definition total_share (consumer p : string) (l : list Reservation) : Z :=
  foldr (λ r acc, own_share consumer p r + acc) 0 l.

Definition moving (consumer p : string) (r : Reservation) : Prop :=
  rs_ConsumerClusterID (cr_spec r) = consumer ∧ rs_ProviderClusterID (cr_spec r) = p ∧
  ReservationInFlight (rt_Phase (cr_status r)) = true.

Lemma total_share_perm consumer p l l' : l ≡ₚ l' → total_share consumer p l = total_share consumer p l'.
Proof. induction 1; simpl; lia. Qed.

Lemma own_step_share consumer p own fl r :
  default 0 ((own_step consumer (own, fl) r).1 !! p) =
    if decide (own_share consumer p r = 0) then default 0 (own !! p)
    else GoInt.add32 (default 0 (own !! p)) (own_share consumer p r).
Proof.
  unfold own_step, own_share. destruct (decide (rs_ConsumerClusterID _ = consumer)) as [Hc|Hc].
  2:{ rewrite (decide_False (P:=_ ∧ _)) by tauto. done. }
  destruct (ReservationHoldsChunk _); simpl.
  2:{ rewrite (decide_False (P:=_ ∧ _)) by intuition discriminate. done. }
  destruct (decide (rs_ProviderClusterID (cr_spec r) = p)) as [<-|Hp].
  - rewrite lookup_insert_eq, (decide_True (P:=_ ∧ _)) by done. rewrite decide_False by lia.
    simpl. f_equal. case_match; fed_bools; lia.
  - rewrite lookup_insert_ne, (decide_False (P:=_ ∧ _)) by tauto. by rewrite decide_True.
Qed.

Lemma own_fold_share consumer p l acc :
  GoInt.is_int32 (default 0 (acc.1 !! p)) →
  default 0 ((foldl (own_step consumer) acc l).1 !! p) =
    GoInt.to_int32 (default 0 (acc.1 !! p) + total_share consumer p l).
Proof.
  revert acc. induction l as [|r l IH]; intros [own fl] Hr; cbn [foldl].
  - simpl in *. by rewrite Z.add_0_r, GoInt.to_int32_id.
  - change (total_share consumer p (r :: l)) with (own_share consumer p r + total_share consumer p l).
    cbn [fst] in Hr |- *. assert (GoInt.is_int32 (default 0 ((own_step consumer (own, fl) r).1 !! p))) as Hr'.
    { rewrite own_step_share. case_decide; [done|]. apply GoInt.to_int32_range. }
    rewrite (IH _ Hr'), own_step_share. case_decide as Hz.
    + f_equal. rewrite Hz. lia.
    + unfold GoInt.add32. rewrite GoInt.to_int32_add. f_equal. lia.
Qed.

Lemma own_fold_moving consumer p l acc :
  (foldl (own_step consumer) acc l).2 !! p = Some true ↔
  acc.2 !! p = Some true ∨ ∃ r, r ∈ l ∧ moving consumer p r.
Proof.
  revert acc. induction l as [|r l IH]; intros [own fl]; cbn [foldl snd].
  - split; [tauto|]. intros [?|(r & []%elem_of_nil & _)]; done.
  - rewrite IH. assert ((own_step consumer (own, fl) r).2 !! p = Some true ↔
      fl !! p = Some true ∨ moving consumer p r) as ->.
    { unfold own_step, moving. destruct (decide (rs_ConsumerClusterID _ = consumer)); simpl; [|tauto].
      destruct (ReservationInFlight _); [|intuition discriminate].
      destruct (decide (rs_ProviderClusterID (cr_spec r) = p)) as [<-|Hp];
        [rewrite lookup_insert_eq|rewrite lookup_insert_ne by done]; tauto. }
    setoid_rewrite elem_of_cons. split.
    + intros [[?|?]|(r' & ? & ?)]; [by left|right; exists r; auto|right; exists r'; auto].
    + intros [?|(r' & [->|?] & ?)]; [auto|auto|right; by exists r'].
Qed.

(** ** Freshness *)

(** What a round of the advertisement reconciler leaves, [stale] being its
    verdict. *)
Record refreshed (c c' : ClusterAdvertisement) (stale : bool) : Prop := {
  rf_spec : cr_spec c' = cr_spec c;
  rf_available : ca_Available (cr_status c') = negb stale;
  rf_counters : ca_TotalChunks (cr_status c') = ca_TotalChunks (cr_status c) ∧
    ca_ReservedChunks (cr_status c') = ca_ReservedChunks (cr_status c);
  rf_free : ca_AvailableChunks (cr_status c') =
    if stale then 0 else ca_AvailableChunks (cr_status c)
}.

Lemma wp_reconcileAdvertisement cfg ns name c (Q : CtrlResult * option Err → store → Prop) m :
  store_wf m → objs m !! cadv_key ns name = Some (OCadv c) →
  (∀ m' c' t, store_wf m' → objs m' = <[cadv_key ns name := OCadv c']> (objs m) →
     refreshed c c' (isAdvertisementStale (ca_LastSeen (cr_status c)) (staleAfter cfg) t) →
     Q (after (Z.quot (staleAfter cfg) 3), None) m') →
  wp reliable (reconcileAdvertisement cfg ns name) Q m.
Proof.
  intros Hwf Hl HQ. destruct (wf_key _ Hwf _ _ Hl) as [Hk _]. change (cr_key c = cadv_key ns name) in Hk.
  unfold reconcileAdvertisement. apply wp_bind, (wp_get_found _ _ c); [done..|]. cbv zeta.
  set (st := cr_status c). set (ttl := staleAfter cfg).
  assert (∀ t, let stale := isAdvertisementStale (ca_LastSeen st) ttl t in
    wp reliable
      (e ← (if negb (Bool.eqb (ca_Available (cr_status (freshened c stale))) (ca_Available st)) ||
               negb (ca_ObservedGeneration (cr_status (freshened c stale)) =? ca_ObservedGeneration st) ||
               (stale && negb (ca_AvailableChunks st =? 0)) then
              y ← status_update (freshened c stale);
              mret match y with Ok _ => None | Fail e => Some e end
            else mret None);
       mret match e with
            | Some e => (no_requeue, Some e)
            | None => (after (Z.quot ttl 3), None)
            end) Q m) as Hgo.
  { intros t stale. apply wp_bind. destruct (negb (Bool.eqb _ _) || _ || _) eqn:Hneed.
    - apply wp_bind, (wp_status_current c); [done|by rewrite Hk|done|]. rewrite Hk. intros rv Hrv c' Hwf'.
      apply wp_ret, wp_ret, (HQ _ c' t); [done..|]. by split.
    - apply wp_ret, wp_ret, (HQ m c t); [done|symmetry; by apply insert_id|].
      apply orb_false_iff in Hneed as [Hneed Hz]. apply orb_false_iff in Hneed as [Ha _].
      apply negb_false_iff, eqb_prop in Ha. split; [done|symmetry; exact Ha|done|].
      fold st ttl. fold stale. destruct stale; [|done]. simpl in Hz.
      by apply negb_false_iff, Z.eqb_eq in Hz. }
  apply wp_bind. destruct (ca_LastSeen st) as [l|] eqn:Hls.
  - apply wp_bind, wp_now. intros t. apply wp_ret. exact (Hgo t).
  - apply wp_ret. exact (Hgo 0).
Qed.

(** ** Instruction upkeep *)
Section Upkeep.
Context {S : Type} `{!Resource S InstructionStatus} `{!InstructionSpec S}.
Hypothesis not_resv : res_kind (S:=S) (T:=InstructionStatus) ≠ KReservation.

(** Nothing pending is left of the parent Reservation. *)
Definition parent_ended (m : store) (ns id : string) : Prop :=
  id = "" ∨ ∀ r, objs m !! resv_key ns id = Some (OResv r) →
    isReservationTerminal (rt_Phase (cr_status r)) = true.

Lemma wp_failParent ns id name (Q : option Err → store → Prop) m :
  store_wf m →
  (∀ m', same_on (λ k, k ≠ resv_key ns id) m m' → parent_ended m' ns id → Q None m') →
  wp reliable (failParentReservationOnExpiry ns id name) Q m.
Proof.
  intros Hwf HQ. unfold failParentReservationOnExpiry. destruct (decide (id = "")).
  { apply wp_ret, HQ; [done|by left]. }
  apply wp_bind, wp_get; [done| |].
  - intros r Hl Hns Hn. simpl in Hl. assert (cr_key r = resv_key ns id) as Hk by by apply resv_key_of.
    destruct (isReservationTerminal _) eqn:Ht.
    { apply wp_ret, HQ; [done|]. right. intros r2 Hr2. rewrite Hl in Hr2. by simplify_eq. }
    apply wp_bind, (wp_status_current r); [done|by rewrite Hk|done|]. rewrite Hk. intros rv Hrv r' Hwf'.
    apply wp_ret, HQ.
    + split; [done|]. intros k Hne. by apply lookup_insert_ne.
    + right. intros r2. unfold put. simpl. rewrite lookup_insert_eq. intros. by simplify_eq.
  - intros e Hn He. apply wp_ret. unfold IgnoreNotFound, IsNotFound. rewrite bool_decide_eq_true_2 by done.
    apply HQ; [done|]. right. intros r Hr. simpl in Hn. congruence.
Qed.

(** Why an instruction may be removed. *)
Definition removable (cfg : Duration) (o : CR S InstructionStatus) (m' : store) : Prop :=
  (is_Enforced (cr_status o) = true ∧
   ∃ l t, is_LastUpdateTime (cr_status o) = Some l ∧ enforcedTTL cfg ≤ t - l) ∨
  (is_Enforced (cr_status o) = false ∧ is_Some (in_ExpiresAt (cr_spec o)) ∧
   parent_ended m' (cr_Namespace o) (in_ReservationID (cr_spec o))).

Lemma wp_reconcileInstruction cfg ns name o (Q : CtrlResult * option Err → store → Prop) m :
  store_wf m → objs m !! (res_kind (S:=S) (T:=InstructionStatus), ns, name) = Some (to_obj o) →
  (∀ e m', (is_Some (objs m' !! (res_kind (S:=S) (T:=InstructionStatus), ns, name)) ∨ removable cfg o m') →
     Q e m') →
  wp reliable (reconcileInstruction (S:=S) cfg ns name) Q m.
Proof.
  intros Hwf Hl HQ. set (k := (res_kind (S:=S) (T:=InstructionStatus), ns, name)) in *.
  assert (cr_key o = k) as Hk.
  { destruct (wf_key _ Hwf _ _ Hl) as [E _]. by rewrite obj_key_typed in E. }
  assert (cr_Namespace o = ns) as Hns by (inversion Hk; done).
  unfold reconcileInstruction. apply wp_bind, (wp_get_found _ _ o); [done..|]. cbv zeta.
  assert (∀ x : CtrlResult * option Err, Q x m) as Hstay by (intros x; apply HQ; left; by eexists).
  assert (∀ m1, store_wf m1 → removable cfg o m1 →
    (∀ m2, (∀ k', k' ≠ k → objs m2 !! k' = objs m1 !! k') → removable cfg o m2) →
    wp reliable (d ← delete_cr o;
      mret (no_requeue, match d with Ok _ => None | Fail e => IgnoreNotFound e end)) Q m1) as Hcollect.
  { intros m1 Hwf1 Hrm Hmono. apply wp_bind, wp_delete; [done| |].
    - intros cur rv t Hcur Hrv m' Hwf'. apply wp_ret, HQ. right. apply Hmono. intros k' Hne.
      unfold m'. rewrite Hk. destruct (m_Finalizers _); unfold drop, put; simpl;
        by rewrite ?lookup_delete_ne, ?lookup_insert_ne.
    - intros e _ _. apply wp_ret, HQ. by right. }
  assert (wp reliable (t ← now;
    let wake := instructionWakeup t (in_ExpiresAt (cr_spec o)) (is_Enforced (cr_status o))
                  (is_LastUpdateTime (cr_status o)) (enforcedTTL cfg) in
    mret (if wake =? 0 then (no_requeue, None) else (after wake, None))) Q m) as Hsched.
  { apply wp_bind, wp_now. intros t. by apply wp_ret. }
  destruct (is_IssuedAt (cr_status o)).
  - destruct (is_Enforced (cr_status o)) eqn:Henf.
    + apply wp_bind. destruct (is_LastUpdateTime (cr_status o)) as [l|] eqn:Hlu; [|by apply wp_ret].
      apply wp_bind, wp_now. intros t. apply wp_ret. unfold enforcedExpired.
      destruct (Z.leb_spec (enforcedTTL cfg) (t - l)); [|done].
      assert (∀ m1, removable cfg o m1) as Hrm by (intros m1; left; split; [done|by exists l, t]). auto.
    + destruct (in_ExpiresAt (cr_spec o)) as [x|] eqn:Hexp; [|done].
      apply wp_bind, wp_now. intros t. destruct (t <? x); [done|].
      apply wp_bind, wp_failParent; [done|]. intros m1 [Hwf1 Hs1] Hend.
      assert (∀ m2, (∀ k', k' ≠ k → objs m2 !! k' = objs m1 !! k') → removable cfg o m2) as Hmono.
      { intros m2 Hsame. right. split_and!; [done|by eexists|]. destruct Hend as [?|Hend]; [by left|].
        right. intros r. rewrite Hsame; [apply Hend|]. intros E. inversion E. by apply not_resv. }
      apply Hcollect; [done|by apply Hmono|done].
  - apply wp_bind, wp_now. intros t. apply wp_bind, (wp_status_current o); [done|by rewrite Hk|done|].
    rewrite Hk. intros rv Hrv o' Hwf'. apply wp_ret, HQ. left. eexists. apply lookup_insert_eq.
Qed.
End Upkeep.

(** ** On any server that answers its requests *)
Section Rounds.
Context {W : Type} `{!ApiServer W} `{!ServerMeets W reliable}.

(** The consumer's share of each provider that node-group sizing starts
    from: for every provider the count is the sum of the chunks its reservations
    hold there (at least one each, wrapped to int32), and the provider is in
    flight exactly if one of them is still being set up; nothing is written. *)
Theorem ownByProvider_correct ns consumer (w : W) :
  store_wf (view w) →
  let l := typed_list (S:=ReservationSpec) (T:=ReservationStatus) ns (view w) in
  let out := run (ownByProvider ns consumer) w in
  view out.2 = view w ∧
  ∃ own fl, out.1 = Ok (own, fl) ∧ ∀ p,
    default 0 (own !! p) = GoInt.to_int32 (total_share consumer p l) ∧
    (fl !! p = Some true ↔ ∃ r, r ∈ l ∧ moving consumer p r).
Proof.
  intros Hwf l. apply (wp_adequate reliable _ (λ x m', m' = view w ∧
    ∃ own fl, x = Ok (own, fl) ∧ ∀ p,
      default 0 (own !! p) = GoInt.to_int32 (total_share consumer p l) ∧
      (fl !! p = Some true ↔ ∃ r, r ∈ l ∧ moving consumer p r))).
  unfold ownByProvider. apply wp_bind, wp_list. intros items Hi. apply wp_ret. split; [done|].
  destruct (foldl (own_step consumer) (∅, ∅) items) as [own fl] eqn:E. exists own, fl. split; [done|].
  intros p. pose proof (own_fold_share consumer p items (∅, ∅)) as Hs.
  pose proof (own_fold_moving consumer p items (∅, ∅)) as Hm. rewrite E in Hs, Hm. simpl in Hs, Hm.
  rewrite (lookup_empty (M:=gmap string)) in Hs. split.
  - rewrite Hs by (split; vm_compute; discriminate). simpl. by rewrite (total_share_perm _ _ _ _ Hi).
  - rewrite Hm. setoid_rewrite Hi. fold l. split; [|tauto]. intros [Hx|?]; [|done].
    by rewrite lookup_empty in Hx.
Qed.

(** A round of the advertisement reconciler on a stored advertisement is
    repeated after a third of the staleness limit and leaves it available exactly
    if it was seen within that limit; a silent provider's free chunks drop to
    zero, its total and reserved counts stay, and nothing else changes. *)
Theorem reconcileAdvertisement_correct cfg ns name c (w : W) :
  store_wf (view w) → objs (view w) !! (KClusterAdvertisement, ns, name) = Some (OCadv c) →
  let out := run (reconcileAdvertisement cfg ns name) w in
  out.1 = (after (Z.quot (staleAfter cfg) 3), None) ∧
  ∃ c' t, objs (view out.2) = <[(KClusterAdvertisement, ns, name) := OCadv c']> (objs (view w)) ∧
    refreshed c c' (isAdvertisementStale (ca_LastSeen (cr_status c)) (staleAfter cfg) t).
Proof.
  intros Hwf Hl. apply (wp_adequate reliable _ (λ x m', x = (after (Z.quot (staleAfter cfg) 3), None) ∧
    ∃ c' t, objs m' = <[(KClusterAdvertisement, ns, name) := OCadv c']> (objs (view w)) ∧
    refreshed c c' (isAdvertisementStale (ca_LastSeen (cr_status c)) (staleAfter cfg) t))).
  apply (wp_reconcileAdvertisement _ _ _ c); [done..|]. intros m' c' t _ Hobjs Hr. split; [done|].
  by exists c', t.
Qed.

(** No instruction is lost silently: the reconciler of either instruction
    type removes a stored instruction only if it was enforced at least the
    retention period ago, or if it expired unenforced and its Reservation has
    ended (it is made Failed unless it is terminal or gone already). *)
Theorem reconcileInstruction_never_silent {S} `{!Resource S InstructionStatus} `{!InstructionSpec S}
    cfg ns name (o : CR S InstructionStatus) (w : W) :
  res_kind (S:=S) (T:=InstructionStatus) ≠ KReservation → store_wf (view w) →
  objs (view w) !! (res_kind (S:=S) (T:=InstructionStatus), ns, name) = Some (to_obj o) →
  let m' := view (run (reconcileInstruction (S:=S) cfg ns name) w).2 in
  objs m' !! (res_kind (S:=S) (T:=InstructionStatus), ns, name) = None → removable cfg o m'.
Proof.
  intros Hkd Hwf Hl. apply (wp_adequate reliable _ (λ _ m',
    objs m' !! (res_kind (S:=S) (T:=InstructionStatus), ns, name) = None → removable cfg o m')).
  apply (wp_reconcileInstruction Hkd cfg ns name o); [done..|].
  intros e m' [[x Hx]|Hr] Hn; [congruence|done].
Qed.
End Rounds.
End HousekeepingProofs.

(** ** Concrete rounds *)
Module HousekeepingWitness.
Import SafetyWitness ReservationWitness ReconcileWitness CredentialWitness InstructionWitness.
#[local] Existing Instance MilliPlatform.platform.

(** The provider of [SafetyWitness] re-advertises 4 CPUs and 8 GiB. *)
Definition adv1 : AdvertisementRequest :=
  mkAdvReq "prov" "liqo-prov"
    (<[ResourceCPU := NewQuantity 4]> (<[ResourceMemory := NewQuantity (8 * 1024 * 1024 * 1024)]> ∅))
    None ∅ None [] ∅ ∅ false "" ∅ [].

Lemma handleAdvertisementUpsert_correct_witness :
  ∃ c', objs (mem_store (run (handleAdvertisementUpsert srv1 "rid" "prov" (Ok adv1)) w9).2)
      !! (KClusterAdvertisement, "broker", "prov") = Some (OCadv c') ∧
    ca_ReservedChunks (cr_status c') = 1.
Proof.
  assert (∃ res rest, sv_sizer srv1 (ar_Resources adv1) = res :: rest ∧ counter (cr_Count res))
    as (res & rest & Hsz & Hcnt).
  { eexists _, _. split; [reflexivity|]. split; vm_compute; discriminate. }
  destruct (handleAdvertisementUpsert_correct srv1 "rid" adv1 res rest w9 w9_wf w9_valid eq_refl Hsz Hcnt)
    as (_ & (c' & Hl & Hi) & _).
  { intros c Hc. change (Some cadv1 = Some c) in Hc. injection Hc as <-. reflexivity. }
  exists c'. split; [exact Hl|]. exact (ig_reserved _ _ _ _ Hi).
Defined.

Lemma ownByProvider_correct_witness :
  ∃ own fl, (run (ownByProvider "broker" "cons") w9).1 = Ok (own, fl) ∧ default 0 (own !! "prov") = 1.
Proof.
  destruct (ownByProvider_correct "broker" "cons" w9 w9_wf) as (_ & own & fl & Hout & Hp).
  exists own, fl. split; [exact Hout|]. exact (proj1 (Hp "prov")).
Defined.

Lemma reconcileAdvertisement_correct_witness :
  (run (reconcileAdvertisement 0 "broker" "prov") w9).1 = (after (30 * Second), None).
Proof.
  destruct (reconcileAdvertisement_correct 0 "broker" "prov" cadv1 w9 w9_wf) as [Hout _]; [reflexivity|].
  exact Hout.
Defined.

(** The pending Peer instruction expired with its Reservation still Peering. *)
Definition expired1 : ReservationInstruction :=
  mkCR (meta_set_version 4 "uid-4" (meta_named "peer-res-1" "broker"))
    (mkRISpec "res-1" ReservationInstructionPeer "cons" "prov" "liqo-prov" [] 1 false "" (Some (-1)))
    (is_set_issued (Some (-9)) 1 instr_status_zero).
Definition store6 : store := store_of [OSecret secret1; OResv peering1; ORI expired1] 9.

Lemma store6_wf : store_wf (view (mem_init store6)).
Proof.
  apply store_of_wf; [repeat constructor; vm_compute; discriminate|].
  cbn. apply NoDup_ListNoDup. repeat constructor; cbn; intuition discriminate.
Qed.

Lemma reconcileInstruction_never_silent_witness :
  let m' := view (run (reconcileInstruction (S:=ReservationInstructionSpec) 0 "broker" "peer-res-1")
    (mem_init store6)).2 in
  objs m' !! (KReservationInstruction, "broker", "peer-res-1") = None ∧ removable 0 expired1 m'.
Proof.
  split; [reflexivity|].
  apply (reconcileInstruction_never_silent 0 "broker" "peer-res-1" expired1 (mem_init store6));
    [discriminate|apply store6_wf|reflexivity|reflexivity].
Defined.
End HousekeepingWitness.
