(* ===== verification/Divergences.v ===== *)
(** * Where the code and its documentation part

    Runs and facts that show a documented promise the code does not keep: a late
    Peer result revives a released Reservation, whose chunks are then given back
    twice; two (consumer, provider) pairs can share one credential name; a
    Reservation that is up is not woken at its deadline. *)
From stdpp Require Import base gmap strings list.
From Stdlib Require Import ZArith Lia.
From S2P Require Import Prelude GoText ApiTypes Chunk Wire Kube MemServer Registry Placement.
From S2P Require Import ReservationApi InstructionsApi AdvertisementApi ReservationController Housekeeping.
From S2P Require Import BrokerInvariant BrokerSafety Ledger ReservationProofs ReconcileProofs.
From S2P Require Import CredentialProofs InstructionProofs.

Open Scope Z_scope.

Section Divergences.
Context `{Platform}.

(** ** No wake-up at the deadline *)
Lemma wp_live_requeue r resv m :
  (∀ resv' : Reservation, rt_Phase (cr_status resv') = rt_Phase (cr_status resv) →
     dispatch r resv' = mret (no_requeue, None)) →
  store_wf m → current m resv →
  wp reliable (reconcileLive r resv) (λ e _, e.1 = no_requeue) m.
Proof.
  intros Hd Hwf Hc. unfold reconcileLive.
  assert (∀ resv' m1, rt_Phase (cr_status resv') = rt_Phase (cr_status resv) →
    wp reliable
      (c ← checkExpired resv';
       if (c.1 : bool) then mret (after c.2, None)
       else
         a ← checkProviderAvailable resv';
         match a with
         | (true, e) => mret (no_requeue, e)
         | (false, Some e) => mret (no_requeue, Some e)
         | (false, None) => dispatch r resv'
         end) (λ e _, e.1 = no_requeue) m1) as Hgo.
  { intros resv' m1 Hph. apply wp_bind.
    assert (wp reliable (checkExpired resv') (λ c _, c.1 = true → c.2 = 0) m1) as Hex.
    { unfold checkExpired. destruct (rt_ExpiresAt _); [|by apply wp_ret].
      destruct (isReservationTerminal _); [by apply wp_ret|]. apply wp_bind, wp_now. intros t.
      destruct (_ <? _); [apply wp_bind, wp_now; intros t2; by apply wp_ret|].
      apply wp_bind, wp_always. intros e m2. by apply wp_ret. }
    eapply wp_mono; [|exact Hex]. intros [[] d] m2 Hz; simpl in Hz; simpl fst; cbv iota.
    - apply wp_ret. simpl. by rewrite Hz.
    - apply wp_bind, wp_always. intros [[] [e|]] m3; try by apply wp_ret.
      rewrite (Hd resv' Hph). by apply wp_ret. }
  apply wp_bind. unfold ensureExpiry. destruct (rt_ExpiresAt (cr_status resv)).
  - apply wp_ret. by apply Hgo.
  - apply wp_bind. cbv zeta. apply (wp_status_current resv); [done..|]. intros rv Hrv r' Hwf'.
    apply wp_ret. simpl. apply Hgo. simpl. by destruct (_ =? 0).
Qed.

Section OnServer.
Context {W : Type} `{!ApiServer W} `{!ServerMeets W reliable}.

(** A reconciliation round of a live Reservation in Peering or Peered never
    asks to be repeated, although the expiry check computes the time left until
    the deadline for that purpose: expiry waits for the next unrelated event. *)
Theorem Reconcile_up_never_requeues r ns name resv (w : W) :
  store_wf (view w) → objs (view w) !! (KReservation, ns, name) = Some (OResv resv) →
  m_DeletionTimestamp (cr_meta resv) = None →
  rt_Phase (cr_status resv) = ReservationPhasePeering ∨ rt_Phase (cr_status resv) = ReservationPhasePeered →
  (run (Reconcile r ns name) w).1.1 = no_requeue.
Proof.
  intros Hwf Hl Hd Hph. destruct (wf_key _ Hwf _ _ Hl) as [Hk _].
  change (cr_key resv = (KReservation, ns, name)) in Hk.
  assert (current (view w) resv) as Hc by by unfold current; rewrite Hk.
  assert (∀ resv' : Reservation, rt_Phase (cr_status resv') = rt_Phase (cr_status resv) →
    dispatch r resv' = mret (no_requeue, None)) as Hdis.
  { intros resv' Hst. unfold dispatch. rewrite Hst. by destruct Hph as [->| ->]. }
  apply (wp_adequate reliable _ (λ e _, e.1 = no_requeue)).
  unfold Reconcile. apply wp_bind, (wp_get_found _ _ resv); [done..|]. rewrite Hd.
  unfold AddFinalizer. destruct (ContainsFinalizer _ _); cbv iota beta; [by apply wp_live_requeue|].
  apply wp_bind, (wp_update_current resv); [done..|]. intros rv gen Hrv a' Hwf'.
  change (to_obj a') with (OResv a') in *.
  assert (put_or_drop (cr_key resv) (OResv a') (view w) = put (cr_key resv) (OResv a') (view w)) as Hput
    by (apply put_or_drop_kept; left; exact Hd).
  rewrite Hput in *. apply (wp_live_requeue r a'); [exact Hdis|done|apply lookup_insert_eq].
Qed.
End OnServer.
End Divergences.

(** ** Credential names *)
(** The name that identifies the credential of a (consumer, provider) pair
    does not determine the pair: whenever an identifier contains the separator,
    another pair has the same Secret and the same instructions. *)
Theorem credential_name_collision a b c :
  let key := peeringCredentialKey in
  key (a +:+ "-" +:+ b) c = key a (b +:+ "-" +:+ c) ∧
  ctl_kubeconfigSecretName (a +:+ "-" +:+ b) c = ctl_kubeconfigSecretName a (b +:+ "-" +:+ c) ∧
  kubeconfigSecretName (a +:+ "-" +:+ b) c = kubeconfigSecretName a (b +:+ "-" +:+ c) ∧
  providerInstructionGKName (a +:+ "-" +:+ b) c = providerInstructionGKName a (b +:+ "-" +:+ c).
Proof.
  cbv zeta. unfold kubeconfigSecretName, ctl_kubeconfigSecretName, providerInstructionGKName, peeringCredentialKey.
  by rewrite !append_assoc.
Qed.

(** ** Runs *)
Module DivergenceRuns.
Import SafetyWitness ReservationWitness ReconcileWitness CredentialWitness InstructionWitness.
#[local] Existing Instance MilliPlatform.platform.

Lemma Reconcile_up_never_requeues_witness :
  (run (Reconcile rec0 "broker" "res-1") w9).1.1 = no_requeue.
Proof.
  apply (Reconcile_up_never_requeues rec0 "broker" "res-1" resv1 w9 w9_wf); [reflexivity..|].
  right. reflexivity.
Defined.

(** Two reservations of "cons" at "prov": "res-1" is Peering, "res-2" Peered. *)
Definition cadv2 : ClusterAdvertisement :=
  cr_set_status (mkCadvStatus 1 None true 3 2 1 []) cadv1.
Definition store7 : store :=
  store_of [OCadv cadv2; OResv peering1; OResv (sibling1 ReservationPhasePeered); ORI peer1] 9.

Definition after_release : mem :=
  (run (handleReservationRelease srv1 "rid" "cons" "res-1" "") (mem_init store7)).2.
Definition after_late_result : mem :=
  (run (handleInstructionResult srv1 "rid" "cons" "peer-res-1" (Ok peered1)) after_release).2.
Definition after_second_release : mem :=
  (run (handleReservationRelease srv1 "rid" "cons" "res-1" "") after_late_result).2.

Definition reserved_in (w : mem) : option Z :=
  match objs (mem_store w) !! (KClusterAdvertisement, "broker", "prov") with
  | Some (OCadv c) => Some (ca_ReservedChunks (cr_status c))
  | _ => None
  end.

Definition phase_in (w : mem) (name : string) : option (ReservationPhase * bool) :=
  match objs (mem_store w) !! (KReservation, "broker", name) with
  | Some (OResv r) => Some (rt_Phase (cr_status r), IsChunksReleased r)
  | _ => None
  end.


(** Consumer "a" reserves at provider "b-c" while the kubeconfig that provider
    "c" minted for consumer "a-b" is staged. *)
Definition cadv_bc : ClusterAdvertisement :=
  mkCR (meta_set_version 2 "uid-2" (meta_named "b-c" "broker"))
    (mkCadvSpec "b-c" "liqo-b-c" ChunkTypeStandard ∅ None ∅ None [] ∅ ∅ false "")
    (mkCadvStatus 1 (Some 0) true 1 1 0 []).
Definition resv_a : Reservation :=
  mkCR (meta_set_version 3 "uid-3" (meta_named "res-a" "broker"))
    (mkResvSpec "a" "liqo-a" "b-c" "liqo-b-c" 1 ChunkTypeStandard ∅ [])
    (mkResvStatus 1 ReservationPhasePending (Some 0) (Some (24 * Hour)) [] None "" []).
Definition secret_abc : Secret :=
  mkCR (meta_set_version 1 "uid-1" (meta_named (kubeconfigSecretName "a-b" "c") "broker"))
    {[ kubeconfigSecretKey := "credential of a-b at c" ]} tt.
Definition store8 : store := store_of [OSecret secret_abc; OCadv cadv_bc; OResv resv_a] 3.

Definition two_rounds : mem :=
  (run (Reconcile rec0 "broker" "res-a") (run (Reconcile rec0 "broker" "res-a") (mem_init store8)).2).2.

End DivergenceRuns.
