(* ===== verification/BrainProofs.v ===== *)
(** * Correctness of the local decision (Brain, Catalog)

    The view the brain builds, the agreement of its bookkeeping with the
    Broker's, and the bound, proved over the placement core's own lemmas. *)
From stdpp Require Import base gmap strings list sorting.
From Stdlib Require Import ZArith Lia.
From S2P Require Import Prelude ApiTypes ConsumerTypes Kube MemServer Effects Chunk Wire.
From S2P Require Import AgentClient Catalog Registry Placement PlacementProofs ReservationApi.
From S2P Require Import AdvertisementApi Brain HousekeepingProofs.
Import GoFloat.

Open Scope Z_scope.

Section BrainProofs.
Context `{Platform} `{GoRuntime} `{!RuntimeLaws}.

(** ** Advertisements *)
Lemma elem_of_offer_providers offers p :
  p ∈ offer_providers offers ↔ p ≠ "" ∧ ∃ o, o ∈ offers ∧ of_ProviderID o = p.
Proof.
  unfold offer_providers. rewrite GoSort.SliceStable_elem, elem_of_remove_dups,
    list_elem_of_filter, list_elem_of_fmap. naive_solver.
Qed.

Lemma providerAdvertisement_facts p sites own sizer :
  let a := providerAdvertisement p sites own sizer in
  cs_ClusterID (cr_spec a) = p ∧ ca_ReservedChunks (cr_status a) = own ∧
  ca_Available (cr_status a) = true.
Proof.
  unfold providerAdvertisement. cbv zeta. by destruct (foldl lead_step _ _) as [[free lead] lc].
Qed.

Lemma elem_of_Advertisements offers own sizer a :
  a ∈ Advertisements offers own (Some sizer) ↔
  ∃ p, p ≠ "" ∧ (∃ o, o ∈ offers ∧ of_ProviderID o = p) ∧
    a = providerAdvertisement p (filter (λ o, of_ProviderID o = p) offers) (own_of own p) sizer.
Proof.
  unfold Advertisements. rewrite list_elem_of_fmap. simpl. split.
  - intros (p & -> & [Hp Ho]%elem_of_offer_providers). by exists p.
  - intros (p & Hp & Ho & ->). exists p. split; [done|]. by apply elem_of_offer_providers.
Qed.

Lemma freeze_facts a :
  cs_ClusterID (cr_spec (freeze a)) = cs_ClusterID (cr_spec a) ∧
  ca_ReservedChunks (cr_status (freeze a)) = ca_ReservedChunks (cr_status a) ∧
  ca_Available (cr_status (freeze a)) = ca_Available (cr_status a) ∧
  ca_TotalChunks (cr_status (freeze a)) = ca_ReservedChunks (cr_status (freeze a)).
Proof. done. Qed.

(** The view of an advertisement when no own counts override it. *)
Lemma project_own_none i input c :
  in_OwnReserved input = None →
  ng_CurrentReserved (project i input c) = ca_ReservedChunks (cr_status c) ∧
  ng_MaxSize (project i input c) = ca_TotalChunks (cr_status c).
Proof. intros E. unfold project. rewrite E. by destruct (perChunkCostWith _ _ _). Qed.

(** *** Where a site's latency is known to be within the bound *)
Definition in_bound (inp : Input) (o : Offer) : Prop :=
  match bi_LatencyBound inp with
  | None => True
  | Some b => (judge (fof_Z (lb_MaxLatencyMs b)) (bi_Consumer inp) (bi_MeasuredLatencyMs inp) o).1
              = true
  end.

(** A kept offer is within the bound, or its provider is held. *)
Lemma kept_offers_elem inp o :
  o ∈ (kept_offers inp).1.1 → o ∈ bi_Offers inp ∧ (in_bound inp o ∨ of_ProviderID o ∈ (kept_offers inp).1.2).
Proof.
  unfold kept_offers, in_bound. destruct (bi_LatencyBound inp) as [b|]; simpl; [|auto].
  rewrite elem_of_app, !list_elem_of_filter. intros [[? ?]|[? ?]]; auto.
Qed.

(** An offer whose provider holds chunks is not lost. *)
Lemma kept_offers_held inp o :
  o ∈ bi_Offers inp → 0 < own_of (bi_OwnReserved inp) (of_ProviderID o) →
  ∃ o', o' ∈ (kept_offers inp).1.1 ∧ of_ProviderID o' = of_ProviderID o.
Proof.
  intros Ho Hown. unfold kept_offers. destruct (bi_LatencyBound inp) as [b|]; simpl; [|by exists o].
  set (kept := filter _ _).
  destruct (decide (of_ProviderID o ∈@{list string} (of_ProviderID <$> kept))) as [Hin|Hout].
  - apply list_elem_of_fmap in Hin as (o' & E & Hin). exists o'. split; [|done].
    apply elem_of_app. by left.
  - exists o. split; [|done]. apply elem_of_app. right. apply list_elem_of_filter. split; [|done].
    unfold heldOutsideBound. apply elem_of_list_to_set, list_elem_of_fmap. exists o. split; [done|].
    apply list_elem_of_filter. split_and!; [|done..]. by rewrite elem_of_list_to_set.
Qed.

Lemma held_no_bound inp p :
  p ∈ (kept_offers inp).1.2 → ∀ o, o ∈ bi_Offers inp → in_bound inp o → of_ProviderID o ≠ p.
Proof.
  unfold kept_offers, in_bound. destruct (bi_LatencyBound inp) as [b|]; simpl; [|set_solver].
  unfold heldOutsideBound. rewrite elem_of_list_to_set, list_elem_of_fmap.
  intros (o' & -> & [[Hn _] _]%list_elem_of_filter) o Ho Hj E. apply Hn.
  apply elem_of_list_to_set, list_elem_of_fmap. exists o. split; [done|]. by apply list_elem_of_filter.
Qed.

(** The advertisements handed to the placement core. *)
Lemma elem_of_placement_ads inp c :
  c ∈ available_ads (placement_input inp) ↔
  ∃ p, p ≠ "" ∧ (∃ o, o ∈ (kept_offers inp).1.1 ∧ of_ProviderID o = p) ∧
    let a := providerAdvertisement p (filter (λ o, of_ProviderID o = p) (kept_offers inp).1.1)
               (own_of (bi_OwnReserved inp) p) (default Size (bi_Sizer inp)) in
    c = (if decide (p ∈ (kept_offers inp).1.2 ∨ p ∈ bi_Full inp) then freeze a else a).
Proof.
  unfold available_ads, placement_input. destruct (kept_offers inp) as [[offers held] est].
  cbn [fst snd in_Advertisements]. rewrite list_elem_of_filter, list_elem_of_fmap. split.
  - intros (_ & a & -> & Ha). apply elem_of_Advertisements in Ha as (p & Hp & Ho & ->).
    exists p. split_and!; [done..|]. cbv zeta.
    by rewrite (proj1 (providerAdvertisement_facts p _ _ _)).
  - intros (p & Hp & Ho & ->). cbv zeta. set (a := providerAdvertisement _ _ _ _).
    destruct (providerAdvertisement_facts p (filter (λ o, of_ProviderID o = p) offers)
      (own_of (bi_OwnReserved inp) p) (default Size (bi_Sizer inp))) as (Hid & _ & Hav).
    fold a in Hid, Hav. split; [by case_decide|]. exists a. split; [by rewrite Hid|].
    apply elem_of_Advertisements. by exists p.
Qed.

(** Under a latency bound the local decision lets a consumer grow only on a
    provider with a site measured, or estimated, within the bound and that the
    Broker did not refuse recently; and a provider this consumer holds chunks
    on stays listed, with its own count, whatever the bound, the measurements
    and the policy. *)
Theorem NodeGroups_bound inp t :
  (∀ v, v ∈ nl_NodeGroups (NodeGroups inp t) → growable v = true →
    ng_ProviderClusterID v ∉ bi_Full inp ∧
    ∃ o, o ∈ bi_Offers inp ∧ of_ProviderID o = ng_ProviderClusterID v ∧ in_bound inp o) ∧
  (∀ o, o ∈ bi_Offers inp → of_ProviderID o ≠ "" → 0 < own_of (bi_OwnReserved inp) (of_ProviderID o) →
    ∃ v, v ∈ nl_NodeGroups (NodeGroups inp t) ∧ ng_ProviderClusterID v = of_ProviderID o ∧
      ng_CurrentReserved v = own_of (bi_OwnReserved inp) (of_ProviderID o)).
Proof.
  assert (in_OwnReserved (placement_input inp) = None) as Hnone
    by (unfold placement_input; by destruct (kept_offers inp) as [[??]?]).
  split.
  - intros v (i & c & Hc & Hn)%BuildNodeGroups_from Hg.
    pose proof (narrowed_growable _ _ Hn Hg) as Hgc. destruct Hn as (Hid & _).
    rewrite Hid, (proj1 (project_identity i _ c)).
    destruct (project_own_none i _ c Hnone) as [Hcur Hmax].
    apply list_elem_of_lookup_2, elem_of_placement_ads in Hc as (p & Hp & (o & Ho & Hop) & Ec).
    cbv zeta in Ec. destruct (decide (p ∈ (kept_offers inp).1.2 ∨ p ∈ bi_Full inp)) as [Hfr|Hfr].
    { exfalso. unfold growable in Hgc. rewrite Hcur, Hmax, Ec in Hgc.
      rewrite (proj2 (proj2 (proj2 (freeze_facts _)))) in Hgc.
      unfold GoInt.sub32 in Hgc. by rewrite Z.sub_diag in Hgc. }
    rewrite Ec, (proj1 (providerAdvertisement_facts _ _ _ _)).
    split; [tauto|]. destruct (kept_offers_elem _ _ Ho) as [Ho' [Hb|Hh]]; [by exists o|].
    rewrite Hop in Hh. tauto.
  - intros o Ho Hp Hown. destruct (kept_offers_held _ _ Ho Hown) as (o' & Ho' & E).
    set (p := of_ProviderID o) in *.
    set (a := providerAdvertisement p (filter (λ o, of_ProviderID o = p) (kept_offers inp).1.1)
               (own_of (bi_OwnReserved inp) p) (default Size (bi_Sizer inp))).
    set (c := if decide (p ∈ (kept_offers inp).1.2 ∨ p ∈ bi_Full inp) then freeze a else a).
    assert (c ∈ available_ads (placement_input inp)) as Hc.
    { apply elem_of_placement_ads. exists p. split_and!; [done|by exists o'|done]. }
    assert (cs_ClusterID (cr_spec c) = p ∧
      ca_ReservedChunks (cr_status c) = own_of (bi_OwnReserved inp) p) as [Hid Hres].
    { unfold c. destruct (providerAdvertisement_facts p (filter (λ o, of_ProviderID o = p) (kept_offers inp).1.1)
        (own_of (bi_OwnReserved inp) p) (default Size (bi_Sizer inp))) as (? & ? & _).
      by case_decide. }
    destruct (BuildNodeGroups_lists _ t _ Hc) as (i & v & Hv & Hn1 & _ & _ & Hn4 & _).
    exists v. split; [done|]. rewrite Hn1, Hn4, (proj1 (project_identity i _ c)).
    destruct (project_own_none i _ c Hnone) as [-> _]. done.
Qed.

(** ** Own bookings: the brain counts as the Broker does *)
Lemma from_step_own consumer acc r :
  rs_ConsumerClusterID (cr_spec r) = consumer → rs_ProviderClusterID (cr_spec r) ≠ "" →
  from_step acc (reservationResponseFromCR r) = own_step consumer acc r.
Proof.
  intros Hc Hp. unfold from_step, own_step. destruct acc as [own fl]. simpl.
  by rewrite decide_False, decide_True by done.
Qed.

Lemma own_step_other consumer acc r :
  rs_ConsumerClusterID (cr_spec r) ≠ consumer → own_step consumer acc r = acc.
Proof. intros Hc. unfold own_step. destruct acc. by rewrite decide_False. Qed.

Lemma from_fold consumer l acc :
  (∀ r, r ∈ l → rs_ProviderClusterID (cr_spec r) ≠ "") →
  foldl from_step acc
    (reservationResponseFromCR <$> filter (λ r, rs_ConsumerClusterID (cr_spec r) = consumer) l) =
  foldl (own_step consumer) acc l.
Proof.
  revert acc. induction l as [|r l IH]; intros acc Hl; [done|].
  assert (∀ r, r ∈ l → rs_ProviderClusterID (cr_spec r) ≠ "") as Hl'
    by (intros r' ?; apply Hl; by constructor).
  rewrite filter_cons. case_decide as Hc; cbn [fmap list_fmap foldl].
  - rewrite (from_step_own consumer) by (done || apply Hl; constructor). by apply IH.
  - rewrite own_step_other by done. by apply IH.
Qed.

(** The bookkeeping does not depend on the order of the list. *)
Lemma own_fold_perm consumer l l' p :
  l ≡ₚ l' →
  own_of (foldl (own_step consumer) (∅, ∅) l).1 p =
    own_of (foldl (own_step consumer) (∅, ∅) l').1 p ∧
  ((foldl (own_step consumer) (∅, ∅) l).2 !! p = Some true ↔
   (foldl (own_step consumer) (∅, ∅) l').2 !! p = Some true).
Proof.
  intros Hp. assert (GoInt.is_int32 (default 0 ((∅ : gmap string Z) !! p))) as Hz
    by (rewrite lookup_empty; by vm_compute).
  split; [unfold own_of; rewrite !own_fold_share by done; by rewrite (total_share_perm _ _ _ _ Hp)|].
  rewrite !own_fold_moving. by setoid_rewrite Hp.
Qed.

Lemma responses_perm (l : list Reservation) (resps : list ReservationResponse) :
  resps ≡ₚ reservationResponseFromCR <$> l → ∃ l', l' ≡ₚ l ∧ resps = reservationResponseFromCR <$> l'.
Proof. intros (l' & -> & Hp)%Permutation_map_inv. by exists l'. Qed.

(** What the brain derives from a consumer's reservations, listed in any order,
    is what the Broker derives from all of them. *)
Lemma FromReservations_own consumer (resvs : list Reservation) l :
  (∀ r, r ∈ resvs → rs_ProviderClusterID (cr_spec r) ≠ "") →
  l ≡ₚ reservationResponseFromCR <$> filter (λ r, rs_ConsumerClusterID (cr_spec r) = consumer) resvs →
  ∀ p, own_of (FromReservations l).1 p = own_of (foldl (own_step consumer) (∅, ∅) resvs).1 p ∧
    ((FromReservations l).2 !! p = Some true ↔
     (foldl (own_step consumer) (∅, ∅) resvs).2 !! p = Some true).
Proof.
  intros Hne Hl p. set (mine := filter _ resvs) in Hl.
  destruct (responses_perm mine l Hl) as (mine' & Hp & ->). unfold FromReservations.
  assert (∀ r, r ∈ mine' → rs_ConsumerClusterID (cr_spec r) = consumer ∧
    rs_ProviderClusterID (cr_spec r) ≠ "") as Hm.
  { intros r. rewrite Hp. intros [Hc Hr]%list_elem_of_filter. auto. }
  assert (filter (λ r, rs_ConsumerClusterID (cr_spec r) = consumer) mine' = mine') as Ef.
  { clear -Hm. induction mine' as [|r mine' IH]; [done|].
    rewrite filter_cons, decide_True by (apply Hm; constructor). f_equal. apply IH.
    intros r' ?. apply Hm. by constructor. }
  rewrite <-Ef at 1 2. rewrite from_fold by (intros r Hr; by apply Hm).
  assert (foldl (own_step consumer) (∅, ∅) mine = foldl (own_step consumer) (∅, ∅) resvs) as <-.
  { unfold mine. clear. generalize (∅ : gmap string Z, ∅ : gmap string bool).
    induction resvs as [|r l0 IH]; intros acc; [done|]. rewrite filter_cons. cbn [foldl].
    case_decide as Hc; [apply IH|]. rewrite (own_step_other consumer acc r) by done. apply IH. }
  by apply own_fold_perm.
Qed.

(** The local brain and the Broker agree on a consumer's bookings: from the
    answer of GET /api/v1/reservations the brain derives, for every provider,
    the same own chunk count and the same in-flight flag that the Broker's
    own node-group listing derives from its store. *)
Theorem FromReservations_agrees s rid consumer m :
  (∀ r : Reservation, r ∈ typed_list (sv_namespace s) m → rs_ProviderClusterID (cr_spec r) ≠ "") →
  wp reliable
    (x ← handleReservationList s rid consumer; o ← ownByProvider (sv_namespace s) consumer; mret (x, o))
    (λ xo m', m' = m ∧ ∃ l own fl, xo = (JSON StatusOK l, Ok (own, fl)) ∧
       ∀ p, own_of (FromReservations l).1 p = own_of own p ∧
            ((FromReservations l).2 !! p = Some true ↔ fl !! p = Some true)) m.
Proof.
  intros Hne. apply wp_bind. unfold handleReservationList. apply wp_bind, wp_list.
  intros l Hl. apply wp_ret, wp_bind. unfold ownByProvider. apply wp_bind, wp_list.
  intros l2 Hl2. apply wp_ret, wp_ret. split; [done|].
  exists (GoSort.SliceStable (λ a b, GoStr.str_lt (rr_ReservationID a) (rr_ReservationID b))
    (reservationResponseFromCR <$> filter (λ r, rs_ConsumerClusterID (cr_spec r) = consumer) l)),
    (foldl (own_step consumer) (∅, ∅) l2).1, (foldl (own_step consumer) (∅, ∅) l2).2.
  split; [by destruct (foldl (own_step consumer) (∅, ∅) l2)|].
  intros p.
  apply FromReservations_own; [intros r; rewrite Hl2; apply Hne|].
  rewrite GoSort.SliceStable_perm. by rewrite Hl, <-Hl2.
Qed.
End BrainProofs.
