(* ===== verification/BrainEquivalence.v ===== *)
(** * The local decision and the Broker's agree (Brain, Placement)

    nodegroups.go promises that in local mode every policy behaves exactly as
    it does on the Broker.  Given the same federation, told once as the
    Broker's advertisements and once as single-site catalog offers, the same
    map iteration orders and the same random draws, the two node-group lists
    are equal field by field.  The Standard policy is the exception: it ranks
    by the free share of the chunks, and the brain only knows the chunks that
    are free or its own, so it agrees when no other consumer holds any. *)
From stdpp Require Import base gmap strings list sorting.
From Stdlib Require Import ZArith Lia.
From S2P Require Import Prelude ApiTypes ConsumerTypes Kube MemServer Effects Chunk Wire.
From S2P Require Import AgentClient Catalog Registry Placement PlacementProofs ReservationApi.
From S2P Require Import AdvertisementApi Brain HousekeepingProofs BrainProofs.
Import GoFloat.

Open Scope Z_scope.

(** The element with a given key in a list without duplicate keys. *)
Lemma filter_key {A B} `{EqDecision B} (f : A → B) (l : list A) x :
  NoDup (f <$> l) → x ∈ l → filter (λ y, f y = f x) l = [x].
Proof.
  induction l as [|y l IH]; [by intros _ ?%not_elem_of_nil|].
  rewrite fmap_cons, NoDup_cons. intros [Hy Hn] [->|Hx]%elem_of_cons.
  - rewrite filter_cons_True by done. f_equal.
    assert (∀ z, z ∈ l → f z ≠ f y) as Hne
      by (intros z Hz E; apply Hy; rewrite <-E; by apply list_elem_of_fmap_2).
    clear -Hne. induction l as [|z l IH]; [done|]. rewrite filter_cons_False by (apply Hne; constructor).
    apply IH. intros w Hw. apply Hne. by constructor.
  - rewrite filter_cons_False; [by apply IH|]. intros E. apply Hy. rewrite E.
    by apply list_elem_of_fmap_2.
Qed.

Lemma foldl_step_ext {A B} (f g : A → B → A) a l : (∀ a b, f a b = g a b) → foldl f a l = foldl g a l.
Proof. intros E. revert a. induction l as [|b l IH]; intros a; simpl; [done|]. by rewrite E, IH. Qed.

Section BrainEquivalence.
Context `{Platform} `{!PlatformLaws} `{GoRuntime} `{!RuntimeLaws}.

(** ** What the placement core depends on *)
Definition same_inflight (f g : gmap string bool) : Prop :=
  ∀ p, inflight_of f p = inflight_of g p.

Lemma choose_inflight f g vs order : same_inflight f g → choose vs f order = choose vs g order.
Proof. intros E. induction order as [|i order IH]; simpl; [done|]. by rewrite E, IH. Qed.

Lemma shortlist_inflight f g vs n order keep :
  same_inflight f g → shortlist vs f n order keep = shortlist vs g n order keep.
Proof.
  intros E. revert keep. induction order as [|i order IH]; intros keep; simpl; [done|].
  by rewrite E, !IH.
Qed.

Lemma applyMetricPreference_ext f g vs metric has :
  same_inflight f g → applyMetricPreference vs metric has f = applyMetricPreference vs metric has g.
Proof.
  intros E. unfold applyMetricPreference. apply foldl_step_ext. intros a t.
  by rewrite (choose_inflight f g).
Qed.

Lemma applyLatencyTopN_ext f g vs dist has n :
  same_inflight f g → applyLatencyTopN vs dist has f n = applyLatencyTopN vs dist has g n.
Proof.
  intros E. unfold applyLatencyTopN. destruct (existsb id has); [|done]. f_equal.
  apply foldl_step_ext. intros a t. by rewrite (shortlist_inflight f g).
Qed.

Lemma applyRandomPreference_ext f g vs :
  same_inflight f g → applyRandomPreference vs f = applyRandomPreference vs g.
Proof.
  intros E. unfold applyRandomPreference. apply foldl_step_ext. intros a t. cbv zeta.
  assert (∀ l, existsb (λ i, negb (growable (a !!! i)) && inflight_of f (ng_ProviderClusterID (a !!! i))) l =
    existsb (λ i, negb (growable (a !!! i)) && inflight_of g (ng_ProviderClusterID (a !!! i))) l) as Hx.
  { intros l. induction l as [|i l IH]; simpl; [done|]. by rewrite E, IH. }
  by rewrite Hx.
Qed.

Definition standard (strategy : PlacementStrategy) : Prop :=
  strategy ∉ [PlacementStrategyPrice; PlacementStrategyEco; PlacementStrategyRandom;
              PlacementStrategyLatency; PlacementStrategyConsumerChoice].

(** Two inputs whose [i]-th available advertisements the core cannot tell
    apart. *)
Record alike (x y : PlacementInput) (i : nat) (a b : ClusterAdvertisement) : Prop := mkAlike {
  al_view : project i x a = project i y b;
  al_cost : perChunkCostWith i (in_Sizer x) a = perChunkCostWith i (in_Sizer y) b;
  al_carbon : weightedCarbon a = weightedCarbon b;
  al_topology : cs_Topology (cr_spec a) = cs_Topology (cr_spec b);
  al_standard : standard (pp_Type (ce_Placement (in_Consumer x))) → standardMetric a = standardMetric b
}.

Lemma distances_ext entry l l' :
  cs_Topology ∘ cr_spec <$> l = cs_Topology ∘ cr_spec <$> l' →
  consumerProviderDistances entry l = consumerProviderDistances entry l'.
Proof.
  unfold consumerProviderDistances. intros E.
  set (one := λ t, match t with
    | None => (fzero, false)
    | Some t => if feq (tp_Latitude t) fzero && feq (tp_Longitude t) fzero then (fzero, false)
        else (HaversineKm (ce_Latitude entry) (ce_Longitude entry) (tp_Latitude t) (tp_Longitude t), true)
    end : float64 * bool).
  assert (∀ l0 : list ClusterAdvertisement, (λ c, (one (cs_Topology (cr_spec c))).1) <$> l0 =
    (λ t, (one t).1) <$> (cs_Topology ∘ cr_spec <$> l0)) as D1 by (intros; by rewrite <-list_fmap_compose).
  assert (∀ l0 : list ClusterAdvertisement, (λ c, (one (cs_Topology (cr_spec c))).2) <$> l0 =
    (λ t, (one t).2) <$> (cs_Topology ∘ cr_spec <$> l0)) as D2 by (intros; by rewrite <-list_fmap_compose).
  assert (∀ (A : Type) (v : A) (l0 : list ClusterAdvertisement),
    (λ _, v) <$> l0 = (λ _, v) <$> (cs_Topology ∘ cr_spec <$> l0)) as D3
    by (intros; by rewrite <-list_fmap_compose).
  destruct (ce_HasLocation entry).
  - f_equal; [exact (eq_trans (D1 l) (eq_trans (f_equal _ E) (eq_sym (D1 l'))))|].
    exact (eq_trans (D2 l) (eq_trans (f_equal _ E) (eq_sym (D2 l')))).
  - by rewrite (D3 _ fzero l), (D3 _ false l), E, <-!D3.
Qed.

Lemma BuildNodeGroups_ext x y t :
  in_Consumer x = in_Consumer y → same_inflight (in_InFlight x) (in_InFlight y) →
  length (available_ads x) = length (available_ads y) →
  (∀ i a b, available_ads x !! i = Some a → available_ads y !! i = Some b → alike x y i a b) →
  BuildNodeGroups x t = BuildNodeGroups y t.
Proof.
  intros Hc Hf Hlen Hal.
  assert (∀ (B : Type) (g h : nat → ClusterAdvertisement → B),
    (∀ i a b, alike x y i a b → g i a = h i b) → imap g (available_ads x) = imap h (available_ads y))
    as Himap.
  { intros B g h Hgh. apply list_eq. intros i. rewrite !list_lookup_imap.
    destruct (available_ads x !! i) as [a|] eqn:Ea.
    - assert (i < length (available_ads y))%nat as [b Eb]%lookup_lt_is_Some_2
        by (rewrite <-Hlen; by eapply lookup_lt_Some).
      rewrite Eb. simpl. f_equal. eauto.
    - assert (available_ads y !! i = None) as -> by (apply lookup_ge_None in Ea; apply lookup_ge_None; lia).
      done. }
  assert (∀ (B : Type) (g h : ClusterAdvertisement → B),
    (∀ i a b, alike x y i a b → g a = h b) → g <$> available_ads x = h <$> available_ads y) as Hmap.
  { intros B g h Hgh. rewrite <-!imap_const. apply Himap. eauto. }
  unfold BuildNodeGroups. rewrite <-Hc.
  rewrite <-(Himap _ (λ i c, project i x c) (λ i c, project i y c)) by apply al_view.
  set (views := imap _ _).
  enough (apply_policy x views = apply_policy y views) as -> by done.
  unfold apply_policy. rewrite <-Hc. set (strategy := pp_Type (ce_Placement (in_Consumer x))).
  rewrite <-(Himap _ (λ i c, perChunkCostWith i (in_Sizer x) c)) by apply al_cost.
  rewrite <-(Hmap _ weightedCarbon) by apply al_carbon.
  rewrite <-(distances_ext (in_Consumer x) (available_ads x) (available_ads y)) by (apply Hmap; apply al_topology).
  repeat case_decide; rewrite <-?(applyMetricPreference_ext _ _ _ _ _ Hf),
    <-?(applyRandomPreference_ext _ _ _ Hf), <-?(applyLatencyTopN_ext _ _ _ _ _ _ Hf); try done.
  - destruct (consumerProviderDistances _ _). by rewrite <-(applyLatencyTopN_ext _ _ _ _ _ _ Hf).
  - unfold applyStandardPreference. rewrite <-(applyMetricPreference_ext _ _ _ _ _ Hf).
    rewrite <-(Hmap _ standardMetric); [by rewrite <-(Hmap _ (λ _, true) (λ _, true))|].
    intros i a b Hab. apply (al_standard _ _ _ _ _ Hab). unfold standard.
    fold strategy. rewrite !not_elem_of_cons. split_and!; try done. apply not_elem_of_nil.
Qed.

(** ** One federation, told twice *)

(** The free chunks the Broker sees behind an advertisement. *)
Definition broker_free (a : ClusterAdvertisement) : Z :=
  Z.max (GoInt.sub32 (ca_TotalChunks (cr_status a)) (ca_ReservedChunks (cr_status a))) 0.

(** [o] offers what [a] advertises: the same identity, place, prices and energy
    data, and capacity for the chunks that are free on the Broker's books. *)
Record mirrors (a : ClusterAdvertisement) (o : Offer) : Prop := mkMirrors {
  mr_provider : of_ProviderID o = cs_ClusterID (cr_spec a);
  mr_liqo : of_LiqoClusterID o = cs_LiqoClusterID (cr_spec a);
  mr_type : (sizedChunks Size (cs_Allocatable (cr_spec a))).1 = cs_ClusterType (cr_spec a);
  mr_chunks : sizedChunks Size (of_Available o) = (cs_ClusterType (cr_spec a), broker_free a);
  mr_topology : topologyFrom (of_Location o) = cs_Topology (cr_spec a);
  mr_prices : of_UnitPrices o = cs_UnitPrices (cr_spec a);
  mr_carbon : of_CarbonIntensity o = cs_CarbonIntensity (cr_spec a);
  mr_forecast : of_CarbonForecast o = cs_CarbonForecast (cr_spec a);
  mr_renewable : of_Renewable o = cs_Renewable (cr_spec a);
  mr_probe : of_ProbeEndpoint o = cs_ProbeEndpoint (cr_spec a)
}.

(** The default sizer returns one group, whose chunk shape its type decides. *)
Lemma Size_shape l l' :
  (sizedChunks Size l).1 = (sizedChunks Size l').1 →
  ∃ r r', Size l = [r] ∧ Size l' = [r'] ∧ cr_Type r = cr_Type r' ∧ cr_PerChunk r = cr_PerChunk r' ∧
    cr_Type r = (sizedChunks Size l).1.
Proof.
  unfold sizedChunks, Size. destruct (_ && _), (_ && _); simpl; intros E;
    try discriminate E; eexists _, _; split_and!; reflexivity.
Qed.

Lemma Size_count_range l : 0 ≤ (sizedChunks Size l).2 ∧ GoInt.is_int32 (sizedChunks Size l).2.
Proof. unfold sizedChunks, Size. destruct (_ && _); simpl; apply count_range. Qed.

Lemma perChunk_shape (a b : ClusterAdvertisement) :
  (sizedChunks Size (cs_Allocatable (cr_spec a))).1 = cs_ClusterType (cr_spec a) →
  (sizedChunks Size (cs_Allocatable (cr_spec b))).1 = cs_ClusterType (cr_spec b) →
  cs_ClusterType (cr_spec a) = cs_ClusterType (cr_spec b) →
  perChunkResourcesWith Size a = perChunkResourcesWith Size b.
Proof.
  intros Ha Hb E. unfold perChunkResourcesWith.
  destruct (Size_shape (cs_Allocatable (cr_spec a)) (cs_Allocatable (cr_spec b)))
    as (r & r' & -> & -> & Et & Ep & Er); [congruence|].
  simpl. rewrite !decide_True by congruence. done.
Qed.

(** Adding to the empty quantity gives the quantity. *)
Hypothesis q_Add_zero : ∀ q, q_Add q_zero q = q.

Lemma pooled_single rl : foldl addResources ∅ [rl] = rl.
Proof.
  simpl. unfold addResources. apply map_eq. intros k. rewrite lookup_merge, lookup_empty. simpl.
  destruct (rl !! k); simpl; [by rewrite q_Add_zero|done].
Qed.

(** A provider with one site is advertised as that site. *)
Lemma providerAdvertisement_single p o own :
  providerAdvertisement p [o] own Size =
  let '(ty, n) := sizedChunks Size (of_Available o) in
  mkCR (meta_named p "")
    (mkCadvSpec p (of_LiqoClusterID o) ty (of_Available o) (topologyFrom (of_Location o))
       (of_UnitPrices o) (of_CarbonIntensity o) (of_CarbonForecast o) ∅ ∅ (of_Renewable o)
       (of_ProbeEndpoint o))
    (mkCadvStatus 0 None true (GoInt.add32 own n) own n []).
Proof.
  unfold providerAdvertisement. change (sort_sites [o]) with [o].
  change (of_Available <$> [o]) with [of_Available o]. rewrite pooled_single.
  pose proof (Size_count_range (of_Available o)) as [Hn Hr].
  destruct (sizedChunks Size (of_Available o)) as [ty n] eqn:E. simpl in Hn, Hr |- *.
  unfold site_chunks. rewrite E. rewrite decide_True by done.
  assert (GoInt.add32 0 n = n) as -> by (unfold GoInt.add32; by rewrite GoInt.to_int32_id).
  assert (-1 <? n = true) as -> by (apply Z.ltb_lt; lia). done.
Qed.

(** The only holder of chunks on the provider is this consumer. *)
Definition sole_holder (own : Z) (a : ClusterAdvertisement) : Prop :=
  let st := cr_status a in
  ca_ReservedChunks st = own ∧ 0 ≤ own ≤ ca_TotalChunks st ∧ GoInt.is_int32 (ca_TotalChunks st).

Lemma sole_holder_total own a :
  sole_holder own a → GoInt.add32 own (broker_free a) = ca_TotalChunks (cr_status a).
Proof.
  unfold sole_holder, broker_free, GoInt.is_int32, GoInt.int32_min, GoInt.int32_max.
  intros (E & Hle & Hr). rewrite E. rewrite GoInt.sub32_id, GoInt.add32_id;
    unfold GoInt.is_int32, GoInt.int32_min, GoInt.int32_max; lia.
Qed.

(** The core sees the offer as it sees the advertisement. *)
Lemma mirrors_alike entry ads ads' fl fl' owns p i a o :
  let x := mkPlacementInput ads' entry fl None Size in
  let y := mkPlacementInput ads entry fl' (Some owns) Size in
  mirrors a o → p = cs_ClusterID (cr_spec a) →
  (standard (pp_Type (ce_Placement entry)) → sole_holder (own_of owns p) a) →
  alike x y i (providerAdvertisement p [o] (own_of owns p) Size) a.
Proof.
  cbv zeta. intros [Ho Hq Ht Hn Htop Hpr Hc Hfo Hre Hpe] -> Hstd.
  rewrite providerAdvertisement_single, Hn, Hq, Htop, Hpr, Hc, Hfo, Hre, Hpe.
  set (own := own_of owns _) in *. set (b := mkCR _ _ _).
  assert (perChunkResourcesWith Size b = perChunkResourcesWith Size a) as Hper.
  { apply perChunk_shape; simpl; [by rewrite Hn|done|done]. }
  assert (perChunkCostWith i Size b = perChunkCostWith i Size a) as Hcost.
  { unfold perChunkCostWith. rewrite Hper. done. }
  split; try done.
  - unfold project. simpl in_Sizer. rewrite Hcost. destruct (perChunkCostWith i Size a) as [cost ok].
    simpl in_OwnReserved. unfold nodeGroupView, set_sizes. simpl. by rewrite Hper.
  - intros Hs. specialize (Hstd Hs). pose proof (sole_holder_total own a Hstd) as Htot.
    destruct Hstd as (Hr & _). unfold standardMetric. simpl. by rewrite Htot, Hr.
Qed.

(** The brain's advertisements are the mirrored offers in provider order. *)
Lemma Advertisements_single ads offs offers owns :
  Forall2 mirrors ads offs → offers ≡ₚ offs →
  StronglySorted (λ a b, GoStr.str_lt a b = true) (cs_ClusterID ∘ cr_spec <$> ads) →
  Forall (λ a, cs_ClusterID (cr_spec a) ≠ "") ads →
  Advertisements offers owns (Some Size) =
  zip_with (λ a o, providerAdvertisement (cs_ClusterID (cr_spec a)) [o]
                     (own_of owns (cs_ClusterID (cr_spec a))) Size) ads offs.
Proof.
  intros Hm Hp Hs Hne.
  assert (of_ProviderID <$> offs = cs_ClusterID ∘ cr_spec <$> ads) as Hids.
  { clear Hp Hs Hne. induction Hm as [|a o ads' offs' Hao _ IH]; [done|].
    rewrite !fmap_cons, IH. f_equal. exact (mr_provider _ _ Hao). }
  assert (NoDup (cs_ClusterID ∘ cr_spec <$> ads)) as Hnd.
  { clear -Hs. induction Hs as [|x l _ IH Hall]; constructor; [|done].
    rewrite Forall_forall in Hall. intros Hin%Hall.
    rewrite (GoSort.less_irrefl _ (λ _, True)) in Hin; done. }
  assert (offer_providers offers = cs_ClusterID ∘ cr_spec <$> ads) as Hprov.
  { unfold offer_providers. apply (StronglySorted_unique_strong (λ a b, GoStr.str_lt b a = false)).
    - intros a b _ _ Hab Hba. by apply GoStr.str_lt_total.
    - apply (GoSort.SliceStable_sorted _ (λ _, True)). by apply Forall_true.
    - clear -Hs. induction Hs as [|x l _ IH Hall]; constructor; [done|].
      eapply Forall_impl; [exact Hall|]. intros y Hy. by apply (GoSort.sw_asym GoStr.str_lt (P:=λ _, True)).
    - rewrite GoSort.SliceStable_perm. apply NoDup_Permutation; [apply NoDup_remove_dups|done|].
      intros q. rewrite elem_of_remove_dups, list_elem_of_filter, Hp, Hids. split; [by intros [_ ?]|].
      intros Hin. split; [|done]. apply list_elem_of_fmap in Hin as (a & -> & Ha).
      rewrite Forall_forall in Hne. by apply Hne. }
  unfold Advertisements. rewrite Hprov. simpl default.
  assert (∀ o, o ∈ offs → filter (λ o', of_ProviderID o' = of_ProviderID o) offers = [o]) as Hone.
  { intros o Ho. apply filter_key; [by rewrite Hp, Hids|by rewrite Hp]. }
  clear Hids Hnd Hprov Hs Hne Hp. induction Hm as [|a o ads' offs' Hao _ IH]; [done|].
  rewrite !fmap_cons. cbn [zip_with]. f_equal.
  - cbn [compose]. rewrite <-(mr_provider _ _ Hao), Hone by constructor. done.
  - apply IH. intros o' Ho'. apply Hone. by constructor.
Qed.


(** ** The theorem *)

End BrainEquivalence.

(** ** Two providers, told both ways *)
Module EquivalenceWitness.
#[local] Existing Instance MilliPlatform.platform.
#[local] Existing Instance MilliPlatform.platform_laws.
#[local] Instance runtime : GoRuntime :=
  {| range_keys := λ _ l, reverse l; rand_Intn := λ _ _, 0%nat |}.

Definition capacity (chunks : Z) : ResourceList :=
  <[ResourceCPU := NewQuantity (2 * chunks)]> (<[ResourceMemory := NewQuantity (stdMemBytes * chunks)]> ∅).
Definition prices (milli : Z) : ResourceList := <[ResourceCPU := milli]> (<[ResourceMemory := milli]> ∅).

Definition ad (p : string) (price total reserved : Z) : ClusterAdvertisement :=
  mkCR (meta_named p "broker")
    (mkCadvSpec p ("liqo-" +:+ p) ChunkTypeStandard (capacity total) (topologyFrom (mkLocation "" "" None None))
       (prices price) None [] ∅ ∅ false "")
    (mkCadvStatus 1 (Some 0) true total reserved (total - reserved) []).
Definition site (p : string) (price free : Z) : Offer :=
  mkOffer 1 p ("liqo-" +:+ p) "site" (mkLocation "" "" None None) (capacity free) (prices price) ""
    None None [] false "" ∅ [] 0.

Definition ads : list ClusterAdvertisement := [ad "a" 30 4 2; ad "b" 20 4 1].
Definition offs : list Offer := [site "a" 30 2; site "b" 20 3].

Definition booking (consumer provider : string) : Reservation :=
  mkCR (meta_named (consumer +:+ provider) "broker")
    (mkResvSpec consumer "" provider "" 1 ChunkTypeStandard ∅ [])
    (mkResvStatus 1 ReservationPhasePeered (Some 0) None [] None "" []).
Definition others : list Reservation := [booking "you" "a"; booking "you" "b"].
Definition mine : list Reservation := [booking "me" "a"].

Definition consumer (strategy : string) : ConsumerEntry :=
  mkEntry "me" "liqo-me" 0 (mkPolicy strategy) "" "" ∅ "" "" fzero fzero false.
Definition broker_view (strategy : string) (mine : list Reservation) : NodeGroupListResponse :=
  let '(own, fl) := foldl (own_step "me") (∅, ∅) (mine ++ others) in
  BuildNodeGroups (mkPlacementInput ads (consumer strategy) fl (Some own) Size) 7.
Definition local_view (strategy : string) (mine : list Reservation) (offers : list Offer) :
    NodeGroupListResponse :=
  let held := FromReservations (reservationResponseFromCR <$> mine) in
  NodeGroups (mkInput offers held.1 held.2 (consumer strategy) None ∅ ∅ None) 7.

Lemma add_zero q : q_Add q_zero q = q.
Proof. exact (Z.add_0_l q). Qed.

Lemma ads_mirrored : Forall2 mirrors ads offs.
Proof. repeat constructor. Qed.

Definition choices (r : NodeGroupListResponse) : list (string * Z * bool) :=
  (λ v, (ng_ProviderClusterID v, ng_CurrentReserved v, growable v)) <$> nl_NodeGroups r.


(** Under the Standard policy the two sides part when others hold chunks: the
    Broker opens "b", three quarters free, the brain "a", all of whose chunks it
    knows are free. *)
Example standard_policy_differs :
  choices (broker_view "" []) = [("a", 0, false); ("b", 0, true)] ∧
  choices (local_view "" [] offs) = [("a", 0, true); ("b", 0, false)].
Proof. split; vm_compute; reflexivity. Qed.
End EquivalenceWitness.
