(* ===== verification/LocalApiProofs.v ===== *)
(** * Correctness of the loopback API (LocalApi)

    The query parameter round trip, the ConsumerChoice masking, and the shared
    cache as a transition system. *)
From stdpp Require Import base gmap strings list sorting relations.
From Stdlib Require Import ZArith Lia.
From S2P Require Import Prelude GoText ApiTypes ConsumerTypes Kube MemServer Effects Chunk Wire.
From S2P Require Import AgentClient Catalog Registry Placement PlacementProofs Prober Selection.
From S2P Require Import ReservationApi AdvertisementApi Brain LocalApi.
Import GoFloat.

Open Scope Z_scope.

(** ** The latency bound on the wire *)

(** Every latency bound the CRD admits survives the query parameter, an
    absent bound stays absent, and whatever a caller sends, an accepted bound is
    between 1 ms and the largest int32. *)
Theorem LatencyBound_roundtrip :
  DecodeLatencyBound (EncodeLatencyBound None) = Ok None ∧
  (∀ b, 1 ≤ lb_MaxLatencyMs b ≤ GoInt.int32_max →
     DecodeLatencyBound (EncodeLatencyBound (Some b)) = Ok (Some b)) ∧
  (∀ q b, DecodeLatencyBound q = Ok (Some b) → 1 ≤ lb_MaxLatencyMs b ≤ GoInt.int32_max).
Proof.
  split_and!.
  - done.
  - intros [ms] Hms. cbn [lb_MaxLatencyMs] in Hms. unfold DecodeLatencyBound, EncodeLatencyBound.
    unfold values_Get. rewrite lookup_singleton_eq. cbn [lb_MaxLatencyMs].
    unfold GoInt.int32_max in Hms.
    assert (ParseInt 32 (Itoa ms) = Some ms) as Hp by (apply ParseInt_Itoa; lia).
    rewrite decide_False by (intros E; by rewrite E in Hp).
    cbv zeta. rewrite Hp. destruct (Z.ltb_spec ms 1); [lia|].
    rewrite GoInt.to_int32_id by (unfold GoInt.is_int32, GoInt.int32_min, GoInt.int32_max; lia). done.
  - intros q [ms]. unfold DecodeLatencyBound. cbv zeta.
    case_decide; [done|]. destruct (ParseInt 32 (values_Get q QueryMaxLatencyMs)) as [n|] eqn:E; [|done].
    destruct (Z.ltb_spec n 1); [done|]. intros [= <-]. cbn [lb_MaxLatencyMs].
    apply ParseInt_range in E.
    rewrite GoInt.to_int32_id; unfold GoInt.is_int32, GoInt.int32_min, GoInt.int32_max; lia.
Qed.

Section LocalApiProofs.
Context `{Platform}.

(** ** Masking to the first available provider *)
Lemma elem_of_capacity groups p : p ∈ capacity_of groups ↔ has_capacity groups p.
Proof.
  unfold capacity_of, has_capacity. rewrite elem_of_list_to_set, list_elem_of_fmap.
  setoid_rewrite list_elem_of_filter. naive_solver.
Qed.

Lemma first_available_spec capacity ranked :
  (first_available capacity ranked = "" ∧ ∀ id, id ∈ ranked → id ∉ capacity) ∨
  ∃ l1 l2, ranked = l1 ++ first_available capacity ranked :: l2 ∧
    first_available capacity ranked ∈ capacity ∧ ∀ id, id ∈ l1 → id ∉ capacity.
Proof.
  induction ranked as [|id ranked IH]; simpl; [left; split; [done|]; by intros ? ?%elem_of_nil|].
  case_decide as Hd.
  - right. exists [], ranked. split_and!; [done..|]. by intros ? ?%elem_of_nil.
  - destruct IH as [[E Hn]|(l1 & l2 & E & Hin & Hl)].
    + left. split; [done|]. intros i [->|]%elem_of_cons; auto.
    + right. exists (id :: l1), l2. split_and!; [by rewrite E at 1|done|].
      intros i [->|]%elem_of_cons; auto.
Qed.

(** After masking, what can grow could grow before and belongs to the chosen
    provider. *)
Lemma maskToFirstAvailable_growable resp ranked v :
  v ∈ nl_NodeGroups (maskToFirstAvailable resp ranked) → growable v = true →
  v ∈ nl_NodeGroups resp ∧
  ng_ProviderClusterID v = first_available (capacity_of (nl_NodeGroups resp)) ranked.
Proof.
  unfold maskToFirstAvailable. cbn [nl_NodeGroups with_groups].
  intros (w & -> & Hw)%list_elem_of_fmap. case_decide; [done|]. by rewrite mask_growable.
Qed.

(** Masking to a ranking leaves at most one provider that can grow: the
    first ranked provider with capacity, with its groups untouched; it keeps
    every group in place and never raises a maximum. *)
Theorem maskToFirstAvailable_correct resp ranked :
  let out := nl_NodeGroups (maskToFirstAvailable resp ranked) in
  let chosen := first_available (capacity_of (nl_NodeGroups resp)) ranked in
  Forall2 narrowed (nl_NodeGroups resp) out ∧
  (∀ v, growable v = true → v ∈ out ↔ v ∈ nl_NodeGroups resp ∧ ng_ProviderClusterID v = chosen) ∧
  ((∃ l1 l2, ranked = l1 ++ chosen :: l2 ∧ has_capacity (nl_NodeGroups resp) chosen ∧
      ∀ id, id ∈ l1 → ¬ has_capacity (nl_NodeGroups resp) id) ∨
   (chosen = "" ∧ ∀ id, id ∈ ranked → ¬ has_capacity (nl_NodeGroups resp) id)).
Proof.
  cbv zeta. split_and!.
  - unfold maskToFirstAvailable. cbn [nl_NodeGroups with_groups].
    apply Forall2_fmap_r, Forall_Forall2_diag, Forall_true. intros v.
    simpl. destruct (decide _); split_and!; auto.
  - intros v Hg. split; [intros Hv; by apply maskToFirstAvailable_growable|].
    intros [Hv E]. unfold maskToFirstAvailable. cbn [nl_NodeGroups with_groups].
    apply list_elem_of_fmap. exists v. by rewrite decide_True.
  - destruct (first_available_spec (capacity_of (nl_NodeGroups resp)) ranked)
      as [[E Hn]|(l1 & l2 & E & Hin & Hl)]; [right|left].
    + split; [done|]. intros id Hid Hc. apply (Hn id Hid). by apply elem_of_capacity.
    + exists l1, l2. split_and!; [done|by apply elem_of_capacity|].
      intros id Hid Hc. apply (Hl id Hid). by apply elem_of_capacity.
Qed.

(** ** ConsumerChoice exposes one provider *)
Definition one_provider (groups : list NodeGroupView) : Prop :=
  ∀ v w, v ∈ groups → w ∈ groups → growable v = true → growable w = true →
    ng_ProviderClusterID v = ng_ProviderClusterID w.

Lemma first_available_one resp ranked :
  one_provider (nl_NodeGroups (maskToFirstAvailable resp ranked)).
Proof.
  intros v w Hv Hw Gv Gw. destruct (maskToFirstAvailable_growable _ _ _ Hv Gv) as [_ ->].
  by destruct (maskToFirstAvailable_growable _ _ _ Hw Gw) as [_ ->].
Qed.

Lemma mask_everything_one resp : one_provider (nl_NodeGroups (mask_everything resp)).
Proof.
  intros v w Hv _ Gv. apply list_elem_of_fmap in Hv as (u & -> & _). by rewrite mask_growable in Gv.
Qed.

(** A program establishes a postcondition that every outcome satisfies. *)
Lemma ewp_always {E} {R : E → Type} {V A} C (X : V → ∀ e, R e → V → Prop) (p : eff E R A)
    (Q : A → store → V → Prop) m v : (∀ a m' v', Q a m' v') → ewp C X p Q m v.
Proof.
  intros HQ. revert m v. induction p as [a|r k IH|e k IH]; intros m v; simpl; auto.
Qed.

Definition serves_one (o : served) : Prop :=
  ∀ resp, o.1.2 = LocalOK StatusOK resp →
    nl_AppliedPlacement resp = PlacementStrategyConsumerChoice ∨ is_Some o.2 →
    one_provider (nl_NodeGroups resp).

Lemma localWriteError_fails {B} err (b : B) status : localWriteError err ≠ LocalOK status b.
Proof. unfold localWriteError, writeRawError. by repeat case_match. Qed.

(** Whatever the Broker, the brain, the prober and the cluster answer, a
    node-group list served while the placement is ConsumerChoice, or while a
    model is being asked, never lets more than one provider grow. *)
Theorem handleNodeGroups_consumer_choice `{GoRuntime} {V} C
    (X : V → ∀ c, local_answer c → V → Prop) s loc query m v :
  ewp C X (handleNodeGroups s loc query) (λ o _ _, serves_one o) m v.
Proof.
  unfold handleNodeGroups. destruct (DecodeLatencyBound query) as [bound|e]; [|by intros ? [=]].
  apply ewp_bind, ewp_always. intros [s' [resp|err]] m1 v1.
  2:{ intros resp E. by destruct (localWriteError_fails err resp StatusOK). }
  apply ewp_bind, ewp_always. intros resp' m2 v2.
  apply ewp_bind, ewp_always. intros [prompt|] m3 v3; unfold chooseProvider.
  - apply ewp_bind, ewp_always. intros t m4 v4. destruct (ai_poll _ _ _) as [a [ranked|start]].
    + intros r [= <-] _. apply first_available_one.
    + intros r [= <-] _. apply mask_everything_one.
  - intros r. cbn [serveNodeGroups fst snd]. case_decide as Hd; intros [= <-] [Ha|[? [=]]].
    + apply first_available_one.
    + done.
Qed.

(** ** The shared ranking cache *)

(** A configuration: the cache, the background tasks running, as prompt and
    groups, and every ranking a task has stored, with the prompt and the groups
    it answers. *)
Record ai_config := mkAIConfig {
  cf_state : AIState;
  cf_tasks : list (string * list NodeGroupView);
  cf_stored : list (string * list NodeGroupView * list string)
}.

(** Handlers poll and tasks finish in any order, at any time; a poll may carry
    any prompt, and the model may answer anything. *)
Inductive ai_step : ai_config → ai_config → Prop :=
| step_poll st tasks stored prompt groups t :
    ai_step (mkAIConfig st tasks stored)
      (mkAIConfig (ai_poll st prompt t).1
         (match (ai_poll st prompt t).2 with
          | AIWait true => (prompt, groups) :: tasks
          | _ => tasks
          end) stored)
| step_finish st t1 prompt groups t2 stored trace t :
    sound_trace groups trace →
    ai_step (mkAIConfig st (t1 ++ (prompt, groups) :: t2) stored)
      (let st' := ai_finish st prompt groups trace t in
       mkAIConfig st' (t1 ++ t2)
         (if decide (ai_prompt st = prompt) then (prompt, groups, ai_result st') :: stored
          else stored)).

(** A complete ranking: without repetitions, over the providers that had
    capacity, and naming all of them. *)
Definition complete_ranking (groups : list NodeGroupView) (ranked : list string) : Prop :=
  ∀ id, id ∈ ranked ↔ has_capacity groups id.

Record ai_inv (c : ai_config) : Prop := {
  ai_one_task : (length (cf_tasks c) ≤ 1)%nat;
  ai_flag : ai_running (cf_state c) = true ↔ cf_tasks c ≠ [];
  ai_origin : ai_result (cf_state c) ≠ [] →
    ∃ groups, (ai_prompt (cf_state c), groups, ai_result (cf_state c)) ∈ cf_stored c;
  ai_complete : ∀ prompt groups ranked, (prompt, groups, ranked) ∈ cf_stored c →
    complete_ranking groups ranked
}.

Lemma completeRanking_complete ranked groups :
  (∀ id, id ∈ ranked → has_capacity groups id) → complete_ranking groups (completeRanking ranked groups).
Proof.
  intros Hr id. unfold completeRanking.
  assert (∀ l out, id ∈ foldl complete_step out l ↔ id ∈ out ∨ id ∈ l) as Hf.
  { induction l as [|x l IH]; intros out; simpl; [rewrite elem_of_nil; tauto|].
    rewrite IH, elem_of_cons. unfold complete_step. case_decide; [intuition congruence|].
    rewrite elem_of_app, list_elem_of_singleton. tauto. }
  rewrite Hf, DeterministicFallback_elem. split; [|by right]. intros [?|?]; auto.
Qed.

Lemma ai_finish_ranking st prompt groups trace t :
  sound_trace groups trace → ai_prompt st = prompt →
  complete_ranking groups (ai_result (ai_finish st prompt groups trace t)).
Proof.
  intros (_ & Hcap & _) Hp. unfold ai_finish. rewrite decide_True by done. cbn [ai_result].
  apply completeRanking_complete. intros id Hid.
  destruct (tr_Err trace), (tr_Ranked trace) as [|r l] eqn:E;
    try (by apply DeterministicFallback_elem). by apply Hcap.
Qed.

Lemma ai_inv_step c c' : ai_inv c → ai_step c c' → ai_inv c'.
Proof.
  intros [Hone Hflag Horig Hcomp]. destruct 1 as [st tasks stored prompt groups t|
    st t1 prompt groups t2 stored trace t Htr]; simpl in *.
  - unfold ai_poll.
    set (st1 := if decide (ai_prompt st = prompt) then st else mkAI (ai_running st) [] 0 prompt).
    assert (ai_running st1 = ai_running st) as Er by (unfold st1; by case_decide).
    assert (ai_result st1 ≠ [] → ai_prompt st1 = ai_prompt st ∧ ai_result st1 = ai_result st) as Eo
      by (unfold st1; case_decide; simpl; intros Hx; [done|by destruct Hx]).
    assert (ai_result st1 ≠ [] → ∃ groups, (ai_prompt st1, groups, ai_result st1) ∈ stored) as Ho1.
    { intros Hne. destruct (Eo Hne) as [-> E]. rewrite E in *. auto. }
    destruct (negb _ && _); simpl; [split; simpl; try done; by rewrite Er|].
    destruct (ai_running st1) eqn:Ew; simpl.
    + split; simpl; try done. rewrite Ew. by rewrite <-Hflag, <-Er.
    + split; simpl; try done. rewrite <-Er in Hflag.
      destruct tasks as [|tk tks]; [simpl; lia|].
      assert (false = true) by (by apply Hflag). done.
  - assert (t1 = [] ∧ t2 = []) as [-> ->].
    { rewrite length_app in Hone. simpl in Hone.
      destruct t1, t2; simpl in Hone; try lia; done. }
    simpl. set (st' := ai_finish st prompt groups trace t).
    assert (ai_running st' = false ∧ ai_prompt st' = ai_prompt st) as [Er Ep]
      by (unfold st', ai_finish; by case_decide).
    assert (ai_running st' = true ↔ ([] : list (string * list NodeGroupView)) ≠ []) as Hf
      by (by rewrite Er).
    destruct (decide (ai_prompt st = prompt)) as [Hp|Hp].
    + split; simpl; [lia|done| |].
      * intros _. exists groups. rewrite Ep, Hp. constructor.
      * intros p g r [E|Hin]%elem_of_cons; [|eauto]. injection E as -> -> ->.
        by apply ai_finish_ranking.
    + assert (ai_result st' = ai_result st) as E
        by (unfold st', ai_finish; by rewrite decide_False).
      split; simpl; [lia|done| |done]. by rewrite E, Ep.
Qed.

(** C33: However the polls and the background calls interleave, at most one
    language-model call is in flight and the running flag tells whether one is;
    a cached ranking was computed for the very prompt it is cached under, and it
    names exactly the providers that had capacity when that call started. *)
Theorem ai_cache_invariant c :
  rtc ai_step (mkAIConfig ai_init [] []) c → ai_inv c.
Proof.
  intros Hr. assert (ai_inv (mkAIConfig ai_init [] [])) as H0.
  { split; simpl; [lia|done|done|]. by intros ? ? ? ?%elem_of_nil. }
  induction Hr; eauto using ai_inv_step.
Qed.
End LocalApiProofs.
