(* ===== verification/GrpcProofs.v ===== *)
(** * Correctness of the Cluster Autoscaler's provider (GrpcServer) *)
From stdpp Require Import base gmap strings list sorting.
From Stdlib Require Import ZArith Lia.
From S2P Require Import Prelude ApiTypes ConsumerTypes Kube MemServer Effects Chunk Wire.
From S2P Require Import AgentClient Catalog Registry Placement PlacementProofs Prober Selection.
From S2P Require Import ReservationApi AdvertisementApi Brain LocalApi GrpcServer.
Import GoFloat.

Open Scope Z_scope.

Section GrpcProofs.
Context `{Platform}.

(** Any agent behind the loopback API. *)
Definition any_agent : list (event agent_answer) → ∀ c, agent_answer c → list (event agent_answer) → Prop :=
  traced (λ _ _ _, True).

(** The calls of a trace, with their answers. *)
Definition posts (t : list (event agent_answer)) :
    list (string * ReservationRequest * (ReservationResponse + CallError)) :=
  omap (λ ev : event agent_answer,
          match ev return option (string * ReservationRequest * (ReservationResponse + CallError)) with
          | existT (AgentPostReservation id req) x => Some (id, req, x)
          | _ => None
          end) t.

Definition deletes (t : list (event agent_answer)) : list (string * (ReleaseResponse + CallError)) :=
  omap (λ ev : event agent_answer,
          match ev return option (string * (ReleaseResponse + CallError)) with
          | existT (AgentDeleteReservation id) x => Some (id, x)
          | _ => None
          end) t.

Definition fetches (t : list (event agent_answer)) : list (NodeGroupListResponse + CallError) :=
  omap (λ ev : event agent_answer,
          match ev return option (NodeGroupListResponse + CallError) with
          | existT (AgentNodeGroups _) x => Some x
          | _ => None
          end) t.

Definition succeeded {A B} (x : A + B) : Prop := match x with inl _ => True | inr _ => False end.

Section OnServer.
Context (C : contract).

Lemma ewp_agent e Q m t : (∀ x, Q x m (t ++ [existT e x])) → ewp C any_agent (agent_ask e) Q m t.
Proof. intros HQ x t' [_ ->]. apply HQ. Qed.

(** The API server is asked only for times and identifiers. *)
Lemma ewp_uuid Q m (t : list (event agent_answer)) :
  (∀ u m', Q u m' t) → ewp C any_agent (api new_uuid) Q m t.
Proof. intros HQ u m' _. apply HQ. Qed.

Lemma ewp_now Q m (t : list (event agent_answer)) :
  (∀ tm m', Q tm m' t) → ewp C any_agent (api now) Q m t.
Proof. intros HQ u m' _. apply HQ. Qed.

(** ** Scale-up *)

(** What a fan-out of [n] chunks of [group] did: reservations of one chunk of
    that group, [n] of them all accepted, or fewer followed by a refusal. *)
Definition fan_out (n : nat) (group : NodeGroupView)
    (ps : list (string * ReservationRequest * (ReservationResponse + CallError))) (o : option Status) :
    Prop :=
  Forall (λ p, p.1.2 = chunk_request group) ps ∧
  match o with
  | None => length ps = n ∧ Forall (λ p, succeeded p.2) ps
  | Some st => ∃ ps0 id e, ps = ps0 ++ [(id, chunk_request group, inr e)] ∧ (length ps0 < n)%nat ∧
      Forall (λ p, succeeded p.2) ps0 ∧ st = mapAgentError e "PostReservation"
  end.

Lemma increase_loop_fan_out n group m t :
  ewp C any_agent (increase_loop n group)
    (λ o _ t', ∃ ps, posts t' = posts t ++ ps ∧ fetches t' = fetches t ∧ fan_out n group ps o) m t.
Proof.
  revert m t. induction n as [|n IH]; intros m t; cbn [increase_loop].
  - exists []. rewrite app_nil_r. split_and!; [done..|]. by repeat constructor.
  - apply ewp_bind, ewp_uuid. intros u m1. apply ewp_bind, ewp_agent. intros x.
    assert (∀ ps : list (string * ReservationRequest * (ReservationResponse + CallError)),
      posts (t ++ [existT (AgentPostReservation ("res-" +:+ u) (chunk_request group)) x]) ++ ps =
      posts t ++ ("res-" +:+ u, chunk_request group, x) :: ps) as Hp.
    { intros ps. unfold posts. rewrite omap_app. simpl. by rewrite <-app_assoc. }
    assert (fetches (t ++ [existT (AgentPostReservation ("res-" +:+ u) (chunk_request group)) x]) =
      fetches t) as Hf by (unfold fetches; rewrite omap_app; simpl; by rewrite app_nil_r).
    destruct x as [resp|e].
    + eapply ewp_mono; [|apply IH]. intros o m2 t2 (ps & E & Ef & Hreq & Ho).
      exists (("res-" +:+ u, chunk_request group, inl resp) :: ps).
      split_and!; [by rewrite E|by rewrite Ef|]. split; [by constructor|].
      destruct o as [st|].
      * destruct Ho as (ps0 & id & e & -> & Hl & Hs & ->).
        exists (("res-" +:+ u, chunk_request group, inl resp) :: ps0), id, e.
        split_and!; [done|simpl; lia|by constructor|done].
      * destruct Ho as [Hl Hs]. split; [simpl; lia|by constructor].
    + exists [("res-" +:+ u, chunk_request group, inr e)]. split_and!; [|done|].
      * specialize (Hp []). by rewrite app_nil_r in Hp.
      * split; [by repeat constructor|]. exists [], ("res-" +:+ u), e.
        split_and!; [done|simpl; lia|constructor|done].
Qed.

(** A scale-up asks the agent for one-chunk reservations of exactly the
    requested group and nothing else.  It succeeds only after exactly [delta]
    of them were accepted; otherwise it stops at the first refusal, which it
    reports, having placed fewer than [delta]; and it places none when the
    request is malformed or the group is not advertised. *)
Theorem NodeGroupIncreaseSize_fan_out s id delta m :
  ewp C any_agent (NodeGroupIncreaseSize s id delta)
    (λ o _ t,
       (posts t = [] ∧ o ≠ None) ∨
       (0 < delta ∧ id ≠ "" ∧ ∃ resp group, fetches t = [inl resp] ∧
          group ∈ nl_NodeGroups resp ∧ ng_ID group = id ∧
          fan_out (Z.to_nat delta) group (posts t) o)) m [].
Proof.
  unfold NodeGroupIncreaseSize.
  case_decide as Hid; [by left|]. destruct (Z.leb_spec delta 0); [by left|].
  destruct (gs_hasAgent s); [|by left]. cbn [negb]. apply ewp_bind.
  unfold findNodeGroup. apply ewp_bind, ewp_agent. intros [resp|e]; cbn [app]; [|by left].
  unfold group_by_id. destruct (list_find _ _) as [[i ng]|] eqn:E; [|by left].
  apply list_find_Some in E as (Hi & Hng & _). cbn [fmap option_fmap option_map snd].
  apply ewp_ret. eapply ewp_mono; [|apply increase_loop_fan_out].
  intros o m1 t (ps & E & Ef & Hf). right. simpl in E, Ef. split_and!; [done..|].
  exists resp, ng. rewrite E, Ef. split_and!; [done|by eapply list_elem_of_lookup_2|done..].
Qed.

(** ** Scale-down *)
Lemma release_loop_calls ids m t :
  ewp C any_agent (release_loop ids)
    (λ o _ t', ∃ ds, deletes t' = deletes t ++ ds ∧
       match o with
       | None => ds.*1 = ids ∧ Forall (λ d, succeeded d.2) ds
       | Some _ => ∃ ds0 id e l2, ds = ds0 ++ [(id, inr e)] ∧ ids = ds0.*1 ++ id :: l2 ∧
           Forall (λ d, succeeded d.2) ds0
       end) m t.
Proof.
  revert m t. induction ids as [|id ids IH]; intros m t; cbn [release_loop].
  - exists []. rewrite app_nil_r. by repeat constructor.
  - apply ewp_bind, ewp_agent. intros x.
    assert (∀ ds : list (string * (ReleaseResponse + CallError)),
      deletes (t ++ [existT (AgentDeleteReservation id) x]) ++ ds = deletes t ++ (id, x) :: ds) as Hd.
    { intros ds. unfold deletes. rewrite omap_app. simpl. by rewrite <-app_assoc. }
    destruct x as [r|e].
    + eapply ewp_mono; [|apply IH]. intros o m1 t1 (ds & E & Ho).
      exists ((id, inl r) :: ds). split; [by rewrite E|]. destruct o as [st|].
      * destruct Ho as (ds0 & i & e & l2 & -> & -> & Hs).
        exists ((id, inl r) :: ds0), i, e, l2. split_and!; [done..|by constructor].
      * destruct Ho as [<- Hs]. split; [done|by constructor].
    + exists [(id, inr e)]. specialize (Hd []). rewrite app_nil_r in Hd. split; [done|].
      exists [], id, e, ids. split_and!; [done..|constructor].
Qed.

(** The reservations a scale-down of [nodes] has to release: those of the named
    virtual nodes, none twice. *)
Lemma collect_releases_spec byName nodes acc ids :
  NoDup acc → collect_releases byName nodes acc = inl ids →
  NoDup ids ∧
  (∀ r, r ∈ ids ↔ r ∈ acc ∨ ∃ n, Some n ∈ nodes ∧ byName !! n = Some r) ∧
  (∀ n, n ∈ nodes → ∃ name r, n = Some name ∧ name ≠ "" ∧ byName !! name = Some r ∧ r ≠ "").
Proof.
  revert acc. induction nodes as [|[name|] nodes IH]; intros acc Hnd; cbn [collect_releases]; [| |done].
  - intros [= <-]. split_and!; [done| |by intros n ?%elem_of_nil].
    intros r. split; [by left|]. intros [?|(n & ?%elem_of_nil & _)]; done.
  - case_decide as Hn; [done|]. destruct (byName !! name) as [r0|] eqn:El; [|done].
    case_decide as Hr; [done|]. intros E.
    set (acc' := if decide (r0 ∈ acc) then acc else acc ++ [r0]) in *.
    assert (NoDup acc') as Hnd'.
    { unfold acc'. case_decide; [done|]. apply NoDup_app. split_and!; [done| |apply NoDup_singleton].
      intros x Hx ->%list_elem_of_singleton. done. }
    assert (∀ r, r ∈ acc' ↔ r ∈ acc ∨ r = r0) as Hm.
    { intros r. unfold acc'. case_decide; [intuition congruence|].
      by rewrite elem_of_app, list_elem_of_singleton. }
    destruct (IH acc' Hnd' E) as (H1 & H2 & H3). split_and!; [done| |].
    + intros r. rewrite H2, Hm. split.
      * intros [[?| ->]|(n & Hin & Hl)]; [by left|right|right].
        -- exists name. by split; [constructor|].
        -- exists n. by split; [constructor|].
      * intros [?|(n & [E1|Hin]%elem_of_cons & Hl)]; [by left; left|left; right|right; by exists n].
        congruence.
    + intros n [->|Hin]%elem_of_cons; [|by apply H3]. by exists name, r0.
Qed.

(** A scale-down releases, once each, exactly the reservations of the nodes
    it was given: when it succeeds every one of them was released and no other
    was touched; when a node is unknown or unnamed nothing is released at all;
    and every release asked for belongs to one of the given nodes. *)
Theorem NodeGroupDeleteNodes_releases `{GoRuntime} `{!RuntimeLaws} s id nodes m :
  ewp C any_agent (NodeGroupDeleteNodes s id nodes)
    (λ o _ t,
       (deletes t = [] ∧ o ≠ None) ∨
       ∃ vns ids, t !! 0%nat = Some (existT AgentVirtualNodes (inl vns)) ∧ NoDup ids ∧
         (∀ r, r ∈ ids ↔ ∃ n, Some n ∈ nodes ∧ by_name vns !! n = Some r) ∧
         (∀ r, r ∈ (deletes t).*1 → r ∈ ids) ∧ NoDup (deletes t).*1 ∧
         (o = None → (deletes t).*1 ≡ₚ ids ∧ Forall (λ d, succeeded d.2) (deletes t))) m [].
Proof.
  unfold NodeGroupDeleteNodes. case_decide; [by left|]. destruct nodes as [|n0 nodes]; [by left|].
  destruct (gs_hasAgent s); [|by left]. cbn [negb]. apply ewp_bind, ewp_agent.
  intros [vns|e]; cbn [app]; [|by left].
  destruct (collect_releases (by_name vns) (n0 :: nodes) []) as [ids|st] eqn:E; [|by left].
  destruct (collect_releases_spec _ _ _ _ (NoDup_nil_2) E) as (Hnd & Hids & _).
  assert (∀ r, r ∈ ids ↔ ∃ n, Some n ∈ n0 :: nodes ∧ by_name vns !! n = Some r) as Hids'
    by (intros r; rewrite Hids, elem_of_nil; tauto).
  set (t0 := [existT AgentVirtualNodes (inl vns)]).
  assert (∀ p t, ewp C any_agent p (λ (_ : option Status) _ t', ∃ l, t' = t ++ l) m t) as Hext.
  { intros p t. revert m t. induction p as [a|r k IH|c k IH]; intros m0 t; simpl.
    - exists []. by rewrite app_nil_r.
    - intros x m' _. apply IH.
    - intros x t' [_ ->]. eapply ewp_mono; [|apply IH]. intros a m' t'' [l ->].
      exists (existT c x :: l). by rewrite <-app_assoc. }
  eapply ewp_mono; [|apply ewp_and; [apply release_loop_calls|apply (Hext _ t0)]].
  intros o m1 t [(ds & Ed & Ho) [l ->]]. right. exists vns, ids.
  change (deletes t0) with (@nil (string * (ReleaseResponse + CallError))) in Ed. cbn [app] in Ed.
  assert (range_keys 0 ids ≡ₚ ids) as Hp by apply range_keys_perm.
  split_and!; [done|done|done|..]; rewrite Ed.
  - intros r Hr. destruct o as [st|].
    + destruct Ho as (ds0 & i & e & l2 & -> & Ek & _). rewrite <-Hp, Ek.
      rewrite fmap_app in Hr. set_solver.
    + destruct Ho as [Ek _]. by rewrite <-Hp, <-Ek.
  - assert (NoDup (range_keys 0 ids)) as Hnk by (by rewrite Hp). destruct o as [st|].
    + destruct Ho as (ds0 & i & e & l2 & -> & Ek & _). rewrite fmap_app. simpl.
      rewrite Ek, cons_middle, app_assoc in Hnk. by apply NoDup_app in Hnk as [? _].
    + by destruct Ho as [-> _].
  - intros ->. destruct Ho as [-> Hs]. done.
Qed.

(** ** The node-group cache *)

(** The list the read RPCs share is fetched at most once per two seconds
    and never older: a read either answers from the cache, without any call and
    no more than [nodeGroupsCacheTTL] after it was filled, or makes exactly one
    call, and then caches what it got; an error is not cached. *)
Theorem cachedNodeGroups_fresh s m :
  ewp C any_agent (cachedNodeGroups s)
    (λ o _ t, ∃ tm,
       (∃ resp, o = (s, inl resp) ∧ t = [] ∧ gs_ngCache s = Some resp ∧
          tm - gs_ngCacheAt s < nodeGroupsCacheTTL) ∨
       (∃ resp, o = (mkGrpcServer (gs_hasAgent s) (Some resp) tm, inl resp) ∧
          t = [existT (AgentNodeGroups None) (inl resp)] ∧
          (gs_ngCache s = None ∨ ∃ t0, nodeGroupsCacheTTL ≤ t0 - gs_ngCacheAt s)) ∨
       (∃ e, o = (s, inr e) ∧ t = [existT (AgentNodeGroups None) (inr e)])) m [].
Proof.
  unfold cachedNodeGroups.
  assert (∀ m, (gs_ngCache s = None ∨ ∃ t0, nodeGroupsCacheTTL ≤ t0 - gs_ngCacheAt s) →
    ewp C any_agent
      (r ← agent_ask (AgentNodeGroups None);
       match (r : NodeGroupListResponse + CallError) with
       | inr err => mret (s, inr err)
       | inl resp => t ← api now; mret (mkGrpcServer (gs_hasAgent s) (Some resp) t, inl resp)
       end) (λ o _ t, ∃ tm,
       (∃ resp, o = (s, inl resp) ∧ t = [] ∧ gs_ngCache s = Some resp ∧
          tm - gs_ngCacheAt s < nodeGroupsCacheTTL) ∨
       (∃ resp, o = (mkGrpcServer (gs_hasAgent s) (Some resp) tm, inl resp) ∧
          t = [existT (AgentNodeGroups None) (inl resp)] ∧
          (gs_ngCache s = None ∨ ∃ t0, nodeGroupsCacheTTL ≤ t0 - gs_ngCacheAt s)) ∨
       (∃ e, o = (s, inr e) ∧ t = [existT (AgentNodeGroups None) (inr e)])) m []) as Hfetch.
  { intros m0 Hold. apply ewp_bind, ewp_agent. intros [resp|e]; cbn [app].
    - apply ewp_bind, ewp_now. intros tm m1. exists tm. right. left. by exists resp.
    - exists 0. right. right. by exists e. }
  destruct (gs_ngCache s) as [c|] eqn:Ec; [|apply Hfetch; by left].
  apply ewp_bind, ewp_now. intros tm m1.
  destruct (Z.ltb_spec (tm - gs_ngCacheAt s) nodeGroupsCacheTTL).
  - exists tm. left. by exists c.
  - apply Hfetch. right. by exists tm.
Qed.
End OnServer.

(** ** Templates *)
Lemma backfill_lookup name q rl n :
  backfill name q rl !! n = if decide (n = name) then Some (default q (rl !! name)) else rl !! n.
Proof.
  unfold backfill. case_decide as E.
  - subst n. destruct (rl !! name) eqn:El; [done|]. by rewrite lookup_insert_eq.
  - destruct (rl !! name); [done|]. by rewrite lookup_insert_ne.
Qed.

Lemma topologyLabels_only group k :
  k ≠ "topology.kubernetes.io/zone" → k ≠ "topology.kubernetes.io/region" →
  topologyLabels group !! k = None.
Proof.
  intros Hz Hr. unfold topologyLabels. destruct (ng_Topology group) as [t|]; [|done].
  repeat case_decide; simpl; rewrite ?lookup_insert_ne by done; done.
Qed.

(** Every template the Cluster Autoscaler simulates on can be scheduled on
    and is fenced: cpu, memory and pods are set, at the chunk's own values when
    the group declares them; the node is Ready; it carries the Liqo taint
    whatever taints the group declares, and the virtual-node label unless the
    group overrides it. *)
Theorem buildNodeTemplate_admissible group :
  let node := buildNodeTemplate group in
  (∀ name, name ∈ [ResourceCPU; ResourceMemory; ResourcePods] →
     is_Some (no_Allocatable (cr_status node) !! name)) ∧
  (∀ name q, ng_ChunkResources group !! name = Some q →
     no_Allocatable (cr_status node) !! name = Some q) ∧
  no_Capacity (cr_status node) = no_Allocatable (cr_status node) ∧
  (∃ t, t ∈ no_Taints (cr_spec node) ∧ tn_Key t = LiqoNotAllowedTaintKey ∧
     tn_Effect t = LiqoNotAllowedTaintEffect) ∧
  (∀ t, t ∈ ng_Taints group → t ∈ no_Taints (cr_spec node)) ∧
  (ng_Labels group !! LiqoNodeTypeLabel = None →
     m_Labels (cr_meta node) !! LiqoNodeTypeLabel = Some LiqoNodeTypeValue).
Proof.
  cbv zeta. unfold buildNodeTemplate. cbn [cr_status cr_spec cr_meta no_Allocatable no_Capacity no_Taints].
  split_and!.
  - intros name Hn. unfold nonEmptyResources. rewrite !backfill_lookup.
    repeat case_decide; try done. set_solver.
  - intros name q Hq. unfold nonEmptyResources. rewrite !backfill_lookup.
    repeat case_decide; subst; rewrite ?Hq; done.
  - done.
  - unfold ensureLiqoTaint. destruct (existsb _ _) eqn:E.
    + apply existsb_exists in E as (t & Ht & Hk). fed_bools. exists t. by rewrite list_elem_of_In.
    + eexists. split; [apply elem_of_app; right; by constructor|done].
  - intros t Ht. unfold ensureLiqoTaint. case_match; [done|]. apply elem_of_app. by left.
  - intros Hno. simpl. unfold mergeLabels. rewrite lookup_union_r by (by apply topologyLabels_only).
    rewrite lookup_union_r by done. unfold template_defaults.
    rewrite !lookup_insert_ne by done. apply lookup_insert_eq.
Qed.
End GrpcProofs.
