(* ===== verification/ResourceRequestProofs.v ===== *)
(** * Correctness of the ResourceRequest reconciler *)
From stdpp Require Import base gmap strings list.
From Stdlib Require Import ZArith Lia.
From S2P Require Import Prelude ApiTypes ConsumerTypes Kube MemServer Effects Chunk Wire.
From S2P Require Import AgentClient Catalog Registry Placement PlacementProofs ReservationApi.
From S2P Require Import AdvertisementApi Brain LocalApi GrpcServer ReservationController.
From S2P Require Import ResourceRequestController GrpcProofs.
Import GoFloat.

Open Scope Z_scope.

Section Sizing.
Context `{Platform} `{GoRuntime} `{!RuntimeLaws}.

(** [k] chunks hold the request. *)
Definition covers (req chunk : ResourceList) (k : Z) : Prop :=
  ∀ name q, req !! name = Some q → 0 < q_MilliValue q →
    is_Some (chunk !! name) ∧ q_MilliValue q ≤ k * q_MilliValue (rl_get chunk name).

(** The arithmetic of [chunksFor] stays within its integer types. *)
Definition small_enough (req chunk : ResourceList) : Prop :=
  ∀ name q, req !! name = Some q → 0 < q_MilliValue q → 0 < q_MilliValue (rl_get chunk name) →
    q_MilliValue q + q_MilliValue (rl_get chunk name) ≤ GoInt.int64_max ∧
    q_MilliValue q ≤ GoInt.int32_max * q_MilliValue (rl_get chunk name).

Definition asked (req : ResourceList) (name : string) : Prop :=
  ∃ q, req !! name = Some q ∧ 0 < q_MilliValue q.

Definition offered (chunk : ResourceList) (name : string) : Prop :=
  is_Some (chunk !! name) ∧ 0 < q_MilliValue (rl_get chunk name).

Lemma ceil_div_le a b k : 0 < b → (a + b - 1) / b ≤ k ↔ a ≤ k * b.
Proof.
  intros Hb. split; intros Hk.
  - pose proof (Z.mul_succ_div_gt (a + b - 1) b Hb). nia.
  - apply Z.lt_succ_r, Z.div_lt_upper_bound; [done|]. nia.
Qed.

(** The loop computes the least bound above [n] and every quotient. *)
Lemma chunks_loop_spec req chunk names n :
  (∀ name, name ∈ names → is_Some (req !! name)) → small_enough req chunk → 0 ≤ n ≤ GoInt.int32_max →
  match chunks_loop req chunk names n with
  | None => ∃ name, name ∈ names ∧ asked req name ∧ ¬ offered chunk name
  | Some c => n ≤ c ≤ GoInt.int32_max ∧
      (∀ name, name ∈ names → asked req name → offered chunk name) ∧
      (∀ k, c ≤ k ↔ n ≤ k ∧ ∀ name, name ∈ names → asked req name →
         q_MilliValue (rl_get req name) ≤ k * q_MilliValue (rl_get chunk name))
  end.
Proof.
  intros Hin Hsm. revert n Hin. induction names as [|name names IH]; intros n Hin Hn; cbn [chunks_loop].
  - split_and!; [lia..|by intros ? ?%elem_of_nil|]. intros k. split; [|tauto].
    intros ?. split; [done|]. by intros ? ?%elem_of_nil.
  - destruct (Hin name) as [q Hq]; [by constructor|].
    assert (∀ x, x ∈ names → is_Some (req !! x)) as Hin' by (intros x Hx; apply Hin; by constructor).
    assert (rl_get req name = q) as Eq by (unfold rl_get; by rewrite Hq).
    rewrite Eq. destruct (Z.leb_spec (q_MilliValue q) 0) as [Hz|Hz].
    + assert (¬ asked req name) as Hna by (intros (q' & E & ?); simplify_eq; lia).
      specialize (IH n Hin' Hn). destruct (chunks_loop _ _ _ _) as [c|].
      * destruct IH as (Hk1 & Hk2 & Hk3). split_and!; [lia..| |].
        -- intros x [->|Hx]%elem_of_cons Ha; [done|by apply Hk2].
        -- intros k. rewrite Hk3. apply and_iff_compat_l. split; intros Hk x.
           ++ intros [->|Hx]%elem_of_cons Ha; [done|by apply Hk].
           ++ intros Hx. apply Hk. by constructor.
      * destruct IH as (x & Hx & ?). exists x. split; [by constructor|done].
    + assert (asked req name) as Ha by (by exists q).
      destruct (_ || _) eqn:Eo.
      { exists name. split_and!; [by constructor|done|]. intros [[c Hc] Hpos].
        apply orb_true_iff in Eo as [Eo|Eo]; [|lia]. apply bool_decide_eq_true in Eo. congruence. }
      apply orb_false_iff in Eo as [Eo1 Eo2]. apply bool_decide_eq_false in Eo1.
      assert (0 < q_MilliValue (rl_get chunk name)) as Hcv by lia.
      destruct (Hsm _ _ Hq Hz Hcv) as [Hs1 Hs2]. set (cv := q_MilliValue (rl_get chunk name)) in *.
      assert (offered chunk name) as Hoff by (split; [by apply not_eq_None_Some|done]).
      rewrite GoInt.to_int64_id
        by (unfold GoInt.is_int64, GoInt.int64_min, GoInt.int64_max in *; lia).
      rewrite Z.quot_div_nonneg by lia.
      set (need := (q_MilliValue q + cv - 1) / cv).
      assert (∀ k, need ≤ k ↔ q_MilliValue q ≤ k * cv) as Hneed by (intros; by apply ceil_div_le).
      assert (need ≤ GoInt.int32_max) by (apply Hneed; lia).
      set (n' := if n <? need then need else n).
      assert (∀ k, n' ≤ k ↔ n ≤ k ∧ need ≤ k) as Hn' by (intros k; unfold n'; case_match; lia).
      assert (0 ≤ n' ≤ GoInt.int32_max) by (unfold n'; case_match; lia).
      specialize (IH n' Hin' ltac:(done)). destruct (chunks_loop _ _ _ _) as [c|].
      * destruct IH as (Hk1 & Hk2 & Hk3). destruct (proj1 (Hn' c)) as [? ?]; [lia|].
        split_and!; [lia..| |].
        -- intros x [->|Hx]%elem_of_cons Hx'; [done|by apply Hk2].
        -- intros k. rewrite Hk3, Hn', Hneed. split.
           ++ intros [[? Hk] Hrest]. split; [done|]. intros x [->|Hx]%elem_of_cons Hx'.
              ** by rewrite Eq.
              ** by apply Hrest.
           ++ intros [? Hrest]. split_and!; [done| |].
              ** rewrite <-Eq. apply Hrest; [by constructor|done].
              ** intros x Hx. apply Hrest. by constructor.
      * destruct IH as (x & Hx & ?). exists x. split; [by constructor|done].
Qed.

(** The chunk count a request is rounded up to is the least number of
    chunks that holds it: a positive result covers every requested resource and
    one chunk fewer does not; and the result is 0 exactly when nothing is
    requested or the chunk lacks something that is.  It does not depend on the
    order in which the request's resources are visited. *)
Theorem chunksFor_least req chunk :
  small_enough req chunk →
  let n := chunksFor req chunk in
  0 ≤ n ≤ GoInt.int32_max ∧
  (0 < n → ∀ k, covers req chunk k ↔ n ≤ k) ∧
  (n = 0 ↔ (∀ name, ¬ asked req name) ∨ ∃ name, asked req name ∧ ¬ offered chunk name).
Proof.
  intros Hsm. cbv zeta. unfold chunksFor.
  set (names := range_keys 0 (map_to_list req).*1).
  assert (∀ name, name ∈ names ↔ is_Some (req !! name)) as Hnames.
  { intros name. unfold names. rewrite range_keys_perm, list_elem_of_fmap. split.
    - intros ([x q] & -> & Hx). apply elem_of_map_to_list in Hx. by exists q.
    - intros [q Hq]. exists (name, q). by rewrite elem_of_map_to_list. }
  assert (∀ name, asked req name → name ∈ names) as Hask
    by (intros name (q & Hq & _); apply Hnames; by exists q).
  pose proof (chunks_loop_spec req chunk names 0 (λ x, proj1 (Hnames x)) Hsm) as Hl.
  specialize (Hl ltac:(unfold GoInt.int32_max; lia)).
  destruct (chunks_loop _ _ _ _) as [c|].
  - destruct Hl as (Hc & Hoff & Hk). destruct (Z.ltb_spec c 1) as [Hc1|Hc1].
    + split_and!; [unfold GoInt.int32_max; lia..|]. split; [|done]. intros _. left.
      intros name (q & Hq & Hz). assert (c ≤ 0) as Hc0 by lia. apply Hk in Hc0 as [_ Hc0].
      specialize (Hc0 name (Hask name ltac:(by exists q)) ltac:(by exists q)).
      unfold rl_get at 1 in Hc0. rewrite Hq in Hc0. simpl in Hc0. lia.
    + rewrite GoInt.to_int32_id
        by (unfold GoInt.is_int32, GoInt.int32_min, GoInt.int32_max in *; lia).
      split_and!; [lia..| |].
      * intros _ k. unfold covers. split.
        -- intros Hcov. apply Hk. split.
           ++ destruct (decide (0 ≤ k)) as [?|Hneg]; [done|]. exfalso.
              assert (¬ c ≤ 0) as Hn0 by lia. apply Hn0, Hk. split; [done|].
              intros name Hn (q & Hq & Hz). destruct (Hcov _ _ Hq Hz) as [_ Hle].
              destruct (Hoff name Hn) as [_ Hpos]; [by exists q|]. nia.
           ++ intros name Hn (q & Hq & Hz). destruct (Hcov _ _ Hq Hz) as [_ Hle].
              unfold rl_get at 1. by rewrite Hq.
        -- intros [_ Hck]%Hk name q Hq Hz.
           assert (asked req name) as Ha by (by exists q).
           split; [by apply Hoff; auto|]. specialize (Hck name (Hask _ Ha) Ha).
           unfold rl_get at 1 in Hck. by rewrite Hq in Hck.
      * split; [lia|]. intros [Hno|(name & Ha & Hnot)].
        -- exfalso. assert (¬ c ≤ 0) as Hn0 by lia. apply Hn0, Hk. split; [done|].
           intros name _ Ha. by destruct (Hno name).
        -- destruct Hnot. by apply Hoff; auto.
  - destruct Hl as (name & Hn & Ha & Hno).
    split_and!; [unfold GoInt.int32_max; lia..|]. split; [|done]. intros _. right. by exists name.
Qed.

(** A group the request fits in, and its head-room. *)
Definition headroom (g : NodeGroupView) : Z := GoInt.sub32 (ng_MaxSize g) (ng_CurrentReserved g).
Definition fits (req : ResourceList) (g : NodeGroupView) : Prop :=
  (gpuRequested req = true ↔ ng_Type g = ChunkTypeGPU) ∧
  0 < chunksFor req (ng_ChunkResources g) ≤ headroom g.

Lemma pick_step_cases req best g :
  (fits req g ∧ (∀ b, best = Some b → b.2 < headroom g) ∧
   pick_step (gpuRequested req) req best g =
     Some (g, chunksFor req (ng_ChunkResources g), headroom g)) ∨
  ((fits req g → ∃ b, best = Some b ∧ headroom g ≤ b.2) ∧
   pick_step (gpuRequested req) req best g = best).
Proof.
  unfold pick_step, fits. fold (headroom g).
  assert (Bool.eqb (gpuRequested req) (bool_decide (ng_Type g = ChunkTypeGPU)) = true ↔
          (gpuRequested req = true ↔ ng_Type g = ChunkTypeGPU)) as Ht.
  { rewrite Bool.eqb_true_iff. destruct (gpuRequested req); case_bool_decide; intuition congruence. }
  destruct (Bool.eqb _ _); cbn [negb]; [|right; split; [intros [?%Ht _]; done|done]].
  destruct (Z.leb_spec (headroom g) 0); [right; split; [intros [_ ?]; lia|done]|].
  destruct (Z.leb_spec (chunksFor req (ng_ChunkResources g)) 0); cbn [orb];
    [right; split; [intros [_ ?]; lia|done]|].
  destruct (Z.ltb_spec (headroom g) (chunksFor req (ng_ChunkResources g)));
    [right; split; [intros [_ ?]; lia|done]|].
  destruct best as [[[b c] a]|]; [destruct (Z.ltb_spec a (headroom g))|].
  - left. split_and!; [by apply Ht|lia|lia| |done]. intros ? [= <-]. done.
  - right. split; [|done]. intros _. by exists (b, c, a).
  - left. split_and!; [by apply Ht|lia|lia|done|done].
Qed.

Lemma pick_from groups req :
  match pickProviderAndSize groups req with
  | None => True
  | Some (g, n) => g ∈ groups ∧ fits req g ∧ n = chunksFor req (ng_ChunkResources g)
  end.
Proof.
  unfold pickProviderAndSize. induction groups as [|g groups IH] using rev_ind; simpl; [done|].
  rewrite foldl_snoc. destruct (pick_step_cases req
    (foldl (pick_step (gpuRequested req) req) None groups) g) as [(Hf & _ & ->)|[_ ->]]; simpl.
  - split_and!; [|done..]. apply elem_of_app. right. by constructor.
  - destruct (foldl _ _ _) as [[[b c] a]|]; simpl in *; [|done].
    destruct IH as (? & ? & ?). split_and!; [|done..]. apply elem_of_app. by left.
Qed.

(** A manual request goes to the group with the most head-room among those
    of the right type whose free chunks hold it, the first such group on a tie;
    the count is the request's size in that group's chunks; and no group is
    chosen only when none fits. *)
Theorem pickProviderAndSize_best groups req :
  match pickProviderAndSize groups req with
  | None => ∀ g, g ∈ groups → ¬ fits req g
  | Some (g, n) => ∃ l1 l2, groups = l1 ++ g :: l2 ∧ fits req g ∧
      n = chunksFor req (ng_ChunkResources g) ∧
      (∀ g', g' ∈ l1 → fits req g' → headroom g' < headroom g) ∧
      (∀ g', g' ∈ l2 → fits req g' → headroom g' ≤ headroom g)
  end.
Proof.
  unfold pickProviderAndSize.
  induction groups as [|g groups IH] using rev_ind; simpl; [by intros ? ?%elem_of_nil|].
  rewrite foldl_snoc.
  set (best := foldl (pick_step (gpuRequested req) req) None groups) in *.
  assert (∀ b, best = Some b → b.2 = headroom b.1.1) as Hb.
  { unfold best. clear. induction groups as [|g groups IH] using rev_ind; [done|].
    rewrite foldl_snoc. intros b Eb.
    destruct (pick_step_cases req (foldl (pick_step (gpuRequested req) req) None groups) g)
      as [(_ & _ & E)|[_ E]]; rewrite E in Eb; [by simplify_eq|by apply IH]. }
  destruct (pick_step_cases req best g) as [(Hfit & Hlt & ->)|[Hno ->]].
  - cbn [fmap option_fmap option_map fst]. exists groups, []. split_and!; [done|done|done| |set_solver].
    intros g' Hg' Hf. destruct best as [[[b c] a]|]; simpl in IH.
    + destruct IH as (l1 & l2 & -> & _ & _ & Hk1 & Hk2).
      specialize (Hlt _ eq_refl). specialize (Hb _ eq_refl). simpl in *.
      apply elem_of_app in Hg' as [Hg'|[->|Hg']%elem_of_cons]; [|lia|].
      * specialize (Hk1 _ Hg' Hf). lia.
      * specialize (Hk2 _ Hg' Hf). lia.
    + by destruct (IH g' Hg').
  - destruct best as [[[b c] a]|]; simpl in *.
    + destruct IH as (l1 & l2 & -> & Hf & -> & Hk1 & Hk2). exists l1, (l2 ++ [g]).
      split_and!; [by rewrite <-app_assoc|done|done|done|].
      intros g2 [Hg2| ->%list_elem_of_singleton]%elem_of_app Hf2; [by apply Hk2|].
      destruct (Hno Hf2) as (? & [= <-] & Hle). specialize (Hb _ eq_refl). simpl in *. lia.
    + intros g2 [Hg2| ->%list_elem_of_singleton]%elem_of_app; [by apply IH|].
      intros Hf. by destruct (Hno Hf) as (? & ? & _).
Qed.
End Sizing.

(** ** The life of a request *)
Section LifeCycle.
Context `{Platform} `{GoRuntime}.

(** The agent reports the reservation gone. *)
Definition released (x : ReleaseResponse + CallError) : bool :=
  match x with inl _ => true | inr e => IsMissing e end.

(** The reservations a trace may have left behind: every one asked for, whatever
    the answer, that was not released since. *)
Definition outstanding_step (s : gset string) (ev : event agent_answer) : gset string :=
  match ev with
  | existT (AgentPostReservation id _) _ => {[id]} ∪ s
  | existT (AgentDeleteReservation id) x =>
      if released (x : ReleaseResponse + CallError) then s ∖ {[id]} else s
  | _ => s
  end.
Definition outstanding (t : list (event agent_answer)) : gset string :=
  foldl outstanding_step ∅ t.

Lemma outstanding_snoc t ev : outstanding (t ++ [ev]) = outstanding_step (outstanding t) ev.
Proof. apply foldl_snoc. Qed.

(** The reservation a request is entitled to: the one its status names, or the
    first one. *)
Definition current_id (rr : ResourceRequest) : string :=
  if decide (rrt_ReservationID (cr_status rr) = "") then "mr-" +:+ m_UID (cr_meta rr)
  else rrt_ReservationID (cr_status rr).

Lemma current_id_non_empty rr : current_id rr ≠ "".
Proof. unfold current_id. by case_decide. Qed.

Abbreviation rr_key ns name := ((KResourceRequest, ns, name) : Key).

(** The state after a round: a stored request owns all that is outstanding; one
    whose finalizer let it go left nothing, if its status named a reservation. *)
Definition accounted (ns name : string) (had : bool) (m : store) (t : list (event agent_answer)) : Prop :=
  store_wf m ∧
  match objs m !! rr_key ns name with
  | Some o => ∃ rr, o = ORR rr ∧ outstanding t ⊆ {[current_id rr]}
  | None => had = false ∨ outstanding t = ∅
  end.

Section Round.
Context (rr : ResourceRequest).
Let key : Key := rr_key (cr_Namespace rr) (cr_Name rr).

(** [rr] is what is stored. *)
Definition stored_in (m : store) : Prop := store_wf m ∧ objs m !! key = Some (ORR rr).

(** A write that may have moved on to the reservation [rr] is entitled to. *)
Definition still_entitled (m : store) : Prop :=
  store_wf m ∧ ∃ rr', objs m !! key = Some (ORR rr') ∧ current_id rr' = current_id rr.

Lemma stored_entitled m : stored_in m → still_entitled m.
Proof. intros [Hwf Hl]. split; [done|]. by exists rr. Qed.

Lemma entitled_accounted had m t :
  still_entitled m → outstanding t ⊆ {[current_id rr]} →
  accounted (cr_Namespace rr) (cr_Name rr) had m t.
Proof.
  intros [Hwf (rr' & Hl & Hid)] Ho. split; [done|]. fold key. rewrite Hl. exists rr'.
  by rewrite Hid.
Qed.

Lemma wps_status_stored st (Q : Res ResourceRequest → store → Prop) m :
  stored_in m →
  (∀ x m', store_wf m' → (m' = m ∨ ∃ rr', objs m' !! key = Some (ORR rr') ∧
     m_UID (cr_meta rr') = m_UID (cr_meta rr) ∧ cr_status rr' = st) → Q x m') →
  wp serves (status_update (cr_set_status st rr)) Q m.
Proof.
  intros [Hwf Hl] HQ. apply (wps_status_current rr); [done|done|done|..].
  - intros rv Hrv a' Hwf'. apply HQ; [done|]. right. exists a'. split_and!; [|done..].
    unfold put; simpl. apply lookup_insert_eq.
  - intros e. apply HQ; [done|by left].
Qed.

Lemma wps_writePhase phase msg resID provider count m :
  stored_in m → resID = "" ∨ resID = current_id rr →
  wp serves (writePhase rr phase msg resID provider count) (λ _ m', still_entitled m') m.
Proof.
  intros Hst Hid. unfold writePhase. case_match; [by apply stored_entitled|].
  assert (∀ lt, wp serves
    (x ← status_update (cr_set_status
          (mkRRStatus phase (non_empty resID (rrt_ReservationID (cr_status rr)))
             (non_empty provider (rrt_ProviderClusterID (cr_status rr)))
             (if count =? 0 then rrt_ChunkCount (cr_status rr) else count)
             (rrt_MigrationCount (cr_status rr)) msg lt) rr);
     mret (result_err x)) (λ _ m', still_entitled m') m) as Hw.
  { intros lt. apply wp_bind, wps_status_stored; [done|].
    intros x m' Hwf [->|(rr' & Hl & Hu & Hs)]; [by apply stored_entitled|].
    split; [done|]. exists rr'. split; [done|]. unfold current_id. rewrite Hs, Hu.
    cbn [rrt_ReservationID]. unfold non_empty. destruct (decide (resID = "")) as [E|E]; [done|].
    rewrite decide_False by done. by destruct Hid. }
  apply wp_bind. case_decide; [apply Hw|]. intros t m1 ->. apply Hw.
Qed.

Lemma wps_then {A B} (p : prog A) (f : A → B) P m :
  wp serves p (λ _ m', P m') m → wp serves (x ← p; mret (f x)) (λ _ m', P m') m.
Proof. intros Hp. apply wp_bind. eapply wp_mono; [|exact Hp]. done. Qed.

Lemma wps_hold m : stored_in m → wp serves (holdReservation rr) (λ _ m', still_entitled m') m.
Proof.
  intros Hst. unfold holdReservation. apply wp_bind.
  eapply wp_mono; [|apply (wps_spares (λ k, k = key)); [apply Hst|]].
  - intros x m1 [Hwf1 Hsame]. assert (stored_in m1) as Hst1.
    { split; [done|]. rewrite Hsame by done. apply Hst. }
    destruct x as [n|e]; [|by apply stored_entitled].
    case_match; apply wps_then, wps_writePhase; auto.
  - assert (∀ name, spares (λ k, k = key) (disableScaleDown name)) as Hd.
    { intros name. unfold disableScaleDown. split; [done|]. intros x. simpl.
      destruct (decode x) as [node|e]; [|done]. case_decide; [done|]. split; [|done].
      simpl. by intros [=]. }
    assert (∀ l n, spares (λ k, k = key) (protect_loop l n)) as Hl.
    { induction l as [|v l IH]; intros n; cbn [protect_loop]; [done|]. case_decide; [apply IH|].
      apply spares_bind; [apply Hd|]. intros [?|?]; [apply IH|done]. }
    split; [done|]. intros [l|e]; [apply Hl|done].
Qed.

(** One round of the whole reconciler on a stored request. *)
Let ok (m : store) (t : list (event agent_answer)) : Prop :=
  accounted (cr_Namespace rr) (cr_Name rr)
    (bool_decide (rrt_ReservationID (cr_status rr) ≠ "")) m t.

Lemma ewp_entitled {A} (p : prog A) m t :
  wp serves p (λ _ m', still_entitled m') m → outstanding t ⊆ {[current_id rr]} →
  ewp serves any_agent (api p) (λ _ m' t', ok m' t') m t.
Proof.
  intros Hp Ho. apply ewp_api. eapply wp_mono; [|exact Hp].
  intros a m' Hm'. by apply entitled_accounted.
Qed.

Lemma ewp_entitled_then {A B} (p : prog A) (f : A → B) m t :
  wp serves p (λ _ m', still_entitled m') m → outstanding t ⊆ {[current_id rr]} →
  ewp serves any_agent (x ← api p; mret (f x)) (λ _ m' t', ok m' t') m t.
Proof.
  intros Hp Ho. apply ewp_bind. eapply ewp_mono; [|by apply ewp_entitled]. done.
Qed.

Lemma fetch_outstanding t b (x : NodeGroupListResponse + CallError) :
  outstanding (t ++ [existT (AgentNodeGroups b) x]) = outstanding t.
Proof. by rewrite outstanding_snoc. Qed.

Lemma post_outstanding t req (x : ReservationResponse + CallError) :
  outstanding t ⊆ {[current_id rr]} →
  outstanding (t ++ [existT (AgentPostReservation (current_id rr) req) x]) ⊆ {[current_id rr]}.
Proof. rewrite outstanding_snoc. simpl. set_solver. Qed.

Lemma delete_outstanding t (x : ReleaseResponse + CallError) :
  outstanding t ⊆ {[current_id rr]} →
  outstanding (t ++ [existT (AgentDeleteReservation (current_id rr)) x]) ⊆ {[current_id rr]} ∧
  (released x = true →
   outstanding (t ++ [existT (AgentDeleteReservation (current_id rr)) x]) = ∅).
Proof. rewrite outstanding_snoc. simpl. destruct (released x); set_solver. Qed.

Lemma ewp_reserve r m t :
  stored_in m → rrt_ReservationID (cr_status rr) = "" → outstanding t ⊆ {[current_id rr]} →
  ewp serves any_agent (rr_reserve r rr) (λ _ m' t', ok m' t') m t.
Proof.
  intros Hst Hid Ho. assert ("mr-" +:+ m_UID (cr_meta rr) = current_id rr) as Ecur.
  { unfold current_id. by rewrite decide_True. }
  unfold rr_reserve, nodeGroupsFor. cbv zeta. rewrite Ecur. apply ewp_bind, (ewp_agent _ (AgentNodeGroups _)). intros x.
  rewrite <-(fetch_outstanding t (if rrr_bounded r then rrs_LatencyBound (cr_spec rr) else None) x) in Ho.
  destruct x as [resp|e]; [|apply ewp_entitled; [apply wps_then, wps_writePhase; auto|done]].
  destruct (pickProviderAndSize _ _) as [[group count]|];
    [|apply ewp_entitled; [apply wps_then, wps_writePhase; auto|done]].
  destruct (multiChunkUnsupported count);
    [apply ewp_entitled; [apply wps_then, wps_writePhase; auto|done]|].
  apply ewp_bind, (ewp_agent _ (AgentPostReservation _ _)). intros y.
  pose proof (post_outstanding _ (manual_request group count) y Ho) as Ho'.
  destruct y as [res|e]; apply ewp_entitled; try done; apply wps_then, wps_writePhase; auto.
Qed.

Lemma ewp_complete r m t :
  stored_in m → rrt_ReservationID (cr_status rr) ≠ "" → outstanding t ⊆ {[current_id rr]} →
  ewp serves any_agent (completeMigration r rr) (λ _ m' t', ok m' t') m t.
Proof.
  intros Hst Hid Ho. assert (rrt_ReservationID (cr_status rr) = current_id rr) as Ecur.
  { unfold current_id. by rewrite decide_False. }
  unfold completeMigration, nodeGroupsFor. rewrite Ecur. apply ewp_bind, (ewp_agent _ (AgentNodeGroups _)). intros x.
  rewrite <-(fetch_outstanding t (if rrr_bounded r then rrs_LatencyBound (cr_spec rr) else None) x) in Ho.
  destruct x as [resp|e]; [|by apply ewp_ret, entitled_accounted; [apply stored_entitled|]].
  destruct (pickProviderAndSize _ _) as [[group count]|];
    [|apply ewp_entitled_then; [apply wps_writePhase; auto|done]].
  destruct (multiChunkUnsupported count);
    [apply ewp_entitled_then; [apply wps_writePhase; auto|done]|].
  apply ewp_bind, (ewp_agent _ (AgentPostReservation _ _)). intros y.
  pose proof (post_outstanding _ (manual_request group count) y Ho) as Ho'.
  destruct y as [res|e]; apply ewp_entitled; try done; apply wps_then, wps_writePhase; auto.
Qed.

Lemma wps_setMigrating newID msg m :
  stored_in m →
  wp serves (setMigrating rr newID msg) (λ _ m', store_wf m' ∧ ∃ rr', objs m' !! key = Some (ORR rr')) m.
Proof.
  intros Hst. unfold setMigrating. apply wp_bind. intros t m1 ->.
  apply wps_then, wps_status_stored; [done|].
  intros x m' Hwf [->|(rr' & Hl & _)]; (split; [done|]); [exists rr; apply Hst|by exists rr'].
Qed.

Lemma ewp_migrate r m t :
  stored_in m → rrt_ReservationID (cr_status rr) ≠ "" → outstanding t ⊆ {[current_id rr]} →
  ewp serves any_agent (maybeStartMigration r rr)
    (λ o m' t', match o with
                | Some _ => ok m' t'
                | None => stored_in m' ∧ outstanding t' ⊆ {[current_id rr]}
                end) m t.
Proof.
  intros Hst Hid Ho. assert (rrt_ReservationID (cr_status rr) = current_id rr) as Ecur.
  { unfold current_id. by rewrite decide_False. }
  unfold maybeStartMigration, nodeGroupsFor. case_match; [by apply ewp_ret|]. apply ewp_bind.
  eapply (ewp_mono _ _ _ (λ _ m' t', m' = m ∧ t' = t)); [|destruct (rrt_LastTransitionTime _); [|done]].
  2: { apply ewp_bind. by intros tm m1 ->. }
  intros due ? ? [-> ->]. destruct due; cbn [negb]; [|by apply ewp_ret].
  apply ewp_bind, (ewp_agent _ (AgentNodeGroups _)). intros x.
  rewrite <-(fetch_outstanding t (if rrr_bounded r then rrs_LatencyBound (cr_spec rr) else None) x) in Ho.
  destruct x as [resp|e]; [|by apply ewp_ret].
  match type of Ho with outstanding ?l ⊆ _ => set (t1 := l) in * end.
  destruct (isStableMetricPolicy _); cbn [negb]; [|by apply ewp_ret].
  destruct (pickProviderAndSize _ _) as [[group count]|]; [|by apply ewp_ret].
  case_decide; [by apply ewp_ret|]. destruct (better_home _ _ _); cbn [negb]; [|by apply ewp_ret].
  apply ewp_bind, (ewp_agent _ (AgentDeleteReservation _)). rewrite Ecur. intros d.
  destruct (delete_outstanding _ d Ho) as [Hsub Hnone].
  assert (ok m (t1 ++ [existT (AgentDeleteReservation (current_id rr)) d])) as Hfail
    by (by apply entitled_accounted; [apply stored_entitled|]).
  assert (released d = true →
    ewp serves any_agent
      (e ← api (setMigrating rr (nextReservationID rr)
                 ("migrating from " +:+ rrt_ProviderClusterID (cr_status rr) +:+ " to " +:+
                  ng_ProviderClusterID group));
       mret (Some (then_requeue pendingRequeue e)))
      (λ o m' t', match o with
                  | Some _ => ok m' t'
                  | None => stored_in m' ∧ outstanding t' ⊆ {[current_id rr]}
                  end) m (t1 ++ [existT (AgentDeleteReservation (current_id rr)) d])) as Hgo.
  { intros Hr. apply ewp_bind, ewp_api. eapply wp_mono; [|by apply wps_setMigrating].
    intros e m1 [Hwf1 (rr' & Hl)]. apply ewp_ret. split; [done|]. fold key. rewrite Hl.
    exists rr'. split; [done|]. intros z Hz. exfalso. apply (not_elem_of_empty (C:=gset string) z).
    rewrite <-(Hnone Hr). exact Hz. }
  destruct d as [d|e]; [by apply Hgo|]. cbn [released] in Hgo. destruct (IsMissing e); [by apply Hgo|].
  apply Hfail.
Qed.

Lemma update_finalizers_accounted fs m t :
  stored_in m → outstanding t ⊆ {[current_id rr]} →
  (m_DeletionTimestamp (cr_meta rr) = None ∨ rrt_ReservationID (cr_status rr) = "" ∨
   outstanding t = ∅) →
  wp serves (update (cr_set_meta (meta_set_finalizers fs (cr_meta rr)) rr)) (λ _ m', ok m' t) m.
Proof.
  intros [Hwf Hl] Ho Hdel. apply (wps_update_current rr); [done|done|done|..].
  - intros rv gen Hrv a' Hwf'. split; [done|]. fold key.
    change (cr_key rr) with key. unfold put_or_drop.
    assert (outstanding t ⊆ {[current_id a']}) as Ha' by done.
    assert (∃ rr', ORR a' = ORR rr' ∧ outstanding t ⊆ {[current_id rr']}) as Hput by (by exists a').
    change (to_obj a') with (ORR a').
    destruct (m_DeletionTimestamp (obj_meta (ORR a'))) eqn:Ed;
      [destruct (m_Finalizers (obj_meta (ORR a')))|];
      unfold put, retire; cbn [objs]; rewrite ?lookup_insert_eq, ?lookup_delete_eq; [|done..].
    destruct Hdel as [E|[E|E]]; [by simpl in Ed; rewrite E in Ed| |by right].
    left. rewrite E. by apply bool_decide_eq_false; intros [].
  - intros e. apply entitled_accounted; [|done]. by apply stored_entitled.
Qed.

Lemma ewp_finalize m t :
  stored_in m → outstanding t ⊆ {[current_id rr]} →
  ewp serves any_agent (rr_finalize rr) (λ _ m' t', ok m' t') m t.
Proof.
  intros Hst Ho. unfold rr_finalize.
  case_match; [by apply ewp_ret, entitled_accounted; [apply stored_entitled|]|].
  assert (∀ t', outstanding t' ⊆ {[current_id rr]} →
    rrt_ReservationID (cr_status rr) = "" ∨ outstanding t' = ∅ →
    ewp serves any_agent
      (x ← api (update (RemoveFinalizer rr resourceRequestFinalizer).1); mret (no_requeue, result_err x))
      (λ _ m' t', ok m' t') m t') as Hdrop.
  { intros t' Ho' Hor. apply ewp_bind, ewp_api.
    eapply wp_mono; [|by apply update_finalizers_accounted; [..|right]]. done. }
  apply ewp_bind. case_decide as Hid; [by apply Hdrop; [|left]|].
  assert (rrt_ReservationID (cr_status rr) = current_id rr) as Ecur.
  { unfold current_id. by rewrite decide_False. }
  apply ewp_bind, (ewp_agent _ (AgentDeleteReservation _)). rewrite Ecur. intros d.
  destruct (delete_outstanding _ d Ho) as [Hsub Hnone]. apply ewp_ret.
  destruct d as [d|e]; [by apply Hdrop; [|right; apply Hnone]|]. simpl in Hnone.
  destruct (IsMissing e); [by apply Hdrop; [|right; apply Hnone]|].
  by apply entitled_accounted; [apply stored_entitled|].
Qed.

Lemma ewp_round r m t :
  stored_in m → outstanding t ⊆ {[current_id rr]} →
  ewp serves any_agent (Reconcile_ResourceRequest r (cr_Namespace rr) (cr_Name rr))
    (λ _ m' t', ok m' t') m t.
Proof.
  intros Hst Ho. destruct Hst as [Hwf Hl].
  assert (ok m t) as Hsame by (apply entitled_accounted; [by apply stored_entitled|done]).
  unfold Reconcile_ResourceRequest. apply ewp_bind, ewp_api, wps_get; [done|..|done].
  intros a Ha _ _. change (res_kind, cr_Namespace rr, cr_Name rr) with key in Ha.
  rewrite Hl in Ha. injection Ha as <-.
  case_match; [done|]. case_match eqn:Ed; [by apply ewp_finalize|].
  destruct (ContainsFinalizer rr resourceRequestFinalizer) eqn:Ec; cbn [negb]; cycle 1.
  { apply ewp_bind, ewp_api. unfold AddFinalizer. rewrite Ec.
    eapply wp_mono; [|by apply update_finalizers_accounted; [..|left]].
    intros x m' Hok. apply ewp_ret. exact Hok. }
  case_decide; [by apply ewp_reserve|]. case_decide; [by apply ewp_complete|].
  apply ewp_bind. eapply ewp_mono; [|by apply ewp_migrate].
  intros [res|] m1 t1; [done|]. intros [Hst1 Ho1]. apply ewp_entitled; [by apply wps_hold|done].
Qed.
End Round.

(** A request that is not stored is left alone. *)
Lemma ewp_absent r ns name m t :
  store_wf m → objs m !! rr_key ns name = None →
  ewp serves any_agent (Reconcile_ResourceRequest r ns name) (λ _ m' t', m' = m ∧ t' = t) m t.
Proof.
  intros Hwf Hl. unfold Reconcile_ResourceRequest. apply ewp_bind, ewp_api, wps_get; [done|..|done].
  intros a Ha. change (res_kind, ns, name) with (rr_key ns name) in Ha. by rewrite Hl in Ha.
Qed.

(** The rounds of the reconciler for one request and the changes others make
    between them: anything that keeps the request's identity and its status. *)
Inductive rr_step (r : ResourceRequestReconciler) (ns name : string) :
    relation (store * list (event agent_answer)) :=
| rr_round m t o m' t' :
    eruns serves any_agent (Reconcile_ResourceRequest r ns name) m t o m' t' →
    rr_step r ns name (m, t) (m', t')
| rr_env m m' t :
    store_wf m' →
    (∀ rr', objs m' !! rr_key ns name = Some (ORR rr') → ∃ rr,
       objs m !! rr_key ns name = Some (ORR rr) ∧
       m_UID (cr_meta rr') = m_UID (cr_meta rr) ∧ cr_status rr' = cr_status rr) →
    rr_step r ns name (m, t) (m', t).

Definition owns_all (ns name : string) (c : store * list (event agent_answer)) : Prop :=
  store_wf c.1 ∧ ∀ rr, objs c.1 !! rr_key ns name = Some (ORR rr) → outstanding c.2 ⊆ {[current_id rr]}.

Lemma stored_typed ns name m :
  store_wf m → objs m !! rr_key ns name = None ∨
  ∃ rr, objs m !! rr_key ns name = Some (ORR rr) ∧ cr_Namespace rr = ns ∧ cr_Name rr = name.
Proof.
  intros Hwf. destruct (objs m !! rr_key ns name) as [o|] eqn:E; [|by left]. right.
  destruct (wf_key _ Hwf _ _ E) as [Ek _].
  pose proof (typed_of_key (S:=ResourceRequestSpec) (T:=ResourceRequestStatus) o ns name) as Ht.
  destruct (Ht Ek) as (a & -> & ? & ?). by exists a.
Qed.

Lemma round_owns r ns name m t o m' t' :
  owns_all ns name (m, t) →
  eruns serves any_agent (Reconcile_ResourceRequest r ns name) m t o m' t' →
  owns_all ns name (m', t') ∧
  ∀ rr, objs m !! rr_key ns name = Some (ORR rr) → objs m' !! rr_key ns name = None →
    rrt_ReservationID (cr_status rr) ≠ "" → outstanding t' = ∅.
Proof.
  intros [Hwf Hown] Hrun. simpl in *. destruct (stored_typed ns name m Hwf) as [Hno|(rr & Hl & <- & <-)].
  - pose proof (ewp_eruns _ _ _ _ _ _ _ _ _ (ewp_absent r ns name m t Hwf Hno) Hrun) as [-> ->].
    split; [done|]. intros rr. by rewrite Hno.
  - pose proof (ewp_eruns _ _ _ _ _ _ _ _ _ (ewp_round rr r m t (conj Hwf Hl) (Hown _ Hl)) Hrun)
      as [Hwf' Hacc].
    split; [split; [done|]|].
    + simpl. intros rr' Hl'. rewrite Hl' in Hacc. by destruct Hacc as (? & [= <-] & ?).
    + intros rr0 Hl0 Hgone Hid. rewrite Hl in Hl0. injection Hl0 as <-. rewrite Hgone in Hacc.
      destruct Hacc as [E|?]; [|done]. by apply bool_decide_eq_false in E.
Qed.

Lemma rr_step_owns r ns name c c' : owns_all ns name c → rr_step r ns name c c' → owns_all ns name c'.
Proof.
  intros Hown Hs. destruct Hs as [m t o m' t' Hrun|m m' t Hwf' Hkeep].
  - by apply (round_owns _ _ _ _ _ _ _ _ Hown Hrun).
  - destruct Hown as [_ Hown]. split; [done|]. simpl in *. intros rr' Hl'.
    destruct (Hkeep _ Hl') as (rr & Hl & Hu & Hs). unfold current_id. rewrite Hu, Hs. by apply Hown.
Qed.

(** C13: However a manual request's life goes (migrations, refused or ambiguous
    calls, lost status writes, edits by others), at most one reservation is ever
    outstanding for it, the one its status names or is about to name: a
    migration releases the old one before it asks for the new one.  And when
    the finalizer finally lets the object go, nothing is outstanding, provided
    its status named a reservation. *)
Theorem one_reservation_per_request r ns name m0 m t :
  store_wf m0 → rtc (rr_step r ns name) (m0, []) (m, t) →
  (∀ rr, objs m !! rr_key ns name = Some (ORR rr) → outstanding t ⊆ {[current_id rr]}) ∧
  (∀ rr o m' t', objs m !! rr_key ns name = Some (ORR rr) →
     eruns serves any_agent (Reconcile_ResourceRequest r ns name) m t o m' t' →
     objs m' !! rr_key ns name = None → rrt_ReservationID (cr_status rr) ≠ "" → outstanding t' = ∅).
Proof.
  intros Hwf Hrtc. assert (owns_all ns name (m, t)) as Hown.
  { eapply (rtc_ind_r (owns_all ns name) (m0, [])); [|by eauto using rr_step_owns|done].
    split; [done|]. intros rr _. by apply empty_subseteq. }
  split; [by apply Hown|]. intros rr o m' t' Hl Hrun Hgone Hid.
  by apply (round_owns _ _ _ _ _ _ _ _ Hown Hrun) with rr.
Qed.

(** ** Where the promise stops *)

(** A request whose deletion is seen before its status names the reservation
    loses its finalizer without any call to the agent. *)
Theorem deletion_without_status_releases_nothing r rr m :
  store_wf m → objs m !! cr_key rr = Some (ORR rr) → rrr_hasAgent r = true →
  is_Some (m_DeletionTimestamp (cr_meta rr)) →
  m_Finalizers (cr_meta rr) = [resourceRequestFinalizer] →
  rrt_ReservationID (cr_status rr) = "" →
  ewp reliable any_agent (Reconcile_ResourceRequest r (cr_Namespace rr) (cr_Name rr))
    (λ o m' t, o = (no_requeue, None) ∧ t = [] ∧ objs m' !! cr_key rr = None) m [].
Proof.
  intros Hwf Hl Hag [d Hd] Hf Hid. unfold Reconcile_ResourceRequest.
  apply ewp_bind, ewp_api, (wp_get_found _ _ rr); [done|done|]. cbv beta iota.
  rewrite Hag, Hd. cbn [negb]. unfold rr_finalize.
  assert (ContainsFinalizer rr resourceRequestFinalizer = true) as ->.
  { unfold ContainsFinalizer. rewrite Hf. by apply bool_decide_eq_true, list_elem_of_singleton. }
  cbn [negb]. rewrite decide_True by done. apply ewp_bind, ewp_ret, ewp_bind, ewp_api.
  unfold RemoveFinalizer. cbn [fst]. apply (wp_update_current rr); [done|done|done|done|].
  intros rv gen Hrv a' Hwf'. apply ewp_ret. split_and!; [done|done|].
  unfold put_or_drop. change (to_obj a') with (ORR a'). subst a'. simpl. rewrite Hd, Hf.
  rewrite filter_cons_False by auto. cbn [filter list_filter]. unfold retire. simpl.
  apply lookup_delete_eq.
Qed.

(** ** What is asked for *)

(** One chunk of a fetched group that fits, under the right name. *)
Definition fitting_post (rr : ResourceRequest) (t : list (event agent_answer)) : Prop :=
  ∀ id req x, (id, req, x) ∈ posts t → ∃ resp group, fetches t = [inl resp] ∧
    group ∈ nl_NodeGroups resp ∧ id = current_id rr ∧ req = manual_request group 1 ∧
    fits (rrs_Resources (cr_spec rr)) group ∧
    chunksFor (rrs_Resources (cr_spec rr)) (ng_ChunkResources group) = 1.

Lemma picked_one groups req group count :
  pickProviderAndSize groups req = Some (group, count) → multiChunkUnsupported count = None →
  group ∈ groups ∧ count = 1 ∧ fits req group ∧ chunksFor req (ng_ChunkResources group) = 1.
Proof.
  intros Hp Hm. pose proof (pick_from groups req) as Hb. rewrite Hp in Hb.
  destruct Hb as (Hin & Hf & ->). unfold multiChunkUnsupported in Hm.
  destruct (Z.leb_spec (chunksFor req (ng_ChunkResources group)) 1); [|done].
  destruct Hf as [Ht Hc]. assert (chunksFor req (ng_ChunkResources group) = 1) as E by lia.
  split_and!; [done|done|done|lia|done..].
Qed.

Lemma fitting_posted rr b resp group count x :
  pickProviderAndSize (nl_NodeGroups resp) (rrs_Resources (cr_spec rr)) = Some (group, count) →
  multiChunkUnsupported count = None →
  fitting_post rr [existT (AgentNodeGroups b) (inl resp);
                   existT (AgentPostReservation (current_id rr) (manual_request group count)) x].
Proof.
  intros Hp Hm id req y Hin. destruct (picked_one _ _ _ _ Hp Hm) as (Hg & -> & Hf & Hc).
  apply list_elem_of_singleton in Hin. injection Hin as -> -> ->. by exists resp, group.
Qed.

Lemma maybeStartMigration_posts C r rr m :
  ewp C any_agent (maybeStartMigration r rr) (λ _ _ t, posts t = []) m [].
Proof.
  unfold maybeStartMigration, nodeGroupsFor. case_match; [done|]. apply ewp_bind.
  eapply (ewp_mono _ _ _ (λ _ _ t, t = []));
    [|destruct (rrt_LastTransitionTime _); [by apply ewp_bind, ewp_api_any|done]].
  intros due m1 ? ->. destruct due; cbn [negb]; [|done].
  apply ewp_bind, (ewp_agent _ (AgentNodeGroups _)). intros [resp|e]; [|done].
  destruct (isStableMetricPolicy _); cbn [negb]; [|done].
  destruct (pickProviderAndSize _ _) as [[group count]|]; [|done].
  case_decide; [done|]. destruct (better_home _ _ _); cbn [negb]; [|done].
  apply ewp_bind, (ewp_agent _ (AgentDeleteReservation _)). intros d.
  destruct (match d with inl _ => None | inr e => if IsMissing e then None else Some e end);
    [done|]. by apply ewp_bind, ewp_api_any.
Qed.

(** What a round may have asked for. *)
Definition fitting_round (rr : ResourceRequest) (t : list (event agent_answer)) : Prop :=
  fitting_post rr t ∧ (length (posts t) ≤ 1)%nat ∧
  (posts t ≠ [] → m_DeletionTimestamp (cr_meta rr) = None ∧
     (rrt_ReservationID (cr_status rr) = "" ∨ rrt_Phase (cr_status rr) = ResourceRequestMigrating)).

Lemma fitting_nothing rr t : posts t = [] → fitting_round rr t.
Proof.
  intros E. unfold fitting_round, fitting_post. rewrite E. split_and!; [|simpl; lia|done].
  by intros ??? ?%elem_of_nil.
Qed.

Lemma fitting_once rr b resp group count x :
  pickProviderAndSize (nl_NodeGroups resp) (rrs_Resources (cr_spec rr)) = Some (group, count) →
  multiChunkUnsupported count = None → m_DeletionTimestamp (cr_meta rr) = None →
  rrt_ReservationID (cr_status rr) = "" ∨ rrt_Phase (cr_status rr) = ResourceRequestMigrating →
  fitting_round rr [existT (AgentNodeGroups b) (inl resp);
                    existT (AgentPostReservation (current_id rr) (manual_request group count)) x].
Proof. intros Hp Hm Hd Hph. split_and!; [by apply fitting_posted|simpl; lia|done]. Qed.

Lemma rr_finalize_fits C rr m :
  ewp C any_agent (rr_finalize rr) (λ _ _ t, fitting_round rr t) m [].
Proof.
  unfold rr_finalize. case_match; [by apply ewp_ret, fitting_nothing|]. apply ewp_bind.
  eapply (ewp_mono _ _ _ (λ _ _ t, posts t = [])).
  - intros [e|] m1 t1 Ht; [by apply ewp_ret, fitting_nothing|].
    apply ewp_bind, ewp_api_any. intros. by apply ewp_ret, fitting_nothing.
  - case_decide; [done|]. apply ewp_bind, (ewp_agent _ (AgentDeleteReservation _)). done.
Qed.

Lemma rr_reserve_fits C r rr m :
  m_DeletionTimestamp (cr_meta rr) = None → rrt_ReservationID (cr_status rr) = "" →
  ewp C any_agent (rr_reserve r rr) (λ _ _ t, fitting_round rr t) m [].
Proof.
  intros Hd Hid. assert ("mr-" +:+ m_UID (cr_meta rr) = current_id rr) as Ecur
    by (unfold current_id; by rewrite decide_True).
  unfold rr_reserve, nodeGroupsFor. cbv zeta. rewrite Ecur.
  apply ewp_bind, (ewp_agent _ (AgentNodeGroups _)).
  intros [resp|e]; [|by apply ewp_api_any; intros; apply fitting_nothing].
  destruct (pickProviderAndSize _ _) as [[group count]|] eqn:Ep;
    [|by apply ewp_api_any; intros; apply fitting_nothing].
  destruct (multiChunkUnsupported count) eqn:Em; [by apply ewp_api_any; intros; apply fitting_nothing|].
  apply ewp_bind, (ewp_agent _ (AgentPostReservation _ _)). cbn [app].
  intros [res|e]; apply ewp_api_any; intros; by apply fitting_once; [..|left].
Qed.

Lemma completeMigration_fits C r rr m :
  m_DeletionTimestamp (cr_meta rr) = None → rrt_ReservationID (cr_status rr) ≠ "" →
  rrt_Phase (cr_status rr) = ResourceRequestMigrating →
  ewp C any_agent (completeMigration r rr) (λ _ _ t, fitting_round rr t) m [].
Proof.
  intros Hd Hid Hph. assert (rrt_ReservationID (cr_status rr) = current_id rr) as Ecur
    by (unfold current_id; by rewrite decide_False).
  unfold completeMigration, nodeGroupsFor. rewrite Ecur.
  apply ewp_bind, (ewp_agent _ (AgentNodeGroups _)).
  intros [resp|e]; [|by apply ewp_ret, fitting_nothing].
  destruct (pickProviderAndSize _ _) as [[group count]|] eqn:Ep;
    [|by apply ewp_bind, ewp_api_any; intros; apply ewp_ret, fitting_nothing].
  destruct (multiChunkUnsupported count) eqn:Em;
    [by apply ewp_bind, ewp_api_any; intros; apply ewp_ret, fitting_nothing|].
  apply ewp_bind, (ewp_agent _ (AgentPostReservation _ _)). cbn [app].
  intros [res|e]; apply ewp_api_any; intros; by apply fitting_once; [..|right].
Qed.

End LifeCycle.
