(* ===== verification/VirtualNodeStateProofs.v ===== *)
(** * Correctness of the VirtualNodeState reconciler

    The reconciler's result is given by a pure function [desired] of the stored
    node and VirtualNodeState and of the clock readings it may use. *)
From stdpp Require Import base gmap strings list.
From Stdlib Require Import ZArith Lia.
From S2P Require Import Prelude ApiTypes ConsumerTypes Kube MemServer ReservationController.
From S2P Require Import VirtualNodeStateController.

Open Scope Z_scope.

(** ** Conditions *)
Definition set_cond (t : Time) (conds : list Condition) (ty : string) (ok : bool)
    (reason msg : string) : list Condition :=
  let cs := if ok then ConditionTrue else ConditionFalse in
  match list_find (λ c, cond_Type c = ty) conds with
  | Some (i, c) =>
      <[i := mkCondition (cond_Type c) cs reason msg
               (if decide (cond_Status c = cs) then cond_LastTransitionTime c else t)]> conds
  | None => conds ++ [mkCondition ty cs reason msg t]
  end.

(** The condition of a type says this. *)
Definition says (conds : list Condition) (ty cs reason msg : string) : Prop :=
  ∃ i c, list_find (λ c, cond_Type c = ty) conds = Some (i, c) ∧
    cond_Status c = cs ∧ cond_Reason c = reason ∧ cond_Message c = msg.

Lemma find_after_insert i c c' conds ty :
  conds !! i = Some c → cond_Type c' = cond_Type c →
  list_find (λ c, cond_Type c = ty) (<[i := c']> conds) =
  (λ p : nat * Condition, if decide (p.1 = i) then (i, c') else p) <$>
    list_find (λ c, cond_Type c = ty) conds.
Proof.
  revert i. induction conds as [|d conds IH]; intros i Hi Ht; [done|].
  destruct i as [|i]; simpl in *.
  - injection Hi as ->. rewrite Ht. case_decide; simpl; [done|].
    destruct (list_find _ conds) as [[j e]|]; done.
  - case_decide; simpl; [done|]. rewrite (IH i) by done.
    destruct (list_find _ conds) as [[j e]|]; simpl; [|done].
    repeat case_decide; simplify_eq; try done; lia.
Qed.

Lemma find_after_snoc conds c ty :
  list_find (λ c, cond_Type c = ty) (conds ++ [c]) =
  match list_find (λ c, cond_Type c = ty) conds with
  | Some p => Some p
  | None => if decide (cond_Type c = ty) then Some (length conds, c) else None
  end.
Proof.
  induction conds as [|d conds IH]; simpl; [by repeat case_decide|]. destruct (decide (cond_Type d = ty)); [done|].
  rewrite IH. destruct (list_find _ conds) as [[j e]|]; simpl; [done|]. by repeat case_decide.
Qed.

Lemma set_cond_says t conds ty ok reason msg :
  says (set_cond t conds ty ok reason msg) ty (if ok then ConditionTrue else ConditionFalse) reason msg.
Proof.
  unfold set_cond, says. destruct (list_find _ conds) as [[i c]|] eqn:E.
  - pose proof E as (Hi & Ht & _)%list_find_Some.
    rewrite (find_after_insert i c), E by done. simpl. rewrite decide_True by done. by do 2 eexists.
  - rewrite find_after_snoc, E. simpl. rewrite decide_True by done. by do 2 eexists.
Qed.

Lemma set_cond_other t conds ty ok reason msg ty' cs' reason' msg' :
  ty ≠ ty' → says conds ty' cs' reason' msg' →
  says (set_cond t conds ty ok reason msg) ty' cs' reason' msg'.
Proof.
  intros Hne (j & d & Ej & Hd). unfold set_cond, says.
  destruct (list_find (λ c, cond_Type c = ty) conds) as [[i c]|] eqn:E.
  - pose proof E as (Hi & Ht & _)%list_find_Some. pose proof Ej as (Hj & Ht' & _)%list_find_Some.
    rewrite (find_after_insert i c), Ej by done. simpl. rewrite decide_False by congruence.
    by exists j, d.
  - rewrite find_after_snoc, Ej. by exists j, d.
Qed.

Lemma set_cond_id t conds ty (ok : bool) reason msg :
  says conds ty (if ok then ConditionTrue else ConditionFalse) reason msg →
  set_cond t conds ty ok reason msg = conds.
Proof.
  intros (i & c & E & Hs & <- & <-). unfold set_cond. rewrite E.
  apply list_find_Some in E as (Hi & Ht & _). rewrite decide_True by done.
  apply list_insert_id. rewrite Hi, <-Hs. by destruct c.
Qed.

Lemma set_cond_types t conds ty ok reason msg :
  NoDup (cond_Type <$> conds) → NoDup (cond_Type <$> set_cond t conds ty ok reason msg).
Proof.
  intros Hnd. unfold set_cond. destruct (list_find _ conds) as [[i c]|] eqn:E.
  - apply list_find_Some in E as (Hi & Ht & _). rewrite list_fmap_insert, list_insert_id; [done|].
    by rewrite list_lookup_fmap, Hi.
  - apply list_find_None in E. rewrite fmap_app. apply NoDup_app.
    split_and!; [done| |apply NoDup_singleton].
    intros x (c & -> & Hc)%list_elem_of_fmap [Ex|?%elem_of_nil]%elem_of_cons; [|done].
    simpl in Ex. rewrite Forall_forall in E. by apply (E c).
Qed.

(** Two lists that differ in times only. *)
Definition cond_same (a b : Condition) : Prop :=
  cond_Type a = cond_Type b ∧ cond_Status a = cond_Status b ∧
  cond_Reason a = cond_Reason b ∧ cond_Message a = cond_Message b.

Lemma set_cond_times t t' conds conds' ty ok reason msg :
  Forall2 cond_same conds conds' →
  Forall2 cond_same (set_cond t conds ty ok reason msg) (set_cond t' conds' ty ok reason msg).
Proof.
  intros Hall. unfold set_cond.
  assert (match list_find (λ c, cond_Type c = ty) conds, list_find (λ c, cond_Type c = ty) conds' with
          | Some (i, c), Some (j, d) => i = j ∧ cond_Type c = cond_Type d
          | None, None => True
          | _, _ => False
          end) as Hf.
  { induction Hall as [|c d l l' Hcd Hll IH]; simpl; [done|]. destruct Hcd as (E & _).
    rewrite E. case_decide as Hty; [done|].
    destruct (list_find _ l) as [[i x]|], (list_find _ l') as [[j y]|]; simpl; naive_solver. }
  destruct (list_find _ conds) as [[i c]|], (list_find _ conds') as [[j d]|]; try done.
  - destruct Hf as [-> E]. apply Forall2_insert; [done|]. by split.
  - apply Forall2_app; [done|]. by repeat constructor.
Qed.

Section VirtualNodeStateProofs.
Context `{Platform}.

(** ** What the status should be *)
Record Projection := mkProjection {
  pj_Phase : VirtualNodeStatePhase;
  pj_Name : string;
  pj_ProviderID : string;
  pj_Allocatable : ResourceList;
  pj_Message : string
}.

(** The projection of the node of this name. *)
Definition projection_of (name : string) (node : option Node) : Projection :=
  if decide (name = "") then
    mkProjection VirtualNodeStatePhaseCreating "" "" ∅
      "VirtualNodeState missing resourceSliceName and providerLiqoClusterId"
  else match node with
  | None => mkProjection VirtualNodeStatePhaseCreating "" "" ∅
              ("waiting for Liqo to materialise node " +:+ name)
  | Some node =>
      match m_DeletionTimestamp (cr_meta node) with
      | Some _ => mkProjection VirtualNodeStatePhaseDeleting name "" ∅ "Liqo virtual node is terminating"
      | None =>
          if nodeReady node then
            mkProjection VirtualNodeStatePhaseRunning name (no_ProviderID (cr_spec node))
              (no_Allocatable (cr_status node)) "Liqo virtual node is ready"
          else mkProjection VirtualNodeStatePhaseCreating name "" ∅
                 "Liqo virtual node registered, not Ready yet"
      end
  end.

Definition conditions_for (pj : Projection) (t1 t2 : Time) (conds : list Condition) : list Condition :=
  set_cond t2
    (set_cond t1 conds VirtualNodeStateConditionReady
       (bool_decide (pj_Phase pj = VirtualNodeStatePhaseRunning)) (readyReason (pj_Phase pj))
       (pj_Message pj))
    VirtualNodeStateConditionFailed (bool_decide (pj_Phase pj = VirtualNodeStatePhaseFailed))
    (failedReason (pj_Phase pj)) (pj_Message pj).

Definition desired (vns : VirtualNodeState) (pj : Projection) (t0 t1 t2 : Time) : VirtualNodeStateStatus :=
  mkVNSStatus (m_Generation (cr_meta vns)) (pj_Phase pj) (pj_Name pj) (pj_ProviderID pj)
    (vs_ResourceSliceName (cr_spec vns)) (pj_Allocatable pj)
    (if decide (vt_Phase (cr_status vns) = pj_Phase pj)
     then vt_LastTransitionTime (cr_status vns) else Some t0)
    (pj_Message pj) (conditions_for pj t1 t2 (vt_Conditions (cr_status vns))).

(** A status that shows the node as it is. *)
Definition shows (st : VirtualNodeStateStatus) (pj : Projection) : Prop :=
  vt_Phase st = pj_Phase pj ∧ vt_VirtualNodeName st = pj_Name pj ∧
  vt_ProviderID st = pj_ProviderID pj ∧ vt_Message st = pj_Message pj ∧
  resourceListEqual (vt_Allocatable st) (pj_Allocatable pj) = true ∧
  says (vt_Conditions st) VirtualNodeStateConditionReady
    (if decide (pj_Phase pj = VirtualNodeStatePhaseRunning) then ConditionTrue else ConditionFalse)
    (readyReason (pj_Phase pj)) (pj_Message pj).

Definition distinct_conditions (vns : VirtualNodeState) : Prop :=
  NoDup (cond_Type <$> vt_Conditions (cr_status vns)).

(** ** The programs compute it *)
Section Compute.
Context (C : contract) (HC : ∀ m (t : resp Now) m', C m Now t m' → m' = m).

Lemma wp_clock {A} (b : bool) (old : A) (f : Time → A) Q m :
  (∀ t, Q (if b then old else f t) m) →
  wp C (if b then mret old else t ← now; mret (f t)) Q m.
Proof. intros HQ. destruct b; [apply (HQ 0)|]. intros t m' ->%HC. apply HQ. Qed.

Lemma wp_applyPhase st phase msg Q m :
  (∀ t, Q (mkVNSStatus (vt_ObservedGeneration st) phase (vt_VirtualNodeName st) (vt_ProviderID st)
             (vt_ResourceSliceName st) (vt_Allocatable st)
             (if decide (vt_Phase st = phase) then vt_LastTransitionTime st else Some t)
             msg (vt_Conditions st)) m) →
  wp C (applyPhase st phase msg) Q m.
Proof.
  intros HQ. unfold applyPhase. apply wp_bind. case_decide; [by apply (HQ 0)|].
  intros t m' ->%HC. apply (HQ t).
Qed.

Lemma wp_setCondition conds ty ok reason msg Q m :
  (∀ t, Q (set_cond t conds ty ok reason msg) m) →
  wp C (setCondition conds ty ok reason msg) Q m.
Proof.
  intros HQ. unfold setCondition, set_cond in *. destruct (list_find _ conds) as [[i c]|].
  - apply wp_bind. case_decide; [apply (HQ 0)|]. intros t m' ->%HC. apply (HQ t).
  - intros t m' ->%HC. apply (HQ t).
Qed.

Lemma wp_updateConditions st Q m :
  (∀ t1 t2, Q (with_conditions
     (conditions_for (mkProjection (vt_Phase st) "" "" ∅ (vt_Message st)) t1 t2 (vt_Conditions st)) st) m) →
  wp C (updateConditions st) Q m.
Proof.
  intros HQ. unfold updateConditions. apply wp_bind, wp_setCondition. intros t1.
  apply wp_bind, wp_setCondition. intros t2. apply wp_ret, (HQ t1 t2).
Qed.
End Compute.

(** ** Comparing statuses *)
Lemma idx_find (conds : list Condition) ty :
  NoDup (cond_Type <$> conds) →
  foldl (λ (ix : gmap string Condition) c, <[cond_Type c := c]> ix) ∅ conds !! ty =
  snd <$> list_find (λ c, cond_Type c = ty) conds.
Proof.
  induction conds as [|c conds IH] using rev_ind; intros Hnd; [done|].
  rewrite fmap_app in Hnd. apply NoDup_app in Hnd as (Hnd & Hnew & _).
  rewrite foldl_snoc, find_after_snoc. destruct (decide (cond_Type c = ty)) as [<-|Hne].
  - rewrite lookup_insert_eq. destruct (list_find _ conds) as [[i d]|] eqn:E; [|done].
    apply list_find_Some in E as (Hi & Ht & _). exfalso. apply (Hnew (cond_Type c)); [|by constructor].
    apply list_elem_of_fmap. exists d. split; [done|]. by eapply list_elem_of_lookup_2.
  - rewrite lookup_insert_ne, IH by done. by destruct (list_find _ conds).
Qed.

Lemma conditionsEqual_times a b b' :
  Forall2 cond_same b b' → conditionsEqual a b = conditionsEqual a b'.
Proof.
  intros Hall. unfold conditionsEqual. rewrite (Forall2_length _ _ _ Hall). f_equal.
  induction Hall as [|c d l l' (E1 & E2 & E3 & E4) Hll IH]; simpl; [done|].
  rewrite IH, E1, E2, E3, E4. done.
Qed.

Lemma conditionsEqual_says a b ty cs reason msg :
  NoDup (cond_Type <$> a) → conditionsEqual a b = true → says b ty cs reason msg →
  says a ty cs reason msg.
Proof.
  intros Hnd Heq (i & c & E & Hs & Hr & Hm). unfold conditionsEqual in Heq. fed_bools.
  apply list_find_Some in E as (Hi & <- & _).
  match goal with Hf : forallb _ b = true |- _ => rewrite forallb_forall in Hf; specialize (Hf c) end.
  rewrite idx_find in * by done.
  assert (In c b) as Hin by (apply list_elem_of_In; by eapply list_elem_of_lookup_2).
  unfold says. destruct (list_find _ a) as [[j d]|]; simpl in *; [|naive_solver].
  exists j, d. split; [done|]. naive_solver (fed_bools; congruence).
Qed.

Lemma conditionsEqual_refl a : NoDup (cond_Type <$> a) → conditionsEqual a a = true.
Proof.
  intros Hnd. unfold conditionsEqual. rewrite bool_decide_true by done. simpl.
  apply forallb_forall. intros c Hc. rewrite idx_find by done.
  destruct (list_find _ a) as [[j d]|] eqn:E; simpl.
  - apply list_find_Some in E as (Hj & Ht & _). apply list_elem_of_In in Hc.
    apply list_elem_of_lookup in Hc as [i Hi].
    assert (i = j) as ->.
    { eapply NoDup_lookup; [done|..]; rewrite list_lookup_fmap; [by rewrite Hi|by rewrite Hj; simpl; rewrite Ht]. }
    rewrite Hi in Hj. injection Hj as ->. by rewrite !bool_decide_true.
  - apply list_find_None in E. rewrite Forall_forall in E. by destruct (E c (proj2 (list_elem_of_In _ _) Hc)).
Qed.

Lemma resourceListEqual_refl `{!PlatformLaws} rl : resourceListEqual rl rl = true.
Proof.
  unfold resourceListEqual. rewrite bool_decide_true by done. simpl. apply forallb_forall.
  intros [k q] Hin%list_elem_of_In%elem_of_map_to_list. simpl. rewrite Hin, q_Cmp_refl. done.
Qed.

Lemma conditions_for_times pj t1 t2 t1' t2' conds conds' :
  Forall2 cond_same conds conds' →
  Forall2 cond_same (conditions_for pj t1 t2 conds) (conditions_for pj t1' t2' conds').
Proof. intros Hc. by apply set_cond_times, set_cond_times. Qed.

Lemma cond_same_refl conds : Forall2 cond_same conds conds.
Proof. induction conds; constructor; [by split|done]. Qed.

Lemma statusEqual_times a vns pj t0 t1 t2 t0' t1' t2' :
  statusEqual a (desired vns pj t0 t1 t2) = statusEqual a (desired vns pj t0' t1' t2').
Proof.
  unfold statusEqual. f_equal. apply conditionsEqual_times, conditions_for_times, cond_same_refl.
Qed.

Lemma conditions_for_ready pj t1 t2 conds :
  says (conditions_for pj t1 t2 conds) VirtualNodeStateConditionReady
    (if bool_decide (pj_Phase pj = VirtualNodeStatePhaseRunning) then ConditionTrue else ConditionFalse)
    (readyReason (pj_Phase pj)) (pj_Message pj).
Proof. apply set_cond_other; [done|]. apply set_cond_says. Qed.

Lemma conditions_for_id pj t1 t2 t1' t2' conds :
  conditions_for pj t1' t2' (conditions_for pj t1 t2 conds) = conditions_for pj t1 t2 conds.
Proof.
  unfold conditions_for at 1. rewrite (set_cond_id _ (conditions_for pj t1 t2 conds)).
  - apply set_cond_id. apply set_cond_says.
  - apply conditions_for_ready.
Qed.

Lemma desired_shows vns pj t0 t1 t2 st `{!PlatformLaws} :
  NoDup (cond_Type <$> vt_Conditions st) →
  st = desired vns pj t0 t1 t2 ∨ statusEqual st (desired vns pj t0 t1 t2) = true → shows st pj.
Proof.
  assert (∀ P, (if bool_decide (P = VirtualNodeStatePhaseRunning) then ConditionTrue else ConditionFalse) =
    (if decide (P = VirtualNodeStatePhaseRunning) then ConditionTrue else ConditionFalse)) as Hb.
  { intros P. case_bool_decide; by case_decide. }
  intros Hnd [->|Heq].
  - unfold shows. split_and!; [done..|apply resourceListEqual_refl|].
    rewrite <-Hb. apply conditions_for_ready.
  - unfold statusEqual in Heq. fed_bools. unfold shows. split_and!; try done.
    rewrite <-Hb. eapply conditionsEqual_says; [done|done|]. apply conditions_for_ready.
Qed.

(** ** One round *)
Definition stored_node (m : store) (name : string) : option Node :=
  match objs m !! ((KNode, "", name) : Key) with Some (ONode n) => Some n | _ => None end.

Definition current_projection (m : store) (vns : VirtualNodeState) : Projection :=
  projection_of (nodeNameFor vns) (stored_node m (nodeNameFor vns)).

Lemma reliable_now m (t : resp Now) m' : reliable m Now t m' → m' = m.
Proof. by intros [-> _]. Qed.

Lemma wp_vns_project vns Q m :
  store_wf m →
  (∀ t0, let pj := current_projection m vns in
     Q (Ok (mkVNSStatus (m_Generation (cr_meta vns)) (pj_Phase pj) (pj_Name pj) (pj_ProviderID pj)
       (vs_ResourceSliceName (cr_spec vns)) (pj_Allocatable pj)
       (if decide (vt_Phase (cr_status vns) = pj_Phase pj)
        then vt_LastTransitionTime (cr_status vns) else Some t0)
       (pj_Message pj) (vt_Conditions (cr_status vns)))) m) →
  wp reliable (if decide (nodeNameFor vns = "") then
                 st ← applyPhase (vns_base vns) VirtualNodeStatePhaseCreating
                        "VirtualNodeState missing resourceSliceName and providerLiqoClusterId";
                 mret (Ok (with_node "" "" ∅ st))
               else projectFromNode (vns_base vns) (nodeNameFor vns)) Q m.
Proof.
  intros Hwf HQ. unfold current_projection, projection_of in HQ. case_decide as Hn.
  { apply wp_bind, (wp_applyPhase _ reliable_now). intros t. apply wp_ret, HQ. }
  unfold projectFromNode. apply wp_bind, wp_get; [done|..]; unfold stored_node in HQ.
  - intros node Hl _ _. change (res_kind, "", nodeNameFor vns) with ((KNode, "", nodeNameFor vns) : Key) in Hl.
    rewrite Hl in HQ. change (to_obj node) with (ONode node) in HQ. cbv beta iota in HQ.
    destruct (m_DeletionTimestamp (cr_meta node));
      [|destruct (nodeReady node); cbn [negb]];
      (apply wp_bind, (wp_applyPhase _ reliable_now); intros t; apply wp_ret, HQ).
  - intros e Hl Hk. change (res_kind, "", nodeNameFor vns) with ((KNode, "", nodeNameFor vns) : Key) in Hl.
    rewrite Hl in HQ. unfold IsNotFound. rewrite bool_decide_true by done.
    apply wp_bind, (wp_applyPhase _ reliable_now). intros t. apply wp_ret, HQ.
Qed.

Lemma wp_vns_round r vns Q m :
  store_wf m → objs m !! cr_key vns = Some (OVNS vns) → m_DeletionTimestamp (cr_meta vns) = None →
  (∀ t0 t1 t2, let st := desired vns (current_projection m vns) t0 t1 t2 in
     if statusEqual (cr_status vns) st then Q (after (vns_requeueAfter r), None) m
     else ∀ rv, rev m < rv →
       let vns' := cr_on_status rv vns (cr_set_status st vns) in
       store_wf (put (cr_key vns) (OVNS vns') m) →
       Q (after (vns_requeueAfter r), None) (put (cr_key vns) (OVNS vns') m)) →
  wp reliable (Reconcile_VirtualNodeState r (cr_Namespace vns) (cr_Name vns)) Q m.
Proof.
  intros Hwf Hl Hd HQ. unfold Reconcile_VirtualNodeState.
  apply wp_bind, (wp_get_found _ _ vns); [done|done|]. cbv beta iota. rewrite Hd.
  apply wp_bind, wp_vns_project; [done|]. intros t0. cbv zeta beta iota.
  apply wp_bind, (wp_updateConditions _ reliable_now). intros t1 t2.
  specialize (HQ t0 t1 t2). unfold desired in HQ. cbv zeta in HQ. unfold with_conditions.
  cbn [vt_ObservedGeneration vt_Phase vt_VirtualNodeName vt_ProviderID vt_ResourceSliceName
       vt_Allocatable vt_LastTransitionTime vt_Message vt_Conditions].
  change (conditions_for (mkProjection _ "" "" ∅ _) t1 t2 (vt_Conditions (cr_status vns)))
    with (conditions_for (current_projection m vns) t1 t2 (vt_Conditions (cr_status vns))).
  case_match; [by apply wp_ret|].
  apply wp_bind, (wp_status_current vns); [done|done|done|].
  intros rv Hrv a' Hwf'. apply wp_ret, HQ; done.
Qed.

(** C35: After a round the stored status shows the node behind the chunk as it
    is: Running, with the node's provider ID and allocatable, exactly when the
    node exists, is Ready and is not being deleted; no capacity and no provider
    ID otherwise; and the Ready condition agrees.  Nothing else is written, and
    the spec is untouched. *)
Theorem Reconcile_VirtualNodeState_shows `{!PlatformLaws} r vns m :
  store_wf m → objs m !! cr_key vns = Some (OVNS vns) → m_DeletionTimestamp (cr_meta vns) = None →
  distinct_conditions vns →
  wp reliable (Reconcile_VirtualNodeState r (cr_Namespace vns) (cr_Name vns))
    (λ o m', o = (after (vns_requeueAfter r), None) ∧
       (∀ k, k ≠ cr_key vns → objs m' !! k = objs m !! k) ∧
       ∃ vns', objs m' !! cr_key vns = Some (OVNS vns') ∧ cr_spec vns' = cr_spec vns ∧
         distinct_conditions vns' ∧ shows (cr_status vns') (current_projection m vns)) m.
Proof.
  intros Hwf Hl Hd Hnd. apply wp_vns_round; [done..|]. intros t0 t1 t2. cbv zeta.
  destruct (statusEqual _ _) eqn:E.
  - split_and!; [done|done|]. exists vns. split_and!; [done..|].
    eapply desired_shows; [exact _|exact Hnd|by right].
  - intros rv Hrv Hwf'. split_and!; [done| |].
    + intros k Hk. unfold put; simpl. by rewrite lookup_insert_ne by done.
    + eexists. split; [apply lookup_insert_eq|]. split; [done|].
      assert (NoDup (cond_Type <$> vt_Conditions
        (desired vns (current_projection m vns) t0 t1 t2))) as Hnd' by (by apply set_cond_types, set_cond_types).
      split; [exact Hnd'|]. eapply desired_shows; [exact _|exact Hnd'|by left].
Qed.

(** A second projection of the same node computes the same status. *)
Lemma desired_again vns pj t0 t1 t2 t0' t1' t2' rv :
  let st := desired vns pj t0 t1 t2 in
  desired (cr_on_status rv vns (cr_set_status st vns)) pj t0' t1' t2' = st.
Proof.
  cbv zeta. unfold desired at 1. cbn [cr_on_status cr_set_status cr_status cr_spec cr_meta vt_Phase
    vt_LastTransitionTime vt_Conditions desired].
  rewrite decide_True by done. by rewrite conditions_for_id.
Qed.

(** The reconciler is quiet: a second round with nothing changed in between
    writes nothing at all, whatever the clock says. *)
Theorem Reconcile_VirtualNodeState_quiet `{!PlatformLaws} r vns m :
  store_wf m → objs m !! cr_key vns = Some (OVNS vns) → m_DeletionTimestamp (cr_meta vns) = None →
  distinct_conditions vns →
  wp reliable (Reconcile_VirtualNodeState r (cr_Namespace vns) (cr_Name vns))
    (λ _ m', wp reliable (Reconcile_VirtualNodeState r (cr_Namespace vns) (cr_Name vns))
       (λ o m'', o = (after (vns_requeueAfter r), None) ∧ m'' = m') m') m.
Proof.
  intros Hwf Hl Hd Hnd. apply wp_vns_round; [done..|]. intros t0 t1 t2. cbv zeta.
  destruct (statusEqual _ _) eqn:E.
  - apply wp_vns_round; [done..|]. intros t0' t1' t2'. cbv zeta.
    by rewrite (statusEqual_times _ _ _ _ _ _ t0 t1 t2), E.
  - intros rv Hrv Hwf'. set (st := desired vns (current_projection m vns) t0 t1 t2) in *.
    set (vns' := cr_on_status rv vns (cr_set_status st vns)) in *.
    apply (wp_vns_round r vns'); [done|by apply lookup_insert_eq|done|].
    intros t0' t1' t2'. cbv zeta.
    assert (current_projection (put (cr_key vns) (OVNS vns') m) vns' = current_projection m vns) as ->.
    { unfold current_projection, stored_node. change (nodeNameFor vns') with (nodeNameFor vns).
      unfold put; cbn [objs]. by rewrite lookup_insert_ne by done. }
    unfold vns' at 2. unfold st. rewrite desired_again. fold st.
    assert (statusEqual (cr_status vns') st = true) as ->; [|done].
    change (cr_status vns') with st. unfold statusEqual.
    rewrite !bool_decide_true, resourceListEqual_refl by done. simpl.
    apply conditionsEqual_refl. by apply set_cond_types, set_cond_types.
Qed.
End VirtualNodeStateProofs.
