(* ===== verification/PollerProofs.v ===== *)
(** * Correctness of the poll loop and the health probe *)
From stdpp Require Import base gmap strings list relations.
From Stdlib Require Import ZArith Lia.
From S2P Require Import Prelude GoText ApiTypes ConsumerTypes Kube Effects Chunk Wire AgentClient.
From S2P Require Import AgentHandlers Poller InstructionsApi.

Open Scope Z_scope.

Section PollerProofs.
Context `{Platform}.

Abbreviation HandlerResult := (option InstructionResultRequest + Err)%type.

(** ** Results the Broker accepts *)

(** Posted as it is, this result passes the Broker's validation. *)
Definition valid_result (r : HandlerResult) : Prop :=
  validateInstructionResult (result_of r) = None.

Definition texted (e : Err) : Prop := e_msg e ≠ "".
Definition otexted (e : option Err) : Prop := match e with Some e => texted e | None => True end.
Definition rtexted {A} (r : Res A) : Prop := match r with Fail e => texted e | Ok _ => True end.

Lemma valid_error e : texted e → valid_result (inr e).
Proof. intros He. unfold valid_result, validateInstructionResult. simpl. by rewrite decide_False. Qed.

Lemma texted_wrapf p e : texted (wrapf p e).
Proof. unfold texted, wrapf. simpl. by destruct p. Qed.

Lemma valid_payload p :
  pl_Kind p ∈ [PayloadKindKubeconfig; PayloadKindPeer; PayloadKindUnpeer; PayloadKindReconcile; ""] →
  valid_result (succeeded_with p).
Proof. intros Hp. unfold valid_result, validateInstructionResult. simpl. by rewrite decide_True. Qed.

(** Every result of these programs is of that form. *)
Ltac results :=
  repeat first
    [ done
    | apply valid_error; first [done | apply texted_wrapf]
    | apply texted_wrapf
    | apply valid_payload; apply (bool_decide_unpack _); reflexivity
    | progress cbn [otexted rtexted]
    | case_decide | case_match ].

Lemma delete_texted {S T} `{!Resource S T} (o : CR S T) what : pleaves otexted (delete_idempotent o what).
Proof. intros x. simpl. results. Qed.

Lemma tenant_texted p : pleaves rtexted (tenantNamespaceFor p).
Proof. intros x. simpl. results. Qed.

Lemma persist_texted ns id kc : pleaves otexted (persistKubeconfig ns id kc).
Proof.
  unfold persistKubeconfig. case_decide; [done|]. intros x. simpl.
  destruct (decode x) as [?|e]; [done|]. destruct (IsAlreadyExists e); cbn [negb]; [|apply texted_wrapf].
  intros y. simpl. destruct (decode y); [|apply texted_wrapf]. intros z. simpl. results.
Qed.

Lemma deleteResourceSlice_texted id p : pleaves otexted (deleteResourceSlice id p).
Proof.
  unfold deleteResourceSlice. apply (pleaves_bind rtexted); [apply tenant_texted|].
  intros [ns|e] He; [apply delete_texted|done].
Qed.

Lemma ensureResourceSlice_texted id p rl : pleaves rtexted (ensureResourceSlice id p rl).
Proof.
  unfold ensureResourceSlice. apply (pleaves_bind rtexted); [apply tenant_texted|].
  intros [ns|e] He; [|done]. intros x. simpl. results.
Qed.

Lemma ensureVirtualNodeState_texted ns s i : pleaves otexted (ensureVirtualNodeState ns s i).
Proof. intros x. simpl. results. Qed.

Lemma load_texted ns id : pleaves rtexted (loadKubeconfigFromSecret ns id).
Proof. intros x. simpl. results. Qed.

Lemma deferring_leaves dir p : leaves valid_result p → leaves valid_result (deferring dir p).
Proof. intros Hp. unfold deferring. apply (leaves_bind valid_result); [done|]. intros r Hr x. done. Qed.

Lemma unless_leaves e k :
  otexted e → leaves valid_result k → leaves valid_result (unless_err e k).
Proof. destruct e; [|done]. intros He _. by apply leaves_ret, valid_error. Qed.

Lemma step_leaves {A} (P : A → Prop) (p : prog A) f :
  pleaves P p → (∀ a, P a → leaves valid_result (f a)) →
  leaves valid_result (eff_bind (E:=tool_call) (R:=tool_answer) f (api p)).
Proof. intros Hp Hf. by apply (leaves_bind P); [apply leaves_api|]. Qed.

Lemma tool_leaves c (f : tool_answer c → eff tool_call tool_answer HandlerResult) :
  (∀ x, leaves valid_result (f x)) → leaves valid_result (tool_ask c ≫= f).
Proof. done. Qed.

Lemma PeerHandler_valid cfg inst : leaves valid_result (PeerHandler cfg inst).
Proof.
  unfold PeerHandler. destruct inst as [inst|]; [|by apply leaves_ret, valid_error].
  case_decide; [by apply leaves_ret, valid_error|]. case_match; [by apply leaves_ret, valid_error|].
  do 3 (case_decide; [by apply leaves_ret, valid_error|]).
  apply (step_leaves _ _ _ (persist_texted _ _ _)). intros e He.
  apply unless_leaves; [by destruct e; simpl; [apply texted_wrapf|]|].
  apply (leaves_bind (λ _, True)); [apply leaves_any|]. intros [[path dir]|err] _;
    [|by apply leaves_ret, valid_error].
  apply deferring_leaves, (tool_leaves (RunCommand _ _ _)). intros [[so se] [err|]];
    [by apply leaves_ret, valid_error|].
  apply (step_leaves _ _ _ (ensureResourceSlice_texted _ _ _)). intros [sl|e2] He2;
    [|by apply leaves_ret, valid_error].
  apply (step_leaves _ _ _ (ensureVirtualNodeState_texted _ _ _)). intros e3 He3.
  apply unless_leaves; [done|]. apply leaves_ret. results.
Qed.

Lemma UnpeerHandler_valid cfg inst : leaves valid_result (UnpeerHandler cfg inst).
Proof.
  unfold UnpeerHandler. destruct inst as [inst|]; [|by apply leaves_ret, valid_error].
  case_decide; [by apply leaves_ret, valid_error|]. case_match; [by apply leaves_ret, valid_error|].
  case_decide; [by apply leaves_ret, valid_error|].
  apply (step_leaves _ _ _ (delete_texted _ _)). intros e1 He1. apply unless_leaves; [done|].
  apply (step_leaves _ _ _ (deleteResourceSlice_texted _ _)). intros e2 He2. apply unless_leaves; [done|].
  apply (step_leaves _ _ _ (load_texted _ _)). intros [kc|e3] He3; [|by apply leaves_ret, valid_error].
  match goal with |- leaves _ (unpeer_tunnel _ _ _ ?q) => set (k := q) end.
  assert (leaves valid_result k) as Hk.
  { apply (step_leaves _ _ _ (delete_texted _ _)). intros e4 He4. apply unless_leaves; [done|].
    apply (leaves_bind otexted).
    - case_match; [by apply leaves_api, delete_texted|done].
    - intros e5 He5. apply unless_leaves; [done|]. apply leaves_ret. results. }
  unfold unpeer_tunnel. case_match; [done|]. case_decide; [done|].
  apply (leaves_bind (λ _, True)); [apply leaves_any|]. intros [[path dir]|err] _;
    [|by apply leaves_ret, valid_error].
  apply deferring_leaves, (tool_leaves (RunCommand _ _ _)). intros [[so se] [err|]]; [|done].
  case_match; [done|by apply leaves_ret, valid_error].
Qed.

Lemma CleanupHandler_valid cfg inst : leaves valid_result (CleanupHandler cfg inst).
Proof.
  unfold CleanupHandler. destruct inst as [inst|]; [|by apply leaves_ret, valid_error].
  case_decide; [by apply leaves_ret, valid_error|]. case_match; [by apply leaves_ret, valid_error|].
  case_decide; [by apply leaves_ret, valid_error|].
  apply (step_leaves _ _ _ (delete_texted _ _)). intros e1 He1. apply unless_leaves; [done|].
  apply (step_leaves _ _ _ (deleteResourceSlice_texted _ _)). intros e2 He2. apply unless_leaves; [done|].
  apply (step_leaves _ _ _ (delete_texted _ _)). intros e3 He3. by apply unless_leaves.
Qed.

Lemma ReconcileHandler_valid cfg inst : leaves valid_result (ReconcileHandler cfg inst).
Proof.
  unfold ReconcileHandler. destruct inst as [inst|]; [|by apply leaves_ret, valid_error].
  case_decide; [by apply leaves_ret, valid_error|]. case_match; [by apply leaves_ret, valid_error|].
  apply (step_leaves (λ _, True)); [apply pleaves_any|]. intros [items|e] _; apply leaves_ret; results.
Qed.

Lemma GenerateKubeconfigHandler_valid cfg inst : leaves valid_result (GenerateKubeconfigHandler cfg inst).
Proof.
  unfold GenerateKubeconfigHandler. destruct inst as [inst|]; [|by apply leaves_ret, valid_error].
  case_decide; [by apply leaves_ret, valid_error|]. case_decide; [by apply leaves_ret, valid_error|].
  apply (tool_leaves (RunCommand _ _ _)). intros [[so se] [err|]]; apply leaves_ret; results.
Qed.

Lemma ProviderCleanupHandler_valid cfg inst : leaves valid_result (ProviderCleanupHandler cfg inst).
Proof.
  unfold ProviderCleanupHandler. destruct inst as [inst|]; [|by apply leaves_ret, valid_error].
  case_decide; [by apply leaves_ret, valid_error|]. case_decide; [by apply leaves_ret, valid_error|].
  apply (tool_leaves (RunCommand _ _ _)). intros [[so se] [err|]]; apply leaves_ret; results.
Qed.

Lemma ProviderReconcileHandler_valid cfg inst : leaves valid_result (ProviderReconcileHandler cfg inst).
Proof.
  unfold ProviderReconcileHandler. destruct inst as [inst|]; [|by apply leaves_ret, valid_error].
  case_decide; [by apply leaves_ret, valid_error|]. case_match; [by apply leaves_ret, valid_error|].
  case_decide; [by apply leaves_ret, valid_error|].
  apply (step_leaves (λ _, True)); [apply pleaves_any|]. intros [snap|e] _; apply leaves_ret; results.
Qed.

(** The two roles an agent can have. *)
Inductive Role := ConsumerRole | ProviderRole.
Definition agent_registry (role : Role) (cfg : HandlerConfig) : gmap string _ :=
  match role with ConsumerRole => consumer_registry cfg | ProviderRole => provider_registry cfg end.

Definition sound_handler (h : option InstructionView → eff tool_call tool_answer HandlerOutcome) : Prop :=
  ∀ inst, leaves (λ o, valid_result (safeHandle o)) (h inst).

Lemma returning_sound h : (∀ inst, leaves valid_result (h inst)) → sound_handler (returning h).
Proof.
  intros Hh inst. unfold returning. by apply (leaves_bind valid_result); [apply Hh|].
Qed.

Lemma agent_registry_sound role cfg kind h : agent_registry role cfg !! kind = Some h → sound_handler h.
Proof.
  destruct role; cbn [agent_registry]; unfold consumer_registry, provider_registry,
    RegisterReservation, RegisterProvider, Register; intros Hl;
    repeat (apply lookup_insert_Some in Hl as [[_ <-]|[_ Hl]];
            [apply returning_sound; intros inst;
             first [apply PeerHandler_valid|apply UnpeerHandler_valid|apply CleanupHandler_valid
                   |apply ReconcileHandler_valid|apply GenerateKubeconfigHandler_valid
                   |apply ProviderCleanupHandler_valid|apply ProviderReconcileHandler_valid]|]);
    by rewrite lookup_empty in Hl.
Qed.

(** ** Traces *)
Definition any_poll : list (event poll_answer) → ∀ c, poll_answer c → list (event poll_answer) → Prop :=
  traced (λ _ _ _, True).

Definition posted (t : list (event poll_answer)) : list (string * InstructionResultRequest) :=
  omap (λ ev : event poll_answer,
          match ev return option (string * InstructionResultRequest) with
          | existT (PollPostResult id req) _ => Some (id, req)
          | _ => None
          end) t.

(** The handler brackets a trace reports to the probe. *)
Definition actives (t : list (event poll_answer)) : list bool :=
  omap (λ ev : event poll_answer,
          match ev return option bool with
          | existT (NotifyHandlerActive b) _ => Some b
          | _ => None
          end) t.

Definition cancelled (t : list (event poll_answer)) : Prop := existT PollCtxErr true ∈ t.

Definition is_tool_event (ev : event poll_answer) : Prop :=
  match ev with existT (PollTool _) _ => True | _ => False end.

Section Traces.
Context (C : contract).

Lemma ewp_poll e Q m t : (∀ x, Q x m (t ++ [existT e x])) → ewp C any_poll (poll_ask e) Q m t.
Proof. intros HQ x t' [_ ->]. apply HQ. Qed.

(** A handler leaves only its own calls in the trace, and its results are the
    leaves of its program. *)
Lemma ewp_hoist {A} (P : A → Prop) (p : eff tool_call tool_answer A) m t :
  leaves P p →
  ewp C any_poll (hoist (λ c, poll_ask (PollTool c)) p)
    (λ a _ t', P a ∧ ∃ l, t' = t ++ l ∧ Forall is_tool_event l) m t.
Proof.
  revert m t. induction p as [a|r k IH|c k IH]; intros m t Hp; simpl in *.
  - split; [done|]. exists []. by rewrite app_nil_r.
  - intros x m' _. by apply IH.
  - intros x t' [_ ->]. eapply ewp_mono; [|by apply IH].
    intros a m' t'' [HPa (l & -> & Hl)]. split; [done|]. exists (existT (PollTool c) x :: l).
    rewrite <-app_assoc. split; [done|]. by constructor.
Qed.

Lemma tools_invisible l :
  Forall is_tool_event l → posted l = [] ∧ actives l = [].
Proof.
  unfold posted, actives. induction 1 as [|[[] x] l Hev _ [IH1 IH2]]; try done.
Qed.

Lemma ewp_run_handler h inst m t :
  sound_handler h →
  ewp C any_poll (run_handler h inst)
    (λ r _ t', valid_result r ∧ ∃ l, t' = t ++ l ∧ Forall is_tool_event l) m t.
Proof.
  intros Hh. unfold run_handler. apply ewp_bind.
  eapply ewp_mono; [|by apply (ewp_hoist (λ o, valid_result (safeHandle o)))].
  intros o m' t' [HPo Hl]. by apply ewp_ret.
Qed.

(** The bracket around one dispatch, when the probe listens. *)
Definition bracket (p : Poller) (l : list bool) : list bool := if po_hasOnHandlerActive p then l else [].

Definition dispatched (p : Poller) (inst : InstructionView) (l : list (event poll_answer)) : Prop :=
  ∃ req, posted l = [(iv_ID inst, req)] ∧ validateInstructionResult req = None ∧
    actives l = bracket p [true; false].

Lemma ewp_notifyActive p b Q m t :
  (∀ l, posted l = [] → actives l = bracket p [b] → Q tt m (t ++ l)) →
  ewp C any_poll (notifyHandlerActive p b) Q m t.
Proof.
  intros HQ. unfold notifyHandlerActive, bracket in *. destruct (po_hasOnHandlerActive p).
  - apply ewp_poll. intros []. by apply HQ.
  - rewrite <-(app_nil_r t). by apply HQ.
Qed.

Lemma posted_app l1 l2 : posted (l1 ++ l2) = posted l1 ++ posted l2.
Proof. apply omap_app. Qed.
Lemma actives_app l1 l2 : actives (l1 ++ l2) = actives l1 ++ actives l2.
Proof. apply omap_app. Qed.

Lemma ewp_dispatch p inst m t :
  (∀ kind h, po_registry p !! kind = Some h → sound_handler h) →
  ewp C any_poll (dispatch p inst) (λ _ _ t', ∃ l, t' = t ++ l ∧ dispatched p inst l) m t.
Proof.
  intros Hreg. unfold dispatch. apply ewp_bind, ewp_notifyActive. intros l1 Hp1 Ha1.
  assert (∀ req l2 m2, validateInstructionResult req = None → posted l2 = [] → actives l2 = [] →
    ewp C any_poll (postResult (iv_ID inst) req)
      (λ _ m' t', ewp C any_poll (notifyHandlerActive p false)
         (λ _ _ t', ∃ l, t' = t ++ l ∧ dispatched p inst l) m' t') m2 ((t ++ l1) ++ l2)) as Hpost.
  { intros req l2 m2 Hv Hp2 Ha2. unfold postResult. apply ewp_bind, ewp_poll. intros x. apply ewp_ret.
    apply ewp_notifyActive. intros l4 Hp4 Ha4.
    eexists. split; [by rewrite <-!app_assoc|]. exists req.
    rewrite !posted_app, !actives_app, Hp1, Ha1, Hp2, Ha2, Hp4, Ha4. split_and!; [done|done|].
    unfold bracket. by destruct (po_hasOnHandlerActive p). }
  apply ewp_bind. unfold Lookup. destruct (po_registry p !! iv_Kind inst) as [h|] eqn:Eh.
  - apply ewp_bind. eapply ewp_mono; [|by apply ewp_run_handler, (Hreg (iv_Kind inst))].
    intros r m2 t2 [Hv (l2 & -> & Hl2)]. destruct (tools_invisible _ Hl2). by apply Hpost.
  - rewrite <-(app_nil_r (t ++ l1)). by apply Hpost.
Qed.

Lemma ewp_dispatch_all p insts m t :
  (∀ kind h, po_registry p !! kind = Some h → sound_handler h) →
  ewp C any_poll (dispatch_all p insts)
    (λ _ _ t', ∃ l k, t' = t ++ l ∧ (k ≤ length insts)%nat ∧
       (posted l).*1 = iv_ID <$> take k insts ∧
       Forall (λ q, validateInstructionResult q.2 = None) (posted l) ∧
       actives l = bracket p (concat (replicate k [true; false])) ∧
       ((k < length insts)%nat → cancelled l)) m t.
Proof.
  intros Hreg. revert m t. induction insts as [|inst insts IH]; intros m t; cbn [dispatch_all].
  - exists [], 0%nat. rewrite app_nil_r. unfold bracket. split_and!; [done..| |simpl; lia].
    by destruct (po_hasOnHandlerActive p).
  - apply ewp_bind, (ewp_poll PollCtxErr). intros [].
    + exists [existT PollCtxErr true], 0%nat. unfold bracket.
      split_and!; [done|simpl; lia|done|constructor|by destruct (po_hasOnHandlerActive p)|].
      intros _. unfold cancelled. by constructor.
    + apply ewp_bind. eapply ewp_mono; [|by apply ewp_dispatch].
      intros [] m1 t1 (l1 & -> & req & Hp1 & Hv & Ha1). eapply ewp_mono; [|apply IH].
      intros [] m2 t2 (l2 & k & -> & Hk & Hp2 & Hv2 & Ha2 & Hc).
      exists ([existT PollCtxErr false] ++ l1 ++ l2), (S k).
      rewrite !posted_app, !actives_app, Hp1, Ha1, Ha2. split_and!.
      * by rewrite <-!app_assoc.
      * simpl. lia.
      * simpl. f_equal. exact Hp2.
      * by constructor.
      * unfold bracket. by destruct (po_hasOnHandlerActive p).
      * intros Hlt. unfold cancelled. rewrite !elem_of_app. right. right. apply Hc. simpl in Hlt. lia.
Qed.
End Traces.

End PollerProofs.

(** ** The readiness gate *)
Inductive ProbeEvent :=
| ContactEvent (success : bool)          (* RecordPoll *)
| HandlerEvent (active : bool).          (* RecordHandlerActive *)

Definition probe_step (p : Probe) (ev : Time * ProbeEvent) : Probe :=
  match ev.2 with
  | ContactEvent b => RecordPoll b ev.1 p
  | HandlerEvent b => RecordHandlerActive b ev.1 p
  end.

(** A history of a serial poll loop: the time of its last proof of life, and
    since when a handler is running. *)
Inductive serial_history : list (Time * ProbeEvent) → option Time → option Time → Prop :=
| history_nil : serial_history [] None None
| history_contact h c r t : t ≠ 0 → serial_history h c r →
    serial_history (h ++ [(t, ContactEvent true)]) (Some t) r
| history_failure h c r t : serial_history h c r →
    serial_history (h ++ [(t, ContactEvent false)]) c r
| history_start h c t : t ≠ 0 → serial_history h c None →
    serial_history (h ++ [(t, HandlerEvent true)]) c (Some t)
| history_end h c s t : t ≠ 0 → serial_history h c (Some s) →
    serial_history (h ++ [(t, HandlerEvent false)]) (Some t) None.

Lemma probe_tracks stale maxBusy h c r :
  serial_history h c r →
  foldl probe_step (NewProbe stale maxBusy) h =
    mkProbe (default 0 c) (match r with Some _ => 1 | None => 0 end) (default 0 r)
      (pr_pollStaleAfter (NewProbe stale maxBusy)) (pr_maxHandlerInFlight (NewProbe stale maxBusy)) ∧
  (∀ t, c = Some t → t ≠ 0) ∧ (∀ t, r = Some t → t ≠ 0).
Proof.
  induction 1 as [|h c r t Ht _ (IH & Hc & Hr)|h c r t _ (IH & Hc & Hr)|h c t Ht _ (IH & Hc & Hr)
    |h c s t Ht _ (IH & Hc & Hr)]; [done|..]; rewrite foldl_snoc, IH; split_and!; naive_solver.
Qed.

(** The readiness gate of an agent that dispatches one instruction at a time
    is open exactly while it has proof of life: a contact with the Broker or a
    finished handler within the staleness window, or, after a first contact, a
    handler that has been running for no longer than its bound. *)
Theorem Ready_iff_alive stale maxBusy h c r now :
  serial_history h c r →
  let p := foldl probe_step (NewProbe stale maxBusy) h in
  Ready now p = None ↔
  ∃ t, c = Some t ∧ (now - t ≤ pr_pollStaleAfter p ∨
                     ∃ s, r = Some s ∧ now - s ≤ pr_maxHandlerInFlight p).
Proof.
  intros Hh. destruct (probe_tracks stale maxBusy h c r Hh) as (-> & Hc & Hr).
  cbv zeta. unfold Ready. cbn [pr_lastPollOK pr_inFlight pr_handlerSince pr_pollStaleAfter
    pr_maxHandlerInFlight]. set (P := pr_pollStaleAfter (NewProbe stale maxBusy)).
  set (M := pr_maxHandlerInFlight (NewProbe stale maxBusy)).
  destruct c as [t|]; cbn [from_option id]; [|split; [done|intros (? & ? & _); done]].
  destruct (Z.eqb_spec t 0); [by destruct (Hc t)|]. destruct (Z.ltb_spec P (now - t)).
  - destruct r as [s|]; cbn [from_option id].
    + destruct (Z.eqb_spec s 0); [by destruct (Hr s)|]. cbn [andb negb Z.ltb Z.compare].
      destruct (Z.leb_spec (now - s) M).
      * split; [|done]. intros _. exists t. split; [done|]. right. by exists s.
      * split; [done|]. intros (? & [= <-] & [?|(? & [= <-] & ?)]); lia.
    + split; [done|]. intros (? & [= <-] & [?|(? & ? & _)]); [lia|done].
  - split; [|done]. intros _. exists t. split; [done|by left].
Qed.
