(* ===== verification/HandlerProofs.v ===== *)
(** * Correctness of the agents' instruction handlers *)
From stdpp Require Import base gmap strings list.
From Stdlib Require Import ZArith Lia.
From S2P Require Import Prelude GoText ApiTypes ConsumerTypes Kube MemServer Effects Chunk Wire.
From S2P Require Import AgentHandlers.

Open Scope Z_scope.

Section HandlerProofs.
Context `{Platform}.

Abbreviation HandlerResult := (option InstructionResultRequest + Err)%type.

(** Any file system and any [liqoctl]. *)
Definition any_tool : list (event tool_answer) → ∀ c, tool_answer c → list (event tool_answer) → Prop :=
  traced (λ _ _ _, True).

Lemma ewp_tool C c Q m t : (∀ x, Q x m (t ++ [existT c x])) → ewp C any_tool (tool_ask c) Q m t.
Proof. intros HQ x t' [_ ->]. apply HQ. Qed.

(** ** Whose objects a handler touches *)

(** The commands a trace ran. *)
Definition commands (t : list (event tool_answer)) : list (list string) :=
  omap (λ ev : event tool_answer,
          match ev return option (list string) with
          | existT (RunCommand _ _ args) _ => Some args
          | _ => None
          end) t.

(** The objects of one reservation on the consumer cluster. *)
Definition own_key (ns id : string) (k : Key) : Prop :=
  k = (KVirtualNodeState, ns, virtualNodeStateName id) ∨
  k = (KSecret, ns, consumerKubeconfigSecretName id) ∨
  ∃ tenant, k = (KResourceSlice, tenant, resourceSliceName id).

(** The peering with a provider, shared by its reservations. *)
Definition peering_key (provider : string) : Key := (KForeignCluster, "", provider).

Section Frame.
Context (P : Key → Prop).

Lemma spares_ret {A} (a : A) : spares P (mret a).
Proof. done. Qed.

Lemma spares_tenant p : spares P (tenantNamespaceFor p).
Proof. by split. Qed.

Lemma spares_delete {S T} `{!Resource S T} (o : CR S T) what :
  ¬ P (cr_key o) → spares P (delete_idempotent o what).
Proof. by split. Qed.

Lemma spares_deleteSlice id p :
  (∀ tenant, ¬ P (KResourceSlice, tenant, resourceSliceName id)) → spares P (deleteResourceSlice id p).
Proof.
  intros HP. apply spares_bind; [apply spares_tenant|]. intros [ns|e]; [|done].
  apply spares_delete, HP.
Qed.

Lemma spares_ensureSlice id p rl :
  (∀ tenant, ¬ P (KResourceSlice, tenant, resourceSliceName id)) → spares P (ensureResourceSlice id p rl).
Proof.
  intros HP. apply spares_bind; [apply spares_tenant|]. intros [ns|e]; [|done].
  split; [apply HP|]. intros x. done.
Qed.

(** [persistKubeconfig] may update a Secret it read, so its frame is that of a
    server's answers. *)
Lemma wps_persist ns id kc m :
  store_wf m → ¬ P (KSecret, ns, consumerKubeconfigSecretName id) →
  wp serves (persistKubeconfig ns id kc) (λ _ m', same_on P m m') m.
Proof.
  intros Hwf HP. unfold persistKubeconfig. case_decide; [by apply same_on_refl|].
  apply wp_bind. eapply wp_mono; [|apply (wps_spares P); [done|by split]].
  intros x m1 Hm1. destruct x as [o|e]; [done|]. destruct (IsAlreadyExists e); simpl negb; [|done].
  apply wp_bind, wps_get; [apply Hm1| |done]. intros sec Hl Hns Hn.
  apply wp_bind. eapply wp_mono; [|apply (wps_spares P); [apply Hm1|]].
  - intros y m2 Hm2. apply wp_ret. by eapply same_on_trans.
  - split; [|done]. simpl. rewrite <-Hns, <-Hn in HP. exact HP.
Qed.
End Frame.

(** The handler registered for each kind. *)
Definition consumer_handler (kind : ReservationInstructionKind) :
    HandlerConfig → option InstructionView → eff tool_call tool_answer HandlerResult :=
  match kind with
  | ReservationInstructionPeer => PeerHandler
  | ReservationInstructionUnpeer => UnpeerHandler
  | ReservationInstructionCleanup => CleanupHandler
  | ReservationInstructionReconcile => ReconcileHandler
  end.

(** What an instruction entitles its handler to change. *)
Definition may_change (kind : ReservationInstructionKind) (cfg : HandlerConfig) (inst : InstructionView)
    (k : Key) : Prop :=
  own_key (hc_Namespace cfg) (iv_ReservationID inst) k ∨
  (kind = ReservationInstructionUnpeer ∧ iv_LastChunk inst = true ∧
   k = peering_key (iv_ProviderLiqoClusterID inst)).

Lemma espares_unless P e (k : eff tool_call tool_answer HandlerResult) :
  espares P k → espares P (unless_err e k).
Proof. by destruct e. Qed.

Lemma espares_tools {A} P c (f : tool_answer c → eff tool_call tool_answer A) :
  (∀ x, espares P (f x)) → espares P (tool_ask c ≫= f).
Proof. done. Qed.

Lemma espares_stage P id kc : espares P (writeKubeconfigToTempFile id kc).
Proof.
  apply (espares_tools P (MkdirTemp _)). intros [d|e]; [|done].
  apply (espares_tools P (WriteFile _ _)). by intros [e|].
Qed.

Lemma espares_defer P dir p : espares P p → espares P (deferring dir p).
Proof. intros Hp. apply espares_bind; [done|]. intros r x. done. Qed.

Section Isolation.
Context (cfg : HandlerConfig) (inst : InstructionView).
Let ns := hc_Namespace cfg.
Let id := iv_ReservationID inst.
Let other (kind : ReservationInstructionKind) (k : Key) : Prop := ¬ may_change kind cfg inst k.

Lemma other_own kind k : own_key ns id k → ¬ other kind k.
Proof. intros Hk Ho. apply Ho. by left. Qed.

Lemma other_vns kind : ¬ other kind (KVirtualNodeState, ns, virtualNodeStateName id).
Proof. apply other_own. by left. Qed.
Lemma other_secret kind : ¬ other kind (KSecret, ns, consumerKubeconfigSecretName id).
Proof. apply other_own. right. by left. Qed.
Lemma other_slice kind tenant : ¬ other kind (KResourceSlice, tenant, resourceSliceName id).
Proof. apply other_own. right. right. by exists tenant. Qed.

Lemma UnpeerHandler_frame : espares (other ReservationInstructionUnpeer) (UnpeerHandler cfg (Some inst)).
Proof.
  set (P := other ReservationInstructionUnpeer). unfold UnpeerHandler. fold ns id.
  case_decide; [done|]. case_match; [done|]. case_decide; [done|].
  apply espares_bind; [apply espares_api, spares_delete, other_vns|]. intros e1. apply espares_unless.
  apply espares_bind; [apply espares_api, spares_deleteSlice, other_slice|]. intros e2. apply espares_unless.
  apply espares_bind; [by apply espares_api; split|]. intros [kc|e3]; [|done].
  match goal with |- espares _ (unpeer_tunnel _ _ _ ?q) => set (k := q) end.
  assert (espares P k) as Hk.
  { apply espares_bind; [apply espares_api, spares_delete, other_secret|]. intros e4.
    apply espares_unless, espares_bind; [|intros e5; by apply espares_unless].
    case_match eqn:E; [|done]. apply espares_api, spares_delete. intros Ho. apply Ho. right.
    apply andb_true_iff in E as [E _]. done. }
  unfold unpeer_tunnel. case_match; [done|]. case_decide; [done|].
  apply espares_bind; [apply espares_stage|]. intros [[path dir]|err]; [|done].
  apply espares_defer, (espares_tools P (RunCommand _ _ _)). intros [[so se] [err|]]; [|done].
  by case_match.
Qed.

Lemma CleanupHandler_frame kind : espares (other kind) (CleanupHandler cfg (Some inst)).
Proof.
  unfold CleanupHandler. fold ns id. case_decide; [done|]. case_match; [done|]. case_decide; [done|].
  apply espares_bind; [apply espares_api, spares_delete, other_vns|]. intros e1. apply espares_unless.
  apply espares_bind; [apply espares_api, spares_deleteSlice, other_slice|]. intros e2. apply espares_unless.
  apply espares_bind; [apply espares_api, spares_delete, other_secret|]. intros e3. by apply espares_unless.
Qed.

Lemma ReconcileHandler_frame kind : espares (other kind) (ReconcileHandler cfg (Some inst)).
Proof.
  unfold ReconcileHandler. case_decide; [done|]. case_match; [done|].
  apply espares_bind; [|done]. by apply espares_api; case_decide.
Qed.

Lemma PeerHandler_frame m t :
  store_wf m →
  ewp serves any_tool (PeerHandler cfg (Some inst))
    (λ _ m' _, same_on (other ReservationInstructionPeer) m m') m t.
Proof.
  intros Hwf. set (P := other ReservationInstructionPeer).
  assert (same_on P m m) as Hrefl by (by apply same_on_refl). unfold PeerHandler. fold ns id.
  case_decide; [done|]. case_match; [done|]. do 3 (case_decide; [done|]).
  apply ewp_bind, ewp_api. eapply wp_mono; [|apply (wps_persist P); [done|apply other_secret]].
  intros e m1 Hm1. cbv beta.
  eapply ewp_mono; [|apply (ewp_espares _ P); [apply Hm1|]].
  { intros r m2 t2 Hm2. exact (same_on_trans _ _ _ _ Hm1 Hm2). }
  apply espares_unless, espares_bind; [apply espares_stage|]. intros [[path dir]|err]; [|done].
  apply espares_defer, (espares_tools P (RunCommand _ _ _)). intros [[so se] [err|]]; [done|].
  apply espares_bind; [apply espares_api, spares_ensureSlice, other_slice|]. intros [sl|e2]; [|done].
  apply espares_bind; [apply espares_api; split; [apply other_vns|done]|]. intros e3.
  by apply espares_unless.
Qed.
End Isolation.

(** The only handler that runs [liqoctl unpeer] is the last chunk's. *)
Definition tears_down (args : list string) : Prop := head args = Some "unpeer".

Lemma commands_app t1 t2 : commands (t1 ++ t2) = commands t1 ++ commands t2.
Proof. apply omap_app. Qed.

Lemma stage_commands C id kc m t :
  ewp C any_tool (writeKubeconfigToTempFile id kc) (λ _ _ t', commands t' = commands t) m t.
Proof.
  unfold writeKubeconfigToTempFile. apply ewp_bind, (ewp_tool _ (MkdirTemp _)).
  intros [d|e]; [|apply ewp_ret; by rewrite commands_app, app_nil_r].
  apply ewp_bind, (ewp_tool _ (WriteFile _ _)). intros [e|].
  - apply ewp_bind, (ewp_tool _ (RemoveAll _)). intros []. apply ewp_ret.
    by rewrite !commands_app, !app_nil_r.
  - apply ewp_ret. by rewrite !commands_app, !app_nil_r.
Qed.

Lemma defer_commands C dir p Q m t :
  ewp C any_tool p (λ _ _ t', Q (commands t')) m t →
  ewp C any_tool (deferring dir p) (λ _ _ t', Q (commands t')) m t.
Proof.
  intros Hp. apply ewp_bind. eapply ewp_mono; [|exact Hp]. intros r m1 t1 HQ.
  apply ewp_bind, (ewp_tool _ (RemoveAll _)). intros []. apply ewp_ret.
  by rewrite commands_app, app_nil_r.
Qed.

(** Tearing down needs an Unpeer of the last chunk. *)
Definition only_last (kind : ReservationInstructionKind) (inst : InstructionView)
    (cmds : list (list string)) : Prop :=
  ∀ args, args ∈ cmds → tears_down args →
    kind = ReservationInstructionUnpeer ∧ iv_LastChunk inst = true.

Lemma only_last_nil kind inst : only_last kind inst [].
Proof. by intros ? ?%elem_of_nil. Qed.

Lemma ewp_unless C (e : option Err) (k : eff tool_call tool_answer HandlerResult) Q m t :
  (∀ err, e = Some err → Q (inr err) m t) → (e = None → ewp C any_tool k Q m t) →
  ewp C any_tool (unless_err e k) Q m t.
Proof. intros H1 H2. destruct e; [by apply ewp_ret, H1|by apply H2]. Qed.

(** An API step leaves the trace alone, so a trace property passes over it. *)
Lemma ewp_step {A} C (p : prog A) f (Q : HandlerResult → store → list (event tool_answer) → Prop) m t :
  (∀ a m', ewp C any_tool (f a) Q m' t) → ewp C any_tool (x ← api p; f x) Q m t.
Proof. intros Hf. by apply ewp_bind, ewp_api_any. Qed.

Lemma consumer_handler_commands C kind cfg inst m :
  ewp C any_tool (consumer_handler kind cfg (Some inst))
    (λ _ _ t, only_last kind inst (commands t)) m [].
Proof.
  set (Q := λ (_ : HandlerResult) (_ : store) t, only_last kind inst (commands t)).
  assert (∀ r m t, commands t = [] → Q r m t) as Hnone.
  { intros r m0 t E. unfold Q. rewrite E. apply only_last_nil. }
  destruct kind; cbn [consumer_handler].
  - unfold PeerHandler. case_decide; [by apply ewp_ret, Hnone|]. case_match; [by apply ewp_ret, Hnone|].
    do 3 (case_decide; [by apply ewp_ret, Hnone|]). apply ewp_step. intros e m1.
    apply ewp_unless; [intros; by apply Hnone|]. intros _. apply ewp_bind.
    eapply ewp_mono; [|apply stage_commands]. intros [[path dir]|err] m2 t2 Et;
      [|by apply ewp_ret, Hnone].
    apply (defer_commands _ _ _ (only_last ReservationInstructionPeer inst)), ewp_bind,
      (ewp_tool _ (RunCommand _ _ _)). intros x.
    match goal with |- ewp _ _ _ _ _ ?t =>
      assert (only_last ReservationInstructionPeer inst (commands t)) as Hpeer end.
    { rewrite commands_app, Et. by intros args ->%list_elem_of_singleton. }
    destruct x as [[so se] [err|]]; [by apply ewp_ret|].
    apply ewp_step. intros [sl|e2] m3; [|by apply ewp_ret].
    apply ewp_step. intros e3 m4. by apply ewp_unless; intros; [|apply ewp_ret].
  - unfold UnpeerHandler. case_decide; [by apply ewp_ret, Hnone|]. case_match; [by apply ewp_ret, Hnone|].
    case_decide; [by apply ewp_ret, Hnone|].
    apply ewp_step. intros e1 m1. apply ewp_unless; [intros; by apply Hnone|]. intros _.
    apply ewp_step. intros e2 m2. apply ewp_unless; [intros; by apply Hnone|]. intros _.
    apply ewp_step. intros [kc|e3] m3; [|by apply ewp_ret, Hnone].
    match goal with |- ewp _ _ (unpeer_tunnel _ _ _ ?q) _ _ _ => set (k := q) end.
    assert (∀ m t, only_last ReservationInstructionUnpeer inst (commands t) →
      ewp C any_tool k Q m t) as Hk.
    { intros m4 t4 Ht. apply ewp_step. intros e4 m5. apply ewp_unless; [by intros|]. intros _.
      case_match.
      - apply ewp_step. intros e5 m6. by apply ewp_unless; intros; [|apply ewp_ret].
      - by apply ewp_bind, ewp_ret, ewp_unless; intros; [|apply ewp_ret]. }
    unfold unpeer_tunnel. destruct (iv_LastChunk inst) eqn:El; cbn [negb];
      [|by apply Hk, only_last_nil].
    case_decide; [by apply Hk, only_last_nil|].
    apply ewp_bind. eapply ewp_mono; [|apply stage_commands]. intros [[path dir]|err] m4 t4 Et;
      [|by apply ewp_ret, Hnone].
    apply (defer_commands _ _ _ (only_last ReservationInstructionUnpeer inst)), ewp_bind,
      (ewp_tool _ (RunCommand _ _ _)). intros x.
    match goal with |- ewp _ _ _ _ _ ?t =>
      assert (only_last ReservationInstructionUnpeer inst (commands t)) as Hun by done end.
    destruct x as [[so se] [err|]]; [|by apply Hk]. case_match; [by apply Hk|by apply ewp_ret].
  - unfold CleanupHandler. case_decide; [by apply ewp_ret, Hnone|]. case_match; [by apply ewp_ret, Hnone|].
    case_decide; [by apply ewp_ret, Hnone|].
    apply ewp_step. intros e1 m1. apply ewp_unless; [intros; by apply Hnone|]. intros _.
    apply ewp_step. intros e2 m2. apply ewp_unless; [intros; by apply Hnone|]. intros _.
    apply ewp_step. intros e3 m3. apply ewp_unless; [intros; by apply Hnone|]. intros _.
    by apply ewp_ret, Hnone.
  - unfold ReconcileHandler. case_decide; [by apply ewp_ret, Hnone|].
    case_match; [by apply ewp_ret, Hnone|]. apply ewp_step. intros x m1. by apply ewp_ret, Hnone.
Qed.

(** A consumer's instruction handlers touch only the objects of the
    reservation they are told about, whatever fails on the way.  The two things
    the reservations of one provider share, the tunnel and the ForeignCluster,
    are torn down by an Unpeer marked as the last chunk and by nothing else. *)
Theorem consumer_handlers_isolated kind cfg inst m :
  store_wf m →
  ewp serves any_tool (consumer_handler kind cfg (Some inst))
    (λ _ m' t, (∀ k, ¬ may_change kind cfg inst k → objs m' !! k = objs m !! k) ∧
       only_last kind inst (commands t)) m [].
Proof.
  intros Hwf. apply ewp_and; [|apply consumer_handler_commands].
  eapply (ewp_mono _ _ _ (λ _ m' _, same_on (λ k, ¬ may_change kind cfg inst k) m m'));
    [by intros r m' t' [_ Hs]|].
  destruct kind; cbn [consumer_handler].
  - by apply PeerHandler_frame.
  - apply ewp_espares; [done|apply UnpeerHandler_frame].
  - apply ewp_espares; [done|apply CleanupHandler_frame].
  - apply ewp_espares; [done|apply ReconcileHandler_frame].
Qed.

(** ** Staged credentials *)

(** The directories a trace made and did not remove. *)
Definition leak_step (l : list string) (ev : event tool_answer) : list string :=
  match ev with
  | existT (MkdirTemp _) x => match (x : string + string) with inl d => d :: l | inr _ => l end
  | existT (RemoveAll d) _ => filter (λ x, x ≠ d) l
  | _ => l
  end.
Definition leaked (t : list (event tool_answer)) : list string := foldl leak_step [] t.

Lemma leaked_snoc t ev : leaked (t ++ [ev]) = leak_step (leaked t) ev.
Proof. apply foldl_snoc. Qed.

Lemma stage_leaks C id kc m t :
  leaked t = [] →
  ewp C any_tool (writeKubeconfigToTempFile id kc)
    (λ r _ t', leaked t' = match r with inl (_, dir) => [dir] | inr _ => [] end) m t.
Proof.
  intros Ht. unfold writeKubeconfigToTempFile. apply ewp_bind, (ewp_tool _ (MkdirTemp _)).
  intros [d|e]; [|apply ewp_ret; by rewrite leaked_snoc, Ht].
  apply ewp_bind, (ewp_tool _ (WriteFile _ _)). intros [e|].
  - apply ewp_bind, (ewp_tool _ (RemoveAll _)). intros []. apply ewp_ret.
    rewrite !leaked_snoc, Ht. simpl. rewrite filter_cons_False by auto. done.
  - apply ewp_ret. by rewrite !leaked_snoc, Ht.
Qed.

Lemma defer_leaks C dir p m t :
  ewp C any_tool p (λ _ _ t', leaked t' = [dir]) m t →
  ewp C any_tool (deferring dir p) (λ _ _ t', leaked t' = []) m t.
Proof.
  intros Hp. apply ewp_bind. eapply ewp_mono; [|exact Hp]. intros r m1 t1 Ht.
  apply ewp_bind, (ewp_tool _ (RemoveAll _)). intros []. apply ewp_ret.
  rewrite leaked_snoc, Ht. simpl. by rewrite filter_cons_False by auto.
Qed.

(** No consumer handler leaves a provider credential behind on the agent's
    disk: every directory a kubeconfig was staged in is removed before the
    handler returns, on every path, including a failed write and a failed
    [liqoctl]. *)
Theorem staged_credentials_removed C kind cfg inst m :
  ewp C any_tool (consumer_handler kind cfg inst) (λ _ _ t, leaked t = []) m [].
Proof.
  destruct kind, inst as [inst|]; cbn [consumer_handler]; try done.
  - unfold PeerHandler. case_decide; [done|]. case_match; [done|].
    do 3 (case_decide; [done|]). apply ewp_step. intros e m1.
    apply ewp_unless; [done|]. intros _. apply ewp_bind.
    eapply ewp_mono; [|by apply stage_leaks]. intros [[path dir]|err] m2 t2 Et; [|by apply ewp_ret].
    apply defer_leaks, ewp_bind, (ewp_tool _ (RunCommand _ _ _)). intros x.
    match goal with |- ewp _ _ _ _ _ ?t => assert (leaked t = [dir]) as Hl by (by rewrite leaked_snoc) end.
    destruct x as [[so se] [err|]]; [by apply ewp_ret|].
    apply ewp_step. intros [sl|e2] m3; [|by apply ewp_ret].
    apply ewp_step. intros e3 m4. by apply ewp_unless; intros; [|apply ewp_ret].
  - unfold UnpeerHandler. case_decide; [done|]. case_match; [done|]. case_decide; [done|].
    apply ewp_step. intros e1 m1. apply ewp_unless; [done|]. intros _.
    apply ewp_step. intros e2 m2. apply ewp_unless; [done|]. intros _.
    apply ewp_step. intros [kc|e3] m3; [|by apply ewp_ret].
    match goal with |- ewp _ _ (unpeer_tunnel _ _ _ ?q) _ _ _ => set (k := q) end.
    assert (∀ m t l, leaked t = l → ewp C any_tool k (λ _ _ t', leaked t' = l) m t) as Hk.
    { intros m4 t4 l Ht. apply ewp_step. intros e4 m5. apply ewp_unless; [by intros|]. intros _.
      case_match.
      - apply ewp_step. intros e5 m6. by apply ewp_unless; intros; [|apply ewp_ret].
      - by apply ewp_bind, ewp_ret, ewp_unless; intros; [|apply ewp_ret]. }
    unfold unpeer_tunnel. case_match; [by apply Hk|]. case_decide; [by apply Hk|].
    apply ewp_bind. eapply ewp_mono; [|by apply stage_leaks]. intros [[path dir]|err] m4 t4 Et;
      [|by apply ewp_ret].
    apply defer_leaks, ewp_bind, (ewp_tool _ (RunCommand _ _ _)). intros x.
    match goal with |- ewp _ _ _ _ _ ?t => assert (leaked t = [dir]) as Hl by (by rewrite leaked_snoc) end.
    destruct x as [[so se] [err|]]; [|by apply Hk]. case_match; [by apply Hk|by apply ewp_ret].
  - unfold CleanupHandler. case_decide; [done|]. case_match; [done|]. case_decide; [done|].
    apply ewp_step. intros e1 m1. apply ewp_unless; [done|]. intros _.
    apply ewp_step. intros e2 m2. apply ewp_unless; [done|]. intros _.
    apply ewp_step. intros e3 m3. by apply ewp_unless; intros; [|apply ewp_ret].
  - unfold ReconcileHandler. case_decide; [done|]. case_match; [done|]. by apply ewp_step.
Qed.

(** ** Cleanup undoes Peer *)

(** The provider's tenant namespace, when there is no ambiguity. *)
Definition tenant (m : store) (provider : string) : option string :=
  match filter (is_tenant_of provider) (typed_all (S:=NamespaceSpec) (T:=unit) m) with
  | [] => Some (liqoTenantNamespacePrefix +:+ provider)
  | [n] => Some (cr_Name n)
  | _ => None
  end.

Lemma wp_tenant m provider ns (Q : Res string → store → Prop) :
  tenant m provider = Some ns → Q (Ok ns) m → wp reliable (tenantNamespaceFor provider) Q m.
Proof.
  intros Ht HQ. unfold tenantNamespaceFor. apply wp_bind, wp_list_all. intros l Hl. apply wp_ret.
  assert (filter (is_tenant_of provider) l ≡ₚ
          filter (is_tenant_of provider) (typed_all (S:=NamespaceSpec) (T:=unit) m)) as Hf by (by rewrite Hl).
  unfold tenant in Ht. destruct (filter _ (typed_all m)) as [|n [|n' rest]]; [| |done].
  - apply Permutation_nil_r in Hf as ->. by injection Ht as ->.
  - apply Permutation_singleton_r in Hf as ->. by injection Ht as ->.
Qed.

Section RoundTrip.
Context (cfg : HandlerConfig) (inst : InstructionView) (ns : string) (m0 : store).
Let id := iv_ReservationID inst.

Definition chunk_keys : list Key :=
  [(KVirtualNodeState, hc_Namespace cfg, virtualNodeStateName id);
   (KResourceSlice, ns, resourceSliceName id);
   (KSecret, hc_Namespace cfg, consumerKubeconfigSecretName id)].

(** [m] is [m0], up to objects of the chunk that nothing holds back. *)
Definition near (m : store) : Prop :=
  store_wf m ∧ (∀ k, k ∉ chunk_keys → objs m !! k = objs m0 !! k) ∧
  (∀ k o, k ∈ chunk_keys → objs m !! k = Some o → m_Finalizers (obj_meta o) = []).

Lemma near_tenant m provider : near m → tenant m provider = tenant m0 provider.
Proof.
  intros (_ & Hs & _). unfold tenant, typed_all, list_all_of.
  replace (filter (λ p : Key * Obj, p.1.1.1 = KNamespace) (objs m))
    with (filter (λ p : Key * Obj, p.1.1.1 = KNamespace) (objs m0)); [done|].
  apply map_eq. intros k. apply option_eq. intros o. rewrite !map_lookup_filter_Some. simpl.
  destruct (decide (k.1.1 = KNamespace)) as [Hk|Hk]; [|tauto].
  rewrite Hs; [done|]. unfold chunk_keys. rewrite !elem_of_cons, elem_of_nil.
  intros [->|[->|[->|[]]]]; done.
Qed.

Lemma near_put m k o :
  near m → k ∈ chunk_keys → m_Finalizers (obj_meta o) = [] → store_wf (put k o m) → near (put k o m).
Proof.
  intros (_ & Hs & Hf) Hk Ho Hwf. split_and!; [done|..].
  - intros k' Hk'. unfold put; simpl. rewrite lookup_insert_ne by set_solver. by apply Hs.
  - intros k' o' Hk' Hl. unfold put in Hl; simpl in Hl.
    apply lookup_insert_Some in Hl as [[_ <-]|[_ Hl]]; [done|by eapply Hf].
Qed.

Lemma wp_near_create {S T} `{!Resource S T} (a : CR S T) {B} (f : Res (CR S T) → B)
    (Q : B → store → Prop) m :
  near m → cr_key a ∈ chunk_keys → m_Finalizers (cr_meta a) = [] →
  (∀ b m', near m' → Q b m') → wp reliable (x ← create a; mret (f x)) Q m.
Proof.
  intros Hm Hk Ha HQ. apply wp_bind, wp_create; [apply Hm|..].
  - intros rv uid t _ _ a' Hwf'. apply wp_ret, HQ, near_put; [done|done| |done].
    by rewrite to_obj_meta.
  - intros e o _ _. by apply wp_ret, HQ.
Qed.

(** Deletes an object of the chunk, if it is there. *)
Lemma wp_near_delete {S T} `{!Resource S T} (a : CR S T) what (Q : option Err → store → Prop) m :
  near m → cr_key a ∈ chunk_keys →
  (∀ m', near m' → objs m' !! cr_key a = None →
     (∀ k, objs m !! k = None → objs m' !! k = None) → Q None m') →
  wp reliable (delete_idempotent a what) Q m.
Proof.
  intros Hm Hk HQ. destruct Hm as (Hwf & Hs & Hf). apply wp_bind, wp_delete; [done|..].
  - intros cur rv t Hl _. rewrite <-(to_obj_meta (S:=S) (T:=T)), (Hf _ _ Hk Hl). intros m' Hwf'.
    apply wp_ret, HQ; unfold m' in *.
    + split_and!; [done|..].
      * intros k' Hk'. simpl. rewrite lookup_delete_ne by set_solver. by apply Hs.
      * intros k' o Hk' Hl'. simpl in Hl'. apply lookup_delete_Some in Hl' as [_ Hl']. by eapply Hf.
    + apply lookup_delete_eq.
    + intros k' Hk'. simpl. apply lookup_delete_None. by right.
  - intros e Hl He. apply wp_ret. unfold IsNotFound. rewrite bool_decide_true by done.
    by apply HQ.
Qed.
End RoundTrip.

Lemma chunk_absent_eq cfg inst ns m0 m :
  near cfg inst ns m0 m → (∀ k, k ∈ chunk_keys cfg inst ns → objs m !! k = None) →
  (∀ k, k ∈ chunk_keys cfg inst ns → objs m0 !! k = None) → objs m = objs m0.
Proof.
  intros (_ & Hs & _) Hm Hm0. apply map_eq. intros k.
  destruct (decide (k ∈ chunk_keys cfg inst ns)) as [Hk|Hk]; [by rewrite Hm, Hm0|by apply Hs].
Qed.

Lemma PeerHandler_near cfg inst ns m t :
  store_wf m → tenant m (iv_ProviderLiqoClusterID inst) = Some ns →
  (∀ k, k ∈ chunk_keys cfg inst ns → objs m !! k = None) →
  ewp reliable any_tool (PeerHandler cfg (Some inst)) (λ _ m' _, near cfg inst ns m m') m t.
Proof.
  intros Hwf Ht Habs.
  assert (near cfg inst ns m m) as Hm.
  { split_and!; [done|done|]. intros k o Hk Hl. by rewrite Habs in Hl. }
  unfold PeerHandler. case_decide; [done|]. case_match; [done|]. do 3 (case_decide; [done|]).
  apply ewp_bind, ewp_api. unfold persistKubeconfig. rewrite decide_False by done.
  apply wp_bind, wp_create; [done| |].
  2: { intros e o Ho. rewrite Habs in Ho; [done|]. unfold cr_key, chunk_keys. set_solver. }
  intros rv uid tm _ _ a' Hwf1. apply wp_ret. cbn [fmap option_fmap option_map unless_err].
  match type of Hwf1 with store_wf ?x => set (m1 := x) in * end.
  assert (near cfg inst ns m m1) as Hm1.
  { apply near_put; [done| |done|done]. unfold cr_key, chunk_keys. set_solver. }
  apply ewp_bind.
  eapply (ewp_mono _ _ _ (λ _ m' _, near cfg inst ns m m')).
  2: { unfold writeKubeconfigToTempFile. apply ewp_bind, (ewp_tool _ (MkdirTemp _)).
       intros [d|e]; [|done]. apply ewp_bind, (ewp_tool _ (WriteFile _ _)). intros [e|]; [|done].
       by apply ewp_bind, (ewp_tool _ (RemoveAll _)). }
  intros [[path dir]|err] m2 t2 Hm2; [|by apply ewp_ret].
  apply ewp_bind. eapply (ewp_mono _ _ _ (λ _ m' _, near cfg inst ns m m')).
  { intros r m3 t3 Hm3. by apply ewp_bind, (ewp_tool _ (RemoveAll _)). }
  apply ewp_bind, (ewp_tool _ (RunCommand _ _ _)). intros [[so se] [err|]]; [by apply ewp_ret|].
  apply ewp_bind, ewp_api. unfold ensureResourceSlice.
  apply wp_bind, (wp_tenant _ _ ns); [by rewrite (near_tenant cfg inst ns m)|].
  apply (wp_near_create cfg inst ns m); [done| |done|].
  { unfold cr_key, chunk_keys, resource_slice. set_solver. }
  intros [sl|e2] m3 Hm3; [|by apply ewp_ret]. apply ewp_bind, ewp_api.
  apply (wp_near_create cfg inst ns m); [done| |done|].
  { unfold cr_key, chunk_keys, virtual_node_state. set_solver. }
  intros e3 m4 Hm4. by apply ewp_unless; intros; [|apply ewp_ret].
Qed.

End HandlerProofs.
