(* ===== verification/ReportingProofs.v ===== *)
(** * Correctness of the agents' periodic reports (Publisher, Heartbeater,
      Signals) *)
From stdpp Require Import base gmap strings list.
From Stdlib Require Import ZArith Lia.
From S2P Require Import Prelude GoText ApiTypes ConsumerTypes Kube MemServer Effects Chunk Wire.
From S2P Require Import AgentClient Catalog Registry Placement PlacementProofs ReservationApi.
From S2P Require Import AdvertisementApi Brain AgentHandlers Signals Publisher Heartbeater.
Import GoFloat.

Open Scope Z_scope.

Section Reporting.
Context `{Platform} `{SignalJson}.

(** Any services, any disk, any Broker. *)
Definition any_report : list (event report_answer) → ∀ c, report_answer c → list (event report_answer) → Prop :=
  traced (λ _ _ _, True).

(** Questions nobody else sees: neither a report nor a callback. *)
Definition is_report (c : report_call) : bool :=
  match c with PostAdvertisementCall _ | PostHeartbeatCall _ | OnResult _ => true | _ => false end.
Definition lookup_call (c : report_call) : Prop := is_report c = false.

(** What a trace reported, callbacks included. *)
Definition said (t : list (event report_answer)) : list (event report_answer) :=
  filter (λ ev : event report_answer, is_report (projT1 ev) = true) t.

Lemma said_lookups t l :
  Forall (λ ev : event report_answer, lookup_call (projT1 ev)) l → said (t ++ l) = said t.
Proof.
  intros Hl. unfold said. rewrite filter_app.
  assert (filter (λ ev : event report_answer, is_report (projT1 ev) = true) l = []) as ->;
    [|by rewrite app_nil_r].
  induction Hl as [|ev l Hev _ IH]; [done|]. rewrite filter_cons_False; [done|].
  unfold lookup_call in Hev. by rewrite Hev.
Qed.

(** The callback's share of a cycle's trace. *)
Definition told (hasCallback success : bool) : list (event report_answer) :=
  if hasCallback then [existT (OnResult success) tt] else [].

Definition accepted {A B} (x : A + B) : bool := match x with inl _ => true | inr _ => false end.

Lemma ewp_report C c Q m t :
  (∀ x, Q x m (t ++ [existT c x])) → ewp C any_report (report_ask c) Q m t.
Proof. intros HQ x t' [_ ->]. apply HQ. Qed.

Lemma ewp_notify C cb b Q m t :
  (∀ t', said t' = said t ++ told cb b → Q tt m t') → ewp C any_report (notifyResult cb b) Q m t.
Proof.
  intros HQ. unfold notifyResult, told in *. destruct cb.
  - apply ewp_report. intros []. apply HQ. unfold said. by rewrite filter_app.
  - apply ewp_ret, HQ. by rewrite app_nil_r.
Qed.

(** A lookup that precedes the rest: its answer satisfies [P] and nothing else
    happened. *)
Lemma ewp_lookup {A B} (P : A → Prop) (p : eff report_call report_answer A)
    (f : A → eff report_call report_answer B) Q m t :
  store_wf m → background lookup_call p → leaves P p →
  (∀ a m' t', P a → same_on (λ _, True) m m' → said t' = said t → ewp serves any_report (f a) Q m' t') →
  ewp serves any_report (p ≫= f) Q m t.
Proof.
  intros Hwf Hp HP Hf. apply ewp_bind.
  eapply ewp_mono; [|by apply (ewp_background lookup_call P)].
  intros a m' t' (HPa & Hm & l & -> & Hl). apply Hf; [done..|]. by apply said_lookups.
Qed.

(** ** The lookups are lookups *)
Lemma Resolve_background b n o : background lookup_call (api (E:=report_call) (R:=report_answer) (Resolve b n o)).
Proof.
  apply background_api. unfold Resolve. by repeat case_match.
Qed.

Lemma GeoLookup_background c url ip : background lookup_call (GeoLookup c url ip).
Proof. unfold GeoLookup. by repeat case_match. Qed.

Lemma eco_fetch_background {A} cache ttl url what (decode : string → Res A) region :
  background lookup_call (eco_fetch cache ttl url what decode region).
Proof.
  unfold eco_fetch. apply background_bind; [by destruct (cache !! region) as [[v t]|]|].
  intros [v|]; [done|]. apply background_bind; [done|]. intros x.
  by destruct (eco_result what decode region x).
Qed.

Lemma Forecast_background c url region : background lookup_call (Forecast c url region).
Proof.
  unfold Forecast. case_match; [done|]. apply background_bind; [apply eco_fetch_background|done].
Qed.

Lemma CurrentCarbon_background c url region : background lookup_call (CurrentCarbon c url region).
Proof.
  unfold CurrentCarbon. case_match; [done|]. apply background_bind; [apply eco_fetch_background|done].
Qed.

(** A location the geo client answers is one with a region or coordinates. *)
Lemma GeoLookup_empty c url :
  leaves (λ r, r = (c, Ok None)) (GeoLookup c url "").
Proof. unfold GeoLookup. rewrite decide_True by auto. done. Qed.

(** ** The publisher *)
Section Publisher.
Context `{!PublisherFiles}.

Lemma load_file_background {A} path (parse : string → Res A) dflt :
  background lookup_call (load_file path parse dflt).
Proof. unfold load_file. by case_match. Qed.

Lemma loadCarbon_background p region : background lookup_call (loadCarbon p region).
Proof.
  apply background_bind; [apply Forecast_background|]. intros [c [[|cur l]|e]]; [|done|];
    (apply background_bind; [apply CurrentCarbon_background|done]).
Qed.

Lemma loadPlacementInputs_background p ip : background lookup_call (loadPlacementInputs p ip).
Proof.
  unfold loadPlacementInputs. case_match; [done|].
  apply background_bind; [apply GeoLookup_background|]. intros [c [[loc|]|e]]; [|done|done].
  apply background_bind; [apply loadCarbon_background|done].
Qed.

(** The lookups move only the caches. *)
Definition same_identity (p p' : Publisher) : Prop :=
  p' = set_geo (set_eco p (pub_eco p')) (pub_geo p').

Lemma loadCarbon_identity p region : leaves (λ r, same_identity p r.1) (loadCarbon p region).
Proof.
  eapply leaves_bind; [apply leaves_any|]. intros [c [[|cur l]|e]] _; [|done|];
    (eapply leaves_bind; [apply leaves_any|]; intros r _; done).
Qed.

(** A carbon signal is advertised only with a location, and a forecast only
    with its first value as the current one. *)
Definition placed (p : Publisher) (ip : string)
    (r : Publisher * (option Topology * option float64 * list float64)) : Prop :=
  same_identity p r.1 ∧ (r.2.1.1 = None → r.2.1.2 = None ∧ r.2.2 = []) ∧
  (r.2.2 ≠ [] → r.2.1.2 = head r.2.2) ∧ (ip = "" → r.2 = (None, None, [])).

Lemma loadCarbon_head p region :
  leaves (λ r, r.2.2 ≠ [] → r.2.1 = head r.2.2) (loadCarbon p region).
Proof.
  eapply leaves_bind; [apply leaves_any|]. intros [c [[|cur l]|e]] _; [|done|];
    (eapply leaves_bind; [apply leaves_any|]; intros r _; by intros []).
Qed.
Lemma loadPlacementInputs_placed p ip : leaves (placed p ip) (loadPlacementInputs p ip).
Proof.
  unfold loadPlacementInputs. case_decide as Hip; [by destruct p; split_and!|].
  eapply leaves_bind; [apply leaves_any|]. intros [c [[loc|]|e]] _; [|by split_and!..].
  eapply leaves_bind; [apply leaves_and; [apply loadCarbon_identity|apply loadCarbon_head]|].
  intros [p' [cur fc]] [Hid Hh]. split_and!; [|done..].
  unfold same_identity in *. simpl in *. by rewrite Hid.
Qed.

(** *** Which nodes count *)
Definition counted (n : Node) : Prop :=
  no_Unschedulable (cr_spec n) = false ∧
  ∀ c, c ∈ no_Conditions (cr_status n) → nc_Type c = NodeReady → nc_Status c = ConditionTrue.

Lemma skipReason_counted n : skipReason n = "" ↔ counted n.
Proof.
  unfold skipReason, counted. destruct (no_Unschedulable (cr_spec n)); [by split; [|intros []]|].
  destruct (list_find _ _) as [[i c]|] eqn:Ef.
  - apply list_find_Some in Ef as (Hc & [Ht Hs] & _). split; [done|].
    intros [_ Hall]. destruct Hs. apply Hall; [by eapply list_elem_of_lookup_2|done].
  - apply list_find_None in Ef. split; [|done]. intros _. split; [done|]. intros c Hc Ht.
    rewrite Forall_forall in Ef. destruct (decide (nc_Status c = ConditionTrue)); [done|].
    by destruct (Ef c Hc).
Qed.

#[global] Instance counted_dec n : Decision (counted n).
Proof.
  destruct (decide (skipReason n = "")) as [Hn|Hn]; [left|right]; by rewrite <-skipReason_counted.
Defined.

(** What the nodes that count can be asked to run. *)
Definition capacity (nodes : list Node) : ResourceList :=
  foldl (λ acc n, addResources acc (no_Allocatable (cr_status n))) ∅ (filter counted nodes).

Lemma snapshot_capacity nodes s :
  sn_Allocatable (foldl snapshot_step s nodes) =
  foldl (λ acc n, addResources acc (no_Allocatable (cr_status n))) (sn_Allocatable s)
    (filter counted nodes).
Proof.
  revert s. induction nodes as [|n nodes IH]; intros s; [done|]. cbn [foldl].
  rewrite IH, filter_cons. unfold snapshot_step.
  destruct (decide (skipReason n = "")) as [Hn|Hn]; rewrite skipReason_counted in Hn;
    [rewrite decide_True by done|rewrite decide_False by done]; done.
Qed.

Lemma wps_Take Q m :
  (∀ nodes snap, nodes ≡ₚ typed_all (S:=NodeSpec) (T:=NodeStatus) m →
     sn_Allocatable snap = capacity nodes → Q (Ok snap) m) →
  (∀ e, Q (Fail e) m) → wp serves Take Q m.
Proof.
  intros HOk HFail x m' [-> Hx]. destruct x as [l|e]; simpl; [|apply HFail].
  apply (HOk (omap of_obj l)); [|by rewrite snapshot_capacity]. unfold typed_all. by rewrite Hx.
Qed.

(** *** The caps *)
Definition sane (q : Quantity) : Prop :=
  0 ≤ q_MilliValue q ∧ 100 * q_MilliValue q ≤ GoInt.int64_max.

Lemma cap_quantity_le `{!PlatformLaws} rule q :
  sane q → q_MilliValue (cap_quantity rule q) ≤ q_MilliValue q.
Proof.
  intros [Hpos Hmax]. destruct rule as [[pct|f]|]; simpl; [| |lia].
  - unfold lowers. destruct (Z.leb_spec 0 pct), (Z.ltb_spec pct 100); simpl; try lia.
    assert (0 ≤ q_MilliValue q * pct ≤ 100 * q_MilliValue q) as Hb by nia.
    unfold scaleQuantity. rewrite GoInt.to_int64_id by
      (unfold GoInt.is_int64, GoInt.int64_min in *; lia).
    rewrite Z.quot_div_nonneg by lia.
    assert (0 ≤ q_MilliValue q * pct / 100 ≤ q_MilliValue q) as Hd.
    { split; [apply Z.div_pos; lia|]. apply Z.div_le_upper_bound; lia. }
    rewrite q_MilliValue_NewMilli; [lia|]. unfold GoInt.is_int64, GoInt.int64_min in *. lia.
  - destruct (Z.ltb_spec (q_Cmp f q) 0); [by apply q_Cmp_milli|lia].
Qed.

(** What an advertisement may say of the capacity [cap] of the nodes: the same
    resources, none larger, and each one that was lowered flagged with the rule
    that lowered it. *)
Definition within (cap : ResourceList) (req : AdvertisementRequest) : Prop :=
  dom (ar_Resources req) = dom cap ∧
  ∀ name q, cap !! name = Some q → ∃ q', ar_Resources req !! name = Some q' ∧
    (sane q → q_MilliValue q' ≤ q_MilliValue q) ∧
    match ar_CapacityScalePercent req !! name, ar_CapacityFixed req !! name with
    | Some pct, None => 0 ≤ pct < 100 ∧ q' = scaleQuantity q pct
    | None, Some f => q' = f ∧ q_Cmp f q < 0
    | None, None => q' = q
    | Some _, Some _ => False
    end.

Lemma scale_within `{!PlatformLaws} caps cap req :
  scale_capacity caps cap =
    (ar_Resources req, ar_CapacityScalePercent req, ar_CapacityFixed req) → within cap req.
Proof.
  unfold scale_capacity. case_decide as Hc; intros E; injection E as E1 E2 E3.
  - unfold within. rewrite <-E1, <-E2, <-E3. split; [done|]. intros name q Hq.
    rewrite !lookup_empty. exists q. split_and!; [done|lia|done].
  - unfold within. rewrite <-E1, <-E2, <-E3. split.
    { apply set_eq. intros name. rewrite !elem_of_dom, map_lookup_imap.
      destruct (cap !! name) as [q|] eqn:Hq; simpl; rewrite ?Hq; split; intros [? ?]; naive_solver. }
    intros name q Hq. rewrite !map_lookup_imap, Hq. simpl.
    exists (cap_quantity (caps !! name) q). split_and!; [done|by apply cap_quantity_le|].
    destruct (caps !! name) as [[pct|f]|]; simpl; [| |done].
    + unfold lowers. by destruct (Z.leb_spec 0 pct), (Z.ltb_spec pct 100).
    + by destruct (Z.ltb_spec (q_Cmp f q) 0).
Qed.
(** An advertisement that tells the truth about a provider with capacity [cap],
    and that the Broker does not refuse as malformed. *)
Definition truthful (p : Publisher) (cap : ResourceList) (req : AdvertisementRequest) : Prop :=
  ar_ClusterID req = pub_clusterID p ∧ ar_LiqoClusterID req = pub_liqoClusterID p ∧
  within cap req ∧
  (ar_Topology req = None → ar_CarbonIntensity req = None ∧ ar_CarbonForecast req = []) ∧
  (pub_clusterID p ≠ "" → pub_liqoClusterID p ≠ "" → cap ≠ ∅ →
   (∀ c, ar_CarbonIntensity req = Some c → flt c fzero = false) →
   validateAdvertisementRequest req = None).

Lemma within_valid cap req :
  within cap req → ar_ClusterID req ≠ "" → ar_LiqoClusterID req ≠ "" → cap ≠ ∅ →
  (∀ c, ar_CarbonIntensity req = Some c → flt c fzero = false) →
  validateAdvertisementRequest req = None.
Proof.
  intros [Hd _] Hc Hl Hcap Hcarbon. unfold validateAdvertisementRequest.
  rewrite !decide_False; [|..|done|done].
  - destruct (ar_CarbonIntensity req); [|done]. by rewrite Hcarbon.
  - intros E. rewrite E, dom_empty_L in Hd. by apply Hcap, dom_empty_inv_L.
Qed.

End Publisher.
(** ** The heartbeat *)

(** The policy in force is the lowest-named one. *)
Lemma lowest_policy_spec l p :
  lowest_policy l = Some p →
  p ∈ l ∧ ∀ q, q ∈ l → GoStr.str_lt (cr_Name q) (cr_Name p) = false.
Proof.
  destruct l as [|p0 l]; [done|]. intros E%(inj Some). subst p.
  pose proof (GoSort.StrictWeak_key (cr_Name (S:=ConsumerPolicySpec) (T:=unit)) GoStr.str_lt
                (λ _, True) (λ _, True) _ (λ _ _, I)) as Hw.
  destruct (GoSort.fold_least _ (λ _, True) p0 (p0 :: l) I) as ([E|Hin] & _ & Hall);
    [by apply Forall_true|..]; (split; [|done]); [|done].
  exact (eq_ind_r (λ p, p ∈ p0 :: l) (list_elem_of_here p0 l) E).
Qed.

Definition same_beater (h h' : Heartbeater) : Prop := h' = located h (he_geo h') (he_location h').

(** The location reported is the one remembered, and one that could not be
    found out does not replace it. *)
Definition remembered (h h' : Heartbeater) (loc : option GeoLocation) : Prop :=
  same_beater h h' ∧ match loc with Some l => he_location h' = Some l | None => he_location h' = he_location h end.

Lemma discover_background h : background lookup_call (discover h).
Proof.
  apply background_bind; [apply Resolve_background|]. intros [ip|e]; [|done].
  apply background_bind; [apply GeoLookup_background|]. by intros [c [[l|]|e]].
Qed.

Lemma discover_remembered h : leaves (λ r, remembered h r.1 r.2) (discover h).
Proof.
  eapply leaves_bind; [apply leaves_any|]. intros [ip|e] _; [|by destruct h].
  eapply leaves_bind; [apply leaves_any|]. by intros [c [[l|]|e]] _.
Qed.

Lemma measured_background h : background lookup_call (measured h).
Proof. unfold measured. case_match; [|done]. split; [done|]. by intros [chosen rtts]. Qed.

Lemma measured_finite h :
  leaves (λ r, map_Forall (λ _ x, is_finite x = true) r.1) (measured h).
Proof.
  unfold measured. case_match; [|apply leaves_ret, map_Forall_empty].
  eapply leaves_bind; [apply leaves_any|]. intros [chosen rtts] _. apply leaves_ret.
  case_decide; [apply map_Forall_empty|]. intros k x [_ Hx]%map_lookup_filter_Some. done.
Qed.

Lemma wps_currentPlacement h Q m :
  (∀ pol, (pol = None ∨ ∃ p l, l ≡ₚ typed_list (S:=ConsumerPolicySpec) (T:=unit) (he_namespace h) m ∧
             lowest_policy l = Some p ∧ pol = Some (cp_Placement (cr_spec p))) → Q pol m) →
  wp serves (currentPlacement h) Q m.
Proof.
  intros HQ. unfold currentPlacement. case_match; [apply HQ; by left|].
  intros x m' [-> Hx]. apply HQ. destruct x as [l|e]; [|by left].
  destruct (lowest_policy (omap of_obj l)) as [p|] eqn:E; [right|by left].
  exists p, (omap of_obj l). split_and!; [unfold typed_list; by rewrite Hx|done|done].
Qed.
(** A valid beat of the consumer itself is acknowledged and becomes its registry
    entry. *)
Lemma wp_beat_recorded reg requestID req m :
  validateHeartbeatRequest req = None →
  wp reliable (handleHeartbeat reg requestID (hb_ClusterID req) (Ok req))
    (λ out _, ∃ t ack, out = (<[hb_ClusterID req := entry_of req t]> reg, JSON StatusOK ack)) m.
Proof.
  intros Hv. unfold handleHeartbeat. rewrite Hv, decide_True by done.
  apply wp_bind, wp_now. intros t. apply wp_bind, wp_now. intros ack. apply wp_ret.
  exists t, ack. by rewrite SetDecision_Touch.
Qed.

(** A beat that says what the consumer wants, where it is and what it measured,
    and that the Broker records under the consumer's name. *)
Definition honest (h h' : Heartbeater) (m : store) (req : HeartbeatRequest) : Prop :=
  (hb_Placement req = None ∨
   ∃ p, cr_Namespace p = he_namespace h ∧
     objs m !! cr_key p = Some (to_obj (S:=ConsumerPolicySpec) (T:=unit) p) ∧
     hb_Placement req = Some (cp_Placement (cr_spec p)) ∧
     ∀ q, cr_Namespace q = he_namespace h →
       objs m !! cr_key q = Some (to_obj (S:=ConsumerPolicySpec) (T:=unit) q) →
       GoStr.str_lt (cr_Name q) (cr_Name p) = false) ∧
  (∃ loc, remembered h h' loc ∧ hb_Latitude req = gl_Lat <$> loc ∧ hb_Longitude req = gl_Lon <$> loc ∧
     hb_Region req = default "" (gl_Region <$> loc)) ∧
  map_Forall (λ _ x, is_finite x = true) (hb_MeasuredLatencies req) ∧
  hb_DecidedBy req = (if he_hasLocalChoice h then DecidedByLocal else "") ∧
  ∀ reg requestID bm, wp reliable (handleHeartbeat reg requestID (he_clusterID h) (Ok req))
    (λ out _, ∃ t ack, out = (<[he_clusterID h := entry_of req t]> reg, JSON StatusOK ack)) bm.

End Reporting.

(** ** A cap that wraps

    A bare integer in the capacity file is a percentage, and one above 100 is
    documented to advertise everything.  The conversion to [int32] comes first:
    four gibibytes written in bytes wrap to 0 percent, so the provider
    advertises nothing. *)
Theorem byte_cap_advertises_nothing `{Platform} `{!PublisherFiles} q :
  cap_quantity (parse_cap "4294967296") q = NewMilliQuantity 0 ∧
  cap_percent (parse_cap "4294967296") = Some 0 ∧
  cap_quantity (parse_cap "4294967395") q = scaleQuantity q 99.
Proof.
  assert (parse_cap "4294967296" = Some (CapPercent 0)) as -> by (vm_compute; reflexivity).
  assert (parse_cap "4294967395" = Some (CapPercent 99)) as -> by (vm_compute; reflexivity).
  split_and!; [|done..]. simpl. unfold scaleQuantity. by rewrite Z.mul_0_r.
Qed.
