(* ===== verification/GatewayProofs.v ===== *)
(** * Correctness of the Broker's HTTP front end *)
From stdpp Require Import base gmap strings list.
From Stdlib Require Import ZArith Lia.
From S2P Require Import Prelude GoText ApiTypes ConsumerTypes Kube MemServer Effects Chunk Wire.
From S2P Require Import AgentClient Registry Placement ReservationApi InstructionsApi.
From S2P Require Import AdvertisementApi Gateway.

Open Scope Z_scope.

(** ** Paths *)
Lemma hex_value_upper n : (n < 16)%nat →
  ∃ c, upper_hex n = String c EmptyString ∧ hex_value c = Some n.
Proof.
  intros Hn. do 16 (destruct n as [|n]; [eexists; split; reflexivity|]). lia.
Qed.

(** What a client escapes, the mux reads back. *)
Lemma PathUnescape_escape s : PathUnescape (PathEscape s) = Some s.
Proof.
  induction s as [|c s IH]; [done|]. cbn [PathEscape]. destruct (path_segment_byte c) eqn:Hc.
  - assert (Ascii.eqb c (Ascii.ascii_of_nat 37) = false) as Hp.
    { apply Ascii.eqb_neq. intros ->. discriminate Hc. }
    change (PathUnescape (String c (PathEscape s)) = Some (String c s)).
    cbn [PathUnescape]. by rewrite Hp, IH.
  - set (n := Ascii.nat_of_ascii c). assert (n < 256)%nat as Hn by apply Ascii.nat_ascii_bounded.
    destruct (hex_value_upper (n / 16)) as (h & Eh & Hh); [apply Nat.Div0.div_lt_upper_bound; lia|].
    destruct (hex_value_upper (n mod 16)) as (l & El & Hl); [by apply Nat.mod_upper_bound|].
    rewrite Eh, El. change (PathUnescape
      (String (Ascii.ascii_of_nat 37) (String h (String l (PathEscape s)))) = Some (String c s)).
    cbn [PathUnescape]. rewrite Ascii.eqb_refl, Hh, Hl, IH.
    rewrite <-Nat.div_mod_eq. unfold n. by rewrite Ascii.ascii_nat_embedding.
Qed.

Lemma split_slash_escape s : split_slash (PathEscape s) = (PathEscape s, []).
Proof.
  assert (∀ c s', Ascii.eqb c (Ascii.ascii_of_nat 47) = false → split_slash s' = (s', []) →
            split_slash (String c s') = (String c s', [])) as Hcons.
  { intros c s' Hc E. cbn [split_slash]. by rewrite E, Hc. }
  induction s as [|c s IH]; [done|]. cbn [PathEscape]. destruct (path_segment_byte c) eqn:Hc.
  - apply Hcons; [|done]. apply Ascii.eqb_neq. intros ->. discriminate Hc.
  - set (n := Ascii.nat_of_ascii c). assert (n < 256)%nat as Hn by apply Ascii.nat_ascii_bounded.
    assert (∀ d c', hex_value c' = Some d → Ascii.eqb c' (Ascii.ascii_of_nat 47) = false) as Hx.
    { intros d c' Hd. apply Ascii.eqb_neq. intros ->. discriminate Hd. }
    destruct (hex_value_upper (n / 16)) as (h & Eh & Hh); [apply Nat.Div0.div_lt_upper_bound; lia|].
    destruct (hex_value_upper (n mod 16)) as (l & El & Hl); [by apply Nat.mod_upper_bound|].
    rewrite Eh, El. apply (Hcons _ (String h (String l (PathEscape s)))); [reflexivity|].
    apply Hcons; [by eapply Hx|]. apply Hcons; [by eapply Hx|done].
Qed.

(** The path of a single reservation leads to its own route. *)
Lemma segments_reservation id :
  segments ("/api/v1/reservations/" +:+ PathEscape id) = ["api"; "v1"; "reservations"; id].
Proof.
  unfold segments.
  assert (split_slash ("/api/v1/reservations/" +:+ PathEscape id) =
          ("", ["api"; "v1"; "reservations"; PathEscape id])) as ->
    by (cbv [String.append]; cbn [split_slash]; by rewrite split_slash_escape).
  cbn [fmap list_fmap snd]. by rewrite PathUnescape_escape.
Qed.

Section Middleware.
Context `{Platform} `{!RateLimit} `{!BrokerJson} `{GoRuntime}.

(** Reading the clock and drawing identifiers leave the store alone. *)
Definition clock_still (C : contract) : Prop :=
  (∀ m x m', C m Now x m' → m' = m) ∧ (∀ m x m', C m NewUUID x m' → m' = m).

Lemma clock_still_reliable : clock_still reliable.
Proof. split; intros m x m' [E _]; exact E. Qed.

Definition status_of (o : HttpOutcome) : option Z := fst <$> ou_Written o.

(** A request as the handler behind the chain sees it. *)
Definition authenticated (cn rid : string) (r : Request) : Request :=
  with_cluster cn (with_request_id rid r).

(** What the chain makes of a handler's outcome: a panic becomes a 500. *)
Definition relayed (x0 x : Gateway * HttpOutcome) (rid : string) : Prop :=
  gw_registry x.1 = gw_registry x0.1 ∧ gw_limiters x.1 = gw_limiters x0.1 ∧ ou_Header x.2 = rid ∧
  match ou_Written x0.2 with
  | Some w => ou_Written x.2 = Some w
  | None => status_of x.2 = Some StatusInternalServerError
  end.

Lemma wp_request_id C (r : Request) (Q : string → store → Prop) m :
  clock_still C → (∀ rid, (hq_RequestID r ≠ "" → rid = hq_RequestID r) → Q rid m) →
  wp C (if decide (hq_RequestID r = "") then new_uuid else mret (hq_RequestID r)) Q m.
Proof.
  intros [_ Huuid] HQ. case_decide; [|by apply wp_ret, HQ].
  intros x m' Hx. apply Huuid in Hx as ->. by apply HQ.
Qed.

Lemma ExtractClusterID_named tls cn : ExtractClusterID tls = Ok cn → cn ≠ "".
Proof.
  destruct tls as [[[|[|cn' chain] chains]]|]; simpl; try done. case_decide; by intros [= <-].
Qed.

Lemma wp_refused C next g r m e :
  clock_still C → ExtractClusterID (hq_TLS r) = Fail e →
  wp C (MiddlewareChain next g r)
    (λ x m', m' = m ∧ gw_registry x.1 = gw_registry g ∧ gw_limiters x.1 = gw_limiters g ∧
       status_of x.2 = Some StatusUnauthorized) m.
Proof.
  intros HC Ecn. unfold MiddlewareChain, chain. cbn [foldr].
  apply wp_bind, wp_bind, (wp_request_id C); [done|]. intros rid _.
  apply wp_bind, wp_bind. unfold ClusterIDMiddleware. cbn [hq_TLS with_request_id]. by rewrite Ecn.
Qed.

Lemma wp_passed C next g r m cn (P : string → Gateway * HttpOutcome → store → Prop) :
  clock_still C → ExtractClusterID (hq_TLS r) = Ok cn →
  (∀ rid l, (hq_RequestID r ≠ "" → rid = hq_RequestID r) →
     wp C (next (mkGateway (gw_registry g) (<[cn := l]> (gw_limiters g)) (gw_log g))
             (authenticated cn rid r)) (P rid) m) →
  wp C (MiddlewareChain next g r)
    (λ x m', (m' = m ∧ gw_registry x.1 = gw_registry g ∧
              (∀ k, k ≠ cn → gw_limiters x.1 !! k = gw_limiters g !! k) ∧
              status_of x.2 = Some StatusTooManyRequests) ∨
             ∃ rid x0, P rid x0 m' ∧ relayed x0 x rid) m.
Proof.
  intros HC Ecn Hnext. pose proof (ExtractClusterID_named _ _ Ecn) as Hcn.
  unfold MiddlewareChain, chain. cbn [foldr].
  apply wp_bind, wp_bind, (wp_request_id C); [done|]. intros rid Hrid.
  apply wp_bind, wp_bind. unfold ClusterIDMiddleware. cbn [hq_TLS with_request_id]. rewrite Ecn.
  unfold RateLimitMiddleware. cbn [hq_ClusterID with_cluster]. rewrite decide_False by done.
  apply wp_bind. intros t m' Ht. apply (proj1 HC) in Ht as ->. simpl.
  destruct (Allow t (default (NewLimiter RatePerSec BurstTokens) (gw_limiters g !! cn))) as [l ok].
  destruct ok.
  - eapply wp_mono; [|by apply (Hnext rid l)]. intros [g0 [hd w]] m' HP. simpl.
    right. exists rid, (g0, mkHttpOutcome hd w). split; [done|]. by destruct w as [[st body]|].
  - simpl. left. split_and!; [done..| |done]. intros k Hk. by apply lookup_insert_ne.
Qed.

(** Whatever handler runs behind it, the middleware lets a request through
    only as the common name of its verified client certificate.  Without one it
    is answered 401 and nothing changes; over the caller's rate it is answered
    429 and only that caller's limiter moves; otherwise the handler runs exactly
    with the caller's identity, one limiter having moved, and what it wrote is
    relayed, a panic becoming a 500.  The response carries the request's ID. *)
Theorem MiddlewareChain_authenticated C next g r m (P : string → Gateway * HttpOutcome → store → Prop) :
  clock_still C →
  match ExtractClusterID (hq_TLS r) with
  | Fail _ =>
      wp C (MiddlewareChain next g r)
        (λ x m', m' = m ∧ gw_registry x.1 = gw_registry g ∧ gw_limiters x.1 = gw_limiters g ∧
           status_of x.2 = Some StatusUnauthorized) m
  | Ok cn => cn ≠ "" ∧
      ((∀ rid l, (hq_RequestID r ≠ "" → rid = hq_RequestID r) →
          wp C (next (mkGateway (gw_registry g) (<[cn := l]> (gw_limiters g)) (gw_log g))
                  (authenticated cn rid r)) (P rid) m) →
       wp C (MiddlewareChain next g r)
         (λ x m', (m' = m ∧ gw_registry x.1 = gw_registry g ∧
                   (∀ k, k ≠ cn → gw_limiters x.1 !! k = gw_limiters g !! k) ∧
                   status_of x.2 = Some StatusTooManyRequests) ∨
                  ∃ rid x0, P rid x0 m' ∧ relayed x0 x rid) m)
  end.
Proof.
  intros HC. destruct (ExtractClusterID (hq_TLS r)) as [cn|e] eqn:Ecn; [|by eapply wp_refused].
  split; [by eapply ExtractClusterID_named|]. by apply wp_passed.
Qed.
End Middleware.
