(* ===== verification/MockServices.v ===== *)
(** * The location and carbon services (internal/mockgeo, internal/mockeco)

    The two stand-in services the agents ask: an address is located by the
    most specific network that contains it, a region's carbon intensity is read
    from its 24-hour profile.  Addresses are the numbers [net.ParseIP] gives
    ([NetText]); the CIDRs of the compiled-in table are written as the network
    number and prefix length [net.ParseCIDR] gives; JSON is a parameter.

    The theorem composes both services with the provider agent's clients: what
    a provider at a given address advertises as its place and its carbon. *)
From stdpp Require Import base gmap strings list.
From Stdlib Require Import ZArith Lia.
From S2P Require Import Prelude GoText ApiTypes ConsumerTypes Kube Effects Wire AgentClient Signals.
From S2P Require Import MemServer AgentHandlers Publisher Gateway GatewayProofs.
Import GoFloat.

Open Scope Z_scope.

(** ** Addresses *)

(** [net.IP] after [To4]: an IPv4 address (also one mapped into IPv6) or a
    proper IPv6 one. *)
Inductive IP := IPv4 (a : Z) | IPv6 (a : Z).

Class NetText := ParseIP : string → option IP.

(** [*net.IPNet] of a 32-bit network: its number and [Mask.Size()]. *)
Definition IPNet : Type := Z * Z.

Definition Contains (n : IPNet) (ip : IP) : bool :=
  match ip with
  | IPv4 a => Z.shiftr a (32 - n.2) =? Z.shiftr n.1 (32 - n.2)
  | IPv6 _ => false
  end.

Definition cidr (a b c d ones : Z) : IPNet := (((a * 256 + b) * 256 + c) * 256 + d, ones).

(** ** mock-geo *)
Record GeoResponse := mkGeo {
  gx_ContinentCode : string;
  gx_CountryCode : string;
  gx_Region : string;
  gx_RegionName : string;
  gx_City : string;
  gx_Lat : float64;
  gx_Lon : float64;
  gx_ISP : string;
  gx_Org : string;
  gx_AS : string
}.

Definition geo_zero : GeoResponse := mkGeo "" "" "" "" "" fzero fzero "" "" "".

(** The JSON envelope around a location. *)
Record GeoEnvelope := mkEnvelope {
  gv_Query : string; gv_Status : string; gv_Message : string; gv_Location : GeoResponse
}.

(** [compiledRow]. *)
Record compiledRow := mkRow { cw_nets : list IPNet; cw_loc : GeoResponse }.

Definition deg (units : Z) : float64 := flit units 10000.

Definition geoTable : list compiledRow := [
  mkRow [cidr 172 23 4 0 26; cidr 172 23 4 192 26] (mkGeo "NA" "CA" "QC" "Quebec" "Montreal"
    (deg 456085) (deg (-735493)) "Le Groupe Videotron Ltee" "Videotron Ltee" "AS5769 Videotron Ltee");
  mkRow [cidr 172 23 4 64 26] (mkGeo "NA" "US" "CA" "California" "San Jose"
    (deg 373382) (deg (-1218863)) "Google LLC" "Google Cloud" "AS15169 Google LLC");
  mkRow [cidr 172 23 4 128 26] (mkGeo "OC" "AU" "NSW" "New South Wales" "Sydney"
    (deg (-338688)) (deg 1512093) "Telstra Corporation" "Telstra" "AS1221 Telstra Corporation Ltd");
  mkRow [cidr 172 23 6 0 26; cidr 172 23 6 192 26] (mkGeo "EU" "FR" "IDF" "Ile-de-France" "Paris"
    (deg 488566) (deg 23522) "Orange" "Orange" "AS3215 Orange S.A.");
  mkRow [cidr 172 23 6 64 26] (mkGeo "EU" "GB" "ENG" "England" "London"
    (deg 515074) (deg (-1278)) "British Telecommunications" "BT" "AS2856 British Telecommunications PLC");
  mkRow [cidr 172 23 6 128 26] (mkGeo "AS" "JP" "13" "Tokyo" "Tokyo"
    (deg 356895) (deg 1396917) "NTT Communications" "NTT" "AS2914 NTT America, Inc.");
  mkRow [cidr 172 23 7 0 26; cidr 172 23 7 192 26] (mkGeo "EU" "DE" "HE" "Hesse" "Frankfurt"
    (deg 501109) (deg 86821) "Amazon.com" "AWS" "AS16509 Amazon.com Services LLC");
  mkRow [cidr 172 23 7 64 26] (mkGeo "SA" "BR" "SP" "Sao Paulo" "Sao Paulo"
    (deg (-235505)) (deg (-466333)) "Claro" "Claro" "AS28573 Claro S.A.");
  mkRow [cidr 172 23 7 128 26] (mkGeo "AS" "IN" "MH" "Maharashtra" "Mumbai"
    (deg 190760) (deg 728777) "Reliance Jio Infocomm" "Jio" "AS55836 Reliance Jio Infocomm Limited");
  mkRow [cidr 172 23 22 0 26; cidr 172 23 22 192 26] (mkGeo "EU" "SE" "AB" "Stockholm" "Stockholm"
    (deg 593293) (deg 180686) "Telia Company" "Telia" "AS3301 Telia Company AB");
  mkRow [cidr 172 23 22 64 26] (mkGeo "EU" "IT" "LOM" "Lombardy" "Milan"
    (deg 454642) (deg 91900) "Telecom Italia Mobile" "Telecom Italia" "AS3269 Telecom Italia S.p.a.");
  mkRow [cidr 172 23 22 128 26] (mkGeo "AS" "SG" "SG" "Singapore" "Singapore"
    (deg 13521) (deg 1038198) "Singtel" "Singtel" "AS7473 Singapore Telecommunications Ltd");
  mkRow [cidr 0 0 0 0 0] geo_zero ].

(** One network of one row: the best location so far and its prefix length. *)
Definition match_step (ip : IP) (loc : GeoResponse) (best : GeoResponse * Z) (n : IPNet) :
    GeoResponse * Z :=
  if Contains n ip then if best.2 <? n.2 then (loc, n.2) else best else best.

Definition lookup_geo (ip : IP) : GeoResponse :=
  (foldl (λ best r, foldl (match_step ip (cw_loc r)) best (cw_nets r)) (geo_zero, -1) geoTable).1.

Definition geo_Handler `{NetText} (ip : string) : GeoEnvelope :=
  match ParseIP ip with
  | None => mkEnvelope ip "fail" "invalid query" geo_zero
  | Some parsed => mkEnvelope ip "success" "" (lookup_geo parsed)
  end.

(** ** mock-eco *)
Definition regionData : gmap string (list Z) := list_to_map [
  ("QC", [25; 22; 20; 19; 18; 18; 20; 24; 30; 35; 38; 40; 42; 43; 41; 38; 35; 33; 30; 28; 27; 26; 25; 24]);
  ("LOM", [320; 310; 300; 290; 285; 280; 290; 310; 340; 350; 330; 300; 270; 250; 240; 245; 260; 290;
           320; 340; 350; 345; 335; 325]);
  ("CA", [280; 270; 260; 255; 250; 245; 230; 200; 160; 120; 90; 80; 75; 80; 90; 130; 180; 240; 290;
          310; 320; 310; 300; 290]);
  ("HE", [380; 370; 360; 350; 345; 340; 350; 370; 400; 410; 390; 360; 330; 310; 300; 310; 330; 360;
          390; 410; 420; 410; 400; 390]);
  ("13", [450; 440; 430; 420; 415; 410; 420; 440; 470; 490; 480; 460; 440; 430; 425; 430; 440; 460;
          480; 490; 495; 485; 470; 460]);
  ("NSW", [650; 640; 630; 620; 610; 600; 590; 610; 650; 680; 700; 690; 660; 630; 610; 600; 610; 640;
           670; 690; 700; 695; 680; 660]);
  ("IDF", [60; 55; 50; 48; 45; 44; 46; 52; 65; 75; 80; 78; 72; 68; 64; 62; 64; 70; 78; 82; 80; 75; 68; 63]);
  ("SP", [90; 85; 80; 78; 75; 74; 78; 85; 100; 110; 115; 112; 105; 98; 92; 88; 90; 95; 105; 112; 115;
          110; 100; 95]);
  ("SG", [420; 415; 410; 405; 400; 398; 400; 410; 430; 450; 460; 455; 445; 435; 428; 425; 430; 440;
          450; 458; 460; 455; 445; 430]);
  ("ENG", [250; 240; 230; 225; 220; 215; 220; 240; 270; 290; 285; 260; 240; 225; 215; 220; 235; 260;
           280; 295; 300; 290; 275; 260]);
  ("AB", [20; 18; 16; 15; 14; 14; 16; 20; 26; 30; 32; 33; 34; 35; 33; 30; 28; 26; 24; 22; 21; 20; 19; 18]);
  ("MH", [680; 670; 660; 650; 645; 640; 650; 670; 700; 720; 740; 750; 745; 735; 720; 710; 715; 730;
          750; 770; 780; 770; 750; 720])].

(** [lookupProfile]: the profile, or the status and error text. *)
Definition lookupProfile (region : string) : list Z + Z * string :=
  if decide (region = "") then inr (StatusBadRequest, "missing 'region' query parameter")
  else match regionData !! region with
       | Some profile => inl profile
       | None => inr (StatusNotFound, "unknown region: " +:+ region)
       end.

(** The value at [hour], and the next 24 hours from it. *)
Definition eco_Handler (hour : nat) (region : string) : Z + Z * string :=
  match lookupProfile region with
  | inl profile => inl (profile !!! (hour mod 24)%nat)
  | inr e => inr e
  end.

Definition ForecastHandler (hour : nat) (region : string) : list Z + Z * string :=
  match lookupProfile region with
  | inl profile => inl ((λ i, profile !!! ((hour mod 24 + i) mod 24)%nat) <$> seq 0 24)
  | inr e => inr e
  end.

(** ** Where an address is *)

(** The specification of the longest prefix match: the row with the address's
    block of 64. *)
Definition in_block (block : Z) (r : compiledRow) : bool :=
  existsb (λ n, (n.2 =? 26) && (Z.shiftr n.1 6 =? block)) (cw_nets r).

Definition placed_at (ip : IP) : GeoResponse :=
  match ip with
  | IPv4 a => match filter (λ r, in_block (Z.shiftr a 6) r = true) geoTable with
              | r :: _ => cw_loc r
              | [] => geo_zero
              end
  | IPv6 _ => geo_zero
  end.

(** The table as a function of the block: each network is tested once. *)
Definition blocks : list Z := (λ n, Z.shiftr n.1 6) <$> concat (cw_nets <$> geoTable).

Definition lookup_block (block : Z) : GeoResponse :=
  (foldl (λ best r, foldl (λ best n,
            if (if n.2 =? 26 then block =? Z.shiftr n.1 6 else true)
            then if best.2 <? n.2 then (cw_loc r, n.2) else best else best) best (cw_nets r))
     (geo_zero, -1) geoTable).1.

Lemma foldl_ext_in {A B} (f g : A → B → A) l a :
  (∀ a b, b ∈ l → f a b = g a b) → foldl f a l = foldl g a l.
Proof.
  revert a. induction l as [|b l IH]; intros a E; simpl; [done|]. rewrite E by constructor.
  apply IH. intros a' b' Hb. apply E. by constructor.
Qed.

(** Every network is a block of 64, but the default's, which locates nothing. *)
Lemma geoTable_nets r n :
  r ∈ geoTable → n ∈ cw_nets r → n.2 = 26 ∧ Z.shiftr n.1 6 ∈ blocks ∨ n = (0, 0) ∧ cw_loc r = geo_zero.
Proof.
  intros Hr Hn. assert (Z.shiftr n.1 6 ∈ blocks) as Hb.
  { unfold blocks. apply list_elem_of_fmap. exists n. split; [done|]. apply list_elem_of_In, in_concat.
    exists (cw_nets r). split; [apply list_elem_of_In; by apply list_elem_of_fmap_2|by apply list_elem_of_In]. }
  assert (Forall (λ r, Forall (λ n, n.2 = 26 ∨ n = (0, 0) ∧ cw_loc r = geo_zero) (cw_nets r)) geoTable) as Hall.
  { repeat (apply Forall_cons; split; [repeat (apply Forall_cons; split;
      [first [left; reflexivity|right; split; reflexivity]|]); apply Forall_nil_2|]). apply Forall_nil_2. }
  rewrite Forall_forall in Hall. specialize (Hall r Hr). rewrite Forall_forall in Hall.
  destruct (Hall n Hn); auto.
Qed.

Lemma lookup_geo_block a :
  0 ≤ a < 2 ^ 32 → lookup_geo (IPv4 a) = lookup_block (Z.shiftr a 6).
Proof.
  intros Ha. unfold lookup_geo, lookup_block. f_equal. apply foldl_ext_in. intros best r Hr.
  apply foldl_ext_in. intros best' n Hn. unfold match_step, Contains.
  destruct (geoTable_nets r n Hr Hn) as [[E _]|[-> _]].
  - by rewrite E.
  - cbn [fst snd]. replace (Z.shiftr a (32 - 0)) with 0; [reflexivity|].
    rewrite Z.shiftr_div_pow2, Z.div_small by lia. reflexivity.
Qed.

(** A block outside the table has no location. *)
Lemma lookup_block_outside block : block ∉ blocks → lookup_block block = geo_zero.
Proof.
  intros Hb. unfold lookup_block.
  assert (∀ l best, (∀ r, r ∈ l → r ∈ geoTable) → best.1 = geo_zero →
    (foldl (λ best r, foldl (λ best n,
        if (if n.2 =? 26 then block =? Z.shiftr n.1 6 else true)
        then if best.2 <? n.2 then (cw_loc r, n.2) else best else best) best (cw_nets r)) best l).1 = geo_zero)
    as Hrows; [|by apply Hrows].
  induction l as [|r l IH]; intros best Hl Hz; simpl; [done|]. apply IH; [intros; apply Hl; by constructor|].
  assert (∀ n, n ∈ cw_nets r → n ∈ cw_nets r) as Hin by done. revert Hin.
  generalize (cw_nets r) at 1 3. intros nets. revert best Hz.
  induction nets as [|n nets IHn]; intros best Hz Hn; simpl; [done|]. apply IHn; [|intros; apply Hn; by constructor].
  destruct (geoTable_nets r n) as [[E Hbl]|[-> E]]; [apply Hl; constructor|apply Hn; constructor|..].
  - rewrite E. simpl. destruct (Z.eqb_spec block (Z.shiftr n.1 6)) as [->|]; done.
  - simpl. by destruct (best.2 <? 0).
Qed.

Lemma located_outside block :
  block ∉ blocks → filter (λ r, in_block block r = true) geoTable = [].
Proof.
  intros Hb. assert (∀ l, (∀ r, r ∈ l → r ∈ geoTable) → filter (λ r, in_block block r = true) l = []) as Hl;
    [|by apply Hl].
  induction l as [|r l IH]; intros Hl; [done|].
  rewrite filter_cons_False; [apply IH; intros; apply Hl; by constructor|].
  unfold in_block. intros (n & Hn & Ht)%existsb_exists. apply andb_prop in Ht as [H26 Hbl].
  apply Z.eqb_eq in H26, Hbl. apply Hb. rewrite <-Hbl.
  destruct (geoTable_nets r n) as [[_ ?]|[-> _]]; [apply Hl; constructor|by apply list_elem_of_In|done|done].
Qed.

(** The longest prefix match finds the row of the address's block. *)
Lemma lookup_geo_located ip :
  (∀ a, ip = IPv4 a → 0 ≤ a < 2 ^ 32) → lookup_geo ip = placed_at ip.
Proof.
  intros Hip. destruct ip as [a|a]; [|by vm_compute].
  rewrite lookup_geo_block by (by apply Hip). unfold placed_at. generalize (Z.shiftr a 6). intros block.
  destruct (decide (block ∈ blocks)) as [Hb|Hb]; [|by rewrite located_outside, lookup_block_outside].
  unfold blocks in Hb.
  repeat (apply elem_of_cons in Hb as [->|Hb]; [vm_compute; reflexivity|]). by apply elem_of_nil in Hb.
Qed.

(** ** The services on the network *)

(** [url.QueryUnescape]. *)
Fixpoint QueryUnescape (s : string) : option string :=
  match s with
  | EmptyString => Some EmptyString
  | String c s' =>
      if Ascii.eqb c (Ascii.ascii_of_nat 37) then
        match s' with
        | String h (String l s'') =>
            match hex_value h, hex_value l, QueryUnescape s'' with
            | Some a, Some b, Some t => Some (String (Ascii.ascii_of_nat (16 * a + b)) t)
            | _, _, _ => None
            end
        | _ => None
        end
      else String (if Ascii.eqb c (Ascii.ascii_of_nat 43) then Ascii.ascii_of_nat 32 else c)
             <$> QueryUnescape s'
  end.

Fixpoint cut_prefix (p s : string) : option string :=
  match p, s with
  | EmptyString, _ => Some s
  | String c p', String d s' => if Ascii.eqb c d then cut_prefix p' s' else None
  | String _ _, EmptyString => None
  end.

Lemma cut_prefix_app p s : cut_prefix p (p +:+ s) = Some s.
Proof.
  induction p as [|c p IH]; [done|].
  change (cut_prefix (String c p) (String c (p +:+ s)) = Some s). cbn [cut_prefix].
  by rewrite Ascii.eqb_refl.
Qed.

(** Every location the table gives has a region with a 24-hour profile. *)
Definition region_served (region : string) : bool :=
  negb (String.eqb region "") &&
  match regionData !! region with Some profile => (length profile =? 24)%nat | None => false end &&
  bool_decide (QueryUnescape (QueryEscape region) = Some region).

Lemma located_served ip : placed_at ip = geo_zero ∨ region_served (gx_Region (placed_at ip)) = true.
Proof.
  assert (Forall (λ r, cw_loc r = geo_zero ∨ region_served (gx_Region (cw_loc r)) = true) geoTable) as Hall.
  { repeat (apply Forall_cons; split; [first [right; vm_compute; reflexivity|left; reflexivity]|]).
    apply Forall_nil_2. }
  destruct ip as [a|a]; simpl; [|by left].
  destruct (filter _ geoTable) as [|r l] eqn:E; [by left|].
  rewrite Forall_forall in Hall. apply Hall.
  assert (r ∈ filter (λ r, in_block (Z.shiftr a 6) r = true) geoTable) as [_ Hr]%list_elem_of_filter
    by (rewrite E; constructor). done.
Qed.

(** [encoding/json] on the services' side, and that the agents' decoders read
    the fields they know. *)
Class MockJson := {
  encode_geo : GeoEnvelope → string;
  encode_carbon : string → Z → string;
  encode_forecast : string → list Z → string;
  encode_problem : string → string
}.

Class MockJsonLaws `{SignalJson} `{MockJson} : Prop := {
  geo_decoded : ∀ e, decode_geo (encode_geo e) =
    let l := gv_Location e in
    Ok (mkGeoResponse (gv_Status e) (mkGeoLocation (gx_Lat l) (gx_Lon l) (gx_Region l) (gx_RegionName l)
                                       (gx_City l) (gx_CountryCode l) (gx_ContinentCode l)));
  carbon_decoded : ∀ region v, decode_carbon (encode_carbon region v) = Ok (fof_Z v);
  forecast_decoded : ∀ region l, decode_forecast (encode_forecast region l) = Ok l
}.

Section Composition.
Context `{Platform} `{SignalJson} `{MockJson} `{!MockJsonLaws} `{NetText}.

(** The reply to a value or to a refused region. *)
Definition eco_reply {A} (encode : string → A → string) (region rid : string)
    (x : A + Z * string) : Exchange :=
  match x with
  | inl v => Answered StatusOK rid (encode region v)
  | inr (status, msg) => Answered status rid (encode_problem msg)
  end.

(** Both services up at their URLs, at whatever hour each request arrives. *)
Definition mocks (geoURL ecoURL : string) (_ : unit) (c : report_call) :
    report_answer c → unit → Prop :=
  match c with
  | HttpGet url => λ x _,
      (∀ e ip, cut_prefix (geoURL +:+ "/json/") url = Some e → PathUnescape e = Some ip →
         ∃ rid, x = Answered StatusOK rid (encode_geo (geo_Handler ip))) ∧
      (∀ q region, cut_prefix (ecoURL +:+ "/carbon/forecast?region=") url = Some q →
         QueryUnescape q = Some region →
         ∃ rid hour, x = eco_reply encode_forecast region rid (ForecastHandler hour region)) ∧
      (∀ q region, cut_prefix (ecoURL +:+ "/carbon?region=") url = Some q →
         QueryUnescape q = Some region →
         ∃ rid hour, x = eco_reply encode_carbon region rid (eco_Handler hour region))
  | _ => λ _ _, True
  end.

(** The next 24 hours of a region from [hour] on. *)
Definition hours_from (region : string) (hour : nat) : list Z :=
  (λ i, default [] (regionData !! region) !!! ((hour mod 24 + i) mod 24)%nat) <$> seq 0 24.

(** What a provider at [ip] advertises of its place and its energy. *)
Definition advertised_place (ip : string) (r : option Topology * option float64 * list float64) : Prop :=
  match ParseIP ip with
  | None => r = (None, None, [])
  | Some a =>
      let l := placed_at a in
      if String.eqb (gx_Region l) "" then r = (None, None, [])
      else ∃ hour, r = (Some (mkTopology "" (gx_Region l) (gx_City l) (gx_Lat l) (gx_Lon l)),
                        head (fof_Z <$> hours_from (gx_Region l) hour),
                        fof_Z <$> hours_from (gx_Region l) hour)
  end.

Lemma ForecastHandler_served region hour :
  region_served region = true → ForecastHandler hour region = inl (hours_from region hour).
Proof.
  unfold region_served, ForecastHandler, lookupProfile, hours_from. intros [[Hne Hp]%andb_prop _]%andb_prop.
  rewrite decide_False by (intros ->; discriminate Hne). by destruct (regionData !! region).
Qed.

Lemma region_served_escape region :
  region_served region = true → QueryUnescape (QueryEscape region) = Some region ∧ region ≠ "".
Proof.
  unfold region_served. intros [[Hne Hp]%andb_prop He%bool_decide_eq_true]%andb_prop.
  split; [done|]. intros ->. discriminate Hne.
Qed.

Lemma ewp_get C geoURL ecoURL url (Q : Exchange → store → unit → Prop) m :
  (∀ x, mocks geoURL ecoURL () (HttpGet url) x () → Q x m ()) →
  ewp C (mocks geoURL ecoURL) (report_ask (HttpGet url)) Q m ().
Proof. intros HQ x [] Hx. by apply HQ. Qed.

(** One look-up of an address that is not cached. *)
Lemma GeoLookup_mocks C geoURL ecoURL ip (Q : GeoClient * Res (option GeoLocation) → store → unit → Prop) m :
  geoURL ≠ "" → ip ≠ "" → (∀ s a, ParseIP s = Some (IPv4 a) → 0 ≤ a < 2 ^ 32) →
  (match ParseIP ip with
   | None => ∀ c, Q (c, Ok None) m ()
   | Some a => let l := placed_at a in
       if String.eqb (gx_Region l) "" then ∀ c, Q (c, Ok None) m ()
       else ∀ c, Q (c, Ok (Some (mkGeoLocation (gx_Lat l) (gx_Lon l) (gx_Region l) (gx_RegionName l)
                                (gx_City l) (gx_CountryCode l) (gx_ContinentCode l)))) m ()
   end) →
  ewp C (mocks geoURL ecoURL) (GeoLookup ∅ geoURL ip) Q m ().
Proof.
  intros Hg Hi Hnet HQ. unfold GeoLookup. rewrite decide_False by tauto. rewrite lookup_empty.
  apply ewp_bind, ewp_get. intros x [Hgeo _].
  destruct (Hgeo (PathEscape ip) ip) as [rid ->]; [|apply PathUnescape_escape|].
  { rewrite <-append_assoc. apply cut_prefix_app. }
  apply ewp_ret. unfold geo_result. rewrite decide_False by (intros E; apply E; reflexivity).
  rewrite geo_decoded. unfold geo_Handler. destruct (ParseIP ip) as [a|] eqn:Ep; [|apply HQ].
  rewrite lookup_geo_located by (intros a' ->; by eapply Hnet). cbv zeta. cbn [gv_Status gv_Location gr_Status gr_Location
    gl_Region gl_Lat gl_Lon]. rewrite bool_decide_eq_false_2 by discriminate. cbn [orb].
  cbv zeta in HQ. destruct (located_served a) as [E|Hs].
  - rewrite E in HQ |- *. apply HQ.
  - destruct (region_served_escape _ Hs) as [_ Hne].
    rewrite (proj2 (String.eqb_neq _ _) Hne) in HQ. rewrite bool_decide_eq_false_2 by done. apply HQ.
Qed.

(** The carbon of a region the service knows, nothing cached. *)
Lemma loadCarbon_mocks C (p : Publisher) region
    (Q : Publisher * (option float64 * list float64) → store → unit → Prop) m :
  pub_mockEcoURL p ≠ "" → ec_fcache (pub_eco p) !! region = None → region_served region = true →
  (∀ m1 p' hour, Q (p', (head (fof_Z <$> hours_from region hour), fof_Z <$> hours_from region hour)) m1 ()) →
  ewp C (mocks (pub_mockGeoURL p) (pub_mockEcoURL p)) (loadCarbon p region) Q m ().
Proof.
  intros He Hc Hs HQ. destruct (region_served_escape _ Hs) as [Hesc Hne].
  unfold loadCarbon. apply ewp_bind. unfold Forecast. rewrite decide_False by tauto.
  apply ewp_bind. unfold eco_fetch. rewrite Hc. apply ewp_bind, ewp_ret, ewp_bind, ewp_get.
  intros x (_ & Hf & _). destruct (Hf (QueryEscape region) region) as (rid & hour & ->); [|done|].
  { rewrite <-append_assoc. apply cut_prefix_app. }
  rewrite ForecastHandler_served by done. unfold eco_reply, eco_result.
  rewrite decide_False by (intros E; apply E; reflexivity). rewrite forecast_decoded.
  apply ewp_bind. intros t m1 _. apply ewp_ret, ewp_ret, ewp_ret. apply HQ.
Qed.

(** With both services up, a provider agent that has looked nothing up yet
    advertises, for an address inside a subnet of the location service, the
    city of the address's block of 64 by name, region and coordinates, the
    region's carbon intensity of the current hour and its next 24 hours, all
    from that region's profile; for any other address, valid or not, it
    advertises no place and no carbon.  Every region the location service
    names is known to the carbon service. *)
Theorem discovered_place_has_carbon C (p : Publisher) ip m :
  pub_mockGeoURL p ≠ "" → pub_mockEcoURL p ≠ "" → ip ≠ "" →
  pub_geo p = NewGeoClient → ec_fcache (pub_eco p) = ∅ →
  (∀ s a, ParseIP s = Some (IPv4 a) → 0 ≤ a < 2 ^ 32) →
  ewp C (mocks (pub_mockGeoURL p) (pub_mockEcoURL p)) (loadPlacementInputs p ip)
    (λ r _ _, advertised_place ip r.2) m ().
Proof.
  intros Hg He Hi Hgc Hec Hnet. unfold loadPlacementInputs. rewrite decide_False by done.
  apply ewp_bind. rewrite Hgc. apply GeoLookup_mocks; [done..|].
  unfold advertised_place. destruct (ParseIP ip) as [a|]; [|intros c; by apply ewp_ret]. cbv zeta.
  destruct (String.eqb_spec (gx_Region (placed_at a)) "") as [Hz|Hne]; [intros c; by apply ewp_ret|].
  intros c. cbn [snd]. apply ewp_bind.
  apply (loadCarbon_mocks C (set_geo p c)); [done|simpl; by rewrite Hec|..].
  - destruct (located_served a) as [E|?]; [|done]. by rewrite E in Hne.
  - intros m1 p' hour. apply ewp_ret. by exists hour.
Qed.
End Composition.

(** ** A provider in Milan *)
Module MockWitness.
#[local] Existing Instance MilliPlatform.platform.

(** A text form for any countable type: the bits of its code. *)
Fixpoint bits (p : positive) : string :=
  match p with
  | xH => EmptyString
  | xO p => String (Ascii.ascii_of_nat 48) (bits p)
  | xI p => String (Ascii.ascii_of_nat 49) (bits p)
  end.
Fixpoint unbits (s : string) : positive :=
  match s with
  | EmptyString => xH
  | String c s => if Ascii.eqb c (Ascii.ascii_of_nat 48) then xO (unbits s) else xI (unbits s)
  end.
Lemma unbits_bits p : unbits (bits p) = p.
Proof. induction p as [p IH|p IH|]; simpl; by rewrite ?IH. Qed.

Definition to_text {A} `{Countable A} (a : A) : string := bits (countable.encode a).
Definition of_text {A} `{Countable A} (s : string) : option A := countable.decode (unbits s).
Lemma of_to_text {A} `{Countable A} (a : A) : of_text (to_text a) = Some a.
Proof. unfold of_text, to_text. rewrite unbits_bits. apply countable.decode_encode. Qed.

Definition float_tuple (x : float64) : bool + (bool + (unit + bool * positive * Z)) :=
  match x with
  | SpecFloat.S754_zero s => inl s
  | SpecFloat.S754_infinity s => inr (inl s)
  | SpecFloat.S754_nan => inr (inr (inl tt))
  | SpecFloat.S754_finite s m e => inr (inr (inr (s, m, e)))
  end.
Definition tuple_float (t : bool + (bool + (unit + bool * positive * Z))) : float64 :=
  match t with
  | inl s => SpecFloat.S754_zero s
  | inr (inl s) => SpecFloat.S754_infinity s
  | inr (inr (inl _)) => SpecFloat.S754_nan
  | inr (inr (inr (s, m, e))) => SpecFloat.S754_finite s m e
  end.
#[local] Instance float_dec : EqDecision float64.
Proof. solve_decision. Defined.
#[local] Instance float_countable : Countable float64.
Proof. apply (inj_countable' float_tuple tuple_float). by intros []. Defined.

(** The fields the agent's decoder reads. *)
Definition read_fields (e : GeoEnvelope) :
    string * (float64 * float64) * (string * string) * (string * string * string) :=
  let l := gv_Location e in
  (gv_Status e, (gx_Lat l, gx_Lon l), (gx_Region l, gx_RegionName l),
   (gx_City l, gx_CountryCode l, gx_ContinentCode l)).

#[local] Instance signal_json : SignalJson := {|
  decode_carbon := λ s, match of_text (A:=Z) s with Some v => Ok (fof_Z v) | None => Fail (errors_New "EOF") end;
  decode_forecast := λ s, match of_text (A:=list Z) s with Some l => Ok l | None => Fail (errors_New "EOF") end;
  decode_geo := λ s,
    match of_text (A:=string * (float64 * float64) * (string * string) * (string * string * string)) s with
    | Some (st, (lat, lon), (rg, rn), (ci, co, cn)) => Ok (mkGeoResponse st (mkGeoLocation lat lon rg rn ci co cn))
    | None => Fail (errors_New "EOF")
    end |}.
#[local] Instance mock_json : MockJson := {|
  encode_geo := λ e, to_text (read_fields e);
  encode_carbon := λ _ v, to_text v;
  encode_forecast := λ _ l, to_text l;
  encode_problem := λ msg, msg |}.
#[local] Instance mock_laws : MockJsonLaws.
Proof.
  split; intros; cbv [decode_geo decode_carbon decode_forecast encode_geo encode_carbon encode_forecast
    signal_json mock_json]; by rewrite of_to_text.
Qed.

#[local] Instance net_text : NetText := λ s,
  if String.eqb s "172.23.22.70" then Some (IPv4 (cidr 172 23 22 70 32).1)
  else if String.eqb s "::1" then Some (IPv6 1) else None.

Definition provider : Publisher :=
  mkPublisher "prov" "liqo-prov" "" "" "" "" "" "http://mock-eco" "http://mock-geo" 0
    (NewEcoClientWithTTL 0) NewGeoClient DefaultPublishInterval true.

Lemma net_text_range s a : ParseIP s = Some (IPv4 a) → 0 ≤ a < 2 ^ 32.
Proof.
  unfold ParseIP, net_text. destruct (String.eqb s "172.23.22.70"); [intros [= <-]; lia|].
  by destruct (String.eqb s "::1").
Qed.

(** The location service answers, and the provider advertises Milan. *)
Lemma discovered_place_has_carbon_witness :
  (∃ x, mocks "http://mock-geo" "http://mock-eco" () (HttpGet "http://mock-geo/json/172.23.22.70") x ()) ∧
  ewp serves (mocks "http://mock-geo" "http://mock-eco") (loadPlacementInputs provider "172.23.22.70")
    (λ r _ _, tp_City <$> r.2.1.1 = Some "Milan" ∧ length r.2.2 = 24%nat) (store_of [] 0) ().
Proof.
  split.
  - exists (Answered StatusOK "" (encode_geo (geo_Handler "172.23.22.70"))).
    split; [|split; intros q region Hq; vm_compute in Hq; discriminate Hq].
    intros e ip He Hip. vm_compute in He. injection He as <-. vm_compute in Hip. injection Hip as <-. by exists "".
  - eapply ewp_mono; [|apply (discovered_place_has_carbon serves provider "172.23.22.70" (store_of [] 0));
      [discriminate|discriminate|discriminate|reflexivity|reflexivity|exact net_text_range]].
    intros r m v Hr. unfold advertised_place in Hr. change (ParseIP "172.23.22.70") with
      (Some (IPv4 (cidr 172 23 22 70 32).1)) in Hr. cbv beta iota zeta in Hr.
    assert (String.eqb (gx_Region (placed_at (IPv4 (cidr 172 23 22 70 32).1))) "" = false) as E by (vm_compute; reflexivity).
    rewrite E in Hr. destruct Hr as [hour ->]. cbn [fst snd].
    split; [vm_compute; reflexivity|]. unfold hours_from. by rewrite !length_fmap, length_seq.
Defined.
End MockWitness.
