(* ===== verification/LocalRoutes.v ===== *)
(** * The loopback API's routes (internal/agent/consumer/localapi/server.go
    handler)

    The five routes of the consumer agent's loopback server over the handlers of
    [LocalApi], as [Gateway.mux] is for the Broker: a request is a method, an
    escaped path with its query, a header and a body.  [encoding/json] on the
    wire types is a parameter ([LocalJson]).  Request paths are clean (no dot
    segments, which the mux would redirect).  The theorem is that the gRPC
    server's client and these routes agree: every endpoint of the client reaches
    the handler it is meant for with its arguments intact. *)
From stdpp Require Import base gmap strings list pretty.
From Stdlib Require Import ZArith Lia.
From S2P Require Import Prelude GoText ApiTypes ConsumerTypes Kube Effects Chunk Wire AgentClient.
From S2P Require Import Catalog Registry Placement Prober Selection ReservationApi InstructionsApi.
From S2P Require Import AdvertisementApi Brain LocalApi GrpcServer LoopbackClient Gateway.
From S2P Require Import GatewayProofs Signals Publisher MockServices.
Import GoFloat.

Open Scope Z_scope.

(** ** Queries (net/url) *)

(** A string cut at the first [sep]. *)
Fixpoint cut_at (sep : Ascii.ascii) (s : string) : string * option string :=
  match s with
  | EmptyString => (EmptyString, None)
  | String c s' =>
      if Ascii.eqb c sep then (EmptyString, Some s')
      else let '(a, b) := cut_at sep s' in (String c a, b)
  end.

(** A string cut at every [sep]. *)
Fixpoint split_at (sep : Ascii.ascii) (s : string) : string * list string :=
  match s with
  | EmptyString => (EmptyString, [])
  | String c s' =>
      let '(w, ws) := split_at sep s' in
      if Ascii.eqb c sep then (EmptyString, w :: ws) else (String c w, ws)
  end.

Definition question : Ascii.ascii := Ascii.ascii_of_nat 63.
Definition ampersand : Ascii.ascii := Ascii.ascii_of_nat 38.
Definition equals_sign : Ascii.ascii := Ascii.ascii_of_nat 61.
Definition semicolon : Ascii.ascii := Ascii.ascii_of_nat 59.

(** One piece of [url.ParseQuery]; a malformed one is skipped. *)
Definition parse_pair (q : url_Values) (w : string) : url_Values :=
  match cut_at semicolon w with
  | (_, Some _) => q
  | (_, None) =>
      if decide (w = "") then q
      else
        let '(k, v) := cut_at equals_sign w in
        match QueryUnescape k, QueryUnescape (default "" v) with
        | Some k, Some v => <[k := default [] (q !! k) ++ [v]]> q
        | _, _ => q
        end
  end.

Definition ParseQuery (s : string) : url_Values :=
  let '(w, ws) := split_at ampersand s in foldl parse_pair ∅ (w :: ws).

(** The path and the query of a request target. *)
Definition target (s : string) : string * url_Values :=
  let '(path, q) := cut_at question s in (path, default ∅ (ParseQuery <$> q)).

Section LocalRoutes.
Context `{Platform} `{GoRuntime}.

(** [encoding/json] on the loopback API's bodies. *)
Class LocalJson := {
  local_decode_reservation : string → Res ReservationRequest;
  local_encode_node_groups : NodeGroupListResponse → string;
  local_encode_reservation : ReservationResponse → string;
  local_encode_release : ReleaseResponse → string;
  local_encode_virtual_nodes : list VirtualNodeView → string;
  local_encode_error : LocalError → string
}.

Context `{!LocalJson}.
Abbreviation local := (eff local_call local_answer).

(** A request as the server reads it: its headers but for X-Reservation-Id are
    not used. *)
Record LocalRequest := mkLocalRequest {
  lq_Method : string;
  lq_Target : string;
  lq_ReservationID : string;
  lq_Body : string
}.

(** What is written: the status, the X-Reservation-Id header and the body. *)
Record LocalOutcome := mkLocalOutcome {
  lo_Status : Z;
  lo_ReservationID : option string;
  lo_Body : string
}.

(** [writeJSON], [writeError] and [writeRawError]. *)
Definition local_write {B} (encode : B → string) (header : option string) (r : LocalResponse B) :
    LocalOutcome :=
  match r with
  | LocalOK status b => mkLocalOutcome status header (encode b)
  | LocalFail status e => mkLocalOutcome status None (local_encode_error e)
  end.

(** The server afterwards, what it wrote and the background selection it
    started. *)
Definition local_served : Type :=
  LocalServer * LocalOutcome * option (string * list NodeGroupView).

(** The handler of each route, with what it writes. *)
Definition serve_nodegroups (s : LocalServer) (location : option (float64 * float64 * bool))
    (query : url_Values) : local local_served :=
  x ← handleNodeGroups s location query;
  let '(s, r, task) := x in mret (s, local_write local_encode_node_groups None r, task).

Definition serve_create (s : LocalServer) (header body : string) : local local_served :=
  x ← localReservationCreate s header (local_decode_reservation body);
  let '(s, r, header) := x in mret (s, local_write local_encode_reservation header r, None).

Definition serve_delete (s : LocalServer) (id : string) : local local_served :=
  r ← localReservationDelete id; mret (s, local_write local_encode_release None r, None).

Definition serve_virtual_nodes (s : LocalServer) : local local_served :=
  r ← api (handleVirtualNodes s); mret (s, local_write local_encode_virtual_nodes None r, None).

(** [handler]: the routes. *)
Definition local_mux (s : LocalServer) (location : option (float64 * float64 * bool))
    (r : LocalRequest) : local local_served :=
  let no status text := mret (s, mkLocalOutcome status None text, None) in
  let wrong := no StatusMethodNotAllowed "Method Not Allowed" in
  let missing := no StatusNotFound "404 page not found" in
  let get := is_get (lq_Method r) in
  let '(path, query) := target (lq_Target r) in
  match segments path with
  | ["local"; "nodegroups"] => if get then serve_nodegroups s location query else wrong
  | ["local"; "reservations"] =>
      if decide (lq_Method r = "POST") then serve_create s (lq_ReservationID r) (lq_Body r) else wrong
  | ["local"; "reservations"; id] =>
      if decide (id = "") then missing
      else if decide (lq_Method r = "DELETE") then serve_delete s id else wrong
  | ["local"; "virtual-nodes"] => if get then serve_virtual_nodes s else wrong
  | ["healthz"] => if get then no StatusOK ("{" +:+ GoStr.fmt_q "status" +:+ ":" +:+ GoStr.fmt_q "ok" +:+ "}") else wrong
  | _ => missing
  end.

(** ** The client and the routes agree *)

(** A request of the gRPC server's client as it arrives. *)
Definition local_arrived (tgt : string) (r : HttpRequest) : LocalRequest :=
  mkLocalRequest (hr_Method r) tgt (default "" (hr_ReservationID r)) (default "" (hr_Body r)).
End LocalRoutes.

(** Decimal digits pass through every cut and escape of a query. *)
Lemma digit_char c d : digit_value c = Some d → (48 <= Ascii.nat_of_ascii c <= 57)%nat.
Proof. unfold digit_value. case_match eqn:E; [|done]. intros _. fed_bools. lia. Qed.

Lemma digit_ne c d sep :
  digit_value c = Some d → digit_value sep = None → Ascii.eqb c sep = false.
Proof. intros Hc Hs. apply Ascii.eqb_neq. intros ->. congruence. Qed.

Lemma digits_uncut sep s acc n :
  digit_value sep = None → parse_digits s acc = Some n →
  cut_at sep s = (s, None) ∧ split_at sep s = (s, []).
Proof.
  intros Hs. revert acc. induction s as [|c s IH]; intros acc; [done|]. cbn [parse_digits].
  destruct (digit_value c) as [d|] eqn:Hc; [|done]. intros [E1 E2]%IH.
  cbn [cut_at split_at]. by rewrite E1, E2, (digit_ne c d sep).
Qed.

Lemma digits_unescaped s acc n : parse_digits s acc = Some n → QueryUnescape s = Some s.
Proof.
  revert acc. induction s as [|c s IH]; intros acc; [done|]. cbn [parse_digits].
  destruct (digit_value c) as [d|] eqn:Hc; [|done]. intros E%IH.
  cbn [QueryUnescape]. by rewrite !(digit_ne c d), E.
Qed.

Lemma Itoa_digits z : 1 ≤ z → parse_digits (Itoa z) 0 = Some z.
Proof.
  intros Hz. destruct z as [|p|p]; [lia| |lia]. unfold Itoa.
  change (pretty (Z.pos p)) with (pretty (N.pos p)).
  change (parse_digits (pretty_N_go (N.pos p) "") 0 = Some (Z.pos p)). by rewrite parse_pretty_go.
Qed.

(** An escaped segment holds no question mark. *)
Lemma escape_uncut s : cut_at question (PathEscape s) = (PathEscape s, None).
Proof.
  assert (∀ c s', Ascii.eqb c question = false → cut_at question s' = (s', None) →
            cut_at question (String c s') = (String c s', None)) as Hcons.
  { intros c s' Hc E. cbn [cut_at]. by rewrite Hc, E. }
  induction s as [|c s IH]; [done|]. cbn [PathEscape]. destruct (path_segment_byte c) eqn:Hc.
  - apply Hcons; [|done]. apply Ascii.eqb_neq. intros ->. discriminate Hc.
  - set (n := Ascii.nat_of_ascii c). assert (n < 256)%nat as Hn by apply Ascii.nat_ascii_bounded.
    assert (∀ d c', hex_value c' = Some d → Ascii.eqb c' question = false) as Hx.
    { intros d c' Hd. apply Ascii.eqb_neq. intros ->. discriminate Hd. }
    destruct (hex_value_upper (n / 16)) as (h & Eh & Hh); [apply Nat.Div0.div_lt_upper_bound; lia|].
    destruct (hex_value_upper (n mod 16)) as (l & El & Hl); [by apply Nat.mod_upper_bound|].
    rewrite Eh, El. apply (Hcons _ (String h (String l (PathEscape s)))); [reflexivity|].
    apply Hcons; [by eapply Hx|]. apply Hcons; [by eapply Hx|done].
Qed.

(** The latency bound arrives as the query the server decodes. *)
Lemma target_bound b :
  1 ≤ lb_MaxLatencyMs b →
  target ("/local/nodegroups?" +:+ QueryMaxLatencyMs +:+ "=" +:+
          values_Get (EncodeLatencyBound (Some b)) QueryMaxLatencyMs) =
  ("/local/nodegroups", EncodeLatencyBound (Some b)).
Proof.
  intros Hb. unfold EncodeLatencyBound, values_Get. rewrite lookup_singleton_eq.
  set (z := Itoa (lb_MaxLatencyMs b)).
  assert (parse_digits z 0 = Some (lb_MaxLatencyMs b)) as Hz by by apply Itoa_digits.
  assert (∀ sep, digit_value sep = None → cut_at sep z = (z, None) ∧ split_at sep z = (z, [])) as Hcut
    by (intros sep Hs; by eapply digits_uncut).
  unfold target, ParseQuery.
  change (cut_at question ("/local/nodegroups?" +:+ QueryMaxLatencyMs +:+ "=" +:+ z)) with
    ("/local/nodegroups", Some ("maxLatencyMs=" +:+ z)). cbn [fmap option_fmap option_map default].
  assert (split_at ampersand ("maxLatencyMs=" +:+ z) = ("maxLatencyMs=" +:+ z, [])) as ->
    by (cbv [String.append]; cbn [split_at]; by rewrite (proj2 (Hcut ampersand eq_refl))).
  cbn [foldl]. unfold parse_pair.
  assert (cut_at semicolon ("maxLatencyMs=" +:+ z) = ("maxLatencyMs=" +:+ z, None)) as ->
    by (cbv [String.append]; cbn [cut_at]; by rewrite (proj1 (Hcut semicolon eq_refl))).
  rewrite decide_False by done.
  change (cut_at equals_sign ("maxLatencyMs=" +:+ z)) with ("maxLatencyMs", Some z).
  cbv beta iota. change (default "" (Some z)) with z. rewrite (digits_unescaped z _ _ Hz).
  change (QueryUnescape "maxLatencyMs") with (Some QueryMaxLatencyMs). done.
Qed.

Section Agreement.
Context `{Platform} `{GoRuntime} `{!LocalJson} `{Json}.
Context (s : LocalServer) (location : option (float64 * float64 * bool)) (base : string).

(** A call of the client that the server answers with [p]. *)
Definition reaches (p : eff local_call local_answer local_served) (e : http_call) : Prop :=
  ∃ r tgt, e = HttpDo r ∧ hr_URL r = base +:+ tgt ∧ local_mux s location (local_arrived tgt r) = p.

(** The target the client asks for a list of node groups. *)
Definition nodegroups_target (bound : option LatencyBound) : string :=
  match bound with
  | None => "/local/nodegroups"
  | Some b => "/local/nodegroups?" +:+ QueryMaxLatencyMs +:+ "=" +:+
              values_Get (EncodeLatencyBound (Some b)) QueryMaxLatencyMs
  end.

Lemma mux_nodegroups bound header body :
  (∀ b, bound = Some b → 1 ≤ lb_MaxLatencyMs b) →
  local_mux s location (mkLocalRequest MethodGet (nodegroups_target bound) header body) =
  serve_nodegroups s location (EncodeLatencyBound bound).
Proof.
  intros Hb. unfold local_mux. cbn [lq_Target lq_Method].
  destruct bound as [b|]; [|done]. unfold nodegroups_target. by rewrite target_bound by (by apply Hb).
Qed.

Lemma mux_delete id header body :
  id ≠ "" →
  local_mux s location (mkLocalRequest MethodDelete ("/local/reservations/" +:+ PathEscape id)
    header body) = serve_delete s id.
Proof.
  intros Hid. unfold local_mux. cbn [lq_Target lq_Method]. unfold target.
  assert (cut_at question ("/local/reservations/" +:+ PathEscape id) =
          ("/local/reservations/" +:+ PathEscape id, None)) as ->
    by (cbv [String.append]; cbn [cut_at]; by rewrite escape_uncut).
  assert (segments ("/local/reservations/" +:+ PathEscape id) = ["local"; "reservations"; id]) as ->.
  { unfold segments.
    assert (split_slash ("/local/reservations/" +:+ PathEscape id) =
            ("", ["local"; "reservations"; PathEscape id])) as ->
      by (cbv [String.append]; cbn [split_slash]; by rewrite split_slash_escape).
    cbn [fmap list_fmap snd]. by rewrite PathUnescape_escape. }
  by rewrite decide_False, decide_True.
Qed.

(** The gRPC server's client and the loopback server agree on the wire: each
    endpoint of the client, whatever identifiers, bound and body it is given,
    sends only requests that the routes hand to that endpoint's handler with
    the very same identifier, bound and body.  In particular an ID of any bytes
    and every latency bound survive the URL. *)
Theorem loopback_routes_agree {A} (decode : string → Res A) :
  (∀ bound, (∀ b, bound = Some b → 1 ≤ lb_MaxLatencyMs b) →
     background (reaches (serve_nodegroups s location (EncodeLatencyBound bound)))
       (loopback_GetNodeGroupsWithin base bound decode)) ∧
  (∀ id body, id ≠ "" →
     background (reaches (serve_create s id body))
       (loopback_PostReservation base id (Some (Ok body)) decode)) ∧
  (∀ id, id ≠ "" → background (reaches (serve_delete s id)) (loopback_DeleteReservation base id decode)) ∧
  background (reaches (serve_virtual_nodes s)) (loopback_GetVirtualNodes base decode).
Proof.
  split_and!.
  - intros bound Hb. unfold loopback_GetNodeGroupsWithin. fold (nodegroups_target bound).
    split; [done|]. intros rid. split; [|done].
    eexists _, (nodegroups_target bound). split_and!; [done..|by apply mux_nodegroups].
  - intros id body Hid. unfold loopback_PostReservation. rewrite decide_False by done.
    split; [done|]. intros rid. split; [|done]. eexists _, "/local/reservations".
    split_and!; [done..|]. unfold local_arrived. cbn [hr_Method hr_ReservationID hr_Body].
    by rewrite decide_False.
  - intros id Hid. unfold loopback_DeleteReservation. rewrite decide_False by done.
    split; [done|]. intros rid. split; [|done].
    eexists _, ("/local/reservations/" +:+ PathEscape id). split_and!; [done..|by apply mux_delete].
  - split; [done|]. intros rid. split; [|done]. by eexists _, "/local/virtual-nodes".
Qed.
End Agreement.
