(* ===== verification/EndToEnd.v ===== *)
(** * The reservation path end to end

    The agent's client ([AgentClient]), an unreliable network and the Broker's
    front end and reservation handler ([Gateway], [ReservationApi]) composed: the
    outside world of the client is the Broker itself.  A request can be lost
    before it arrives, and so can the answer to one that was served. *)
From stdpp Require Import base gmap strings list.
From Stdlib Require Import ZArith Lia.
From S2P Require Import Prelude GoText ApiTypes ConsumerTypes Kube MemServer Effects Chunk Wire.
From S2P Require Import AgentClient Registry Placement ReservationApi InstructionsApi.
From S2P Require Import AdvertisementApi ReservationController Housekeeping BrokerInvariant.
From S2P Require Import BrokerSafety Ledger ReservationProofs Gateway GatewayProofs LoopbackClient.

Open Scope Z_scope.

Section EndToEnd.
Context `{Platform} `{!RateLimit} `{!BrokerJson} `{GoRuntime} `{Json}.

(** ** What a call keeps

    An invariant of the outside world that every exchange of a request keeps is
    kept by the whole call, whatever the attempts, the sleeps and the caller's
    context do; what an exchange with a good status establishes, a call that
    ended with one does.  An answer with a good status whose body cannot be
    decoded is an error that carries that status. *)
Definition good_error (e : AgentError) : Prop := 0 < ae_Status e < 400.

Definition accepted {A} (o : A + AgentError) : Prop :=
  match o with inl _ => True | inr e => good_error e end.

Definition call_accepted {A} (o : A + CallError) : Prop :=
  match o with
  | inl _ => True
  | inr err => ∃ e, ce_agent err = Some e ∧ good_error e
  end.

(** An accepted answer has a good status. *)
Lemma accepted_status {A} (decode : string → Res A) r status rid body :
  accepted (attempt_result decode r (Answered status rid body)) → status < 400.
Proof.
  simpl. destruct (Z.leb_spec 400 status); [|done].
  intros [_ Hs]. by rewrite (proj2 (decodeErrorBody_category _ _ _)) in Hs.
Qed.

Section Calls.
Context {V A : Type} (C : contract) (X : V → ∀ e, http_answer e → V → Prop).
Context (I B : V → Prop) (c : Client) (decode : string → Res A).
Hypothesis Hidle : ∀ v e x v', (∀ r, e ≠ HttpDo r) → X v e x v' → v' = v.

Definition exchange_keeps (r : HttpRequest) : Prop :=
  ∀ v x v', I v → X v (HttpDo r) x v' → I v' ∧ (accepted (attempt_result decode r x) → B v').

Lemma ewp_attempts_keep r idempotent n backoff m v :
  exchange_keeps r → I v →
  ewp C X (attempts c decode r idempotent n backoff) (λ o _ v', I v' ∧ (accepted o → B v')) m v.
Proof.
  intros Hr. revert backoff v. induction n as [|n IH]; intros backoff v Hv; cbn [attempts].
  all: apply ewp_bind; unfold attempt; apply ewp_bind; intros x v1 Hx; apply ewp_ret.
  all: destruct (Hr v x v1 Hv Hx) as [Hv1 Hbk].
  all: destruct (attempt_result decode r x) as [a|e]; [by split|].
  all: apply ewp_ret; destruct (negb idempotent || _); [by apply ewp_ret|].
  all: apply ewp_bind; intros dn v2 Hd; apply (Hidle v1 CtxErr) in Hd as ->; [|done].
  all: destruct dn; [by apply ewp_ret|].
  { by apply ewp_ret. }
  apply ewp_bind. unfold sleepWithCtx. destruct (backoff <=? 0); [by apply ewp_ret, IH|].
  apply ewp_bind. intros y v3 Hs. apply (Hidle v1 (Sleep backoff)) in Hs as ->; [|done].
  apply ewp_ret. destruct y; [|by apply IH]. apply ewp_ret. split; [done|]. intros [? _]. done.
Qed.

Lemma ewp_do_keep method path body reservationID m v :
  (∀ rid, exchange_keeps (mkHttpRequest method (resolve c path) rid
            (if decide (reservationID = "") then None else Some reservationID) body)) →
  I v →
  ewp C X (do c method path (Ok body) decode (mkOptions reservationID "" true))
    (λ o _ v', I v' ∧ (call_accepted o → B v')) m v.
Proof.
  intros Hr Hv. unfold do. cbn [ro_requestID ro_reservationID ro_idempotent].
  rewrite (decide_True (P := "" = "")) by done. apply ewp_bind, ewp_api_any. intros rid m1.
  apply ewp_bind. eapply ewp_mono; [|apply ewp_attempts_keep; [apply Hr|done]].
  intros o m2 v2 [Hv2 Hbk]. apply ewp_ret. split; [done|].
  intros Ho. apply Hbk. destruct o as [a|e]; [done|]. by destruct Ho as (e' & [= <-] & ?).
Qed.
End Calls.

(** The Broker: its stored objects and its memory. *)
Record BrokerState := mkBrokerState { bs_store : store; bs_gateway : Gateway }.

(** A request of the client as it arrives over a connection with certificate
    [cert]. *)
Definition arrived (cert : ConnectionState) (path : string) (r : HttpRequest) : Request :=
  mkRequest (hr_Method r) path ∅ (hr_RequestID r) (default "" (hr_ReservationID r))
    (default "" (hr_Body r)) (Some cert) "".

(** One exchange: the request never arrives, or the Broker serves it and the
    answer arrives or is lost. *)
Definition network (s : Server) (base : string) (cert : ConnectionState) (v : BrokerState)
    (c : http_call) : http_answer c → BrokerState → Prop :=
  match c with
  | HttpDo r => λ x v',
      (v' = v ∧ ∃ err, x = BuildFailed err ∨ x = SendFailed err) ∨
      ∃ path out, hr_URL r = base +:+ path ∧
        runs reliable (broker_serve s (bs_gateway v) (arrived cert path r)) (bs_store v)
          (bs_gateway v', out) (bs_store v') ∧
        ((∃ status body, ou_Written out = Some (status, body) ∧
            x = Answered status (ou_Header out) body) ∨ ∃ err, x = SendFailed err)
  | Sleep _ | CtxErr => λ _ v', v' = v
  end.

(** The consumer's request as the Broker keeps it. *)
Definition stands_for (cid : string) (req : ReservationRequest) (r : Reservation) : Prop :=
  rs_ConsumerClusterID (cr_spec r) = cid ∧
  rs_ProviderClusterID (cr_spec r) = rq_ProviderClusterID req ∧
  rs_ChunkType (cr_spec r) = rq_ChunkType req ∧ rs_ChunkCount (cr_spec r) = 1.

Definition booked (s : Server) (cid id : string) (req : ReservationRequest) (m : store) : Prop :=
  ∃ r, objs m !! resv_key (sv_namespace s) id = Some (OResv r) ∧ stands_for cid req r.

Lemma network_idle s base cert v e x v' :
  (∀ r, e ≠ HttpDo r) → network s base cert v e x v' → v' = v.
Proof. destruct e; simpl; [|done..]. intros Hne. by destruct (Hne r). Qed.

(** Every server-side answer to the consumer's reservation call.  [req] is what
    the body stands for if the Broker accepts it at all. *)
Section Post.
Context (s : Server) (c : Client) (cert : ConnectionState) (cid id : string).
Context (req : ReservationRequest) (body : string) (m0 : store) (reg : ConsumerRegistry).
Hypothesis Hcert : ExtractClusterID (Some cert) = Ok cid.
Hypothesis Hid : id ≠ "".
Hypothesis Hbody : ∀ q, decode_reservation body = Ok q → validateReservationRequest q = None → q = req.

(** The Broker before or after the one booking of the call. *)
Definition once (m : store) : Prop :=
  m = m0 ∨ ∃ ca ca' r, (Lookup cid reg).2 = true ∧ usable s req m0 ca ∧ named id (cr_Name r) ∧
             created s cid (Lookup cid reg).1 req m0 m ca ca' r.

Definition on_the_way (v : BrokerState) : Prop :=
  gw_registry (bs_gateway v) = reg ∧ balanced (bs_store v) ∧ once (bs_store v).

Lemma created_booked m m' ca ca' r :
  named id (cr_Name r) → created s cid (Lookup cid reg).1 req m m' ca ca' r →
  booked s cid id req m'.
Proof.
  intros Hname Hcr. exists r. destruct Hname as [[? _]|(_ & _ & Hn)]; [done|].
  rewrite (cd_objs _ _ _ _ _ _ _ _ _ Hcr),
    (resv_key_of r (sv_namespace s) id (cd_ns _ _ _ _ _ _ _ _ _ Hcr) Hn).
  split; [apply lookup_insert_eq|]. unfold stands_for.
  by rewrite (cd_spec _ _ _ _ _ _ _ _ _ Hcr).
Qed.

(** One served request keeps the booking single, and a good answer means it is
    there. *)
Lemma create_step m x m' :
  validateReservationRequest req = None → once m → create_outcome s reg cid id req m x m' →
  once m' ∧ (∀ status b, x = JSON status b → booked s cid id req m').
Proof.
  intros Hvalid [->|(ca & ca' & r & Hreg & Hus & Hname & Hcr)] Ho.
  - destruct Ho as [| | | |ca name ex Hreg Hus Hname Hl Hsame| | |ca ca' r m' Hreg Hus Hname Hcr];
      try (by split; [left|]).
    + split; [by left|]. intros status b _. exists ex.
      destruct Hname as [[? _]|(_ & _ & ->)]; [done|]. split; [done|].
      unfold sameReservationRequest in Hsame. rewrite (validate_count req Hvalid) in Hsame.
      unfold stands_for. fed_bools. split_and!; first [done|lia].
    + split; [|intros; by eapply created_booked]. right. by exists ca, ca', r.
  - destruct (created_retry s reg cid id req m0 m m' ca ca' r x Hvalid Hreg Hus Hid Hname Hcr Ho)
      as [-> ->].
    split; [|intros; by eapply created_booked]. right. by exists ca, ca', r.
Qed.

(** The handler on this body: refused, or an outcome for the request. *)
Definition handled (m : store) (x : Response ReservationResponse) (m' : store) : Prop :=
  (m' = m ∧ ∃ e, x = Error StatusBadRequest e) ∨
  (validateReservationRequest req = None ∧ create_outcome s reg cid id req m x m').

Lemma wp_handled rid m :
  balanced m →
  wp reliable (handleReservationCreate s reg rid cid id (decode_reservation body)) (handled m) m.
Proof.
  intros Hb. destruct (decode_reservation body) as [q|e] eqn:Ed.
  2: { apply wp_create_rejected; [done|]. intros e'. left. by split; [|exists e']. }
  destruct (validateReservationRequest q) eqn:Hv.
  { apply wp_create_rejected; [by rewrite Hv|]. intros e'. left. by split; [|exists e']. }
  rewrite (Hbody q) in * by done. apply wp_handleReservationCreate; [apply Hb..|done|].
  intros x m' Ho. by right.
Qed.

Lemma handled_step m x m' :
  once m → handled m x m' →
  once m' ∧ (∀ status b, write encode_reservation x = Some (status, b) → status < 400 →
               booked s cid id req m').
Proof.
  intros Hon [[-> [e ->]]|[Hvalid Ho]].
  - split; [done|]. intros status b [= <- _]. by vm_compute.
  - destruct (create_step _ _ _ Hvalid Hon Ho) as [Hon' Hbk]. split; [done|].
    intros status b E Hst. destruct x as [st b'|st e]; [by eapply Hbk|].
    simpl in E. simplify_eq. inversion Ho; subst; vm_compute in Hst; discriminate.
Qed.

Lemma serve_step rid v out v' :
  let r := mkHttpRequest MethodPost (resolve c "/api/v1/reservations") rid (Some id) (Some body) in
  on_the_way v →
  runs reliable (broker_serve s (bs_gateway v) (arrived cert "/api/v1/reservations" r)) (bs_store v)
    (bs_gateway v', out) (bs_store v') →
  on_the_way v' ∧
  (∀ status b, ou_Written out = Some (status, b) → status < 400 → booked s cid id req (bs_store v')).
Proof.
  intros r (Hreg & Hb & Honce) Hrun.
  set (P := λ (_ : string) (x0 : Gateway * HttpOutcome) m', ∃ x,
    gw_registry x0.1 = reg ∧ ou_Written x0.2 = write encode_reservation x ∧ balanced m' ∧
    handled (bs_store v) x m').
  assert (wp reliable (broker_serve s (bs_gateway v) (arrived cert "/api/v1/reservations" r))
    (λ x m', (m' = bs_store v ∧ gw_registry x.1 = reg ∧ status_of x.2 = Some StatusTooManyRequests) ∨
             ∃ rid' x0, P rid' x0 m' ∧ relayed x0 x rid') (bs_store v)) as Hwp.
  { eapply wp_mono; [|apply (wp_passed reliable (mux s) (bs_gateway v)
        (arrived cert "/api/v1/reservations" r) (bs_store v) cid P clock_still_reliable Hcert)].
    - intros x m' [(-> & E & _ & Est)|Hr]; [left|by right]. by rewrite <-Hreg.
    - intros rid' l _. unfold mux.
      replace (segments (hq_Path _)) with ["api"; "v1"; "reservations"] by reflexivity.
      cbv zeta. rewrite bool_decide_true by done. unfold answer. apply wp_bind.
      change (hq_Body _) with body. change (hq_ReservationID _) with id.
      change (hq_ClusterID _) with cid. cbn [gw_registry]. rewrite Hreg.
      eapply wp_mono; [|apply wp_and; [by apply wp_handled|by apply wp_create_balanced]].
      intros x m' [Ho Hb']. exists x. by split_and!. }
  pose proof (wp_runs _ _ _ _ _ _ Hwp Hrun) as [(Em & Er & Est)|(rid' & x0 & (x & Er & Ew & Hb' & Ho) & Hrel)].
  - split; [split_and!; [done|by rewrite Em..]|]. intros status b Ew Hst.
    cbn [snd] in Est. unfold status_of in Est. rewrite Ew in Est. injection Est as ->. discriminate Hst.
  - destruct (handled_step _ _ _ Honce Ho) as [Hon Hbk]. destruct Hrel as (Er' & _ & _ & Ew').
    cbn [fst snd] in *. split; [split_and!; [by rewrite Er', Er|done|done]|].
    intros status b E Hst. apply (Hbk status b); [|done].
    rewrite Ew in Ew'. by destruct x; simpl in *; rewrite <-E, Ew'.
Qed.

(** Neither a lost request nor a lost answer books twice. *)
Lemma exchange_step {A} (decode : string → Res A) rid :
  exchange_keeps (network s (cl_baseURL c) cert) on_the_way
    (λ v, booked s cid id req (bs_store v)) decode
    (mkHttpRequest MethodPost (resolve c "/api/v1/reservations") rid (Some id) (Some body)).
Proof.
  intros v x v' Hv [[-> [err Hx]]|(path & out & Hurl & Hrun & Hx)].
  { split; [done|]. by destruct Hx as [-> | ->]; intros [? _]. }
  cbn [hr_URL] in Hurl. unfold resolve in Hurl. cbn [String.prefix] in Hurl.
  apply (inj (String.append _)) in Hurl as <-.
  destruct (serve_step rid v out v' Hv Hrun) as [Hv' Hbk]. split; [done|].
  destruct Hx as [(status & b & Ew & ->)|[err ->]]; [|by intros [? _]].
  intros Ha. apply (Hbk _ _ Ew). by eapply accepted_status.
Qed.

Lemma ewp_PostReservation {A} C (decode : string → Res A) m v :
  on_the_way v →
  ewp C (network s (cl_baseURL c) cert) (PostReservation c id (Some (Ok body)) decode)
    (λ o _ v', on_the_way v' ∧ (call_accepted o → booked s cid id req (bs_store v'))) m v.
Proof.
  intros Hv. unfold PostReservation. rewrite decide_False by done. cbn [res_some].
  apply (ewp_do_keep C (network s (cl_baseURL c) cert) on_the_way
    (λ v, booked s cid id req (bs_store v))); [apply network_idle| |done].
  intros rid. rewrite (decide_False (P := id = "")) by done. apply exchange_step.
Qed.
End Post.

(** C6: An agent that asks for a chunk over an unreliable network books it at
    most once, however many of its attempts the network loses before or after
    the Broker served them and however often the agent repeats the call with the
    same reservation ID: the Broker's books balance throughout and its store
    either is still the one before or differs by exactly that booking (one chunk
    of the provider and one Pending Reservation).  When the call succeeds, the
    Reservation it asked for is stored there under that ID. *)
Theorem PostReservation_books_once {A} C s c cert cid id req body m0 reg (decode : string → Res A) m v :
  ExtractClusterID (Some cert) = Ok cid → id ≠ "" → decode_reservation body = Ok req →
  on_the_way s cid id req m0 reg v →
  ewp C (network s (cl_baseURL c) cert) (PostReservation c id (Some (Ok body)) decode)
    (λ o _ v', on_the_way s cid id req m0 reg v' ∧
       (∀ a, o = inl a → booked s cid id req (bs_store v'))) m v.
Proof.
  intros Hcert Hid Hbody Hv. eapply ewp_mono;
    [|apply (ewp_PostReservation s c cert cid id req body m0 reg); [done..| |done]].
  - intros o m' v' [Hv' Hbk]. split; [done|]. intros a ->. by apply Hbk.
  - intros q Hq _. congruence.
Qed.
End EndToEnd.

(** ** A concrete exchange *)
Module EndToEndWitness.
Import SafetyWitness ReservationWitness.
#[local] Existing Instance MilliPlatform.platform.
#[local] Instance runtime : GoRuntime :=
  {| range_keys := λ _ l, l; rand_Intn := λ _ _, 0%nat |}.
#[local] Instance no_json : Json := {| unmarshal_error := λ _, None; http_StatusText := λ _, "" |}.

(** A limiter that counts its tokens down and never refills. *)
#[local] Instance countdown : RateLimit :=
  {| limiter := Z; NewLimiter := λ _ burst, burst; Allow := λ _ n, (n - 1, 0 <? n) |}.

#[local] Instance broker_json : BrokerJson := {|
  decode_advertisement := λ _, Fail (errors_New "EOF");
  decode_heartbeat := λ _, Fail (errors_New "EOF");
  decode_reservation := λ b, if decide (b = "req1") then Ok req1 else Fail (errors_New "EOF");
  decode_result := λ _, Fail (errors_New "EOF");
  encode_advertisement := λ _, ""; encode_snapshot := λ _, ""; encode_ack := λ _, "";
  encode_node_groups := λ _, ""; encode_reservation := rr_ReservationID;
  encode_reservations := λ _, ""; encode_release := λ _, ""; encode_instructions := λ _, "";
  encode_result_ack := λ _, ""; encode_error := λ _, ""; encode_health := "" |}.

Definition gw1 : Gateway := mkGateway reg1 ∅ [].
Definition cert1 : ConnectionState := mkConnectionState [["cons"; "federation-ca"]].
Definition client1 : Client :=
  mkClient "https://broker:8443" 3 (100 * Millisecond) (GoFloat.fof_Z 2) (2 * Second).
Definition post1 : HttpRequest :=
  mkHttpRequest MethodPost (resolve client1 "/api/v1/reservations") "rid" (Some "res-2") (Some "req1").

(** The Broker serves the request, and its repetition, with the same answer. *)
Example served_twice :
  let serve g := broker_serve srv1 g (arrived cert1 "/api/v1/reservations" post1) in
  let first := run (serve gw1) w9 in
  let again := run (serve first.1.1) first.2 in
  ou_Written first.1.2 = Some (201, "res-2") ∧ ou_Written again.1.2 = Some (200, "res-2") ∧
  mem_store again.2 = mem_store first.2.
Proof. split_and!; reflexivity. Qed.

Lemma PostReservation_books_once_witness :
  ewp serves (network srv1 "https://broker:8443" cert1)
    (PostReservation client1 "res-2" (Some (Ok "req1")) Ok)
    (λ o _ v', balanced (bs_store v') ∧
       (∀ a, o = inl a → booked srv1 "cons" "res-2" req1 (bs_store v'))) m9
    (mkBrokerState m9 gw1).
Proof.
  eapply ewp_mono; [|apply (PostReservation_books_once serves srv1 client1 cert1 "cons" "res-2" req1
    "req1" m9 reg1 Ok m9); [reflexivity|discriminate|reflexivity|]].
  - intros o m' v' [(_ & Hb & _) Hbk]. by split.
  - split_and!; [reflexivity|exact w9_balanced|by left].
Defined.

Lemma MiddlewareChain_authenticated_witness :
  wp reliable (broker_serve srv1 gw1 (mkRequest "GET" "/api/v1/reservations" ∅ "" "" "" None "cons"))
    (λ x m', m' = m9 ∧ status_of x.2 = Some StatusUnauthorized) m9.
Proof.
  eapply wp_mono; [|exact (MiddlewareChain_authenticated reliable (mux srv1) gw1
    (mkRequest "GET" "/api/v1/reservations" ∅ "" "" "" None "cons") m9 (λ _ _ _, True)
    clock_still_reliable)].
  by intros x m' (-> & _ & _ & ?).
Defined.
End EndToEndWitness.
