(* ===== verification/Stack.v ===== *)
(** * The consumer's call path as one system

    Cluster Autoscaler's cloud provider ([GrpcServer]), its loopback client
    ([LoopbackClient]), the consumer agent's loopback server ([LocalRoutes],
    [LocalApi]), the agent's Broker client ([AgentClient]) and the Broker behind
    its front end ([Gateway]), composed.  The outside calls of each component are
    the runs of the next one's program ([answered_by]); both HTTP hops lose
    requests and answers.  What is outside the path (the catalog, the latency
    prober, the language model's task that refreshes the agent's cache, the
    agent's own Kubernetes API) answers anything. *)
From stdpp Require Import base gmap strings list.
From Stdlib Require Import ZArith Lia.
From S2P Require Import Prelude GoText ApiTypes ConsumerTypes Kube MemServer Effects Chunk Wire.
From S2P Require Import AgentClient Catalog Registry Placement Prober Selection ReservationApi.
From S2P Require Import InstructionsApi AdvertisementApi Brain LocalApi GrpcServer LoopbackClient.
From S2P Require Import ReservationController Housekeeping BrokerInvariant BrokerSafety Ledger.
From S2P Require Import ReservationProofs Gateway GatewayProofs EndToEnd LocalRoutes.
Import GoFloat.

Open Scope Z_scope.

(** ** Linking *)
Section Linking.
Context `{Platform} {E : Type} {R : E → Type} {V : Type} (X : V → ∀ e : E, R e → V → Prop).

(** [x] and [v'] are what some run of [p] leaves, whatever [p]'s own Kubernetes
    API served it. *)
Definition answered_by {A} (p : eff E R A) (v : V) (x : A) (v' : V) : Prop :=
  ∃ m m', eruns serves X p m v x m' v'.

Lemma answered_by_ewp {A} (p : eff E R A) (Q : A → V → Prop) v x v' :
  (∀ m, ewp serves X p (λ a _ v', Q a v') m v) → answered_by p v x v' → Q x v'.
Proof. intros Hp (m & m' & Hr). exact (ewp_eruns _ _ _ _ _ _ _ _ _ (Hp m) Hr). Qed.

(** A program that only asks what keeps an invariant keeps it. *)
Lemma ewp_background_keep {A} C (B : E → Prop) (I : V → Prop) (p : eff E R A) m v :
  (∀ v e x v', B e → I v → X v e x v' → I v') → background B p → I v →
  ewp C X p (λ _ _ v', I v') m v.
Proof.
  intros HB. revert m v. induction p as [a|r k IH|e k IH]; intros m v Hp Hv; simpl in *; [done|..].
  - intros x m' _. by apply IH; [apply Hp|].
  - destruct Hp as [He Hk]. intros x v' HX. apply IH; [apply Hk|by eapply HB].
Qed.
End Linking.

Lemma background_hoist `{Platform} {E1 E2} {R1 : E1 → Type} {R2 : E2 → Type} (B1 : E1 → Prop)
    (B2 : E2 → Prop) (f : ∀ e, eff E2 R2 (R1 e)) {A} (p : eff E1 R1 A) :
  (∀ e, B1 e → background B2 (f e)) → background B1 p → background B2 (hoist f p).
Proof.
  intros Hf. induction p as [a|r k IH|e k IH]; simpl; [done|..]; intros [He Hk].
  - split; [done|]. intros x. by apply IH.
  - apply (background_bind B2 (f e)); [by apply Hf|]. intros x. by apply IH.
Qed.

(** Programs that only read leave a reliable server as it is. *)
Abbreviation reading := (spares (λ _ : Key, True)).

Lemma wp_reading `{Platform} {A} (p : prog A) m : reading p → wp reliable p (λ _ m', m' = m) m.
Proof.
  revert m. induction p as [a|r k IH]; intros m; simpl; [done|]. intros [Hr Hk] x m' [Hs _].
  assert (m' = m) as ->; [|by apply IH].
  destruct r; simpl in *; by (destruct Hs as [-> _] || subst m' || destruct Hr).
Qed.

Section Stack.
Context `{Platform} `{!RateLimit} `{!BrokerJson} `{GoRuntime} `{!LocalJson} `{Json}.

(** [encoding/json] in the two clients; marshalling a struct of strings and
    integers cannot fail. *)
Class ClientJson := {
  marshal_request : ReservationRequest → string;
  unmarshal_node_groups : string → Res NodeGroupListResponse;
  unmarshal_reservation : string → Res ReservationResponse;
  unmarshal_reservations : string → Res (list ReservationResponse);
  unmarshal_release : string → Res ReleaseResponse;
  unmarshal_virtual_nodes : string → Res (list VirtualNodeView)
}.

Context `{!ClientJson}.
Context (s : Server) (c : Client) (cert : ConnectionState) (base : string).

(** The agent's calls: the Broker's are programs of its client. *)
Definition broker_link (v : BrokerState) (e : local_call) : local_answer e → BrokerState → Prop :=
  let net := network s (cl_baseURL c) cert in
  match e with
  | BrokerNodeGroups => answered_by net (GetNodeGroups c unmarshal_node_groups) v
  | BrokerPostReservation id req =>
      answered_by net (PostReservation c id (Some (Ok (marshal_request req))) unmarshal_reservation) v
  | BrokerDeleteReservation id => answered_by net (DeleteReservation c id unmarshal_release) v
  | BrainCall OwnReservations => answered_by net (ListReservations c unmarshal_reservations) v
  | BrainCall CatalogListOffers | BrainCall (Measure _) | ProbePick _ => λ _ v', v' = v
  end.

(** The consumer agent and the Broker. *)
Record Stack := mkStack { st_local : LocalServer; st_broker : BrokerState }.

(** One exchange on the loopback interface.  The selection task the agent may
    have running can store its ranking at any time. *)
Definition loopback (v : Stack) (e : http_call) : http_answer e → Stack → Prop :=
  match e with
  | HttpDo r => λ x v',
      (v' = v ∧ ∃ err, x = BuildFailed err ∨ x = SendFailed err) ∨
      ∃ tgt location l out task ai,
        hr_URL r = base +:+ tgt ∧
        answered_by broker_link (local_mux (st_local v) location (local_arrived tgt r))
          (st_broker v) (l, out, task) (st_broker v') ∧
        st_local v' = set_ai l ai ∧
        (x = Answered (lo_Status out) "" (lo_Body out) ∨ ∃ err, x = SendFailed err)
  | Sleep _ | CtxErr => λ _ v', v' = v
  end.

(** The gRPC server's calls. *)
Definition agent_link (v : Stack) (e : agent_call) : agent_answer e → Stack → Prop :=
  match e with
  | AgentNodeGroups bound =>
      answered_by loopback (loopback_GetNodeGroupsWithin base bound unmarshal_node_groups) v
  | AgentPostReservation id req =>
      answered_by loopback
        (loopback_PostReservation base id (Some (Ok (marshal_request req))) unmarshal_reservation) v
  | AgentDeleteReservation id =>
      answered_by loopback (loopback_DeleteReservation base id unmarshal_release) v
  | AgentVirtualNodes => answered_by loopback (loopback_GetVirtualNodes base unmarshal_virtual_nodes) v
  end.

(** ** Reads *)

(** The Broker's store and registry are those of [v0]. *)
Definition calm (v0 v : BrokerState) : Prop :=
  bs_store v = bs_store v0 ∧ gw_registry (bs_gateway v) = gw_registry (bs_gateway v0).

(** A GET whose handler only reads leaves the Broker calm, whoever sends it. *)
Lemma serve_calm v0 v r out v' :
  (∀ g rid cid, wp reliable (mux s g (authenticated cid rid r))
      (λ x m', m' = bs_store v ∧ gw_registry x.1 = gw_registry g) (bs_store v)) →
  calm v0 v →
  runs reliable (broker_serve s (bs_gateway v) r) (bs_store v) (bs_gateway v', out) (bs_store v') →
  calm v0 v'.
Proof.
  intros Hr [Em Eg] Hrun.
  assert (wp reliable (broker_serve s (bs_gateway v) r)
    (λ x m', m' = bs_store v ∧ gw_registry x.1 = gw_registry (bs_gateway v)) (bs_store v)) as Hwp.
  { destruct (ExtractClusterID (hq_TLS r)) as [cid|e] eqn:Ec.
    - eapply wp_mono; [|apply (wp_passed reliable (mux s) (bs_gateway v) r (bs_store v) cid
        (λ _ x0 m', m' = bs_store v ∧ gw_registry x0.1 = gw_registry (bs_gateway v)));
        [apply clock_still_reliable|done|]].
      + intros x m' [(-> & E & _)|(rid & x0 & [-> E] & (E' & _))]; split; try done. by rewrite E', E.
      + intros rid l _. apply (Hr (mkGateway _ _ _)).
    - eapply wp_mono; [|by apply (wp_refused reliable _ _ _ _ e clock_still_reliable)].
      by intros x m' (-> & E & _). }
  destruct (wp_runs _ _ _ _ _ _ Hwp Hrun) as [Em' Eg']. unfold calm. cbn [fst] in Eg'.
  by rewrite Em', Eg'.
Qed.

Lemma wp_answer_reading {B} (encode : B → string) g r (p : prog (Response B)) m :
  reading p →
  wp reliable (answer encode g r p) (λ x m', m' = m ∧ gw_registry x.1 = gw_registry g) m.
Proof.
  intros Hp. unfold answer. apply wp_bind. eapply wp_mono; [|by apply wp_reading].
  intros x m' ->. by apply wp_ret.
Qed.

(** The two GET endpoints the agent uses on this path. *)
Definition reading_path (path : string) : Prop :=
  path = "/api/v1/nodegroups" ∨ path = "/api/v1/reservations".

Lemma mux_reading g r m :
  reading_path (hq_Path r) → hq_Method r = "GET" →
  wp reliable (mux s g r) (λ x m', m' = m ∧ gw_registry x.1 = gw_registry g) m.
Proof.
  intros [Hp|Hp] Hm; unfold mux; rewrite Hp, Hm; apply wp_answer_reading.
  - unfold handleNodeGroupsList. apply spares_bind; [by split|]. intros [l|e]; [|done].
    apply spares_bind; [by split|]. intros [[own fl]|e]; [|done]. by split.
  - unfold handleReservationList. apply spares_bind; [by split|]. by intros [l|e].
Qed.

Lemma get_calm {A} (decode : string → Res A) v0 path rid hdr body :
  reading_path path →
  exchange_keeps (network s (cl_baseURL c) cert) (calm v0) (λ _, True) decode
    (mkHttpRequest MethodGet (resolve c path) rid hdr body).
Proof.
  intros Hp v x v' Hv [[-> _]|(path' & out & Hurl & Hrun & _)]; (split; [|done]); [done|].
  assert (resolve c path = cl_baseURL c +:+ path) as E by (by destruct Hp as [-> | ->]).
  cbn [hr_URL] in Hurl. rewrite E in Hurl. apply (inj (String.append _)) in Hurl as <-.
  eapply serve_calm; [|exact Hv|exact Hrun]. intros g rid' cid. by apply mux_reading.
Qed.

(** A whole GET call of the agent leaves the Broker calm. *)
Lemma ewp_get_calm {A} C (decode : string → Res A) v0 path m v :
  reading_path path → calm v0 v →
  ewp C (network s (cl_baseURL c) cert) (do c MethodGet path (Ok None) decode idempotent_call)
    (λ _ _ v', calm v0 v') m v.
Proof.
  intros Hp Hv. eapply ewp_mono; [|apply (ewp_do_keep C (network s (cl_baseURL c) cert) (calm v0)
    (λ _, True)); [apply network_idle|intros rid; by apply get_calm|done]].
  by intros o m' v' [? _].
Qed.

(** The agent's calls that only read. *)
Definition read_call (e : local_call) : Prop :=
  match e with
  | BrokerNodeGroups | BrainCall _ | ProbePick _ => True
  | BrokerPostReservation _ _ | BrokerDeleteReservation _ => False
  end.

Lemma read_call_calm v0 v e x v' : read_call e → calm v0 v → broker_link v e x v' → calm v0 v'.
Proof.
  intros He Hv. destruct e as [|?|?|[| |l]|l]; try done; cbn [broker_link].
  2,4,5: by intros ->.
  all: apply (answered_by_ewp _ _ (λ _ v', calm v0 v')); intros m;
    apply ewp_get_calm; [by (left + right)|done].
Qed.

(** Listing the node groups asks nothing else. *)
Lemma nodegroups_read l location q :
  background read_call (serve_nodegroups l location q).
Proof.
  unfold serve_nodegroups. apply background_bind; [|by intros [[l' r] t]].
  unfold handleNodeGroups. destruct (DecodeLatencyBound q) as [bound|e]; [|done].
  apply background_bind.
  - unfold localNodeGroups. destruct (ls_brain l) as [b|]; [|by split].
    apply background_bind; [|by intros [b' r]].
    apply (background_hoist (λ _, True)); [by intros e _|]. unfold NodeGroupsWithin.
    apply background_bind; [by split|]. intros [offers|e]; [|done].
    apply background_bind; [by split|]. intros [resvs|e]; [|done].
    apply background_bind; [by apply background_api|]. intros [spec|e]; [|done].
    destruct (FromReservations resvs) as [own fl], (default _ location) as [[lat lon] has].
    apply background_bind; [by destruct (bool_decide _ && _)|]. intros measured.
    by split.
  - intros [l' [resp|err]]; [|done]. apply background_bind.
    { destruct (nl_LatencyShortlist resp && ls_hasProber l'); [|done]. unfold maskToMeasuredWinner.
      by destruct (probe_candidates _ _). }
    intros resp'. apply background_bind; [destruct (ls_hasOllama l'); [by apply background_api|done]|].
    intros [prompt|]; [|done]. unfold chooseProvider.
    apply background_bind; [by split|]. intros t. cbv beta zeta.
    by destruct (ai_poll _ _ _) as [a [ranked|start]].
Qed.

(** ** One reservation through the whole path *)

(** The request as it reaches the Broker: marshalled for the agent, read there,
    marshalled again and read by the Broker. *)
Definition delivered (req : ReservationRequest) : Res ReservationRequest :=
  match local_decode_reservation (marshal_request req) with
  | Ok q => decode_reservation (marshal_request q)
  | Fail e => Fail e
  end.

(** The one exchange of a call of the loopback client. *)
Lemma ewp_loopback_do {A} C (decode : string → Res A) (Q : A + CallError → Stack → Prop)
    method path body hdr m v :
  (∀ rid x v', let r := mkHttpRequest method (base +:+ path) rid
                          (if decide (hdr = "") then None else Some hdr) body in
     loopback v (HttpDo r) x v' → Q (loopback_result decode r x) v') →
  ewp C loopback (loopback_do base method path (Ok body) decode hdr) (λ o _ v', Q o v') m v.
Proof.
  intros HQ. unfold loopback_do. apply ewp_bind, ewp_api_any. intros rid m1.
  apply ewp_bind. intros x v' Hx. apply ewp_ret, ewp_ret. by apply HQ.
Qed.

(** A good status on the loopback interface is a good outcome of the call. *)
Lemma loopback_result_ok {A} (decode : string → Res A) r status rid body a :
  loopback_result decode r (Answered status rid body) = inl a → status < 400 ∧ decode body = Ok a.
Proof.
  simpl. destruct (Z.leb_spec 400 status); [done|]. intros E. split; [done|].
  destruct (decode body); by simplify_eq.
Qed.

(** What the loopback server answers with a good status, the Broker answered
    with one. *)
Lemma local_create_status {A} header (err : CallError) (encode : A → string) :
  lo_Status (local_write encode header (localWriteError err)) < 400 → call_accepted (A:=A) (inr err).
Proof.
  unfold localWriteError. destruct (ce_agent err) as [e|] eqn:Ee; [|by vm_compute].
  destruct (Z.ltb_spec 0 (ae_Status e)); [|by vm_compute]. cbn. intros Hs.
  exists e. by split.
Qed.

(** An answer of the Broker that cannot be decoded is forwarded with its good
    status and an error body, which the gRPC server's client takes for an answer
    whenever it can read one out of it: a garbled list of node groups becomes an
    empty one instead of an error. *)
Theorem garbled_answer_passes_as_success {A} (decode : string → Res A) r r' status rid body err :
  0 < status < 400 → decode body = Fail err →
  ∃ e le, attempt_result decode r (Answered status rid body) = inr e ∧
    localWriteError (B:=A) (of_agent_error e) = LocalFail status le ∧
    ∀ a, decode (local_encode_error le) = Ok a →
      loopback_result decode r' (Answered status "" (local_encode_error le)) = inl a.
Proof.
  intros Hs Hd. simpl. destruct (Z.leb_spec 400 status); [lia|]. rewrite Hd.
  eexists _, _. split; [done|]. split.
  - unfold localWriteError. cbn [ce_agent of_agent_error ae_Status].
    by rewrite (proj2 (Z.ltb_lt 0 status)) by lia.
  - intros a Ha. by rewrite Ha.
Qed.

Section PostChunk.
Context (cid id : string) (req : ReservationRequest) (m0 : store) (reg : ConsumerRegistry).
Hypothesis Hcert : ExtractClusterID (Some cert) = Ok cid.
Hypothesis Hid : id ≠ "".
Hypothesis Hdel : delivered req = Ok req.

Abbreviation booking := (on_the_way s cid id req m0 reg).

Lemma ewp_serve_create C l m v :
  booking v →
  ewp C broker_link (serve_create l id (marshal_request req))
    (λ x _ v', booking v' ∧ (lo_Status x.1.2 < 400 → booked s cid id req (bs_store v'))) m v.
Proof.
  intros Hv. unfold delivered in Hdel. unfold serve_create, localReservationCreate.
  destruct (local_decode_reservation (marshal_request req)) as [q|e]; [|done].
  apply ewp_bind, ewp_bind. rewrite decide_False by done. apply ewp_ret, ewp_bind.
  intros r v' Hr. apply (answered_by_ewp _ _ (λ o v', booking v' ∧
    (call_accepted o → booked s cid id req (bs_store v')))) in Hr as [Hv' Hbk].
  2: { intros m1. apply ewp_PostReservation; try done. intros q' Hq' _. congruence. }
  destruct r as [resp|err].
  { apply ewp_ret, ewp_ret, ewp_ret. split; [done|]. intros _. by apply Hbk. }
  destruct (ls_brain l) as [b|].
  - apply ewp_ret, ewp_bind, ewp_api_any. intros t m1. apply ewp_ret, ewp_ret. split; [done|].
    intros Hs. exact (Hbk (local_create_status None err local_encode_reservation Hs)).
  - apply ewp_ret, ewp_ret, ewp_ret. split; [done|]. intros Hs. exact (Hbk (local_create_status None err local_encode_reservation Hs)).
Qed.

Lemma agent_post v x v' :
  booking (st_broker v) → agent_link v (AgentPostReservation id req) x v' →
  booking (st_broker v') ∧ ∀ a, x = inl a → booked s cid id req (bs_store (st_broker v')).
Proof.
  intros Hv. cbn [agent_link]. apply (answered_by_ewp _ _ (λ x v', booking (st_broker v') ∧
    ∀ a, x = inl a → booked s cid id req (bs_store (st_broker v')))). intros m.
  unfold loopback_PostReservation. rewrite decide_False by done.
  apply ewp_loopback_do. intros rid y v1 r [[-> [err Hy]]|(tgt & loc & l & out & task & ai & Hu & Hs & _ & Hy)].
  { split; [done|]. by destruct Hy as [-> | ->]. }
  apply (inj (String.append _)) in Hu as <-.
  assert (local_mux (st_local v) loc (local_arrived "/local/reservations" r) =
          serve_create (st_local v) id (marshal_request req)) as E.
  { unfold r, local_arrived. cbn [hr_Method hr_ReservationID hr_Body].
    by rewrite (decide_False (P := id = "")). }
  rewrite E in Hs. apply (answered_by_ewp _ _ (λ x v', booking v' ∧
    (lo_Status x.1.2 < 400 → booked s cid id req (bs_store v')))) in Hs as [Hv1 Hbk];
    [|intros m1; by apply ewp_serve_create].
  split; [done|]. intros a. destruct Hy as [-> |[err ->]]; [|done].
  intros [Hlt _]%loopback_result_ok. by apply Hbk.
Qed.
End PostChunk.

(** Fetching the node groups leaves the Broker calm, and what the client returns
    was read from the wire. *)
Lemma agent_groups v x v' :
  agent_link v (AgentNodeGroups None) x v' →
  calm (st_broker v) (st_broker v') ∧
  ∀ resp, x = inl resp → ∃ body, unmarshal_node_groups body = Ok resp.
Proof.
  cbn [agent_link]. apply (answered_by_ewp _ _ (λ x v', calm (st_broker v) (st_broker v') ∧
    ∀ resp, x = inl resp → ∃ body, unmarshal_node_groups body = Ok resp)). intros m.
  apply ewp_loopback_do. intros rid y v1 r [[-> [err Hy]]|(tgt & loc & l & out & task & ai & Hu & Hs & _ & Hy)].
  { split; [done|]. by destruct Hy as [-> | ->]. }
  apply (inj (String.append _)) in Hu as <-.
  assert (local_mux (st_local v) loc (local_arrived "/local/nodegroups" r) =
          serve_nodegroups (st_local v) loc ∅) as E by done.
  rewrite E in Hs. split.
  - revert Hs. apply (answered_by_ewp _ _ (λ _ v', calm (st_broker v) v')). intros m1.
    apply (ewp_background_keep _ _ read_call); [by intros; eapply read_call_calm|apply nodegroups_read|done].
  - intros resp. destruct Hy as [-> |[err ->]]; [|done]. intros [_ Hd]%loopback_result_ok. by eexists.
Qed.
End Stack.
