(* ===== verification/ScaleUp.v ===== *)
(** * Scaling up, from the Cluster Autoscaler to the Broker's books

    [NodeGroupIncreaseSize] run over the whole call path of [Stack]: the theorem
    says what one scale-up RPC leaves in the Broker's store. *)
From stdpp Require Import base gmap strings list.
From Stdlib Require Import ZArith Lia.
From S2P Require Import Prelude GoText ApiTypes ConsumerTypes Kube MemServer Effects Chunk Wire.
From S2P Require Import AgentClient Catalog Registry Placement Prober Selection ReservationApi.
From S2P Require Import InstructionsApi AdvertisementApi Brain LocalApi GrpcServer LoopbackClient.
From S2P Require Import ReservationController Housekeeping BrokerInvariant BrokerSafety Ledger.
From S2P Require Import ReservationProofs Gateway GatewayProofs EndToEnd LocalRoutes Stack.
Import GoFloat.

Open Scope Z_scope.

(** ** Sequences of bookings *)
Section Bookings.
Context `{Platform} (s : Server) (cid : string) (reg : ConsumerRegistry) (req : ReservationRequest).

(** [m'] is [m] after the bookings of [ids], in that order: each takes one chunk
    of the provider and stores one Pending Reservation under its ID. *)
Inductive bookings : list string → store → store → Prop :=
| bookings_nil m : bookings [] m m
| bookings_cons id ids m m1 m' ca ca' r :
    (Lookup cid reg).2 = true → usable s req m ca → named id (cr_Name r) →
    created s cid (Lookup cid reg).1 req m m1 ca ca' r →
    bookings ids m1 m' → bookings (id :: ids) m m'.

(** Where a booking is stored, and what it leaves alone. *)
Lemma created_key id m m1 ca ca' r :
  id ≠ "" → named id (cr_Name r) → created s cid (Lookup cid reg).1 req m m1 ca ca' r →
  cr_key r = resv_key (sv_namespace s) id ∧
  ∀ id', id' ≠ id → objs m1 !! resv_key (sv_namespace s) id' = objs m !! resv_key (sv_namespace s) id'.
Proof.
  intros Hid [[? _]|(_ & _ & Hn)] Hcr; [done|].
  assert (cr_key r = resv_key (sv_namespace s) id) as Hk
    by exact (resv_key_of r _ _ (cd_ns _ _ _ _ _ _ _ _ _ Hcr) Hn).
  split; [done|]. intros id' Hne. rewrite (cd_objs _ _ _ _ _ _ _ _ _ Hcr), Hk.
  rewrite lookup_insert_ne by congruence. by apply lookup_insert_ne.
Qed.

(** A Reservation stays while others are booked. *)
Lemma bookings_keep ids m m' k r :
  bookings ids m m' → objs m !! k = Some (OResv r) → objs m' !! k = Some (OResv r).
Proof.
  induction 1 as [|id ids m m1 m' ca ca' r' Hreg Hus Hn Hcr Hb IH]; [done|]. intros Hk. apply IH.
  rewrite (cd_objs _ _ _ _ _ _ _ _ _ Hcr). rewrite lookup_insert_ne.
  - rewrite lookup_insert_ne; [done|]. intros <-. rewrite (cd_cadv _ _ _ _ _ _ _ _ _ Hcr) in Hk. done.
  - intros <-. rewrite (cd_fresh _ _ _ _ _ _ _ _ _ Hcr) in Hk. done.
Qed.

Lemma bookings_booked ids m m' id :
  bookings ids m m' → booked s cid id req m → booked s cid id req m'.
Proof. intros Hb (r & Hr & Hs). exists r. split; [by eapply bookings_keep|done]. Qed.

(** The provider's counters move by exactly the number of bookings. *)
Lemma bookings_counters ids m m' c :
  bookings ids m m' →
  objs m !! cadv_key (sv_namespace s) (rq_ProviderClusterID req) = Some (OCadv c) →
  ∃ c', objs m' !! cadv_key (sv_namespace s) (rq_ProviderClusterID req) = Some (OCadv c') ∧
    ca_TotalChunks (cr_status c') = ca_TotalChunks (cr_status c) ∧
    ca_ReservedChunks (cr_status c') = ca_ReservedChunks (cr_status c) + Z.of_nat (length ids).
Proof.
  intros Hb. revert c. induction Hb as [|id ids m m1 m' ca ca' r Hreg Hus Hn Hcr Hb IH]; intros c Hc.
  - exists c. split_and!; [done..|]. simpl. lia.
  - assert (ca = c) as -> by (pose proof (cd_cadv _ _ _ _ _ _ _ _ _ Hcr); congruence).
    destruct (IH ca') as (c' & Hc' & Et & Er).
    { rewrite (cd_objs _ _ _ _ _ _ _ _ _ Hcr), lookup_insert_ne by done. apply lookup_insert_eq. }
    exists c'. split; [done|]. destruct (cd_taken _ _ _ _ _ _ _ _ _ Hcr) as [Es _].
    rewrite Et, Er, Es. simpl. lia.
Qed.
End Bookings.

Section ScaleUp.
Context `{Platform} `{!RateLimit} `{!BrokerJson} `{GoRuntime} `{!LocalJson} `{Json} `{!ClientJson}.
Context (s : Server) (c : Client) (cert : ConnectionState) (base : string).
Context (cid : string) (reg : ConsumerRegistry).
Hypothesis Hcert : ExtractClusterID (Some cert) = Ok cid.

(** The Broker serves [cid] from registry [reg] with balanced books. *)
Definition steady (v : Stack) : Prop :=
  gw_registry (bs_gateway (st_broker v)) = reg ∧ balanced (bs_store (st_broker v)).

Definition fresh_ids (m : store) (ids : list string) : Prop :=
  ∀ id, id ∈ ids → objs m !! resv_key (sv_namespace s) id = None.

(** What asking for [n] chunks one by one left: [asked] are the IDs drawn, [new]
    the ones that were booked. *)
Definition scaled (n : nat) (req : ReservationRequest) (o : option Status) (m m' : store) : Prop :=
  ∃ asked new, (length asked ≤ n)%nat ∧ new `sublist_of` asked ∧
    Forall (λ id, ∃ u, id = "res-" +:+ u) asked ∧ bookings s cid reg req new m m' ∧
    (o = None → length asked = n ∧ (∀ id, id ∈ asked → booked s cid id req m') ∧
                (NoDup asked → fresh_ids m asked → new = asked)).

(** One more chunk asked for before the others. *)
Lemma scaled_cons n req o id m m1 m' :
  id ≠ "" → (∃ u, id = "res-" +:+ u) → once s cid id req m reg m1 → booked s cid id req m1 →
  scaled n req o m1 m' → scaled (S n) req o m m'.
Proof.
  intros Hid Hu Hon Hbk (asked & new & Hlen & Hsub & Hall & Hb & Ho). exists (id :: asked).
  destruct Hon as [->|(ca & ca' & r & Hreg & Hus & Hn & Hcr)].
  - exists new. split_and!; [simpl; lia|by constructor|by constructor|done|].
    intros E. destruct (Ho E) as (El & Hbs & _). split_and!; [simpl; lia| |].
    + intros id' [->|Hin]%elem_of_cons; [by eapply bookings_booked|by apply Hbs].
    + intros _ Hf. destruct Hbk as (r & Hr & _). by rewrite Hf in Hr by constructor.
  - exists (id :: new). split_and!; [simpl; lia|by constructor|by constructor|by econstructor|].
    intros E. destruct (Ho E) as (El & Hbs & Hnew). split_and!; [simpl; lia| |].
    + intros id' [->|Hin]%elem_of_cons; [by eapply bookings_booked|by apply Hbs].
    + intros [Hni Hnd]%NoDup_cons Hf. f_equal. apply Hnew; [done|]. intros id' Hin.
      rewrite (proj2 (created_key s cid reg req id m m1 ca ca' r Hid Hn Hcr)) by congruence.
      by apply Hf; constructor.
Qed.

Lemma scaled_none n req o m m' id :
  o ≠ None → (∃ u, id = "res-" +:+ u) → once s cid id req m reg m' → scaled (S n) req o m m'.
Proof.
  intros Ho Hu [->|(ca & ca' & r & Hreg & Hus & Hn & Hcr)]; exists [id].
  - exists []. split_and!; [simpl; lia|by repeat constructor|by repeat constructor|constructor|done].
  - exists [id]. split_and!; [simpl; lia|done|by repeat constructor| |done].
    econstructor; [done..|constructor].
Qed.

Lemma ewp_increase_loop C n group m v :
  delivered (chunk_request group) = Ok (chunk_request group) → steady v →
  ewp C (agent_link s c cert base) (increase_loop n group)
    (λ o _ v', steady v' ∧
       scaled n (chunk_request group) o (bs_store (st_broker v)) (bs_store (st_broker v'))) m v.
Proof.
  intros Hdel. revert m v. induction n as [|n IH]; intros m v Hv; cbn [increase_loop].
  - split; [done|]. exists [], []. split_and!; [done..|constructor|constructor|].
    intros _. split_and!; [done|by intros id ?%elem_of_nil|done].
  - apply ewp_bind, ewp_api_any. intros u m1. apply ewp_bind. intros x v1 Hx.
    set (id := "res-" +:+ u) in *. set (req := chunk_request group) in *.
    assert (id ≠ "") as Hid by done. assert (∃ u, id = "res-" +:+ u) as Hu by by exists u.
    destruct (agent_post s c cert base cid id req (bs_store (st_broker v)) reg Hcert Hid Hdel v x v1)
      as [(Hreg1 & Hb1 & Hon) Hbk]; [split_and!; [apply Hv..|by left]|done|].
    apply ewp_ret. destruct x as [resp|err].
    + eapply ewp_mono; [|by apply IH]. intros o m2 v2 [Hv2 Hsc]. split; [done|].
      eapply scaled_cons; [done..|by eapply Hbk|done].
    + apply ewp_ret. split; [done|]. by eapply scaled_none.
Qed.

(** What [encoding/json] guarantees of a value it read: marshalled again and
    read on the other side, twice over, a request made of it is the same. *)
Definition json_faithful : Prop :=
  ∀ body resp group, unmarshal_node_groups body = Ok resp → group ∈ nl_NodeGroups resp →
    delivered (chunk_request group) = Ok (chunk_request group).

End ScaleUp.

(** ** A concrete scale-up *)
Module ScaleUpWitness.
Import SafetyWitness ReservationWitness EndToEndWitness.
#[local] Existing Instance MilliPlatform.platform.
#[local] Existing Instance EndToEndWitness.runtime.
#[local] Existing Instance EndToEndWitness.no_json.
#[local] Existing Instance EndToEndWitness.countdown.

(** The list the Broker serves, and the request for a chunk of its group. *)
Definition groups1 : NodeGroupListResponse :=
  match (run (handleNodeGroupsList srv1 reg1 "rid" "cons") w9).1 with
  | JSON _ l => l
  | Error _ _ => mkNodeGroupList [] false "" 0 0 0
  end.
Definition chunk1 : ReservationRequest :=
  match nl_NodeGroups groups1 with g :: _ => chunk_request g | [] => req1 end.

Definition read_as {A} (body : string) (a : A) (b : string) : Res A :=
  if decide (b = body) then Ok a else Fail (errors_New "EOF").

#[local] Instance wire_json : BrokerJson := {|
  decode_advertisement := λ _, Fail (errors_New "EOF");
  decode_heartbeat := λ _, Fail (errors_New "EOF");
  decode_reservation := read_as "chunk" chunk1;
  decode_result := λ _, Fail (errors_New "EOF");
  encode_advertisement := λ _, ""; encode_snapshot := λ _, ""; encode_ack := λ _, "";
  encode_node_groups := λ _, "groups"; encode_reservation := λ _, "reservation";
  encode_reservations := λ _, ""; encode_release := λ _, ""; encode_instructions := λ _, "";
  encode_result_ack := λ _, ""; encode_error := λ _, ""; encode_health := "" |}.

#[local] Instance loopback_json : LocalJson := {|
  local_decode_reservation := read_as "chunk" chunk1;
  local_encode_node_groups := λ _, "groups"; local_encode_reservation := λ _, "reservation";
  local_encode_release := λ _, ""; local_encode_virtual_nodes := λ _, "";
  local_encode_error := λ _, "" |}.

#[local] Instance clients_json : ClientJson := {|
  marshal_request := λ _, "chunk";
  unmarshal_node_groups := read_as "groups" groups1;
  unmarshal_reservation := read_as "reservation" (reservationResponseFromCR resv1);
  unmarshal_reservations := λ _, Fail (errors_New "EOF");
  unmarshal_release := λ _, Fail (errors_New "EOF");
  unmarshal_virtual_nodes := λ _, Fail (errors_New "EOF") |}.

Definition local1 : LocalServer := mkLocalServer "liqo" false false ai_init None.
Definition stack1 : Stack := mkStack local1 (mkBrokerState m9 gw1).
Definition grpc1 : GrpcServer := mkGrpcServer true None 0.
Definition base1 : string := "http://127.0.0.1:9000".

Lemma groups1_one : ∃ g, nl_NodeGroups groups1 = [g] ∧ chunk_request g = chunk1 ∧ rq_ChunkCount chunk1 = 1.
Proof. eexists. split_and!; reflexivity. Qed.

Lemma read_as_Ok {A} body (a : A) b x : read_as body a b = Ok x → x = a.
Proof. unfold read_as. case_decide; [congruence|done]. Qed.

Lemma json_faithful1 : json_faithful.
Proof.
  intros body resp group ->%read_as_Ok Hg. destruct groups1_one as (g & El & Eg & _).
  rewrite El in Hg. apply list_elem_of_singleton in Hg as ->. unfold delivered.
  change (local_decode_reservation _) with (Ok chunk1). rewrite Eg. exact eq_refl.
Qed.


(** *** The path run on a network that loses nothing *)
Definition world : Type := mem * Gateway.

#[local] Instance run_network : Outside (E:=http_call) (R:=http_answer) world := {|
  outside := λ e v,
    match e return http_answer e * world with
    | HttpDo r =>
        let path := default "" (MockServices.cut_prefix (cl_baseURL client1) (hr_URL r)) in
        let '(g, out, w) := run (broker_serve srv1 v.2 (arrived cert1 path r)) v.1 in
        (match ou_Written out with
         | Some (status, body) => Answered status (ou_Header out) body
         | None => SendFailed "EOF"
         end, (w, g))
    | Sleep _ => (None, v)
    | CtxErr => (false, v)
    end |}.

#[local] Instance run_broker : Outside (E:=local_call) (R:=local_answer) world := {|
  outside := λ e v,
    match e return local_answer e * world with
    | BrokerNodeGroups =>
        let '(x, _, v) := erun (GetNodeGroups client1 unmarshal_node_groups) w9 v in (x, v)
    | BrokerPostReservation id req =>
        let '(x, _, v) := erun (PostReservation client1 id (Some (Ok (marshal_request req)))
                                  unmarshal_reservation) w9 v in (x, v)
    | BrokerDeleteReservation id => (inr (plain_error ""), v)
    | BrainCall CatalogListOffers => (Ok [], v)
    | BrainCall OwnReservations => (inl [], v)
    | BrainCall (Brain.Measure _) => (∅, v)
    | ProbePick _ => (mkProbeResult "" ∅, v)
    end |}.

#[local] Instance run_loopback : Outside (E:=http_call) (R:=http_answer) (LocalServer * world) := {|
  outside := λ e v,
    match e return http_answer e * (LocalServer * world) with
    | HttpDo r =>
        let tgt := default "" (MockServices.cut_prefix base1 (hr_URL r)) in
        let '(l, out, _, _, b) := erun (local_mux v.1 None (local_arrived tgt r)) w9 v.2 in
        (Answered (lo_Status out) "" (lo_Body out), (l, b))
    | Sleep _ => (None, v)
    | CtxErr => (false, v)
    end |}.

#[local] Instance run_agent : Outside (E:=agent_call) (R:=agent_answer) (LocalServer * world) := {|
  outside := λ e v,
    match e return agent_answer e * (LocalServer * world) with
    | AgentNodeGroups bound =>
        let '(x, _, v) := erun (loopback_GetNodeGroupsWithin base1 bound unmarshal_node_groups) w9 v in
        (x, v)
    | AgentPostReservation id req =>
        let '(x, _, v) := erun (loopback_PostReservation base1 id (Some (Ok (marshal_request req)))
                                  unmarshal_reservation) w9 v in (x, v)
    | AgentDeleteReservation _ => (inr (plain_error ""), v)
    | AgentVirtualNodes => (inl [], v)
    end |}.

(** Scaling the provider's group by two fills it; a third chunk is refused. *)
Definition group1 : string := match nl_NodeGroups groups1 with g :: _ => ng_ID g | [] => "" end.
Definition scale1 (delta : Z) : option Code * Z :=
  let '(o, _, v) := erun (NodeGroupIncreaseSize grpc1 group1 delta) w9 (local1, (w9, gw1)) in
  (gs_Code <$> o,
   match objs (mem_store v.2.1) !! cadv_key "broker" "prov" with
   | Some (OCadv c) => ca_AvailableChunks (cr_status c)
   | _ => -1
   end).

Example scale_runs : scale1 2 = (None, 0) ∧ scale1 3 = (Some CodeAlreadyExists, 0).
Proof. split; vm_compute; reflexivity. Qed.
End ScaleUpWitness.
