(* ===== verification/ScaleDown.v ===== *)
(** * Scaling down, from the Cluster Autoscaler to the Broker's books

    [NodeGroupDeleteNodes] run over the whole call path of [Stack]: which
    Reservations one scale-down RPC releases in the Broker's store. *)
From stdpp Require Import base gmap strings list.
From Stdlib Require Import ZArith Lia.
From S2P Require Import Prelude GoText ApiTypes ConsumerTypes Kube MemServer Effects Chunk Wire.
From S2P Require Import AgentClient Catalog Registry Placement Prober Selection ReservationApi.
From S2P Require Import InstructionsApi AdvertisementApi Brain LocalApi GrpcServer LoopbackClient.
From S2P Require Import ReservationController Housekeeping BrokerInvariant BrokerSafety Ledger.
From S2P Require Import ReservationProofs GrpcProofs Gateway GatewayProofs EndToEnd LocalRoutes Stack.
From S2P Require Import ScaleUp.
Import GoFloat.

Open Scope Z_scope.

(** ** Releases *)
Section Releases.
Context `{Platform} (s : Server) (cid : string).

(** Nothing under [id] holds chunks any more. *)
Definition let_go (id : string) (m : store) : Prop :=
  ∀ r, objs m !! resv_key (sv_namespace s) id = Some (OResv r) →
    release_skips (rt_Phase (cr_status r)) = true.

(** One release of the consumer's Reservation [id]. *)
Definition release_of (id : string) (m m' : store) : Prop :=
  ∃ resv, objs m !! resv_key (sv_namespace s) id = Some (OResv resv) ∧
    rs_ConsumerClusterID (cr_spec resv) = cid ∧
    release_skips (rt_Phase (cr_status resv)) = false ∧ released_store resv m m'.

(** [m'] is [m] after the releases of [ids], in that order, the books balanced
    after each. *)
Inductive releases : list string → store → store → Prop :=
| releases_nil m : releases [] m m
| releases_cons id ids m m1 m' :
    release_of id m m1 → balanced m1 → releases ids m1 m' → releases (id :: ids) m m'.

Definition settled (m : store) : Prop := balanced m ∧ marks_settled m.

Lemma stored_key id (m : store) resv :
  store_wf m → objs m !! resv_key (sv_namespace s) id = Some (OResv resv) →
  cr_key resv = resv_key (sv_namespace s) id.
Proof. intros Hwf Hl. by destruct (wf_key _ Hwf _ _ Hl) as [<- _]. Qed.

(** A release touches no other Reservation. *)
Lemma release_of_others id m m' k r :
  store_wf m → store_wf m' → release_of id m m' → k ≠ resv_key (sv_namespace s) id →
  objs m' !! k = Some (OResv r) → objs m !! k = Some (OResv r).
Proof.
  intros Hwf Hwf' (resv & Hl & _ & _ & Hrel) Hk Hr.
  rewrite <-(rl_frame _ _ _ Hrel); [done|by rewrite (stored_key id m resv)|].
  intros ->. destruct (wf_key _ Hwf' _ _ Hr) as [Hkey _]. discriminate Hkey.
Qed.

Lemma release_of_lets_go id m m' : store_wf m → release_of id m m' → let_go id m'.
Proof.
  intros Hwf (resv & Hl & _ & _ & Hrel) r Hr. rewrite <-(stored_key id m resv Hwf Hl) in Hr.
  by destruct (rl_after _ _ _ Hrel r Hr) as [_ ->].
Qed.

Lemma release_of_keeps id id' m m' :
  store_wf m → store_wf m' → release_of id m m' → let_go id' m → let_go id' m'.
Proof.
  intros Hwf Hwf' Hrel Hgo. destruct (decide (id' = id)) as [->|Hne].
  - exact (release_of_lets_go id m m' Hwf Hrel).
  - intros r Hr. eapply Hgo, (release_of_others id m m'); [done..| |done]. congruence.
Qed.

Lemma release_of_settled id m m' :
  store_wf m → store_wf m' → release_of id m m' → marks_settled m → marks_settled m'.
Proof.
  intros Hwf Hwf' Hrel Hs k r Hr Hm.
  destruct (decide (k = resv_key (sv_namespace s) id)) as [->|Hk].
  - exact (release_of_lets_go id m m' Hwf Hrel r Hr).
  - eapply Hs; [exact (release_of_others id m m' k r Hwf Hwf' Hrel Hk Hr)|done].
Qed.

(** ** One DELETE call *)
Section Delete.
Context (c : Client) (cert : ConnectionState) (id : string) (m0 : store) (reg : ConsumerRegistry).
Context `{!RateLimit} `{!BrokerJson} `{GoRuntime} `{Json}.
Hypothesis Hcert : ExtractClusterID (Some cert) = Ok cid.
Hypothesis Hid : id ≠ "".
Hypothesis Hwf0 : store_wf m0.

(** The Broker before or after the one release of the call. *)
Definition letting_go (v : BrokerState) : Prop :=
  gw_registry (bs_gateway v) = reg ∧ settled (bs_store v) ∧
  (bs_store v = m0 ∨ release_of id m0 (bs_store v)).

(** The repetition of a release finds nothing to do, and a good answer means
    that nothing is held. *)
Lemma release_step m x m' :
  m = m0 ∨ release_of id m0 m → release_outcome s cid id "" m x m' →
  (m' = m0 ∨ release_of id m0 m') ∧ (m' = m ∨ release_of id m m') ∧
  (∀ status b, x = JSON status b → let_go id m').
Proof.
  intros Hm Ho. assert (m' = m → (∀ status b, x = JSON status b → let_go id m) →
    (m' = m0 ∨ release_of id m0 m') ∧ (m' = m ∨ release_of id m m') ∧
    (∀ status b, x = JSON status b → let_go id m')) as Hsame.
  { intros -> Hx. split_and!; [done|by left|done]. }
  destruct Ho as [| | | |resv n Hl Hc Hq Hn Hs|resv n m' Hl Hc Hq Hn Hs Hrel]; try by apply Hsame.
  - apply Hsame; [done|]. intros status b _ r Hr. rewrite Hl in Hr. by simplify_eq.
  - assert (release_of id m m') as Hof by (exists resv; by split_and!).
    destruct Hm as [->|Hdone].
    + split_and!; [by right..|]. intros status b _. exact (release_of_lets_go id m0 m' Hwf0 Hof).
    + exfalso. pose proof (release_of_lets_go id m0 m Hwf0 Hdone resv Hl). congruence.
Qed.

Lemma delete_serve rid v out v' :
  let r := mkHttpRequest MethodDelete (resolve c ("/api/v1/reservations/" +:+ PathEscape id)) rid None None in
  letting_go v →
  runs reliable (broker_serve s (bs_gateway v)
    (arrived cert ("/api/v1/reservations/" +:+ PathEscape id) r)) (bs_store v)
    (bs_gateway v', out) (bs_store v') →
  letting_go v' ∧
  (∀ status b, ou_Written out = Some (status, b) → status < 400 → let_go id (bs_store v')).
Proof.
  intros r (Hreg & [Hb Hset] & Hon) Hrun.
  set (P := λ (_ : string) (x0 : Gateway * HttpOutcome) m', ∃ x,
    gw_registry x0.1 = reg ∧ ou_Written x0.2 = write encode_release x ∧
    (balanced m' ∧ release_outcome s cid id "" (bs_store v) x m')).
  assert (wp reliable (broker_serve s (bs_gateway v)
      (arrived cert ("/api/v1/reservations/" +:+ PathEscape id) r))
    (λ x m', (m' = bs_store v ∧ gw_registry x.1 = reg ∧ status_of x.2 = Some StatusTooManyRequests) ∨
             ∃ rid' x0, P rid' x0 m' ∧ relayed x0 x rid') (bs_store v)) as Hwp.
  { eapply wp_mono; [|apply (wp_passed reliable (mux s) (bs_gateway v)
      (arrived cert ("/api/v1/reservations/" +:+ PathEscape id) r) (bs_store v) cid P
      clock_still_reliable Hcert)].
    - intros x m' [(-> & E & _ & Est)|Hr]; [left|by right]. by rewrite <-Hreg.
    - intros rid' l _. unfold mux.
      change (hq_Path _) with ("/api/v1/reservations/" +:+ PathEscape id).
      rewrite segments_reservation. cbv zeta. rewrite (decide_False (P := id = "")) by done.
      change (hq_ClusterID _) with cid. change (values_Get (hq_Query _) "chunks") with "".
      change (is_get _) with false. rewrite (bool_decide_true (hq_Method _ = "DELETE")) by done. unfold answer.
      apply wp_bind, wp_handleReservationRelease; [apply Hb..|]. intros x m' Ho Hbal.
      apply wp_ret. exists x. split_and!; [done..|by apply Hbal|done]. }
  pose proof (wp_runs _ _ _ _ _ _ Hwp Hrun) as [(Em & Er & Est)|(rid' & x0 & (x & Er & Ew & Hb' & Ho) & Hrel)].
  - split; [split_and!; [done|by rewrite Em..]|]. intros status b Ew Hst.
    cbn [snd] in Est. unfold status_of in Est. rewrite Ew in Est. injection Est as ->. discriminate Hst.
  - destruct (release_step _ _ _ Hon Ho) as (Hon' & Hstep & Hgo). destruct Hrel as (Er' & _ & _ & Ew').
    cbn [fst snd] in *. split.
    + split_and!; [by rewrite Er', Er| |done]. split; [done|]. destruct Hstep as [->|Hof]; [done|].
      by eapply release_of_settled; [apply Hb|apply Hb'|..].
    + intros status b E Hst. rewrite Ew in Ew'. destruct x as [st b'|st e]; [by eapply Hgo|].
      simpl in Ew'. rewrite E in Ew'. simplify_eq. inversion Ho; subst; vm_compute in Hst; discriminate.
Qed.

Lemma delete_exchange {A} (decode : string → Res A) rid :
  exchange_keeps (network s (cl_baseURL c) cert) letting_go (λ v, let_go id (bs_store v)) decode
    (mkHttpRequest MethodDelete (resolve c ("/api/v1/reservations/" +:+ PathEscape id)) rid None None).
Proof.
  intros v x v' Hv [[-> [err Hx]]|(path & out & Hurl & Hrun & Hx)].
  { split; [done|]. by destruct Hx as [-> | ->]; intros [? _]. }
  cbn [hr_URL] in Hurl. unfold resolve in Hurl. cbn [String.prefix] in Hurl.
  apply (inj (String.append _)) in Hurl as <-.
  destruct (delete_serve rid v out v' Hv Hrun) as [Hv' Hgo]. split; [done|].
  destruct Hx as [(status & b & Ew & ->)|[err ->]]; [|by intros [? _]].
  intros Ha. apply (Hgo _ _ Ew). by eapply accepted_status.
Qed.

Lemma ewp_DeleteReservation {A} C (decode : string → Res A) m v :
  letting_go v →
  ewp C (network s (cl_baseURL c) cert) (DeleteReservation c id decode)
    (λ o _ v', letting_go v' ∧ (call_accepted o → let_go id (bs_store v'))) m v.
Proof.
  intros Hv. unfold DeleteReservation. rewrite decide_False by done.
  apply (ewp_do_keep C (network s (cl_baseURL c) cert) letting_go (λ v, let_go id (bs_store v)));
    [apply network_idle| |done].
  intros rid. apply delete_exchange.
Qed.
End Delete.
End Releases.

(** ** The whole path *)
Section ScaleDown.
Context `{Platform} `{!RateLimit} `{!BrokerJson} `{GoRuntime} `{!LocalJson} `{Json} `{!ClientJson}.
Context (s : Server) (c : Client) (cert : ConnectionState) (base : string).
Context (cid : string) (reg : ConsumerRegistry).
Hypothesis Hcert : ExtractClusterID (Some cert) = Ok cid.

Definition quiet (v : Stack) : Prop :=
  gw_registry (bs_gateway (st_broker v)) = reg ∧ settled (bs_store (st_broker v)).

(** One release asked of the agent. *)
Lemma agent_delete id v x v' :
  id ≠ "" → quiet v → agent_link s c cert base v (AgentDeleteReservation id) x v' →
  let m := bs_store (st_broker v) in
  let m' := bs_store (st_broker v') in
  quiet v' ∧ (m' = m ∨ release_of s cid id m m') ∧ ∀ a, x = inl a → let_go s id m'.
Proof.
  intros Hid [Hreg Hset] Hx m m'. set (I := letting_go s cid id m reg).
  assert (I (st_broker v)) as HI by (split_and!; [done..|by left]).
  assert (I (st_broker v') ∧ ∀ a, x = inl a → let_go s id m') as [(Hreg' & Hset' & Hm) Hgo];
    [|by split_and!].
  revert Hx. cbn [agent_link]. apply (answered_by_ewp _ _ (λ x v', I (st_broker v') ∧
    ∀ a, x = inl a → let_go s id (bs_store (st_broker v')))). intros m2.
  unfold loopback_DeleteReservation. rewrite decide_False by done.
  apply ewp_loopback_do. intros rid y v1 r [[-> [err Hy]]|(tgt & loc & l & out & task & ai & Hu & Hs & _ & Hy)].
  { split; [done|]. by destruct Hy as [-> | ->]. }
  apply (inj (String.append _)) in Hu as <-.
  assert (local_mux (st_local v) loc (local_arrived ("/local/reservations/" +:+ PathEscape id) r) =
          serve_delete (st_local v) id) as E by (by apply mux_delete).
  rewrite E in Hs. apply (answered_by_ewp _ _ (λ x v', I v' ∧
    (lo_Status x.1.2 < 400 → let_go s id (bs_store v')))) in Hs as [Hv1 Hg].
  - split; [done|]. intros a. destruct Hy as [-> |[err ->]]; [|done].
    intros [Hlt _]%loopback_result_ok. by apply Hg.
  - intros m3. unfold serve_delete, localReservationDelete. rewrite decide_False by done.
    apply ewp_bind, ewp_bind. intros o v2 Ho.
    apply (answered_by_ewp _ _ (λ o v', I v' ∧ (call_accepted o → let_go s id (bs_store v')))) in Ho
      as [Hv2 Hg].
    2: { intros m4. apply ewp_DeleteReservation; try done. apply Hset. }
    apply ewp_ret, ewp_ret, ewp_ret. split; [done|]. intros Hlt. apply Hg.
    destruct o as [resp|err]; [done|]. exact (local_create_status None err local_encode_release Hlt).
Qed.

(** Listing the virtual nodes does not reach the Broker. *)
Lemma agent_virtual_nodes v x v' :
  agent_link s c cert base v AgentVirtualNodes x v' → calm (st_broker v) (st_broker v').
Proof.
  cbn [agent_link]. apply (answered_by_ewp _ _ (λ _ v', calm (st_broker v) (st_broker v'))). intros m.
  apply ewp_loopback_do. intros rid y v1 r [[-> _]|(tgt & loc & l & out & task & ai & Hu & Hs & _)]; [done|].
  apply (inj (String.append _)) in Hu as <-.
  assert (local_mux (st_local v) loc (local_arrived "/local/virtual-nodes" r) =
          serve_virtual_nodes (st_local v)) as E by done.
  rewrite E in Hs. revert Hs. apply (answered_by_ewp _ _ (λ _ v', calm (st_broker v) v')). intros m1.
  apply (ewp_background_keep _ _ read_call); [by intros; eapply read_call_calm| |done].
  unfold serve_virtual_nodes. apply background_bind; [|done]. apply background_api.
  unfold handleVirtualNodes, list_scoped. apply spares_bind; [|done].
  by destruct (decide (ls_ns (st_local v) = "")).
Qed.

(** What releasing [ids] one by one left; [rel] are those it released. *)
Definition shrunk (ids : list string) (o : option Status) (m m' : store) : Prop :=
  ∃ rel, rel `sublist_of` ids ∧ releases s cid rel m m' ∧
    (o = None → ∀ id, id ∈ ids → let_go s id m').

Lemma releases_let_go ids id m m' :
  store_wf m → releases s cid ids m m' → let_go s id m → let_go s id m'.
Proof.
  intros Hwf Hr. revert Hwf. induction Hr as [|i ids m m1 m' Hof Hb Hr IH]; [done|].
  intros Hwf Hgo. apply IH; [apply Hb|]. by eapply (release_of_keeps s cid i id m m1); [|apply Hb|..].
Qed.

Lemma ewp_release_loop C ids m v :
  "" ∉ ids → quiet v →
  ewp C (agent_link s c cert base) (GrpcServer.release_loop ids)
    (λ o _ v', quiet v' ∧ shrunk ids o (bs_store (st_broker v)) (bs_store (st_broker v'))) m v.
Proof.
  revert m v. induction ids as [|id ids IH]; intros m v Hne Hv; cbn [GrpcServer.release_loop].
  - split; [done|]. exists []. split_and!; [done|constructor|]. by intros _ id ?%elem_of_nil.
  - apply not_elem_of_cons in Hne as [Hid Hne]. apply ewp_bind. intros x v1 Hx. apply ewp_ret.
    destruct (agent_delete id v x v1 (not_eq_sym Hid) Hv Hx) as (Hv1 & Hm & Hgo).
    destruct x as [resp|err].
    + eapply ewp_mono; [|by apply IH]. intros o m2 v2 [Hv2 (rel & Hsub & Hr & Ho)]. split; [done|].
      assert (o = None → ∀ i, i ∈ id :: ids → let_go s i (bs_store (st_broker v2))) as Hall.
      { intros E i [->|Hi]%elem_of_cons; [|by apply Ho].
        eapply releases_let_go; [apply Hv1|done|by eapply Hgo]. }
      destruct Hm as [Em|Hof].
      * rewrite Em in Hr. exists rel. split_and!; [by constructor|done|done].
      * exists (id :: rel). split_and!; [by constructor| |done].
        econstructor; [done|apply Hv1|done].
    + apply ewp_ret. split; [done|]. destruct Hm as [Em|Hof].
      * exists []. split_and!; [apply sublist_nil_l|rewrite Em; constructor|done].
      * exists [id]. split_and!; [constructor; apply sublist_nil_l| |done].
        econstructor; [done|apply Hv1|constructor].
Qed.

End ScaleDown.

(** ** A concrete scale-down *)
Module ScaleDownWitness.
Import SafetyWitness ReservationWitness EndToEndWitness ScaleUpWitness.
#[local] Existing Instance MilliPlatform.platform.
#[local] Existing Instance EndToEndWitness.runtime.
#[local] Existing Instance EndToEndWitness.no_json.
#[local] Existing Instance EndToEndWitness.countdown.
#[local] Existing Instance ScaleUpWitness.wire_json.
#[local] Existing Instance ScaleUpWitness.loopback_json.
#[local] Existing Instance ScaleUpWitness.clients_json.

#[local] Instance runtime_laws : RuntimeLaws.
Proof. by constructor. Qed.

End ScaleDownWitness.
