(* ===== verification/Dashboard.v ===== *)
(** * The Broker's dashboard (internal/broker/api/dashboard.go)

    The read-only web surface on a plain HTTP listener of its own: an aggregate
    view of every stored object and of the consumer registry.  The embedded page
    is a parameter, as is the JSON text of the view ([DashboardPage]); response
    headers other than the request ID are left out. *)
From stdpp Require Import base gmap strings list.
From Stdlib Require Import ZArith Lia.
From S2P Require Import Prelude GoText ApiTypes ConsumerTypes Kube Chunk Wire Registry Placement.
From S2P Require Import ReservationApi AdvertisementApi Gateway.
Import GoFloat.

Open Scope Z_scope.

Record ChunkTypeCapacity := mkTypeCapacity {
  tc_TotalChunks : Z;              (* int32, as below *)
  tc_ReservedChunks : Z;
  tc_AvailableChunks : Z
}.

Definition capacity_zero : ChunkTypeCapacity := mkTypeCapacity 0 0 0.

Record ConsumerView := mkConsumerView {
  cv_ClusterID : string;
  cv_LiqoClusterID : string;
  cv_Placement : string;
  cv_Region : string;
  cv_City : string;
  cv_ChosenProvider : string;
  cv_MeasuredRTT : option float64;
  cv_DecidedBy : string;
  cv_LastSeen : Time
}.

Record DashboardInstructionView := mkInstructionRow {
  di_ID : string;
  di_Kind : ProviderInstructionKind + ReservationInstructionKind;
  di_ReservationID : string;
  di_TargetClusterID : string;
  di_ChunkCount : Z;
  di_LastChunk : bool;
  di_Enforced : bool;
  di_Attempts : Z;
  di_IssuedAt : option Time;
  di_LastDeliveredAt : option Time;
  di_LastUpdateTime : option Time;
  di_ExpiresAt : option Time;
  di_Message : string;
  di_ConsumerClusterID : string;
  di_ConsumerLiqoClusterID : string;
  di_ProviderClusterID : string;
  di_ResourceSliceNames : list string
}.

(** One row of the consumer registry. *)
Definition consumer_view (e : ConsumerEntry) : ConsumerView :=
  mkConsumerView (ce_ClusterID e) (ce_LiqoClusterID e) (pp_Type (ce_Placement e)) (ce_Region e)
    (ce_City e) (ce_ChosenProvider e) (ce_MeasuredLatencies e !! ce_ChosenProvider e)
    (ce_DecidedBy e) (ce_LastSeen e).

Section Dashboard.
Context `{Platform} `{GoRuntime}.

Record CapacitySummary := mkCapacity {
  cy_TotalChunks : Z;
  cy_ReservedChunks : Z;
  cy_AvailableChunks : Z;
  cy_ProviderCount : Z;
  cy_AvailableProviderCount : Z;
  cy_ByChunkType : gmap string ChunkTypeCapacity;
  cy_ChunkSizes : gmap string ResourceList
}.

Record DashboardReservationView := mkReservationRow {
  dr_Response : ReservationResponse;
  dr_TerminatedAt : option Time
}.

Record Overview := mkOverview {
  ov_GeneratedAt : Time;
  ov_Namespace : string;
  ov_Capacity : CapacitySummary;
  ov_Advertisements : list AdvertisementSnapshot;
  ov_Reservations : list DashboardReservationView;
  ov_ProviderInstructions : list DashboardInstructionView;
  ov_ReservationInstructions : list DashboardInstructionView;
  ov_Consumers : list ConsumerView
}.

(** ** Rows *)
Definition dashboardReservationView (r : Reservation) : DashboardReservationView :=
  mkReservationRow (reservationResponseFromCR r) (rt_TerminatedAt (cr_status r)).

Definition dashboardViewFromProviderInstruction (pi : ProviderInstruction) :
    DashboardInstructionView :=
  let sp := cr_spec pi in
  let st := cr_status pi in
  mkInstructionRow (cr_Name pi) (inl (pi_Kind sp)) (pi_ReservationID sp) (pi_TargetClusterID sp)
    (pi_ChunkCount sp) (pi_LastChunk sp) (is_Enforced st) (is_Attempts st) (is_IssuedAt st)
    (is_LastDeliveredAt st) (is_LastUpdateTime st) (pi_ExpiresAt sp) (is_Message st)
    (pi_ConsumerClusterID sp) (pi_ConsumerLiqoClusterID sp) "" [].

Definition dashboardViewFromReservationInstruction (ri : ReservationInstruction) :
    DashboardInstructionView :=
  let sp := cr_spec ri in
  let st := cr_status ri in
  mkInstructionRow (cr_Name ri) (inr (ri_Kind sp)) (ri_ReservationID sp) (ri_TargetClusterID sp)
    (ri_ChunkCount sp) (ri_LastChunk sp) (is_Enforced st) (is_Attempts st) (is_IssuedAt st)
    (is_LastDeliveredAt st) (is_LastUpdateTime st) (ri_ExpiresAt sp) (is_Message st)
    "" "" (ri_ProviderClusterID sp) (ri_ResourceSliceNames sp).

(** The advertisement with its price; [i] is its place in the list. *)
Definition priced_snapshot (s : Server) (i : nat) (cadv : ClusterAdvertisement) :
    AdvertisementSnapshot :=
  let snap := advertisementSnapshotFromCR cadv in
  let '(cost, ok) := perChunkCostWith i (sv_sizer s) cadv in
  mkSnapshot (as_ClusterID snap) (as_LiqoClusterID snap) (as_Resources snap) (as_Topology snap)
    (as_UnitPrices snap) (if (ok : bool) then Some cost else as_CostPerChunk snap)
    (as_CarbonIntensity snap) (as_CarbonForecast snap) (as_CarbonWeighted snap)
    (as_CapacityScalePercent snap) (as_CapacityFixed snap) (as_Renewable snap)
    (as_ProbeEndpoint snap) (as_LiqoLabels snap) (as_LiqoTaints snap) (as_ChunkCount snap)
    (as_ReservedChunks snap) (as_AvailableChunks snap) (as_LastSeen snap) (as_Available snap).

(** ** Totals *)

(** [resource.MustParse] of "1000" and "1000Gi". *)
Definition chunkSizes (s : Server) : gmap string ResourceList :=
  let standardRef : ResourceList := <[ResourceCPU := NewQuantity 1000]>
    (<[ResourceMemory := NewQuantity (1000 * 1024 * 1024 * 1024)]> ∅) in
  let gpuRef : ResourceList := <[gpuResourceName := NewQuantity 1000]> standardRef in
  let set := foldl (λ out r, <[cr_Type r := cr_PerChunk r]> out) in
  set (set ∅ (sv_sizer s standardRef)) (sv_sizer s gpuRef).

Definition add_capacity (b : ChunkTypeCapacity) (st : ClusterAdvertisementStatus) :
    ChunkTypeCapacity :=
  mkTypeCapacity (GoInt.add32 (tc_TotalChunks b) (ca_TotalChunks st))
    (GoInt.add32 (tc_ReservedChunks b) (ca_ReservedChunks st))
    (GoInt.add32 (tc_AvailableChunks b) (ca_AvailableChunks st)).

(** One iteration over the advertisements. *)
Definition capacity_step (c : CapacitySummary) (cadv : ClusterAdvertisement) : CapacitySummary :=
  let st := cr_status cadv in
  let key := cs_ClusterType (cr_spec cadv) in
  mkCapacity (GoInt.add32 (cy_TotalChunks c) (ca_TotalChunks st))
    (GoInt.add32 (cy_ReservedChunks c) (ca_ReservedChunks st))
    (GoInt.add32 (cy_AvailableChunks c) (ca_AvailableChunks st))
    (cy_ProviderCount c + 1)
    (if ca_Available st then cy_AvailableProviderCount c + 1 else cy_AvailableProviderCount c)
    (<[key := add_capacity (default capacity_zero (cy_ByChunkType c !! key)) st]>
       (cy_ByChunkType c))
    (cy_ChunkSizes c).

Definition capacity_panel (s : Server) (cadvs : list ClusterAdvertisement) : CapacitySummary :=
  foldl capacity_step (mkCapacity 0 0 0 0 0 ∅ (chunkSizes s)) cadvs.

(** The registry's entries as a Go range yields them. *)
Definition registry_entries (reg : ConsumerRegistry) : list ConsumerEntry :=
  omap (λ k, reg !! k) (range_keys 0 (map_to_list reg).*1).

Definition by_key {A} (key : A → string) : list A → list A :=
  GoSort.SliceStable (λ a b, GoStr.str_lt (key a) (key b)).

(** ** GET /api/v1/overview *)
Definition buildOverview (s : Server) (reg : ConsumerRegistry) : prog (Res Overview) :=
  let ns := sv_namespace s in
  t ← now;
  cadvs ← list_in (S:=ClusterAdvertisementSpec) (T:=ClusterAdvertisementStatus) ns;
  match cadvs with
  | Fail e => mret (Fail (wrapf "list ClusterAdvertisement" e))
  | Ok cadvs =>
      resvs ← list_in (S:=ReservationSpec) (T:=ReservationStatus) ns;
      match resvs with
      | Fail e => mret (Fail (wrapf "list Reservation" e))
      | Ok resvs =>
          pis ← list_in (S:=ProviderInstructionSpec) (T:=InstructionStatus) ns;
          match pis with
          | Fail e => mret (Fail (wrapf "list ProviderInstruction" e))
          | Ok pis =>
              ris ← list_in (S:=ReservationInstructionSpec) (T:=InstructionStatus) ns;
              match ris with
              | Fail e => mret (Fail (wrapf "list ReservationInstruction" e))
              | Ok ris =>
                  mret (Ok (mkOverview t ns (capacity_panel s cadvs)
                    (by_key as_ClusterID (imap (priced_snapshot s) cadvs))
                    (by_key (λ v, rr_ReservationID (dr_Response v))
                       (dashboardReservationView <$> resvs))
                    (by_key di_ID (dashboardViewFromProviderInstruction <$> pis))
                    (by_key di_ID (dashboardViewFromReservationInstruction <$> ris))
                    (consumer_view <$> Registry.Snapshot (registry_entries reg))))
              end
          end
      end
  end.

Definition handleOverview (s : Server) (reg : ConsumerRegistry) (requestID : string) :
    prog (Response Overview) :=
  x ← buildOverview s reg;
  mret match x with
       | Fail _ => fail_with StatusInternalServerError ErrCodeInternalError
                     "overview read failed" requestID
       | Ok ov => JSON StatusOK ov
       end.

(** ** Routes and middleware *)
Class DashboardPage := {
  dashboardIndexHTML : string;
  encode_overview : Overview → string
}.

Context `{!RateLimit} `{!BrokerJson} `{!DashboardPage}.

(** The pattern "GET /" matches every other path, so another method is answered
    405 on all of them. *)
Definition DashboardHandler (s : Server) : Handler := λ g r,
  let rid := hq_RequestID r in
  let reply status text := mret (g, mkHttpOutcome rid (Some (status, text))) in
  if is_get (hq_Method r) then
    match segments (hq_Path r) with
    | ["healthz"] => reply StatusOK encode_health
    | ["api"; "v1"; "overview"] =>
        answer encode_overview g r (handleOverview s (gw_registry g) rid)
    | _ =>
        if decide (hq_Path r = "/") then reply StatusOK dashboardIndexHTML
        else reply StatusNotFound "404 page not found"
    end
  else reply StatusMethodNotAllowed "Method Not Allowed".

Definition DashboardMiddlewareChain (handler : Handler) : Handler :=
  chain handler [RecoverMiddleware; RequestIDMiddleware; LoggerMiddleware].

(** One request served on the dashboard listener. *)
Definition dashboard_serve (s : Server) : Handler := DashboardMiddlewareChain (DashboardHandler s).
End Dashboard.
