(* ===== verification/DashboardProofs.v ===== *)
(** * What the dashboard shows, and what it cannot show *)
From stdpp Require Import base gmap strings list.
From Stdlib Require Import ZArith Lia.
From S2P Require Import Prelude GoText ApiTypes ConsumerTypes Kube MemServer Chunk Wire Registry.
From S2P Require Import Placement PlacementProofs ReservationApi AdvertisementApi Gateway Dashboard.
From S2P Require Import ReservationController BrokerInvariant BrokerSafety Ledger ReservationProofs.
From S2P Require Import EndToEnd.
Import GoFloat.

Open Scope Z_scope.

(** ** Programs that read some kinds only *)
Section Blind.
Context `{Platform} (K : Kind → Prop).

Fixpoint reads_only {A} (p : prog A) : Prop :=
  match p with
  | Ret _ => True
  | Call r k =>
      match r with
      | Get (kd, _, _) | ListReq kd _ | ListAll kd => K kd
      | Now | NewUUID => True
      | _ => False
      end ∧ ∀ x, reads_only (k x)
  end.

Lemma reads_only_bind {A B} (p : prog A) (f : A → prog B) :
  reads_only p → (∀ a, reads_only (f a)) → reads_only (p ≫= f).
Proof.
  intros Hp Hf. induction p as [a|r k IH]; [apply Hf|]. destruct Hp as [Hr Hk].
  split; [done|]. intros x. by apply IH.
Qed.

Lemma filter_agree (P : Key * Obj → Prop) `{!∀ p, Decision (P p)} (os os' : gmap Key Obj) :
  (∀ k o, P (k, o) → os !! k = os' !! k) → filter P os = filter P os'.
Proof.
  intros Hk. apply map_eq. intros k. apply option_eq. intros o. rewrite !map_lookup_filter_Some.
  split; intros [Hl HP]; split; try done; by rewrite <-Hl, (Hk k o HP).
Qed.

Lemma serves_agree m m2 r x m' :
  match r with
  | Get (kd, _, _) | ListReq kd _ | ListAll kd => K kd
  | Now | NewUUID => True
  | _ => False
  end →
  (∀ k, K k.1.1 → objs m !! k = objs m2 !! k) → serves m r x m' → m' = m ∧ serves m2 r x m2.
Proof.
  intros Hr Hm. destruct r as [[[kd ns] n]|kd ns|kd| | | | | | |]; try done; simpl.
  - intros [-> Hx]. split; [done|]. split; [done|]. by rewrite <-Hm.
  - intros [-> Hx]. split; [done|]. split; [done|]. destruct x as [l|]; [|done].
    unfold list_of. rewrite (filter_agree _ (objs m2) (objs m)); [done|].
    intros [[kd' ns'] n'] o [= -> ->]. symmetry. by apply Hm.
  - intros [-> Hx]. split; [done|]. split; [done|]. destruct x as [l|]; [|done].
    unfold list_all_of. rewrite (filter_agree _ (objs m2) (objs m)); [done|].
    intros [[kd' ns'] n'] o Hk. simpl in Hk. subst kd'. symmetry. by apply Hm.
Qed.

(** Such a program writes nothing, and stores that agree on those kinds can
    give it the same answers. *)
Lemma wp_reads_only {A} (p : prog A) m m2 :
  reads_only p → (∀ k, K k.1.1 → objs m !! k = objs m2 !! k) →
  wp serves p (λ a m', m' = m ∧ runs serves p m2 a m2) m.
Proof.
  intros Hp Hm. induction p as [a|r k IH]; [done|]. destruct Hp as [Hr Hk]. intros x m' Hs.
  destruct (serves_agree m m2 r x m' Hr Hm Hs) as [-> Hs2].
  eapply wp_mono; [|by apply IH]. intros a m3 [-> Hrun]. split; [done|]. by exists x, m2.
Qed.
End Blind.

(** ** Totals *)
Section Totals.
Context `{Platform}.

Definition total_of (f : ClusterAdvertisementStatus → Z) (l : list ClusterAdvertisement) : Z :=
  foldr (λ c acc, f (cr_status c) + acc) 0 l.

Lemma total_of_cons f c l : total_of f (c :: l) = f (cr_status c) + total_of f l.
Proof. done. Qed.

Lemma total_of_perm f l l' : l ≡ₚ l' → total_of f l = total_of f l'.
Proof. unfold total_of. induction 1; simpl in *; lia. Qed.

Lemma total_of_nonneg f l : Forall (λ c, 0 ≤ f (cr_status c)) l → 0 ≤ total_of f l.
Proof. unfold total_of. induction 1; simpl in *; lia. Qed.

Lemma total_of_filter_le f (P : ClusterAdvertisement → Prop) `{!∀ c, Decision (P c)} l :
  Forall (λ c, 0 ≤ f (cr_status c)) l → total_of f (filter P l) ≤ total_of f l.
Proof.
  induction 1 as [|c l Hc _ IH]; [done|]. rewrite filter_cons.
  cbv beta in Hc. case_decide; rewrite !total_of_cons; [by apply Z.add_le_mono_l|].
  etrans; [exact IH|]. lia.
Qed.

(** 32-bit sums that stay in range are exact. *)
Lemma add32_total f l a :
  Forall (λ c, 0 ≤ f (cr_status c)) l → 0 ≤ a → a + total_of f l ≤ GoInt.int32_max →
  foldl (λ b c, GoInt.add32 b (f (cr_status c))) a l = a + total_of f l.
Proof.
  intros Hl. revert a. induction Hl as [|c l Hc Hl IH]; intros a Ha Hb; simpl in *; [lia|].
  pose proof (total_of_nonneg f l Hl).
  rewrite GoInt.add32_id by (unfold GoInt.is_int32, GoInt.int32_min, GoInt.int32_max in *; lia).
  rewrite IH by lia. lia.
Qed.

Definition bucket_of (l : list ClusterAdvertisement) : ChunkTypeCapacity :=
  mkTypeCapacity (total_of ca_TotalChunks l) (total_of ca_ReservedChunks l)
    (total_of ca_AvailableChunks l).

(** The counters of a list of advertisements whose sums stay in range. *)
Record in_range (l : list ClusterAdvertisement) : Prop := {
  ir_ok : Forall (λ c, cadv_ok (cr_status c)) l;
  ir_total : total_of ca_TotalChunks l ≤ GoInt.int32_max;
  ir_reserved : total_of ca_ReservedChunks l ≤ GoInt.int32_max
}.

Lemma in_range_nonneg l :
  in_range l →
  Forall (λ c, 0 ≤ ca_TotalChunks (cr_status c)) l ∧
  Forall (λ c, 0 ≤ ca_ReservedChunks (cr_status c)) l ∧
  Forall (λ c, 0 ≤ ca_AvailableChunks (cr_status c)) l ∧
  total_of ca_AvailableChunks l ≤ GoInt.int32_max.
Proof.
  intros [Hok Ht _]. split_and!; try (eapply Forall_impl; [exact Hok|];
    intros c (H1 & H2 & H3); unfold counter in *; lia).
  etrans; [|exact Ht]. clear Ht. induction Hok as [|c l (H1 & H2 & H3) _ IH]; simpl; [done|].
  unfold counter in *. lia.
Qed.

Lemma in_range_filter (P : ClusterAdvertisement → Prop) `{!∀ c, Decision (P c)} l :
  in_range l → in_range (filter P l).
Proof.
  intros Hr. destruct (in_range_nonneg l Hr) as (H1 & H2 & _). destruct Hr as [Hok Ht Hrs]. split.
  - rewrite Forall_forall in *. intros c [_ Hc]%list_elem_of_filter. by apply Hok.
  - etrans; [by apply total_of_filter_le|done].
  - etrans; [by apply total_of_filter_le|done].
Qed.

Lemma in_range_perm l l' : l ≡ₚ l' → in_range l → in_range l'.
Proof.
  intros Hp [Hok Ht Hr]. split; [by rewrite <-Hp|..]; by rewrite <-(total_of_perm _ _ _ Hp).
Qed.

Lemma capacity_counts l c :
  let c' := foldl capacity_step c l in
  cy_TotalChunks c' = foldl (λ b x, GoInt.add32 b (ca_TotalChunks (cr_status x))) (cy_TotalChunks c) l ∧
  cy_ReservedChunks c' =
    foldl (λ b x, GoInt.add32 b (ca_ReservedChunks (cr_status x))) (cy_ReservedChunks c) l ∧
  cy_AvailableChunks c' =
    foldl (λ b x, GoInt.add32 b (ca_AvailableChunks (cr_status x))) (cy_AvailableChunks c) l ∧
  cy_ProviderCount c' = cy_ProviderCount c + Z.of_nat (length l) ∧
  cy_AvailableProviderCount c' = cy_AvailableProviderCount c +
    total_of (λ st, if ca_Available st then 1 else 0) l ∧
  cy_ChunkSizes c' = cy_ChunkSizes c.
Proof.
  revert c. induction l as [|x l IH]; intros c; [simpl; split_and!; lia || done|].
  destruct (IH (capacity_step c x)) as (E1 & E2 & E3 & E4 & E5 & E6). cbn [foldl].
  rewrite E1, E2, E3, E4, E5, E6. unfold capacity_step; cbn [cy_TotalChunks cy_ReservedChunks
    cy_AvailableChunks cy_ProviderCount cy_AvailableProviderCount cy_ChunkSizes].
  rewrite total_of_cons. split_and!; [done..|cbn [length]; lia| |done].
  destruct (ca_Available (cr_status x)); lia.
Qed.

Definition of_type (key : string) (l : list ClusterAdvertisement) : list ClusterAdvertisement :=
  filter (λ x, cs_ClusterType (cr_spec x) = key) l.

Lemma of_type_cons key x l :
  of_type key (x :: l) =
  if decide (cs_ClusterType (cr_spec x) = key) then x :: of_type key l else of_type key l.
Proof. unfold of_type. by rewrite filter_cons. Qed.

(** A bucket collects the advertisements of its type. *)
Lemma capacity_bucket l c key :
  cy_ByChunkType (foldl capacity_step c l) !! key =
  match of_type key l with
  | [] => cy_ByChunkType c !! key
  | l' => Some (foldl (λ b x, add_capacity b (cr_status x))
                  (default capacity_zero (cy_ByChunkType c !! key)) l')
  end.
Proof.
  revert c. induction l as [|x l IH]; intros c; [done|]. cbn [foldl]. rewrite IH, of_type_cons.
  unfold capacity_step; cbn [cy_ByChunkType]. case_decide as Hk.
  - subst key. rewrite lookup_insert_eq. by destruct (of_type _ l).
  - by rewrite lookup_insert_ne.
Qed.

Lemma add_capacity_counts (l : list ClusterAdvertisement) b :
  foldl (λ b x, add_capacity b (cr_status x)) b l =
  mkTypeCapacity
    (foldl (λ b x, GoInt.add32 b (ca_TotalChunks (cr_status x))) (tc_TotalChunks b) l)
    (foldl (λ b x, GoInt.add32 b (ca_ReservedChunks (cr_status x))) (tc_ReservedChunks b) l)
    (foldl (λ b x, GoInt.add32 b (ca_AvailableChunks (cr_status x))) (tc_AvailableChunks b) l).
Proof. revert b. induction l as [|x l IH]; intros b; [by destruct b|]. cbn [foldl]. by rewrite IH. Qed.

(** The 32-bit sum of a counter. *)
Definition sum32 (f : ClusterAdvertisementStatus → Z) (l : list ClusterAdvertisement) : Z :=
  foldl (λ b x, GoInt.add32 b (f (cr_status x))) 0 l.

Lemma sums_exact l :
  in_range l →
  sum32 ca_TotalChunks l = total_of ca_TotalChunks l ∧
  sum32 ca_ReservedChunks l = total_of ca_ReservedChunks l ∧
  sum32 ca_AvailableChunks l = total_of ca_AvailableChunks l.
Proof.
  intros Hr. destruct (in_range_nonneg l Hr) as (H1 & H2 & H3 & H4). destruct Hr as [_ Ht Hrs].
  unfold sum32. by rewrite !add32_total by (done || lia).
Qed.

(** The capacity panel of a list of advertisements. *)
Record capacity_shows `{GoRuntime} (s : Server) (l : list ClusterAdvertisement) (c : CapacitySummary) :
    Prop := {
  ch_totals : mkTypeCapacity (cy_TotalChunks c) (cy_ReservedChunks c) (cy_AvailableChunks c) = bucket_of l;
  ch_providers : cy_ProviderCount c = Z.of_nat (length l) ∧
    cy_AvailableProviderCount c = total_of (λ st, if ca_Available st then 1 else 0) l;
  ch_types : ∀ key, cy_ByChunkType c !! key =
    match of_type key l with [] => None | l' => Some (bucket_of l') end;
  ch_sizes : cy_ChunkSizes c = chunkSizes s
}.

Lemma capacity_panel_shows `{GoRuntime} s l l' :
  in_range l → l' ≡ₚ l → capacity_shows s l (capacity_panel s l').
Proof.
  intros Hr Hp. assert (in_range l') as Hr' by (by eapply in_range_perm; [symmetry|]).
  assert (∀ f, total_of f l' = total_of f l) as Ht by (intros; by apply total_of_perm).
  assert (bucket_of l' = bucket_of l) as Hb by (unfold bucket_of; by rewrite !Ht).
  destruct (capacity_counts l' (mkCapacity 0 0 0 0 0 ∅ (chunkSizes s)))
    as (E1 & E2 & E3 & E4 & E5 & E6).
  destruct (sums_exact l' Hr') as (S1 & S2 & S3). unfold capacity_panel. split.
  - rewrite E1, E2, E3. cbn [cy_TotalChunks cy_ReservedChunks cy_AvailableChunks].
    rewrite <-Hb. unfold bucket_of. f_equal; done.
  - rewrite E4, E5. cbn [cy_ProviderCount cy_AvailableProviderCount]. by rewrite (Permutation_length Hp), Ht.
  - intros key. rewrite capacity_bucket. cbn [cy_ByChunkType]. rewrite lookup_empty. cbn [default].
    assert (of_type key l' ≡ₚ of_type key l) as Hf by (unfold of_type; by rewrite Hp).
    assert (in_range (of_type key l')) as Hrf by by apply in_range_filter.
    destruct (of_type key l') as [|x lt]; [apply Permutation_nil_l in Hf as <-; done|].
    destruct (of_type key l) as [|y lt']; [by apply Permutation_nil_r in Hf|].
    destruct (sums_exact _ Hrf) as (T1 & T2 & T3). rewrite add_capacity_counts.
    cbn [tc_TotalChunks tc_ReservedChunks tc_AvailableChunks capacity_zero].
    f_equal. unfold bucket_of. f_equal; rewrite <-(total_of_perm _ _ _ Hf); done.
  - by rewrite E6.
Qed.
End Totals.

(** ** The overview *)
Section Overview.
Context `{Platform} `{GoRuntime} `{!RuntimeLaws}.

Lemma by_key_perm {A} (key : A → string) l : by_key key l ≡ₚ l.
Proof. apply GoSort.SliceStable_perm. Qed.

Lemma registry_entries_perm reg : registry_entries reg ≡ₚ (map_to_list reg).*2.
Proof.
  unfold registry_entries. rewrite range_keys_perm.
  assert (∀ l : list (string * ConsumerEntry), (∀ k e, (k, e) ∈ l → reg !! k = Some e) →
            omap (λ k, reg !! k) l.*1 = l.*2) as Hl.
  { induction l as [|[k e] l IH]; intros Hin; [done|]. rewrite !fmap_cons. cbn [omap list_omap fst snd].
    rewrite (Hin k e) by constructor. rewrite <-IH; [done|]. intros k' e' Hk. apply Hin. by constructor. }
  rewrite Hl; [done|]. intros k e. by rewrite elem_of_map_to_list.
Qed.

(** What the dashboard shows of a stored state. *)
Record overview_shows (s : Server) (reg : ConsumerRegistry) (m : store) (ov : Overview) : Prop := {
  os_capacity : capacity_shows s (typed_list (sv_namespace s) m) (ov_Capacity ov);
  os_reserved : cy_ReservedChunks (ov_Capacity ov) =
    foldr (λ (c : ClusterAdvertisement) acc, held (sv_namespace s) (cr_Name c) m + acc) 0
      (typed_list (sv_namespace s) m);
  os_advertisements : as_ClusterID <$> ov_Advertisements ov ≡ₚ
    (λ c : ClusterAdvertisement, cs_ClusterID (cr_spec c)) <$> typed_list (sv_namespace s) m;
  os_reservations : ov_Reservations ov ≡ₚ
    dashboardReservationView <$> typed_list (sv_namespace s) m;
  os_provider : ov_ProviderInstructions ov ≡ₚ
    dashboardViewFromProviderInstruction <$> typed_list (sv_namespace s) m;
  os_consumer : ov_ReservationInstructions ov ≡ₚ
    dashboardViewFromReservationInstruction <$> typed_list (sv_namespace s) m;
  os_registry : ov_Consumers ov ≡ₚ consumer_view <$> (map_to_list reg).*2
}.

Lemma imap_snapshot_ids s l :
  as_ClusterID <$> imap (priced_snapshot s) l =
  (λ c : ClusterAdvertisement, cs_ClusterID (cr_spec c)) <$> l.
Proof.
  rewrite fmap_imap. rewrite <-(imap_const _ l). apply imap_ext. intros i c _. cbn.
  unfold priced_snapshot, advertisementSnapshotFromCR.
  destruct (weightedCarbon c), (perChunkCostWith _ _ _). done.
Qed.

Lemma reserved_held s m (l : list ClusterAdvertisement) :
  store_wf m → ledger m → l ≡ₚ typed_list (sv_namespace s) m →
  total_of ca_ReservedChunks l =
  foldr (λ (c : ClusterAdvertisement) acc, held (sv_namespace s) (cr_Name c) m + acc) 0 l.
Proof.
  intros Hwf Hl Hp.
  assert (∀ c, c ∈ l → ca_ReservedChunks (cr_status c) = held (sv_namespace s) (cr_Name c) m) as Hc.
  { intros c Hin. rewrite Hp in Hin. apply elem_of_typed_list in Hin as [Hns Hk]; [|done].
    apply (Hl (sv_namespace s)). rewrite <-Hns. exact Hk. }
  clear Hp. induction l as [|c l IH]; [done|].
  change (total_of ca_ReservedChunks (c :: l))
    with (ca_ReservedChunks (cr_status c) + total_of ca_ReservedChunks l).
  cbn [foldr]. rewrite Hc by constructor. rewrite IH; [done|]. intros c' Hc'. apply Hc. by constructor.
Qed.

Lemma stored_ok s (m : store) :
  valid m → store_wf m →
  Forall (λ c : ClusterAdvertisement, cadv_ok (cr_status c)) (typed_list (sv_namespace s) m).
Proof.
  intros Hv Hwf. apply Forall_forall. intros c Hc. apply elem_of_typed_list in Hc as [_ Hk]; [|done].
  apply (Hv (OCadv c)). by apply (wf_key _ Hwf (cr_key c)).
Qed.

(** On a Broker whose books balance, GET /api/v1/overview answers 200 and
    changes nothing; its capacity panel is the exact sum of the providers'
    counters, in total and per chunk type (as long as those sums fit the int32
    they are kept in), the chunks it shows as reserved are the chunks that
    unreleased Reservations hold, and every stored advertisement, reservation,
    instruction and registered consumer has exactly one row. *)
Theorem handleOverview_exact s reg requestID m :
  balanced m →
  total_of ca_TotalChunks (typed_list (sv_namespace s) m) ≤ GoInt.int32_max →
  total_of ca_ReservedChunks (typed_list (sv_namespace s) m) ≤ GoInt.int32_max →
  wp reliable (handleOverview s reg requestID)
    (λ x m', m' = m ∧ ∃ ov, x = JSON StatusOK ov ∧ overview_shows s reg m ov) m.
Proof.
  intros [Hwf Hv Hl] Ht Hr. unfold handleOverview, buildOverview.
  apply wp_bind, wp_bind, wp_now. intros t. cbv zeta.
  apply wp_bind, wp_list. intros cadvs Hc. apply wp_bind, wp_list. intros resvs Hrs.
  apply wp_bind, wp_list. intros pis Hpi. apply wp_bind, wp_list. intros ris Hri.
  apply wp_ret, wp_ret. split; [done|]. eexists. split; [done|].
  assert (capacity_shows s (typed_list (sv_namespace s) m) (capacity_panel s cadvs)) as Hcap.
  { apply capacity_panel_shows; [|done]. split; [by apply stored_ok|done|done]. }
  split; cbn [ov_Capacity ov_Advertisements ov_Reservations ov_ProviderInstructions
              ov_ReservationInstructions ov_Consumers]; [done|..].
  - rewrite <-(reserved_held s m); [|done..]. pose proof (ch_totals _ _ _ Hcap) as E.
    by apply (f_equal tc_ReservedChunks) in E.
  - rewrite by_key_perm, imap_snapshot_ids. by rewrite Hc.
  - by rewrite by_key_perm, Hrs.
  - by rewrite by_key_perm, Hpi.
  - by rewrite by_key_perm, Hri.
  - unfold Registry.Snapshot. by rewrite GoSort.SliceStable_perm, registry_entries_perm.
Qed.

Context `{!RateLimit} `{!BrokerJson} `{!DashboardPage}.

Lemma handleOverview_reads s reg rid : reads_only (λ kd, kd ≠ KSecret) (handleOverview s reg rid).
Proof.
  unfold handleOverview, buildOverview. apply reads_only_bind; [|by intros].
  apply reads_only_bind; [by split|]. intros t. apply reads_only_bind; [by split|].
  intros [cadvs|]; [|done]. apply reads_only_bind; [by split|]. intros [resvs|]; [|done].
  apply reads_only_bind; [by split|]. intros [pis|]; [|done].
  apply reads_only_bind; [by split|]. by intros [ris|].
Qed.

Lemma dashboard_serve_reads s g r : reads_only (λ kd, kd ≠ KSecret) (dashboard_serve s g r).
Proof.
  unfold dashboard_serve, DashboardMiddlewareChain, chain. cbn [foldr].
  apply reads_only_bind; [|by intros]. apply reads_only_bind; [by case_decide|].
  intros id. apply reads_only_bind; [|by intros]. apply reads_only_bind; [|by intros].
  unfold DashboardHandler. cbv zeta. destruct (is_get _); [|done].
  repeat case_match; try done. apply reads_only_bind; [apply handleOverview_reads|by intros].
Qed.

(** C26: The dashboard listener, which anyone may reach without a certificate,
    only reads: whatever the request, the stored objects stay as they are.  And
    it cannot show a peering credential: what it answers from one store it could
    also have answered from any other that differs in its Secrets alone. *)
Theorem dashboard_reveals_no_secret s g r m m2 :
  (∀ k, k.1.1 ≠ KSecret → objs m !! k = objs m2 !! k) →
  wp serves (dashboard_serve s g r)
    (λ x m', m' = m ∧ runs serves (dashboard_serve s g r) m2 x m2) m.
Proof. apply (wp_reads_only (λ kd, kd ≠ KSecret)), dashboard_serve_reads. Qed.
End Overview.

Module DashboardWitness.
Import SafetyWitness ReservationWitness EndToEndWitness.
#[local] Existing Instance MilliPlatform.platform.
#[local] Existing Instances runtime countdown broker_json.
#[local] Instance runtime_laws : RuntimeLaws.
Proof. split; simpl; [done|auto]. Defined.
#[local] Instance page : DashboardPage :=
  {| dashboardIndexHTML := "<html>"; encode_overview := λ ov, GoStr.fmt_d (cy_TotalChunks (ov_Capacity ov)) |}.

Lemma handleOverview_exact_witness :
  wp reliable (handleOverview srv1 reg1 "rid")
    (λ x m', m' = m9 ∧ ∃ ov, x = JSON StatusOK ov ∧ overview_shows srv1 reg1 m9 ov) m9.
Proof. apply handleOverview_exact; [exact w9_balanced|vm_compute; discriminate..]. Defined.

Lemma dashboard_reveals_no_secret_witness :
  let r := mkRequest "GET" "/api/v1/overview" ∅ "" "" "" None "" in
  let m2 := put (KSecret, "ns", "kubeconfig")
              (OSecret (mkCR (meta_named "kubeconfig" "ns") (<["kubeconfig" := "token"]> ∅) tt)) m9 in
  wp serves (dashboard_serve srv1 gw1 r)
    (λ x m', m' = m9 ∧ runs serves (dashboard_serve srv1 gw1 r) m2 x m2) m9.
Proof.
  apply dashboard_reveals_no_secret. intros k Hk. symmetry. apply lookup_insert_ne.
  intros <-. by apply Hk.
Defined.
End DashboardWitness.
