(* ===== verification/Console.v ===== *)
(** * The agents' configuration console (internal/agent/console)

    A plain HTTP page of each agent from which an operator sets the placement
    policy, the demo workload and manual reservations of a consumer, or the
    prices, capacity caps and renewable flag of a provider.  Every setting is an
    object of the agent's cluster; the other components pick it up from there.
    JSON bodies are decoded outside ([ConsoleJson]); [Quantity.String] and YAML
    are parameters ([ConsoleText]). *)
From stdpp Require Import base gmap strings list.
From Stdlib Require Import ZArith Lia.
From S2P Require Import Prelude GoText ApiTypes ConsumerTypes Kube Effects Wire AgentClient Prober.
From S2P Require Import AgentHandlers Signals Publisher Heartbeater Gateway.
Import GoFloat.

Open Scope Z_scope.

Definition RoleConsumer : string := "consumer".
Definition RoleProvider : string := "provider".

Definition pricesConfigMap : string := "agent-prices".
Definition pricesKey : string := "prices.yaml".
Definition capacityConfigMap : string := "agent-capacity".
Definition capacityKey : string := "capacity.yaml".
Definition renewableConfigMap : string := "agent-renewable".
Definition renewableKey : string := "renewable.yaml".
Definition workloadNamespace : string := "default".
Definition workloadName : string := "federation-demo".
Definition consumerPolicyName : string := "default".
Definition manualReservationPrefix : string := "manual-res-".
Definition consoleManagedLabel : string := "federation-autoscaler.io/console".
Definition consoleManagedValue : string := "manual-reservation".

(** ** What the console shows *)
Record discoveredLocation := mkDiscovered {
  dl_IP : string;
  dl_Source : string;
  dl_Region : string;
  dl_City : string;
  dl_Country : string;
  dl_Lat : float64;
  dl_Lon : float64
}.

Record manualReservationInfo := mkManualInfo {
  mi_Name : string;
  mi_Phase : ResourceRequestPhase;
  mi_Provider : string;
  mi_Chunks : Z;
  mi_Message : string;
  mi_CPU : string;
  mi_Memory : string;
  mi_GPU : string
}.

Record workloadInfo := mkWorkloadInfo {
  wi_Present : bool;
  wi_Replicas : Z;
  wi_Requests : gmap string string;
  wi_Limits : gmap string string
}.

Record consumerState := mkConsumerState {
  ct_ClusterID : string;
  ct_LiqoClusterID : string;
  ct_Policy : string;
  ct_UserPrompt : string;
  ct_Location : option discoveredLocation;
  ct_Workload : workloadInfo;
  ct_ManualReservations : list manualReservationInfo
}.

Record providerState := mkProviderState {
  pt_ClusterID : string;
  pt_LiqoClusterID : string;
  pt_Prices : gmap string string;
  pt_Location : option discoveredLocation;
  pt_Capacity : gmap string string;
  pt_Renewable : bool
}.

Inductive ConsoleReply :=
| ReplyOk                                      (* {"ok": true} *)
| ReplyError (status : Z) (msg : string)
| ReplyConsumer (body : consumerState)
| ReplyProvider (body : providerState)
| ReplyProbe (chosen : string) (rtts : gmap string float64) (durationMs : float64)
| ReplyPage (role : string)                    (* the embedded page of the role *)
| ReplyHealth
| ReplyPlain (status : Z).                     (* net/http's own 404 and 405 *)

(** ** Request bodies *)
Record policyBody := mkPolicyBody { bp_Type : string; bp_UserPrompt : string }.
Record workloadBody := mkWorkloadBody { bw_Action : string }.
Record reservationBody := mkReservationBody {
  br_Action : string;
  br_Name : string;
  br_CPU : string;
  br_Memory : string;
  br_GPU : string;
  br_Duration : string;
  br_Priority : Z
}.
Record pairBody := mkPairBody { bc_CPU : string; bc_Memory : string }.

Class ConsoleJson := {
  decode_policy_body : string → Res policyBody;
  decode_workload_body : string → Res workloadBody;
  decode_reservation_body : string → Res reservationBody;
  decode_pair_body : string → Res pairBody;
  decode_renewable_body : string → Res bool;
  decode_probe_body : string → Res (list Candidate)
}.

(** ** Capacity values *)
Definition clampPercent (v : Z) : Z := if v <? 0 then 0 else if 100 <? v then 100 else v.

(** [parseCapacityPercent]: [None] is not a percentage form. *)
Definition parseCapacityPercent (val : string) : option (option Z) :=
  match CutSuffix val "%" with
  | Some t => Some (Atoi (TrimSpace t))
  | None => match Atoi val with Some n => Some (Some n) | None => None end
  end.

Definition joinLines (lines : list string) : string :=
  match lines with
  | [] => ""
  | _ => String.concat newline lines +:+ newline
  end.

Section Console.
Context `{Platform} `{SignalJson} `{!PublisherFiles} `{!ConsoleJson}.

(** [Quantity.String], [fmt.Sprintf("%v", v)] of the values of a YAML mapping
    ([None] for null), and the text of an [Atoi] error. *)
Class ConsoleText := {
  q_String : Quantity → string;
  atoi_error : string → string;
  unmarshal_values : string → Res (gmap string (option string))
}.
Context `{!ConsoleText}.

Definition capacityLine (name val : string) : Res string :=
  match parseCapacityPercent val with
  | Some (Some pct) => Ok (name +:+ ": " +:+ GoStr.fmt_d (clampPercent pct))
  | Some None => Fail (errors_New ("invalid " +:+ name +:+ " percentage " +:+ GoStr.fmt_q val +:+ ": " +:+
                                   atoi_error (TrimSpace (default val (CutSuffix val "%")))))
  | None =>
      match ParseQuantity val with
      | Fail _ => Fail (errors_New ("invalid " +:+ name +:+ " capacity " +:+ GoStr.fmt_q val +:+
                    ": not a percentage (e.g. 80 or " +:+ GoStr.fmt_q "80%" +:+
                    ") or a Kubernetes quantity (e.g. " +:+ GoStr.fmt_q "8Gi" +:+ ")"))
      | Ok _ => Ok (name +:+ ": " +:+ GoStr.fmt_q val)
      end
  end.

(** ** The server *)
Record ConsoleServer := mkConsole {
  co_role : string;
  co_ns : string;
  co_clusterID : string;
  co_liqoClusterID : string;
  co_nodeName : string;
  co_advertisedIP : string;
  co_mockGeoURL : string;
  co_geo : GeoClient;
  co_prober : option Prober
}.

Definition NewConsole (role bind : string) (hasLocal : bool) (ns clusterID liqoClusterID nodeName
    advertisedIP geoURL : string) (prober : option Prober) : Res ConsoleServer :=
  if decide (role ≠ RoleConsumer ∧ role ≠ RoleProvider) then
    Fail (errors_New ("console: Role must be " +:+ GoStr.fmt_q RoleConsumer +:+ " or " +:+
                      GoStr.fmt_q RoleProvider +:+ ", got " +:+ GoStr.fmt_q role))
  else if decide (bind = "") then Fail (errors_New "console: BindAddress is required")
  else if negb hasLocal then Fail (errors_New "console: LocalClient is required")
  else
    Ok (mkConsole role (if decide (ns = "") then "federation-autoscaler-system" else ns) clusterID
          liqoClusterID nodeName advertisedIP geoURL NewGeoClient prober).

(** ** Kubernetes write helpers *)
Definition err_of {A} (x : Res A) : option Err := match x with Ok _ => None | Fail e => Some e end.

Definition upsertConfigMap (ns name key value : string) : prog (option Err) :=
  x ← get (S:=ConfigMapData) (T:=unit) ns name;
  match x with
  | Fail e =>
      if IsNotFound e then
        y ← create (mkCR (meta_named name ns) (mkConfigMapData {[key := value]}) tt : ConfigMap);
        mret (err_of y)
      else mret (Some e)
  | Ok cm =>
      y ← update (mkCR (cr_meta cm) (mkConfigMapData (<[key := value]> (cm_Data (cr_spec cm)))) tt
                  : ConfigMap);
      mret (err_of y)
  end.

Definition upsertConsumerPolicy (ns : string) (t : PlacementStrategy) (userPrompt : string) :
    prog (option Err) :=
  x ← get (S:=ConsumerPolicySpec) (T:=unit) ns consumerPolicyName;
  match x with
  | Fail e =>
      if IsNotFound e then
        y ← create (mkCR (meta_named consumerPolicyName ns)
                      (mkPolicySpec (mkPolicy t) userPrompt None) tt : ConsumerPolicy);
        mret (err_of y)
      else mret (Some e)
  | Ok cp =>
      y ← update (mkCR (cr_meta cp)
                    (mkPolicySpec (mkPolicy t) userPrompt (cp_LatencyBound (cr_spec cp))) tt
                  : ConsumerPolicy);
      mret (err_of y)
  end.

Definition ignore_not_found {A} (x : Res A) : option Err :=
  match x with
  | Ok _ => None
  | Fail e => if IsNotFound e then None else Some e
  end.

Definition deleteConsumerPolicy (ns : string) : prog (option Err) :=
  y ← delete_cr (mkCR (meta_named consumerPolicyName ns) policy_spec_zero tt : ConsumerPolicy);
  mret (ignore_not_found y).

(** [metadata.generateName]: the API server appends a suffix of its choice. *)
Definition createManualReservation (ns : string) (res : ResourceList) (duration : string)
    (priority : Z) : prog (option Err) :=
  suffix ← new_uuid;
  let meta := meta_named (manualReservationPrefix +:+ suffix) ns in
  y ← create (mkCR (mkMeta (m_Name meta) ns "" 0 0 0 None [] ∅
                     {[consoleManagedLabel := consoleManagedValue]} None)
                (mkRRSpec res duration priority None) rr_status_zero : ResourceRequest);
  mret (err_of y).

Definition console_managed (rr : ResourceRequest) : bool :=
  bool_decide (m_Labels (cr_meta rr) !! consoleManagedLabel = Some consoleManagedValue).

Definition releaseManualReservation (ns name : string) : prog (option Err) :=
  x ← get (S:=ResourceRequestSpec) (T:=ResourceRequestStatus) ns name;
  match x with
  | Fail e => mret (if IsNotFound e then None else Some e)
  | Ok rr =>
      if console_managed rr then (y ← delete_cr rr; mret (err_of y))
      else mret (Some (errors_New ("reservation " +:+ GoStr.fmt_q name +:+
                                   " is not managed by the console")))
  end.

(** ** POST handlers *)
Definition StatusBad : Z := 400.

(** [writeError] with the prefix when the write failed, else [ok]. *)
Definition ok_unless (prefix : string) (e : option Err) : ConsoleReply :=
  match e with
  | None => ReplyOk
  | Some e => ReplyError StatusInternalServerError (prefix +:+ ": " +:+ e_msg e)
  end.

Definition decoded {B} (body : Res B) (k : B → prog ConsoleReply) : prog ConsoleReply :=
  match body with
  | Fail e => mret (ReplyError StatusBad ("decode body: " +:+ e_msg e))
  | Ok b => k b
  end.

Definition known_policy (t : string) : bool :=
  bool_decide (t ∈ [PlacementStrategyPrice; PlacementStrategyEco; PlacementStrategyLatency;
                    PlacementStrategyConsumerChoice; PlacementStrategyRandom]).

Definition handlePolicy (s : ConsoleServer) (body : Res policyBody) : prog ConsoleReply :=
  if decide (co_role s = RoleConsumer) then
    decoded body (λ b,
      let t := bp_Type b in
      if decide (t = "" ∨ t = "None") then
        e ← deleteConsumerPolicy (co_ns s);
        mret (ok_unless "delete ConsumerPolicy" e)
      else if known_policy t then
        e ← upsertConsumerPolicy (co_ns s) t (bp_UserPrompt b);
        mret (ok_unless "write ConsumerPolicy" e)
      else mret (ReplyError StatusBad ("unknown policy type " +:+ GoStr.fmt_q t)))
  else mret (ReplyError StatusMethodNotAllowed "policy is a consumer-only setting").

(** The embedded manifest (assets/burst-workload.yaml), decoded. *)
Definition decodeWorkload : Deployment :=
  let rl : ResourceList :=
    <[ResourceCPU := NewQuantity 1]> (<[ResourceMemory := NewQuantity (1024 * 1024 * 1024)]> ∅) in
  mkCR (mkMeta workloadName workloadNamespace "" 0 0 0 None [] ∅ {["app" := workloadName]} None)
    (mkDeploymentSpec (Some 5) [(rl, rl)]) tt.

Definition handleWorkload (s : ConsoleServer) (body : Res workloadBody) : prog ConsoleReply :=
  if decide (co_role s = RoleConsumer) then
    decoded body (λ b,
      if decide (bw_Action b = "apply") then
        y ← create decodeWorkload;
        mret (ok_unless "apply workload"
                match y with
                | Ok _ => None
                | Fail e => if IsAlreadyExists e then None else Some e
                end)
      else if decide (bw_Action b = "delete") then
        y ← delete_cr decodeWorkload;
        mret (ok_unless "delete workload" (ignore_not_found y))
      else mret (ReplyError StatusBad ("unknown action " +:+ GoStr.fmt_q (bw_Action b) +:+
                                       " (want apply|delete)")))
  else mret (ReplyError StatusMethodNotAllowed "workload is a consumer-only control").

(** The quantities of a manual reservation, blank ones skipped. *)
Fixpoint parse_resources (kvs : list (string * string)) (res : ResourceList) : Res ResourceList :=
  match kvs with
  | [] => Ok res
  | (name, val) :: kvs =>
      let v := TrimSpace val in
      if decide (v = "") then parse_resources kvs res
      else
        match ParseQuantity v with
        | Fail e => Fail (errors_New ("invalid " +:+ name +:+ " quantity " +:+ GoStr.fmt_q v +:+ ": " +:+
                                      e_msg e))
        | Ok q => parse_resources kvs (<[name := q]> res)
        end
  end.

Definition handleReservation (s : ConsoleServer) (body : Res reservationBody) : prog ConsoleReply :=
  if decide (co_role s = RoleConsumer) then
    decoded body (λ b,
      if decide (br_Action b = "apply") then
        match parse_resources [(ResourceCPU, br_CPU b); (ResourceMemory, br_Memory b);
                               (gpuResourceName, br_GPU b)] ∅ with
        | Fail e => mret (ReplyError StatusBad (e_msg e))
        | Ok res =>
            if decide (res = ∅) then
              mret (ReplyError StatusBad "at least one of cpu/memory/gpu is required")
            else
              e ← createManualReservation (co_ns s) res (TrimSpace (br_Duration b)) (br_Priority b);
              mret (ok_unless "apply reservation" e)
        end
      else if decide (br_Action b = "delete") then
        let name := TrimSpace (br_Name b) in
        if decide (name = "") then
          mret (ReplyError StatusBad "name is required to release a reservation")
        else
          e ← releaseManualReservation (co_ns s) name;
          mret (ok_unless "release reservation" e)
      else mret (ReplyError StatusBad ("unknown action " +:+ GoStr.fmt_q (br_Action b) +:+
                                       " (want apply|delete)")))
  else mret (ReplyError StatusMethodNotAllowed "manual reservation is a consumer-only action").

Definition handleRenewable (s : ConsoleServer) (body : Res bool) : prog ConsoleReply :=
  if decide (co_role s = RoleProvider) then
    decoded body (λ b,
      let value := "renewable: " +:+ (if b then "true" else "false") +:+ newline in
      e ← upsertConfigMap (co_ns s) renewableConfigMap renewableKey value;
      mret (ok_unless "write agent-renewable" e))
  else mret (ReplyError StatusMethodNotAllowed "renewable is a provider-only setting").

Fixpoint price_lines (kvs : list (string * string)) : Res (list string) :=
  match kvs with
  | [] => Ok []
  | (name, val) :: kvs =>
      if decide (val = "") then price_lines kvs
      else
        match ParseQuantity val with
        | Fail e => Fail (errors_New ("invalid " +:+ name +:+ " price " +:+ GoStr.fmt_q val +:+ ": " +:+
                                      e_msg e))
        | Ok _ =>
            match price_lines kvs with
            | Fail e => Fail e
            | Ok ls => Ok ((name +:+ ": " +:+ GoStr.fmt_q val) :: ls)
            end
        end
  end.

Definition handlePrices (s : ConsoleServer) (body : Res pairBody) : prog ConsoleReply :=
  if decide (co_role s = RoleProvider) then
    decoded body (λ b,
      if decide (bc_CPU b = "" ∧ bc_Memory b = "") then
        mret (ReplyError StatusBad "at least one of cpu/memory is required")
      else
        match price_lines [("cpu", bc_CPU b); ("memory", bc_Memory b)] with
        | Fail e => mret (ReplyError StatusBad (e_msg e))
        | Ok lines =>
            e ← upsertConfigMap (co_ns s) pricesConfigMap pricesKey (joinLines lines);
            mret (ok_unless "write agent-prices" e)
        end)
  else mret (ReplyError StatusMethodNotAllowed "prices is a provider-only setting").

Fixpoint capacity_lines (kvs : list (string * string)) : Res (list string) :=
  match kvs with
  | [] => Ok []
  | (name, val) :: kvs =>
      if decide (val = "") then capacity_lines kvs
      else
        match capacityLine name val with
        | Fail e => Fail e
        | Ok l => match capacity_lines kvs with Fail e => Fail e | Ok ls => Ok (l :: ls) end
        end
  end.

Definition handleCapacity (s : ConsoleServer) (body : Res pairBody) : prog ConsoleReply :=
  if decide (co_role s = RoleProvider) then
    decoded body (λ b,
      let cpu := TrimSpace (bc_CPU b) in
      let memory := TrimSpace (bc_Memory b) in
      if decide (cpu = "" ∧ memory = "") then
        mret (ReplyError StatusBad "at least one of cpu/memory is required")
      else
        match capacity_lines [("cpu", cpu); ("memory", memory)] with
        | Fail e => mret (ReplyError StatusBad (e_msg e))
        | Ok lines =>
            e ← upsertConfigMap (co_ns s) capacityConfigMap capacityKey (joinLines lines);
            mret (ok_unless "write agent-capacity" e)
        end)
  else mret (ReplyError StatusMethodNotAllowed "capacity is a provider-only setting").

(** ** GET /api/state (state.go) *)
Inductive console_call := AskReport (c : report_call) | AskProbe (c : probe_call).
Definition console_answer (c : console_call) : Type :=
  match c with AskReport c => report_answer c | AskProbe c => probe_answer c end.
Abbreviation console := (eff console_call console_answer).

Definition of_report {A} : eff report_call report_answer A → console A :=
  hoist (λ c, (ask (AskReport c) : console (report_answer c))).
Definition of_probe {A} : eff probe_call probe_answer A → console A :=
  hoist (λ c, (ask (AskProbe c) : console (probe_answer c))).

Definition co_set_geo (s : ConsoleServer) (g : GeoClient) : ConsoleServer :=
  mkConsole (co_role s) (co_ns s) (co_clusterID s) (co_liqoClusterID s) (co_nodeName s)
    (co_advertisedIP s) (co_mockGeoURL s) g (co_prober s).
Definition co_set_prober (s : ConsoleServer) (p : Prober) : ConsoleServer :=
  mkConsole (co_role s) (co_ns s) (co_clusterID s) (co_liqoClusterID s) (co_nodeName s)
    (co_advertisedIP s) (co_mockGeoURL s) (co_geo s) (Some p).

Definition discoverLocation (s : ConsoleServer) :
    console (ConsoleServer * option discoveredLocation) :=
  r ← api (Resolve true (co_nodeName s) (co_advertisedIP s));
  match (r : Res string) with
  | Fail _ => mret (s, None)
  | Ok ip =>
      if decide (ip = "") then mret (s, None)
      else
        let source := if decide (co_advertisedIP s = "") then "node" else "advertised-ip" in
        l ← of_report (GeoLookup (co_geo s) (co_mockGeoURL s) ip);
        mret (co_set_geo s l.1,
              Some match l.2 with
                   | Ok (Some loc) => mkDiscovered ip source (gl_Region loc) (gl_City loc)
                                        (gl_CountryCode loc) (gl_Lat loc) (gl_Lon loc)
                   | _ => mkDiscovered ip source "" "" "" fzero fzero
                   end)
  end.

Definition quantity_text (rl : ResourceList) (name : string) : string :=
  match rl !! name with Some q => q_String q | None => "" end.

Definition manual_info (rr : ResourceRequest) : manualReservationInfo :=
  let st := cr_status rr in
  let rl := rrs_Resources (cr_spec rr) in
  mkManualInfo (cr_Name rr) (rrt_Phase st) (rrt_ProviderClusterID st) (rrt_ChunkCount st)
    (rrt_Message st) (quantity_text rl ResourceCPU) (quantity_text rl ResourceMemory)
    (quantity_text rl gpuResourceName).

(** The label selector of the list is applied by the API server. *)
Definition listManualReservations (ns : string) : prog (list manualReservationInfo) :=
  x ← list_in (S:=ResourceRequestSpec) (T:=ResourceRequestStatus) ns;
  mret match x with
       | Fail _ => []
       | Ok l => GoSort.SliceStable (λ a b, GoStr.str_lt (mi_Name a) (mi_Name b))
                   (manual_info <$> filter (λ rr, console_managed rr = true) l)
       end.

Definition readConfigMapKey (ns name key : string) : prog string :=
  x ← get (S:=ConfigMapData) (T:=unit) ns name;
  mret match x with
       | Fail _ => ""
       | Ok cm => default "" (cm_Data (cr_spec cm) !! key)
       end.

Definition readRenewable (ns : string) : prog bool :=
  raw ← readConfigMapKey ns renewableConfigMap renewableKey;
  mret (if decide (raw = "") then false
        else match unmarshal_renewable raw with Ok b => b | Fail _ => false end).

Definition readPolicyAndPrompt (ns : string) : prog (string * string) :=
  x ← get (S:=ConsumerPolicySpec) (T:=unit) ns consumerPolicyName;
  mret match x with
       | Fail _ => ("", "")
       | Ok cp => (pp_Type (cp_Placement (cr_spec cp)), cp_UserPrompt (cr_spec cp))
       end.

(** The cpu and memory values of a YAML mapping, as text. *)
Definition shown_values (raw : string) : gmap string string :=
  if decide (raw = "") then ∅
  else match unmarshal_values raw with
       | Fail _ => ∅
       | Ok vs =>
           foldl (λ out k, match vs !! k with Some (Some v) => <[k := TrimSpace v]> out | _ => out end)
             ∅ ["cpu"; "memory"]
       end.

Definition readPrices (ns : string) : prog (gmap string string) :=
  raw ← readConfigMapKey ns pricesConfigMap pricesKey; mret (shown_values raw).
Definition readCapacity (ns : string) : prog (gmap string string) :=
  raw ← readConfigMapKey ns capacityConfigMap capacityKey; mret (shown_values raw).

Definition workloadPresent : prog bool :=
  x ← get (S:=DeploymentSpec) (T:=unit) workloadNamespace workloadName;
  mret match x with Ok _ => true | Fail _ => false end.

Definition resourceListToMap (rl : ResourceList) : gmap string string := q_String <$> rl.

Definition staticWorkloadInfo (present : bool) : workloadInfo :=
  let sp := cr_spec decodeWorkload in
  let '(requests, limits) := default (∅, ∅) (head (dp_Containers sp)) in
  mkWorkloadInfo present (default 0 (dp_Replicas sp)) (resourceListToMap requests)
    (resourceListToMap limits).

Definition handleState (s : ConsoleServer) : console (ConsoleServer * ConsoleReply) :=
  d ← discoverLocation s;
  let '(s, location) := d in
  if decide (co_role s = RoleConsumer) then
    present ← api workloadPresent;
    pol ← api (readPolicyAndPrompt (co_ns s));
    manual ← api (listManualReservations (co_ns s));
    mret (s, ReplyConsumer (mkConsumerState (co_clusterID s) (co_liqoClusterID s) pol.1 pol.2 location
                              (staticWorkloadInfo present) manual))
  else
    prices ← api (readPrices (co_ns s));
    capacity ← api (readCapacity (co_ns s));
    renewable ← api (readRenewable (co_ns s));
    mret (s, ReplyProvider (mkProviderState (co_clusterID s) (co_liqoClusterID s) prices location
                              capacity renewable)).

(** ** POST /api/probe *)
Definition handleProbe (s : ConsoleServer) (body : Res (list Candidate)) :
    console (ConsoleServer * ConsoleReply) :=
  match co_prober s with
  | None => mret (s, ReplyError StatusServiceUnavailable "prober not configured")
  | Some p =>
      match body with
      | Fail e => mret (s, ReplyError StatusBad ("decode body: " +:+ e_msg e))
      | Ok [] => mret (s, ReplyError StatusBad "candidates list is empty")
      | Ok cands =>
          start ← api now;
          r ← of_probe (MeasureAndPick p cands);
          stop ← api now;
          mret (co_set_prober s r.1,
                ReplyProbe (pr_Chosen r.2) (finiteRTTs (pr_RTTs r.2))
                  (fdiv (fof_Z (Z.quot (stop - start) 1000)) (fof_Z 1000)))
      end
  end.

(** ** Routes *)

(** "GET /" matches every path, so an unmatched path is 404 for GET and 405
    for any other method. *)
Definition handleIndex (s : ConsoleServer) (path : string) : ConsoleReply :=
  if decide (path = "/") then
    ReplyPage (if decide (co_role s = RoleConsumer) then RoleConsumer else RoleProvider)
  else ReplyPlain StatusNotFound.

Definition handler (s : ConsoleServer) (method path body : string) :
    console (ConsoleServer * ConsoleReply) :=
  let keep (p : prog ConsoleReply) : console (ConsoleServer * ConsoleReply) :=
    (r ← api p; mret (s, r)) in
  let consumer := bool_decide (co_role s = RoleConsumer) in
  let provider := bool_decide (co_role s = RoleProvider) in
  let post := bool_decide (method = "POST") in
  if is_get method then
    match segments path with
    | ["healthz"] => mret (s, ReplyHealth)
    | ["api"; "state"] => handleState s
    | _ => mret (s, handleIndex s path)
    end
  else if post then
    match segments path with
    | ["api"; "policy"] =>
        if consumer then keep (handlePolicy s (decode_policy_body body))
        else mret (s, ReplyPlain StatusMethodNotAllowed)
    | ["api"; "workload"] =>
        if consumer then keep (handleWorkload s (decode_workload_body body))
        else mret (s, ReplyPlain StatusMethodNotAllowed)
    | ["api"; "reservation"] =>
        if consumer then keep (handleReservation s (decode_reservation_body body))
        else mret (s, ReplyPlain StatusMethodNotAllowed)
    | ["api"; "probe"] =>
        if consumer && bool_decide (is_Some (co_prober s)) then handleProbe s (decode_probe_body body)
        else mret (s, ReplyPlain StatusMethodNotAllowed)
    | ["api"; "prices"] =>
        if provider then keep (handlePrices s (decode_pair_body body))
        else mret (s, ReplyPlain StatusMethodNotAllowed)
    | ["api"; "capacity"] =>
        if provider then keep (handleCapacity s (decode_pair_body body))
        else mret (s, ReplyPlain StatusMethodNotAllowed)
    | ["api"; "renewable"] =>
        if provider then keep (handleRenewable s (decode_renewable_body body))
        else mret (s, ReplyPlain StatusMethodNotAllowed)
    | _ => mret (s, ReplyPlain StatusMethodNotAllowed)
    end
  else mret (s, ReplyPlain StatusMethodNotAllowed).
End Console.
