(* ===== verification/ConsoleProofs.v ===== *)
(** * Correctness of the agents' console

    The console is not authenticated, so what matters first is what it can
    write; then, that what an operator sets there is what the other parts of the
    agent act on. *)
From stdpp Require Import base gmap strings list.
From Stdlib Require Import ZArith Lia.
From S2P Require Import Prelude GoText ApiTypes ConsumerTypes Kube MemServer Effects Wire AgentClient.
From S2P Require Import Prober Brain AgentHandlers Signals Publisher Heartbeater Gateway Console.
Import GoFloat.

Open Scope Z_scope.

Section Confined.
Context `{Platform} `{SignalJson} `{!PublisherFiles} `{!ConsoleJson} `{!ConsoleText}.

(** The objects a console may write, by role. *)
Definition console_key (s : ConsoleServer) (k : Key) : Prop :=
  (co_role s = RoleConsumer ∧
     (k = (KConsumerPolicy, co_ns s, consumerPolicyName) ∨
      k = (KDeployment, workloadNamespace, workloadName) ∨
      k.1 = (KResourceRequest, co_ns s))) ∨
  (co_role s = RoleProvider ∧
     (k = (KConfigMap, co_ns s, pricesConfigMap) ∨ k = (KConfigMap, co_ns s, capacityConfigMap) ∨
      k = (KConfigMap, co_ns s, renewableConfigMap))).

(** Everything else stays, and so does every ResourceRequest it did not make. *)
Definition confined (s : ConsoleServer) (m m' : store) : Prop :=
  store_wf m' ∧
  (∀ k, ¬ console_key s k → objs m' !! k = objs m !! k) ∧
  (∀ k rr, objs m !! k = Some (ORR rr) → console_managed rr = false → objs m' !! k = objs m !! k).

Lemma confined_refl s m : store_wf m → confined s m m.
Proof. by intros. Qed.

(** One object written. *)
Abbreviation only k := (same_on (λ k', k' ≠ k)).

Lemma confined_only s k m m' :
  only k m m' → console_key s k →
  (∀ rr, objs m !! k = Some (ORR rr) → console_managed rr = true) → confined s m m'.
Proof.
  intros [Hwf Hk] Hc Hrr. split_and!; [done|..].
  - intros k' Hk'. apply Hk. by intros ->.
  - intros k' rr Hl Hm. apply Hk. intros ->. rewrite (Hrr rr Hl) in Hm. done.
Qed.

Lemma wps_only {A} k (p : prog A) m :
  store_wf m → spares (λ k', k' ≠ k) p → wp serves p (λ _ m', only k m m') m.
Proof. apply wps_spares. Qed.

Lemma spares_one {S T} `{!Resource S T} (a : CR S T) k :
  cr_key a = k → spares (λ k', k' ≠ k) (create a) ∧ spares (λ k', k' ≠ k) (update a) ∧
                 spares (λ k', k' ≠ k) (delete_cr a).
Proof. intros <-. split_and!; (split; [|by intros]); simpl; rewrite ?obj_key_typed; auto. Qed.

Lemma wps_upsertConfigMap ns name key value m :
  store_wf m →
  wp serves (upsertConfigMap ns name key value) (λ _ m', only (KConfigMap, ns, name) m m') m.
Proof.
  intros Hwf. unfold upsertConfigMap. apply wp_bind, wps_get; [done|..].
  - intros cm _ Hns Hn. apply wps_only, spares_bind; [done| |by intros].
    apply spares_one. by rewrite <-Hns, <-Hn.
  - intros e. destruct (IsNotFound e); [|by apply wp_ret].
    apply wps_only, spares_bind; [done| |by intros]. by apply spares_one.
Qed.

Lemma wps_upsertConsumerPolicy ns t prompt m :
  store_wf m →
  wp serves (upsertConsumerPolicy ns t prompt)
    (λ _ m', only (KConsumerPolicy, ns, consumerPolicyName) m m') m.
Proof.
  intros Hwf. unfold upsertConsumerPolicy. apply wp_bind, wps_get; [done|..].
  - intros cp _ Hns Hn. apply wps_only, spares_bind; [done| |by intros].
    apply spares_one. by rewrite <-Hns, <-Hn.
  - intros e. destruct (IsNotFound e); [|by apply wp_ret].
    apply wps_only, spares_bind; [done| |by intros]. by apply spares_one.
Qed.

(** A release deletes a request of the console's own; a new one takes a name
    nothing has. *)
Lemma wps_manual s m :
  store_wf m → co_role s = RoleConsumer →
  (∀ res d pr, wp serves (createManualReservation (co_ns s) res d pr) (λ _ m', confined s m m') m) ∧
  (∀ name, wp serves (releaseManualReservation (co_ns s) name) (λ _ m', confined s m m') m).
Proof.
  intros Hwf Hrole.
  assert (∀ n, console_key s (KResourceRequest, co_ns s, n)) as Hck by (intros n; left; auto).
  split.
  - intros res d pr. unfold createManualReservation. apply wp_bind. intros u m1 ->.
    cbn [wp]. intros x m' Hx.
    pose proof (spares_step (λ k', k' ≠ (KResourceRequest, co_ns s, manualReservationPrefix +:+ u))
      m _ x m' Hwf) as Hs.
    assert (only (KResourceRequest, co_ns s, manualReservationPrefix +:+ u) m m') as Ho
      by (apply Hs; [simpl; auto|exact Hx]).
    destruct x as [o|e].
    + apply (confined_only _ _ _ _ Ho); [apply Hck|]. destruct Hx as [Hn _].
      intros rr Hl. unfold obj_key in Hn. simpl in Hn. congruence.
    + destruct Hx as [-> _]. by apply confined_refl.
  - intros name. unfold releaseManualReservation. apply wp_bind, wps_get; [done|..].
    + intros rr Hl Hns Hn. destruct (console_managed rr) eqn:Hm; [|by apply wp_ret, confined_refl].
      apply wp_bind. eapply wp_mono; [|apply (wps_only (KResourceRequest, co_ns s, name)); [done|]].
      * intros y m' Ho. apply wp_ret. apply (confined_only _ _ _ _ Ho); [apply Hck|].
        intros rr' Hl'. change (objs m !! (KResourceRequest, co_ns s, name) = Some (ORR rr)) in Hl.
        congruence.
      * apply spares_one. by rewrite <-Hns, <-Hn.
    + intros e. by apply wp_ret, confined_refl.
Qed.

(** *** Handlers that write *)
Lemma wps_decoded {B} s (body : Res B) k m :
  store_wf m → (∀ b, wp serves (k b) (λ _ m', confined s m m') m) →
  wp serves (decoded body k) (λ _ m', confined s m m') m.
Proof. intros Hwf Hk. destruct body; [apply Hk|by apply confined_refl]. Qed.

Lemma wps_then_reply {A} s k (p : prog A) (f : A → ConsoleReply) m :
  console_key s k → k.1.1 ≠ KResourceRequest → store_wf m →
  wp serves p (λ _ m', only k m m') m → wp serves (x ← p; mret (f x)) (λ _ m', confined s m m') m.
Proof.
  intros Hk Hkd Hwf Hp. apply wp_bind. eapply wp_mono; [|exact Hp]. intros a m' Ho. apply wp_ret.
  apply (confined_only _ _ _ _ Ho Hk). intros rr Hl.
  destruct (wf_key _ Hwf _ _ Hl) as [<- _]. by destruct Hkd.
Qed.

Lemma wps_handlePolicy s body m :
  store_wf m → wp serves (handlePolicy s body) (λ _ m', confined s m m') m.
Proof.
  intros Hwf. unfold handlePolicy. case_decide as Hr; [|by apply confined_refl].
  apply wps_decoded; [done|]. intros b. cbv zeta.
  assert (console_key s (KConsumerPolicy, co_ns s, consumerPolicyName)) as Hk by (left; auto).
  case_decide.
  - eapply wps_then_reply; [exact Hk|done|done|]. apply wps_only, spares_bind; [done| |by intros].
    by apply spares_one.
  - destruct (known_policy _); [|by apply confined_refl].
    eapply wps_then_reply; [exact Hk|done|done|]. by apply wps_upsertConsumerPolicy.
Qed.

Lemma wps_handleWorkload s body m :
  store_wf m → wp serves (handleWorkload s body) (λ _ m', confined s m m') m.
Proof.
  intros Hwf. unfold handleWorkload. case_decide as Hr; [|by apply confined_refl].
  apply wps_decoded; [done|]. intros b.
  assert (console_key s (KDeployment, workloadNamespace, workloadName)) as Hk by (left; auto).
  repeat case_decide; [..|by apply confined_refl].
  all: eapply wps_then_reply; [exact Hk|done|done|]; apply wps_only; [done|by apply spares_one].
Qed.

Lemma wps_handleReservation s body m :
  store_wf m → wp serves (handleReservation s body) (λ _ m', confined s m m') m.
Proof.
  intros Hwf. unfold handleReservation. case_decide as Hr; [|by apply confined_refl].
  destruct (wps_manual s m Hwf Hr) as [Hcreate Hrelease].
  apply wps_decoded; [done|]. intros b. case_decide.
  - destruct (parse_resources _ _) as [res|e]; [|by apply confined_refl].
    case_decide; [by apply confined_refl|]. apply wp_bind.
    eapply wp_mono; [|apply Hcreate]. intros e m' Hm. by apply wp_ret.
  - case_decide; [|by apply confined_refl]. cbv zeta. case_decide; [by apply confined_refl|].
    apply wp_bind. eapply wp_mono; [|apply Hrelease]. intros e m' Hm. by apply wp_ret.
Qed.

Lemma wps_provider_handlers s m :
  store_wf m →
  (∀ body, wp serves (handlePrices s body) (λ _ m', confined s m m') m) ∧
  (∀ body, wp serves (handleCapacity s body) (λ _ m', confined s m m') m) ∧
  (∀ body, wp serves (handleRenewable s body) (λ _ m', confined s m m') m).
Proof.
  intros Hwf. unfold handlePrices, handleCapacity, handleRenewable.
  split_and!; intros body; (case_decide as Hr; [|by apply confined_refl]);
    (apply wps_decoded; [done|]); intros b; cbv zeta.
  - case_decide; [by apply confined_refl|].
    destruct (price_lines _) as [lines|e]; [|by apply confined_refl].
    eapply wps_then_reply; [..|by apply wps_upsertConfigMap]; [right; auto|done|done].
  - case_decide; [by apply confined_refl|].
    destruct (capacity_lines _) as [lines|e]; [|by apply confined_refl].
    eapply wps_then_reply; [..|by apply wps_upsertConfigMap]; [right; auto|done|done].
  - eapply wps_then_reply; [..|by apply wps_upsertConfigMap]; [right; auto|done|done].
Qed.

(** *** Handlers that read *)
Abbreviation still := (espares (λ _ : Key, True)).

Lemma still_hoist {E1 E2} {R1 : E1 → Type} {R2 : E2 → Type} (f : ∀ e, eff E2 R2 (R1 e)) {A}
    (p : eff E1 R1 A) : (∀ e, still (f e)) → still p → still (hoist f p).
Proof.
  intros Hf Hp. induction p as [a|r k IH|e k IH]; simpl in *; [done|..].
  - destruct Hp as [Hr Hk]. split; [done|]. intros x. by apply IH.
  - apply (espares_bind _ (f e) (λ x, hoist f (k x))); [apply Hf|]. intros x. by apply IH.
Qed.

Lemma GeoLookup_still c url ip : still (of_report (GeoLookup c url ip)).
Proof. apply still_hoist; [done|]. unfold GeoLookup. by repeat case_match. Qed.

Lemma Resolve_still b n ip : still (api (Resolve b n ip) : eff console_call console_answer (Res string)).
Proof. apply espares_api. unfold Resolve. by repeat case_match. Qed.

Lemma cache_loop_still p eps out l : still (cache_loop p eps out l).
Proof.
  revert out l. induction eps as [|ep eps IH]; intros out l; cbn [cache_loop]; [done|].
  destruct (_ || _); [apply IH|]. destruct (pb_cache p !! ep) as [s|]; [|apply IH].
  split; [done|]. intros t. simpl. destruct (_ <? _); apply IH.
Qed.

Lemma probe_samples_still n ep t l : still (probe_samples n ep t l).
Proof.
  revert l. induction n as [|n IH]; intros l; cbn [probe_samples]; [done|].
  intros dn. destruct dn; [done|]. intros x. apply IH.
Qed.

Lemma probe_all_still p eps ms : still (probe_all p eps ms).
Proof.
  revert ms. induction eps as [|ep eps IH]; intros ms; cbn [probe_all]; [done|].
  apply espares_bind; [|intros; apply IH]. unfold probeMedian.
  apply espares_bind; [apply probe_samples_still|by intros].
Qed.

Lemma MeasureAndPick_still p cands : still (of_probe (MeasureAndPick p cands)).
Proof.
  apply still_hoist; [done|]. unfold MeasureAndPick. apply espares_bind; [|by intros [q ms]].
  unfold Prober.Measure. apply espares_bind; [apply cache_loop_still|]. intros [out [|ep l]]; [done|].
  apply espares_bind; [apply probe_all_still|]. intros ms. by split.
Qed.

Lemma handleState_still s : still (handleState s).
Proof.
  unfold handleState. apply espares_bind.
  - unfold discoverLocation. apply espares_bind; [apply Resolve_still|]. intros [ip|e]; [|done].
    case_decide; [done|]. apply espares_bind; [apply GeoLookup_still|by intros].
  - intros [s' loc]. case_decide; by repeat (apply espares_bind; [by split|intros]).
Qed.

Lemma handleProbe_still s body : still (handleProbe s body).
Proof.
  unfold handleProbe. destruct (co_prober s) as [p|]; [|done].
  destruct body as [[|c cands]|e]; [done| |done].
  apply espares_bind; [by split|]. intros t.
  apply espares_bind; [apply MeasureAndPick_still|]. intros r.
  apply espares_bind; [by split|by intros].
Qed.

(** C27: Whatever request reaches the console, which asks nobody who they are,
    a consumer's console writes only the default ConsumerPolicy, the demo
    workload and ResourceRequests of its namespace, and of those it never
    changes or releases one it did not create itself; a provider's writes only
    its three ConfigMaps. *)
Theorem console_writes_confined {V} (X : V → ∀ c, console_answer c → V → Prop) s method path body m v :
  store_wf m →
  ewp serves X (handler s method path body) (λ _ m' _, confined s m m') m v.
Proof.
  intros Hwf.
  assert (∀ (p : eff console_call console_answer (ConsoleServer * ConsoleReply)), still p →
            ewp serves X p (λ _ m' _, confined s m m') m v) as Hstill.
  { intros p Hp. eapply ewp_mono; [|by apply (ewp_espares X (λ _, True))].
    intros a m' v' [Hwf' Hk]. split_and!; auto. }
  assert (∀ (p : prog ConsoleReply), wp serves p (λ _ m', confined s m m') m →
            ewp serves X (r ← api p; mret (s, r)) (λ _ m' _, confined s m m') m v) as Hkeep.
  { intros p Hp. apply ewp_bind, ewp_api. eapply wp_mono; [|exact Hp]. intros a m' Hm. by apply ewp_ret. }
  destruct (wps_provider_handlers s m Hwf) as (Hpr & Hca & Hre).
  pose proof (λ body, wps_handlePolicy s body m Hwf) as Hpo.
  pose proof (λ body, wps_handleWorkload s body m Hwf) as Hwo.
  pose proof (λ body, wps_handleReservation s body m Hwf) as Hrs.
  pose proof (handleState_still s) as Hst. pose proof (λ body, handleProbe_still s body) as Hpb.
  pose proof (confined_refl s m Hwf) as Hrefl.
  unfold handler. cbv zeta. repeat case_match; first
    [ by apply ewp_ret | by apply Hkeep | by apply Hstill ].
Qed.
End Confined.

(** ** What is set is what is used *)
Section Settings.
Context `{Platform} `{SignalJson} `{!PublisherFiles} `{!ConsoleJson} `{!ConsoleText}.

(** An object that is not on its way out. *)
Definition lasting {S T} `{!Resource S T} (ns n : string) (m : store) : Prop :=
  ∀ a : CR S T, objs m !! (res_kind (S:=S) (T:=T), ns, n) = Some (to_obj a) →
    m_DeletionTimestamp (cr_meta a) = None ∧ m_Finalizers (cr_meta a) = [].

Lemma put_or_drop_lasting {S T} `{!Resource S T} k (a : CR S T) m :
  m_DeletionTimestamp (cr_meta a) = None → put_or_drop k (to_obj a) m = put k (to_obj a) m.
Proof. intros E. unfold put_or_drop. by rewrite to_obj_meta, E. Qed.

Lemma wp_upsertConfigMap ns name key value (Q : option Err → store → Prop) m :
  store_wf m → lasting (S:=ConfigMapData) (T:=unit) ns name m →
  (∀ (a : ConfigMap) m', store_wf m' → objs m' = <[(KConfigMap, ns, name) := OConfig a]> (objs m) →
     cm_Data (cr_spec a) !! key = Some value → Q None m') →
  wp reliable (upsertConfigMap ns name key value) Q m.
Proof.
  intros Hwf Hlast HQ. unfold upsertConfigMap. apply wp_bind, wp_get; [done|..].
  - intros cm Hl Hns Hn. destruct (Hlast cm Hl) as [Hd _].
    assert (cr_key cm = (KConfigMap, ns, name)) as Hk by by rewrite <-Hns, <-Hn.
    apply wp_bind, (wp_update_current cm); [done|by rewrite Hk|done|done|].
    intros rv gen _ a' Hwf'. apply wp_ret. rewrite Hk in *.
    rewrite put_or_drop_lasting in * by done. eapply HQ; [done|done|]. apply lookup_insert_eq.
  - intros e Hn He. unfold IsNotFound. rewrite bool_decide_eq_true_2 by done.
    apply wp_bind, wp_create; [done|..].
    + intros rv uid t _ _ a' Hwf'. apply wp_ret. eapply HQ; [done|done|]. apply lookup_singleton_eq.
    + intros e' o Ho _. exfalso. change (objs m !! (KConfigMap, ns, name) = Some o) in Ho.
      change (objs m !! (KConfigMap, ns, name) = None) in Hn. congruence.
Qed.

(** *** Placement policy *)

(** The policy a request asks for; [None] removes it. *)
Definition asked (b : policyBody) : option (string * string) :=
  if decide (bp_Type b = "" ∨ bp_Type b = "None") then None else Some (bp_Type b, bp_UserPrompt b).

Definition policy_key (s : ConsoleServer) : Key := (KConsumerPolicy, co_ns s, consumerPolicyName).

Lemma wp_handlePolicy s b (Q : ConsoleReply → store → Prop) m :
  store_wf m → co_role s = RoleConsumer →
  lasting (S:=ConsumerPolicySpec) (T:=unit) (co_ns s) consumerPolicyName m →
  (asked b = None ∨ known_policy (bp_Type b) = true) →
  (∀ m', store_wf m' → (∀ k, k ≠ policy_key s → objs m' !! k = objs m !! k) →
     match asked b with
     | None => objs m' !! policy_key s = None
     | Some (t, prompt) => ∃ cp : ConsumerPolicy, objs m' !! policy_key s = Some (OPolicy cp) ∧
         pp_Type (cp_Placement (cr_spec cp)) = t ∧ cp_UserPrompt (cr_spec cp) = prompt
     end → Q ReplyOk m') →
  wp reliable (handlePolicy s (Ok b)) Q m.
Proof.
  intros Hwf Hr Hlast Hb HQ. unfold handlePolicy. rewrite decide_True by done. cbn [decoded]. cbv zeta.
  unfold asked in *. case_decide as Ht.
  - apply wp_bind, wp_bind. apply wp_delete; [done|..].
    + intros cur rv t Hl _ m' Hwf'. apply wp_ret, wp_ret. destruct (Hlast cur Hl) as [_ Hf].
      unfold m' in *. rewrite Hf in *. apply HQ; [done|..]; unfold drop; simpl.
      * intros k Hk. by apply lookup_delete_ne.
      * apply lookup_delete_eq.
    + intros e Hn He. apply wp_ret, wp_ret. unfold ignore_not_found, IsNotFound.
      rewrite bool_decide_eq_true_2 by done. apply HQ; [done|done|exact Hn].
  - destruct Hb as [?|Hk]; [done|]. rewrite Hk. apply wp_bind. unfold upsertConsumerPolicy.
    apply wp_bind, wp_get; [done|..].
    + intros cp Hl Hns Hn. destruct (Hlast cp Hl) as [Hd _].
      assert (cr_key cp = policy_key s) as Hkey by (unfold policy_key; by rewrite <-Hns, <-Hn).
      apply wp_bind, (wp_update_current cp); [done|by rewrite Hkey|done|done|].
      intros rv gen _ a' Hwf'. apply wp_ret, wp_ret. rewrite Hkey in *.
      rewrite put_or_drop_lasting in * by done. apply HQ; [done|..]; unfold put; simpl.
      * intros k Hk'. by apply lookup_insert_ne.
      * eexists. by rewrite lookup_insert_eq.
    + intros e Hn He. unfold IsNotFound. rewrite bool_decide_eq_true_2 by done.
      apply wp_bind, wp_create; [done|..].
      * intros rv uid t _ _ a' Hwf'. apply wp_ret, wp_ret. apply HQ; [done|..]; unfold put; simpl.
        -- intros k Hk'. by apply lookup_insert_ne.
        -- eexists. by rewrite lookup_insert_eq.
      * intros e' o Ho _. exfalso. change (objs m !! policy_key s = Some o) in Ho.
        change (objs m !! policy_key s = None) in Hn. congruence.
Qed.

Lemma lowest_policy_single (cp : ConsumerPolicy) l :
  cp ∈ l → (∀ q, q ∈ l → q = cp) → lowest_policy l = Some cp.
Proof.
  intros Hin Hall. destruct l as [|q l]; [by apply not_elem_of_nil in Hin|].
  assert (q = cp) as -> by (apply Hall; constructor). unfold lowest_policy. f_equal.
  revert Hall. generalize (cp :: l). intros l0. induction l0 as [|q l0 IH]; intros Ha; [done|].
  simpl. assert (q = cp) as -> by (apply Ha; constructor).
  destruct (GoStr.str_lt _ _); apply IH; intros q' Hq'; apply Ha; by constructor.
Qed.

(** An operator's choice of placement policy takes effect: once the console
    has answered ok, its page shows the policy and prompt that were set (or none
    after a removal), and the next heartbeat tells the Broker exactly that
    placement, provided no other ConsumerPolicy is stored beside the console's;
    nothing else is changed. *)
Theorem handlePolicy_takes_effect s h b m :
  store_wf m → co_role s = RoleConsumer →
  lasting (S:=ConsumerPolicySpec) (T:=unit) (co_ns s) consumerPolicyName m →
  (∀ cp : ConsumerPolicy, cp ∈ typed_list (co_ns s) m → cr_Name cp = consumerPolicyName) →
  (asked b = None ∨ known_policy (bp_Type b) = true) →
  he_hasClient h = true → he_namespace h = co_ns s →
  wp reliable
    (r ← handlePolicy s (Ok b); shown ← readPolicyAndPrompt (co_ns s); sent ← currentPlacement h;
     mret (r, shown, sent))
    (λ x m', x = (ReplyOk, default ("", "") (asked b), mkPolicy ∘ fst <$> asked b) ∧
       ∀ k, k ≠ policy_key s → objs m' !! k = objs m !! k) m.
Proof.
  intros Hwf Hr Hlast Honly Hb Hc Hns. apply wp_bind, wp_handlePolicy; [done..|].
  intros m' Hwf' Hk Hpol.
  assert (∀ cp : ConsumerPolicy, cp ∈ typed_list (co_ns s) m' →
            objs m' !! policy_key s = Some (OPolicy cp)) as Hcp.
  { intros cp [Hn Hl]%elem_of_typed_list; [|done].
    destruct (decide (cr_key cp = policy_key s)) as [E|E]; [by rewrite <-E|].
    exfalso. apply E. rewrite (Hk _ E) in Hl.
    assert (cr_Name cp = consumerPolicyName) as Hname
      by (apply Honly; apply elem_of_typed_list; [done|]; by split).
    unfold policy_key, cr_key. by rewrite Hn, Hname. }
  apply wp_bind. unfold readPolicyAndPrompt. apply wp_bind, wp_get; [done|..].
  - intros cp Hl Hcns Hcn. apply wp_ret. change (objs m' !! policy_key s = Some (OPolicy cp)) in Hl.
    destruct (asked b) as [[t prompt]|]; [|congruence].
    destruct Hpol as (cp' & Hl' & Ht & Hp). assert (cp' = cp) as -> by congruence.
    apply wp_bind. unfold currentPlacement. rewrite Hc, Hns. cbn [negb].
    apply wp_bind, wp_list. intros l Hlist. apply wp_ret, wp_ret. split; [|done].
    rewrite (lowest_policy_single cp l).
    + simpl. rewrite Hp. f_equal; [by rewrite Ht|].
      destruct (cp_Placement (cr_spec cp)) as [ty]. simpl in Ht. by rewrite Ht.
    + rewrite Hlist. apply elem_of_typed_list; [done|]. split; [done|].
      unfold cr_key. by rewrite Hcns, Hcn.
    + intros q Hq. rewrite Hlist in Hq. apply Hcp in Hq. congruence.
  - intros e Hn _. apply wp_ret. change (objs m' !! policy_key s = None) in Hn.
    destruct (asked b) as [[t prompt]|]; [destruct Hpol as (? & ? & _); congruence|].
    apply wp_bind. unfold currentPlacement. rewrite Hc, Hns. cbn [negb].
    apply wp_bind, wp_list. intros l Hlist. apply wp_ret, wp_ret. split; [|done].
    destruct l as [|q l]; [done|]. exfalso.
    assert (q ∈ typed_list (co_ns s) m') as Hq by (rewrite <-Hlist; constructor).
    apply Hcp in Hq. congruence.
Qed.
(** *** Capacity caps *)

(** The scalars the console writes into the capacity file, and the line of one. *)
Inductive yaml_scalar := YInt (n : Z) | YText (s : string).
Definition scalar_text (v : yaml_scalar) : string :=
  match v with YInt n => GoStr.fmt_d n | YText s => s end.
Definition render_line (e : string * yaml_scalar) : string :=
  e.1 +:+ ": " +:+ match e.2 with YInt n => GoStr.fmt_d n | YText s => GoStr.fmt_q s end.
Definition plain (e : string * yaml_scalar) : Prop :=
  e.1 ∈ ["cpu"; "memory"] ∧
  match e.2 with YInt n => 0 ≤ n ≤ 100 | YText s => ∃ q, ParseQuantity s = Ok q end.

(** What YAML says of such a file: a block mapping of small integers and quoted
    quantities reads back as written. *)
Class YamlLaws : Prop := {
  yaml_mapping : ∀ l : list (string * yaml_scalar),
    NoDup l.*1 → Forall plain l → l ≠ [] →
    unmarshal_caps (joinLines (render_line <$> l)) =
      Ok (list_to_map ((λ e, (e.1, scalar_text e.2)) <$> l))
}.

(** The rule an operator's value stands for; [None] if it is blank or no cap. *)
Definition wanted (val : string) : option capRule :=
  if decide (val = "") then None
  else match parseCapacityPercent val with
       | Some (Some n) => Some (CapPercent (clampPercent n))
       | Some None => None
       | None => match ParseQuantity val with Ok q => Some (CapFixed q) | Fail _ => None end
       end.

Definition capacity_inputs (b : pairBody) : list (string * string) :=
  [("cpu", TrimSpace (bc_CPU b)); ("memory", TrimSpace (bc_Memory b))].

Definition wanted_caps (kvs : list (string * string)) : list (string * capRule) :=
  omap (λ kv, pair kv.1 <$> wanted kv.2) kvs.

Lemma percent_reads_back n : 0 ≤ n ≤ 100 → parse_cap (GoStr.fmt_d n) = Some (CapPercent n).
Proof.
  intros Hn.
  assert (forallb (λ n, String.eqb (TrimSpace (GoStr.fmt_d n)) (GoStr.fmt_d n) &&
                        negb (String.eqb (GoStr.fmt_d n) "") &&
                        match parsePercent (GoStr.fmt_d n) with Some k => k =? n | None => false end)
            (seqZ 0 101) = true) as Hall by (vm_compute; reflexivity).
  rewrite forallb_forall in Hall. specialize (Hall n).
  rewrite <-list_elem_of_In, elem_of_seqZ in Hall. specialize (Hall ltac:(lia)).
  apply andb_prop in Hall as [[E1%String.eqb_eq E2]%andb_prop E3].
  apply negb_true_iff, String.eqb_neq in E2.
  destruct (parsePercent (GoStr.fmt_d n)) as [k|] eqn:E4; [|done]. apply Z.eqb_eq in E3 as ->.
  unfold parse_cap. cbv zeta. rewrite E1, decide_False by done. by rewrite E4.
Qed.

(** What is not a percentage to the console is none to the agent. *)
Lemma quantity_reads_back v q :
  TrimSpace v = v → v ≠ "" → parseCapacityPercent v = None → ParseQuantity v = Ok q →
  parse_cap v = Some (CapFixed q).
Proof.
  intros Ht Hv Hp Hq. unfold parse_cap. cbv zeta. rewrite Ht, decide_False by done.
  unfold parseCapacityPercent in Hp. unfold parsePercent.
  destruct (CutSuffix v "%"); [done|]. destruct (Atoi v); [done|]. simpl. by rewrite Hq.
Qed.

Lemma capacityLine_spec name v :
  name ∈ ["cpu"; "memory"] → TrimSpace v = v → v ≠ "" →
  match capacityLine name v with
  | Ok line => ∃ sc rule, line = render_line (name, sc) ∧ plain (name, sc) ∧
      parse_cap (scalar_text sc) = Some rule ∧ wanted v = Some rule
  | Fail _ => wanted v = None
  end.
Proof.
  intros Hname Ht Hv. unfold capacityLine, wanted. rewrite decide_False by done.
  destruct (parseCapacityPercent v) as [[n|]|] eqn:Hp; [|done|].
  - assert (0 ≤ clampPercent n ≤ 100) as Hc by (unfold clampPercent; repeat case_match; fed_bools; lia).
    exists (YInt (clampPercent n)), (CapPercent (clampPercent n)).
    split_and!; [done|by split|by apply percent_reads_back|done].
  - destruct (ParseQuantity v) as [q|e] eqn:Hq; [|done]. exists (YText v), (CapFixed q).
    split_and!; [done|split; [done|by exists q]|by apply quantity_reads_back|done].
Qed.

Lemma capacity_lines_spec kvs :
  Forall (λ kv, kv.1 ∈ ["cpu"; "memory"] ∧ TrimSpace kv.2 = kv.2) kvs → NoDup kvs.*1 →
  match capacity_lines kvs with
  | Ok lines => ∃ es : list (string * (yaml_scalar * capRule)),
      lines = render_line <$> ((λ e, (e.1, e.2.1)) <$> es) ∧ NoDup es.*1 ∧
      Forall plain ((λ e, (e.1, e.2.1)) <$> es) ∧
      Forall (λ e, parse_cap (scalar_text e.2.1) = Some e.2.2) es ∧
      wanted_caps kvs = (λ e, (e.1, e.2.2)) <$> es ∧ es.*1 ⊆ kvs.*1 ∧
      (es = [] → Forall (λ kv, kv.2 = "") kvs)
  | Fail _ => ∃ kv, kv ∈ kvs ∧ kv.2 ≠ "" ∧ wanted kv.2 = None
  end.
Proof.
  induction 1 as [|[name v] kvs [Hname Ht] _ IH]; intros Hnd; cbn [capacity_lines].
  { exists []. split_and!; try done; constructor. }
  rewrite fmap_cons in Hnd. apply NoDup_cons in Hnd as [Hni Hnd]. specialize (IH Hnd). simpl in *.
  case_decide as Hv.
  { destruct (capacity_lines kvs) as [lines|e].
    - destruct IH as (es & -> & I1 & I2 & I3 & I4 & I5 & I6). exists es.
      split_and!; [done..| | |].
      + unfold wanted_caps in *. cbn. unfold wanted at 1. by rewrite decide_True.
      + intros n Hn. apply elem_of_cons. right. by apply I5.
      + intros He. constructor; [done|by apply I6].
    - destruct IH as (kv & Hin & Hne & Hw). exists kv. split_and!; [by constructor|done|done]. }
  pose proof (capacityLine_spec name v Hname Ht Hv) as Hl.
  destruct (capacityLine name v) as [line|e];
    [|exists (name, v); split_and!; [by constructor|done|done]].
  destruct Hl as (sc & rule & -> & Hpl & Hparse & Hw).
  destruct (capacity_lines kvs) as [lines|e].
  - destruct IH as (es & -> & I1 & I2 & I3 & I4 & I5 & _). exists ((name, (sc, rule)) :: es).
    cbn [fmap list_fmap fst snd]. split_and!; [done|..|done].
    + constructor; [|done]. intros Hin. apply Hni, I5, Hin.
    + by constructor.
    + by constructor.
    + unfold wanted_caps in *. cbn. rewrite Hw. cbn. f_equal. exact I4.
    + intros n Hn. apply elem_of_cons in Hn as [->|Hn]; apply elem_of_cons; [by left|right; by apply I5].
  - destruct IH as (kv & Hin & Hne & Hw'). exists kv. split_and!; [by constructor|done|done].
Qed.

Lemma joinLines_visible (l : list (string * yaml_scalar)) :
  l ≠ [] → Forall plain l → TrimSpace (joinLines (render_line <$> l)) ≠ "".
Proof.
  intros Hne Hl. destruct Hl as [|[n v] l [Hn _] _]; [done|]. simpl in Hn.
  repeat (apply elem_of_cons in Hn as [->|Hn]); [..|by apply not_elem_of_nil in Hn];
    destruct l; apply TrimSpace_solid; reflexivity.
Qed.

Lemma omap_list_to_map (es : list (string * (yaml_scalar * capRule))) :
  NoDup es.*1 → Forall (λ e, parse_cap (scalar_text e.2.1) = Some e.2.2) es →
  omap parse_cap (list_to_map ((λ e, (e.1, scalar_text e.2)) <$> ((λ e, (e.1, e.2.1)) <$> es)) : gmap string string) =
  list_to_map ((λ e, (e.1, e.2.2)) <$> es).
Proof.
  intros _. induction 1 as [|[n [sc rule]] es Hp _ IH]; [apply omap_empty|].
  cbn [fmap list_fmap list_to_map foldr fst snd] in *. simpl in Hp. rewrite <-IH.
  by apply omap_insert_Some.
Qed.

(** The provider's file system once the kubelet has projected [raw] into the
    capacity file. *)
Definition mounted (p : Publisher) (raw : string) (v : unit) (c : report_call) :
    report_answer c → unit → Prop :=
  match c with
  | ReadFile path => λ x _, path = pub_capacityFile p → x = Ok raw
  | _ => λ _ _, True
  end.

End Settings.

(** ** A concrete console *)
Module ConsoleWitness.
#[local] Existing Instance MilliPlatform.platform.
#[local] Instance signal_json : SignalJson :=
  {| decode_carbon := λ _, Ok fzero; decode_forecast := λ _, Ok [];
     decode_geo := λ _, Fail (errors_New "EOF") |}.

(** A reader of the capacity file: one "name: value" line per resource, the value
    a number or the one quantity this parser knows, in quotes. *)
Fixpoint lines_of (s : string) : list string :=
  match s with
  | EmptyString => []
  | String c s' =>
      if Ascii.eqb c (Ascii.ascii_of_nat 10) then EmptyString :: lines_of s'
      else match lines_of s' with [] => [String c EmptyString] | w :: ws => String c w :: ws end
  end.

Fixpoint one_line (s : string) : bool :=
  match s with
  | EmptyString => true
  | String c s' => negb (Ascii.eqb c (Ascii.ascii_of_nat 10)) && one_line s'
  end.

Definition parse_line (line : string) : option (string * string) :=
  let value v := if String.eqb v (GoStr.fmt_q "8Gi") then "8Gi" else v in
  if String.prefix "cpu: " line then
    Some ("cpu", value (String.substring 5 (String.length line - 5) line))
  else if String.prefix "memory: " line then
    Some ("memory", value (String.substring 8 (String.length line - 8) line))
  else None.

#[local] Instance files : PublisherFiles :=
  {| unmarshal_prices := λ _, Ok ∅;
     unmarshal_caps := λ data, Ok (list_to_map (omap parse_line (lines_of data)));
     unmarshal_renewable := λ _, Ok false;
     ParseQuantity := λ s, if String.eqb s "8Gi" then Ok (NewQuantity (8 * 1024 * 1024 * 1024))
                           else Fail (errors_New "quantities must match the regular expression") |}.
#[local] Instance console_text : ConsoleText :=
  {| q_String := λ _, ""; atoi_error := λ _, "invalid syntax";
     unmarshal_values := λ _, Ok ∅ |}.
#[local] Instance console_json : ConsoleJson :=
  {| decode_policy_body := λ b, Ok (mkPolicyBody b ""); decode_workload_body := λ b, Ok (mkWorkloadBody b);
     decode_reservation_body := λ b, Ok (mkReservationBody "delete" b "" "" "" "" 0);
     decode_pair_body := λ b, Ok (mkPairBody b ""); decode_renewable_body := λ _, Ok true;
     decode_probe_body := λ _, Ok [] |}.

Lemma lines_of_app a b : one_line a = true → lines_of (a +:+ newline +:+ b) = a :: lines_of b.
Proof.
  induction a as [|c a IH]; [done|]. simpl. intros [Hc Ha]%andb_prop.
  change (String c a +:+ newline +:+ b) with (String c (a +:+ newline +:+ b)). cbn [lines_of].
  apply negb_true_iff in Hc. rewrite Hc, IH by done. done.
Qed.

Lemma lines_of_join l :
  Forall (λ x, one_line x = true) l → lines_of (joinLines l) = l.
Proof.
  induction 1 as [|x l Hx Hl IH]; [done|]. destruct l as [|y l].
  - change (joinLines [x]) with (x +:+ newline).
    exact (lines_of_app x "" Hx).
  - assert (joinLines (x :: y :: l) = x +:+ newline +:+ joinLines (y :: l)) as ->.
    { unfold joinLines. cbn [String.concat]. by rewrite !append_assoc. }
    rewrite lines_of_app by done. by rewrite IH.
Qed.

(** The lines the console writes are lines, and are read back. *)
Lemma plain_line e :
  plain e → one_line (render_line e) = true ∧ parse_line (render_line e) = Some (e.1, scalar_text e.2).
Proof.
  destruct e as [name v]. intros [Hn Hv]. simpl in Hn, Hv.
  set (ok e := one_line (render_line e) &&
    match parse_line (render_line e) with
    | Some (n, t) => String.eqb n e.1 && String.eqb t (scalar_text e.2) | None => false end).
  assert (ok (name, v) = true) as Hok.
  { assert (forallb (λ n, forallb ok ((pair n ∘ YInt) <$> seqZ 0 101) && ok (n, YText "8Gi"))
              ["cpu"; "memory"] = true) as Hall by (vm_compute; reflexivity).
    rewrite forallb_forall in Hall. specialize (Hall name).
    rewrite <-list_elem_of_In in Hall. specialize (Hall Hn). apply andb_prop in Hall as [Hi Ht].
    destruct v as [n|s]; simpl in Hv.
    - rewrite forallb_forall in Hi. apply Hi, list_elem_of_In, list_elem_of_fmap. exists n.
      split; [done|]. apply elem_of_seqZ. lia.
    - destruct Hv as [q Hq]. destruct (String.eqb_spec s "8Gi"); [by subst|done]. }
  apply andb_prop in Hok as [Hone Hp]. split; [done|].
  destruct (parse_line (render_line (name, v))) as [[n t]|]; [|done].
  apply andb_prop in Hp as [->%String.eqb_eq ->%String.eqb_eq]. done.
Qed.

#[local] Instance yaml_laws : YamlLaws.
Proof.
  split. intros l _ Hl _. simpl. do 2 f_equal. rewrite lines_of_join.
  - induction Hl as [|e l He _ IH]; [done|]. rewrite !fmap_cons. cbn [omap list_omap].
    destruct (plain_line e He) as [_ ->]. by f_equal.
  - induction Hl as [|e l He _ IH]; [constructor|]. constructor; [|done]. by apply plain_line.
Qed.

Definition provider_console : ConsoleServer :=
  mkConsole RoleProvider "agent" "prov" "liqo-prov" "" "" "" NewGeoClient None.
Definition consumer_console : ConsoleServer :=
  mkConsole RoleConsumer "agent" "cons" "liqo-cons" "" "" "" NewGeoClient None.

Definition own_request : ResourceRequest :=
  mkCR (mkMeta "by-hand" "agent" "u1" 3 1 0 None [] ∅ ∅ None) (mkRRSpec ∅ "" 0 None) rr_status_zero.
Definition old_policy : ConsumerPolicy :=
  mkCR (mkMeta consumerPolicyName "agent" "u2" 4 1 0 None [] ∅ ∅ None)
    (mkPolicySpec (mkPolicy PlacementStrategyPrice) "" None) tt.
Definition start : store := store_of [ORR own_request; OPolicy old_policy] 9.

Lemma start_wf : store_wf start.
Proof.
  apply store_of_wf; [repeat constructor; vm_compute; discriminate|].
  apply NoDup_cons_2; [set_solver|apply NoDup_singleton].
Qed.

(** A request to release a ResourceRequest somebody wrote by hand. *)
Lemma console_writes_confined_witness :
  ewp serves (λ (_ : unit) _ _ _, True) (handler consumer_console "POST" "/api/reservation" "by-hand")
    (λ _ m' _, objs m' !! (KResourceRequest, "agent", "by-hand") = Some (ORR own_request)) start ().
Proof.
  eapply ewp_mono; [|exact (console_writes_confined (λ (_ : unit) _ _ _, True) consumer_console "POST"
    "/api/reservation" "by-hand" start () start_wf)].
  intros a m' v' (_ & _ & Hk). rewrite (Hk _ own_request); reflexivity.
Defined.

Definition beater : Heartbeater :=
  mkHeartbeater "cons" "liqo-cons" true "agent" "" "" "" NewGeoClient false false
    DefaultBeatInterval true None.

Lemma handlePolicy_takes_effect_witness :
  wp reliable
    (r ← handlePolicy consumer_console (Ok (mkPolicyBody PlacementStrategyEco "green"));
     shown ← readPolicyAndPrompt "agent"; sent ← currentPlacement beater; mret (r, shown, sent))
    (λ x _, x = (ReplyOk, (PlacementStrategyEco, "green"), Some (mkPolicy PlacementStrategyEco))) start.
Proof.
  eapply wp_mono; [|apply (handlePolicy_takes_effect consumer_console beater
    (mkPolicyBody PlacementStrategyEco "green") start start_wf)]; try reflexivity.
  - by intros x m' [-> _].
  - intros a E. assert (old_policy = a) as <- by (injection E; auto). done.
  - intros cp [_ Hl]%elem_of_typed_list; [|exact start_wf].
    unfold start, store_of in Hl. simpl in Hl.
    apply lookup_insert_Some in Hl as [[_ ?]|[_ Hl]]; [done|].
    apply lookup_insert_Some in Hl as [[Hk E]|[_ Hl]]; [|by rewrite lookup_empty in Hl].
    injection Hk. auto.
  - right. reflexivity.
Defined.

Definition publisher : Publisher :=
  mkPublisher "prov" "liqo-prov" "" "capacity.yaml" "" "" "" "" "" 0 (NewEcoClientWithTTL 0)
    NewGeoClient DefaultPublishInterval true.

End ConsoleWitness.
