(* ===== verification/Listeners.v ===== *)
(** * Listeners: mutual TLS, serving and draining
      (internal/broker/api: tls.go, runnable.go, dashboard_runnable.go;
       internal/grpcserver: tls.go, server.go New and Run; internal/agent: client/tls.go,
       and the Run and Serve loops of localapi, console and health)

    How each binary builds its TLS configuration from files, assembles its
    server and serves until it is told to stop.  The certificate files and their
    PEM contents ([CertFiles]: crypto/tls, crypto/x509, os) and the handshake
    ([Handshake]) are parameters; what a listener and the scheduler do (binding,
    serving, which case of a [select] fires, a graceful shutdown) are questions
    to the outside.  The write and read timeouts of [http.Server] are recorded
    and have no further effect here. *)
From stdpp Require Import base gmap strings list.
From Stdlib Require Import ZArith Lia.
From S2P Require Import Prelude GoText ApiTypes ConsumerTypes Kube Effects Chunk Wire AgentClient.
From S2P Require Import Registry Placement ReservationApi InstructionsApi AdvertisementApi.
From S2P Require Import LocalApi GrpcServer Poller Gateway GatewayProofs Dashboard.

Open Scope Z_scope.

(** ** [path/filepath] *)

(** One segment of [filepath.Clean]; [acc] is the path so far, last segment first. *)
Definition clean_segment (rooted : bool) (acc : list string) (w : string) : list string :=
  if decide (w = "" ∨ w = ".") then acc
  else if decide (w = "..") then
    match acc with
    | top :: rest => if decide (top = "..") then ".." :: acc else rest
    | [] => if rooted then [] else [".."]
    end
  else w :: acc.

Definition filepath_Clean (path : string) : string :=
  if decide (path = "") then "."
  else
    let '(w, ws) := split_slash path in
    let rooted := String.prefix "/" path in
    let out := String.concat "/" (reverse (foldl (clean_segment rooted) [] (w :: ws))) in
    if rooted then "/" +:+ out else if decide (out = "") then "." else out.

(** [filepath.Join] of two elements: empty ones are left out. *)
Definition filepath_Join (dir name : string) : string :=
  if decide (dir = "") then (if decide (name = "") then "" else filepath_Clean name)
  else if decide (name = "") then filepath_Clean dir
  else filepath_Clean (dir +:+ "/" +:+ name).

(** ** TLS configurations *)
Class CertFiles := {
  Certificate : Type;
  CertPool : Type;
  LoadX509KeyPair : string → string → Res Certificate;
  os_ReadFile : string → Res string;
  AppendCertsFromPEM : string → option CertPool     (* None: no certificate in it *)
}.

Inductive ClientAuthType :=
| NoClientCert
| RequestClientCert
| RequireAnyClientCert
| VerifyClientCertIfGiven
| RequireAndVerifyClientCert.

Definition VersionTLS13 : Z := 772.

Section Tls.
Context `{CertFiles}.

(** [tls.Config], with the fields the program sets. *)
Record tls_Config := mkTlsConfig {
  tl_Certificates : list Certificate;
  tl_ClientAuth : ClientAuthType;
  tl_ClientCAs : option CertPool;
  tl_RootCAs : option CertPool;
  tl_MinVersion : Z;
  tl_ServerName : string
}.

Record TLSConfig := mkTLS {
  tls_CertFile : string;
  tls_KeyFile : string;
  tls_ClientCAFile : string;
  tls_MinVersion : Z
}.

Definition Validate (c : TLSConfig) : option Err :=
  if decide (tls_CertFile c = "") then Some (errors_New "tls: cert-file is required")
  else if decide (tls_KeyFile c = "") then Some (errors_New "tls: key-file is required")
  else if decide (tls_ClientCAFile c = "") then
    Some (errors_New "tls: client-ca-file is required (mTLS is mandatory)")
  else None.

Definition min_version (v : Z) : Z := if v =? 0 then VersionTLS13 else v.

Definition BuildServerTLSConfig (c : TLSConfig) : Res tls_Config :=
  match Validate c with
  | Some e => Fail e
  | None =>
      match LoadX509KeyPair (tls_CertFile c) (tls_KeyFile c) with
      | Fail e => Fail (wrapf ("tls: loading server keypair (cert=" +:+ GoStr.fmt_q (tls_CertFile c)
                     +:+ " key=" +:+ GoStr.fmt_q (tls_KeyFile c) +:+ ")") e)
      | Ok serverCert =>
          match os_ReadFile (tls_ClientCAFile c) with
          | Fail e => Fail (wrapf ("tls: reading client-ca file " +:+
                         GoStr.fmt_q (tls_ClientCAFile c)) e)
          | Ok caBytes =>
              match AppendCertsFromPEM caBytes with
              | None => Fail (errors_New ("tls: client-ca file " +:+
                          GoStr.fmt_q (tls_ClientCAFile c) +:+ " contains no PEM certificates"))
              | Some clientCAs =>
                  Ok (mkTlsConfig [serverCert] RequireAndVerifyClientCert (Some clientCAs) None
                        (min_version (tls_MinVersion c)) "")
              end
          end
      end
  end.

(** The agents' side (client/tls.go); [ClientAuth] is the zero value there. *)
Record ClientTLSConfig := mkClientTLS {
  ct_CertFile : string;
  ct_KeyFile : string;
  ct_BrokerCAFile : string;
  ct_MinVersion : Z;
  ct_ServerName : string
}.

Definition client_Validate (c : ClientTLSConfig) : option Err :=
  if decide (ct_CertFile c = "") then Some (errors_New "tls: cert-file is required")
  else if decide (ct_KeyFile c = "") then Some (errors_New "tls: key-file is required")
  else if decide (ct_BrokerCAFile c = "") then
    Some (errors_New "tls: broker-ca-file is required (mTLS is mandatory)")
  else None.

Definition BuildClientTLSConfig (c : ClientTLSConfig) : Res tls_Config :=
  match client_Validate c with
  | Some e => Fail e
  | None =>
      match LoadX509KeyPair (ct_CertFile c) (ct_KeyFile c) with
      | Fail e => Fail (wrapf ("tls: loading client keypair (cert=" +:+ GoStr.fmt_q (ct_CertFile c)
                     +:+ " key=" +:+ GoStr.fmt_q (ct_KeyFile c) +:+ ")") e)
      | Ok clientCert =>
          match os_ReadFile (ct_BrokerCAFile c) with
          | Fail e => Fail (wrapf ("tls: reading broker-ca file " +:+
                         GoStr.fmt_q (ct_BrokerCAFile c)) e)
          | Ok caBytes =>
              match AppendCertsFromPEM caBytes with
              | None => Fail (errors_New ("tls: broker-ca file " +:+
                          GoStr.fmt_q (ct_BrokerCAFile c) +:+ " contains no PEM certificates"))
              | Some rootCAs =>
                  Ok (mkTlsConfig [clientCert] NoClientCert None (Some rootCAs)
                        (min_version (ct_MinVersion c)) (ct_ServerName c))
              end
          end
      end
  end.

(** The gRPC server's (grpcserver/tls.go). *)
Record GrpcTLSConfig := mkGrpcTLS {
  gt_CertDir : string;
  gt_CertName : string;
  gt_KeyName : string;
  gt_CAName : string;
  gt_MinVersion : Z
}.

Definition grpc_Validate (c : GrpcTLSConfig) : option Err :=
  if decide (gt_CertDir c = "") then Some (errors_New "grpcserver: TLS.CertDir is required") else None.

Definition grpc_orDefault (v def : string) : string := if decide (v = "") then def else v.

Definition grpc_Build (c : GrpcTLSConfig) : Res tls_Config :=
  match grpc_Validate c with
  | Some e => Fail e
  | None =>
      let certName := grpc_orDefault (gt_CertName c) "tls.crt" in
      let keyName := grpc_orDefault (gt_KeyName c) "tls.key" in
      let caName := grpc_orDefault (gt_CAName c) "ca.crt" in
      match LoadX509KeyPair (filepath_Join (gt_CertDir c) certName)
              (filepath_Join (gt_CertDir c) keyName) with
      | Fail e => Fail (wrapf "grpcserver: load server keypair" e)
      | Ok serverCert =>
          match os_ReadFile (filepath_Join (gt_CertDir c) caName) with
          | Fail e => Fail (wrapf "grpcserver: read ca bundle" e)
          | Ok caBytes =>
              match AppendCertsFromPEM caBytes with
              | None => Fail (errors_New ("grpcserver: ca bundle " +:+
                          GoStr.fmt_q (filepath_Join (gt_CertDir c) caName) +:+ " has no PEM certs"))
              | Some clientCAs =>
                  Ok (mkTlsConfig [serverCert] RequireAndVerifyClientCert (Some clientCAs) None
                        (min_version (gt_MinVersion c)) "")
              end
          end
      end
  end.
End Tls.

(** ** Serving *)

(** How a serve loop ended. *)
Inductive ServeEnd :=
| ServeNil
| ServerClosed                       (* http.ErrServerClosed *)
| ServerStopped                      (* grpc.ErrServerStopped *)
| ServeError (e : Err).

Definition serve_err (x : ServeEnd) : option Err :=
  match x with
  | ServeNil => None
  | ServerClosed => Some (errors_New "http: Server closed")
  | ServerStopped => Some (errors_New "grpc: the server has been stopped")
  | ServeError e => Some e
  end.

(** What the goroutine of [Start] puts into its channel. *)
Definition latched (x : ServeEnd) : option Err :=
  match x with ServerClosed => None | _ => serve_err x end.

(** [fmt.Errorf] with [%w], which prints a nil error too. *)
Definition wrapw (msg : string) (e : option Err) : Err :=
  match e with Some e => wrapf msg e | None => errors_New (msg +:+ ": %!w(<nil>)") end.

Definition nonpos_default (d dflt : Duration) : Duration := if d <=? 0 then dflt else d.

Section Listeners.
Context `{Platform} `{CertFiles}.

Inductive listen_call :=
| NetListen (addr : string)                           (* net.Listen *)
| GoServe (addr : string) (tls : option tls_Config)   (* the goroutine that serves *)
| SelectStop                                          (* None: ctx.Done fired first *)
| Shutdown (timeout : Duration)                       (* srv.Shutdown under that deadline *)
| CloseServer                                         (* srv.Close *)
| GracefulStop (timeout : Duration)                   (* true: done before time.After *)
| StopServer                                          (* grpcSrv.Stop *)
| AwaitServe                                          (* the serve loop's end *)
| AwaitShutdown (timeout : Duration).                 (* what the goroutine behind ctx.Done got *)

Definition listen_answer (c : listen_call) : Type :=
  match c with
  | NetListen _ | Shutdown _ | AwaitShutdown _ => option Err
  | GoServe _ _ | CloseServer | StopServer => unit
  | SelectStop => option ServeEnd
  | GracefulStop _ => bool
  | AwaitServe => ServeEnd
  end.

Abbreviation listen := (eff listen_call listen_answer).
Definition listen_ask (c : listen_call) : listen (listen_answer c) := ask c.

(** The loop of [Runnable.Start] and [DashboardRunnable.Start]; [name] is the
    prefix of their errors. *)
Definition serve_until_done (name bind : string) (tls : option tls_Config) (shutdown : Duration) :
    listen (option Err) :=
  _ ← listen_ask (GoServe bind tls);
  x ← listen_ask SelectStop;
  match (x : option ServeEnd) with
  | None =>
      e ← listen_ask (Shutdown shutdown);
      match (e : option Err) with
      | Some e =>
          _ ← listen_ask CloseServer;
          mret (Some (wrapf (name +:+ ": graceful shutdown") e))
      | None =>
          y ← listen_ask AwaitServe;
          mret (wrapf (name +:+ ": serve") <$> latched y)
      end
  | Some y => mret (Some (wrapw (name +:+ ": serve") (latched y)))
  end.

(** [localapi.Server.Run], [console.Server.Run] and [Probe.Serve]. *)
Definition serve_plain (bind : string) (shutdown : Duration) : listen (option Err) :=
  _ ← listen_ask (GoServe bind None);
  y ← listen_ask AwaitServe;
  match (y : ServeEnd) with
  | ServerClosed => listen_ask (AwaitShutdown shutdown)
  | _ => mret (serve_err y)
  end.

Definition localapi_Run (bind : string) (shutdownTimeout : Duration) : listen (option Err) :=
  serve_plain bind (nonpos_default shutdownTimeout (5 * Second)).
Definition console_Run (bind : string) (shutdownTimeout : Duration) : listen (option Err) :=
  serve_plain bind (nonpos_default shutdownTimeout (5 * Second)).
Definition probe_Serve (addr : string) : listen (option Err) := serve_plain addr (3 * Second).

(** The probe's endpoints: status and body; [reason] prints why the gate is
    closed, [encode] the JSON object. *)
Definition StatusServiceUnavailable : Z := 503.
Definition handleLive : Z * string :=
  (200, "{" +:+ GoStr.fmt_q "status" +:+ ":" +:+ GoStr.fmt_q "ok" +:+ "}").
Definition handleReady (reason : NotReady → string) (encode : list (string * string) → string)
    (now : Time) (p : Probe) : Z * string :=
  match Ready now p with
  | Some why =>
      (StatusServiceUnavailable, encode [("status", "unavailable"); ("reason", reason why)])
  | None => (200, "{" +:+ GoStr.fmt_q "status" +:+ ":" +:+ GoStr.fmt_q "ready" +:+ "}")
  end.

(** ** The Broker's listeners *)
Context `{!RateLimit} `{!BrokerJson} `{GoRuntime} `{!DashboardPage}.

Record http_Server := mkHttpServer {
  hs_Addr : string;
  hs_Handler : Handler;
  hs_TLSConfig : option tls_Config;
  hs_ReadHeaderTimeout : Duration;
  hs_ReadTimeout : Duration;
  hs_WriteTimeout : Duration;
  hs_IdleTimeout : Duration
}.

Record RunnableOptions := mkRunnableOptions {
  ro_BindAddress : string;
  ro_TLS : TLSConfig;
  ro_ShutdownTimeout : Duration;
  ro_hasClient : bool;
  ro_Namespace : string;
  ro_Sizer : option Sizer;
  ro_ReservationTimeout : Duration
}.

Record Runnable := mkRunnable {
  ru_server : Server;
  ru_httpSrv : http_Server;
  ru_bindAddr : string;
  ru_shutdown : Duration
}.

(** A constructor's result: a value, an error, or a panic. *)
Inductive Built (A : Type) := Built_ok (a : A) | Built_err (e : Err) | Built_panic.
Arguments Built_ok {A} _.
Arguments Built_err {A} _.
Arguments Built_panic {A}.

Definition NewRunnable (opts : RunnableOptions) : Built Runnable :=
  match BuildServerTLSConfig (ro_TLS opts) with
  | Fail e => Built_err (wrapf "broker api" e)
  | Ok tlsCfg =>
      let bind := if decide (ro_BindAddress opts = "") then ":8443" else ro_BindAddress opts in
      let shutdown := nonpos_default (ro_ShutdownTimeout opts) (15 * Second) in
      if negb (ro_hasClient opts) then Built_panic
      else
        match NewServer (ro_Namespace opts) (ro_Sizer opts) (ro_ReservationTimeout opts) with
        | None => Built_panic
        | Some srv =>
            Built_ok (mkRunnable srv
              (mkHttpServer bind (broker_serve srv) (Some tlsCfg) (5 * Second) (30 * Second)
                 (30 * Second) (120 * Second)) bind shutdown)
        end
  end.

Definition Start (r : Runnable) : listen (option Err) :=
  serve_until_done "broker api" (hs_Addr (ru_httpSrv r)) (hs_TLSConfig (ru_httpSrv r)) (ru_shutdown r).

Definition NeedLeaderElection : bool := true.

Record DashboardRunnable := mkDashboardRunnable {
  dr_httpSrv : http_Server;
  dr_bindAddr : string;
  dr_shutdown : Duration
}.

Definition NewDashboardRunnableFromServer (srv : option Server) (bindAddress : string)
    (shutdownTimeout : Duration) : Res DashboardRunnable :=
  match srv with
  | None => Fail (errors_New "broker dashboard: server is required")
  | Some srv =>
      let bind := if decide (bindAddress = "") then ":9444" else bindAddress in
      Ok (mkDashboardRunnable
            (mkHttpServer bind (dashboard_serve srv) None (5 * Second) (30 * Second) (30 * Second)
               (120 * Second)) bind (nonpos_default shutdownTimeout (15 * Second)))
  end.

Definition dashboard_Start (r : DashboardRunnable) : listen (option Err) :=
  serve_until_done "broker dashboard" (hs_Addr (dr_httpSrv r)) None (dr_shutdown r).

(** ** The gRPC server's listener *)
Definition DefaultShutdownTimeout : Duration := 5 * Second.

Record GrpcListener := mkGrpcListener {
  gl_BindAddress : string;
  gl_tls : tls_Config;
  gl_shutdown : Duration;
  gl_server : GrpcServer
}.

Definition NewGrpcServer (bind : string) (tls : GrpcTLSConfig) (hasAgent : bool)
    (shutdownTimeout : Duration) : Res GrpcListener :=
  if decide (bind = "") then Fail (errors_New "grpcserver: BindAddress is required")
  else
    match grpc_Build tls with
    | Fail e => Fail (wrapf "grpcserver" e)
    | Ok tlsCfg =>
        Ok (mkGrpcListener bind tlsCfg (nonpos_default shutdownTimeout DefaultShutdownTimeout)
              (mkGrpcServer hasAgent None zero_time))
    end.

Definition grpc_Run (s : GrpcListener) : listen (option Err) :=
  l ← listen_ask (NetListen (gl_BindAddress s));
  match (l : option Err) with
  | Some e => mret (Some (wrapf ("grpcserver: listen on " +:+ GoStr.fmt_q (gl_BindAddress s)) e))
  | None =>
      _ ← listen_ask (GoServe (gl_BindAddress s) (Some (gl_tls s)));
      x ← listen_ask SelectStop;
      match (x : option ServeEnd) with
      | None =>
          done ← listen_ask (GracefulStop (gl_shutdown s));
          _ ← (if (done : bool) then mret tt else listen_ask StopServer);
          y ← listen_ask AwaitServe;
          mret match (y : ServeEnd) with
               | ServerStopped => None
               | y => wrapf "grpcserver: serve" <$> serve_err y
               end
      | Some y => mret (wrapf "grpcserver: serve" <$> serve_err y)
      end
  end.
End Listeners.

Arguments Built_ok {A} _.
Arguments Built_err {A} _.
Arguments Built_panic {A}.
