(* ===== verification/Binaries.v ===== *)
(** * The binaries: how the parts are put together
      (internal/agent/consumer/consumer.go, internal/agent/provider/provider.go,
       cmd/agent/main.go, cmd/broker/main.go, cmd/grpc-server/main.go, internal/manager)

    A binary parses its flags, builds its parts and leaves them running.  What
    it leaves running is a value here: the goroutines with the components they
    own, the shared handler registry, the probe.  The registry is shared by
    reference: the poller of [agent_main] is built before the role fills the
    registry and sees what is registered later.  Loading the kubeconfig, building
    the cluster client and the controller manager, and parsing a URL are outcomes
    given by the environment ([AgentEnv], [ManagerEnv]); loggers are left out. *)
From stdpp Require Import base gmap strings list.
From Stdlib Require Import ZArith Lia.
From S2P Require Import Prelude GoText ApiTypes ConsumerTypes Kube Effects Chunk Wire AgentClient.
From S2P Require Import Catalog Registry Placement Prober Selection Prompt ReservationApi.
From S2P Require Import InstructionsApi AdvertisementApi Brain LocalApi GrpcServer LoopbackClient.
From S2P Require Import AgentHandlers Poller Signals Publisher Heartbeater Gateway Dashboard.
From S2P Require Import ReservationController ResourceRequestController Console Listeners.
Import GoFloat.

Open Scope Z_scope.

(** ** What an agent leaves running *)
Section Agents.
Context `{Platform} `{SignalJson}.

Abbreviation HandlerRegistry :=
  (gmap string (option InstructionView → eff tool_call tool_answer HandlerOutcome)).

Inductive Goroutine :=
| GoBeat (h : Heartbeater)
| GoLocalApi (bind : string) (s : LocalServer) (ollama : option OllamaClient)
| GoConsole (bind : string) (s : ConsoleServer)
| GoPublish (p : Publisher).

(** The registry [opts.Registry] points to, and the goroutines started. *)
Record Process := mkProcess {
  ps_registry : HandlerRegistry;
  ps_goroutines : list Goroutine
}.

Definition spawn (g : Goroutine) (ps : Process) : Process :=
  mkProcess (ps_registry ps) (ps_goroutines ps ++ [g]).
Definition registering (f : HandlerRegistry → HandlerRegistry) (ps : Process) : Process :=
  mkProcess (f (ps_registry ps)) (ps_goroutines ps).

(** ** The consumer role *)

(** [consumer.Options]; a pointer or interface is represented by whether it is
    set. *)
Record ConsumerOptions := mkConsumerOptions {
  cq_hasClient : bool;
  cq_hasRegistry : bool;
  cq_hasLocal : bool;
  cq_ClusterID : string;
  cq_LiqoClusterID : string;
  cq_LiqoctlPath : string;
  cq_HeartbeatInterval : Duration;
  cq_NodeName : string;
  cq_AdvertisedIP : string;
  cq_MockGeoURL : string;
  cq_LocalAPIAddr : string;
  cq_ConsoleAddr : string;
  cq_OllamaURL : string;
  cq_OllamaModel : string;
  cq_OllamaTimeout : Duration;
  cq_Namespace : string;
  cq_hasProbe : bool;
  cq_BrainMode : string;
  cq_hasCatalog : bool
}.

Definition BrainCentral : string := "central".
Definition BrainLocal : string := "local".

Definition consumer_validate (o : ConsumerOptions) : option Err :=
  if negb (cq_hasClient o) then Some (errors_New "consumer: Client is required")
  else if negb (cq_hasRegistry o) then Some (errors_New "consumer: Registry is required")
  else if negb (cq_hasLocal o) then Some (errors_New "consumer: LocalClient is required")
  else if decide (cq_ClusterID o = "") then Some (errors_New "consumer: ClusterID is required")
  else if decide (cq_LiqoClusterID o = "") then Some (errors_New "consumer: LiqoClusterID is required")
  else if decide (cq_LocalAPIAddr o = "") then Some (errors_New "consumer: LocalAPIAddr is required")
  else if negb (cq_hasProbe o) then Some (errors_New "consumer: Probe is required")
  else if decide (cq_BrainMode o ≠ "" ∧ cq_BrainMode o ≠ BrainCentral ∧ cq_BrainMode o ≠ BrainLocal) then
    Some (errors_New ("consumer: BrainMode must be " +:+ GoStr.fmt_q BrainCentral +:+ " or " +:+
            GoStr.fmt_q BrainLocal +:+ ", got " +:+ GoStr.fmt_q (cq_BrainMode o)))
  else if decide (cq_BrainMode o = BrainLocal ∧ cq_hasCatalog o = false) then
    Some (errors_New ("consumer: brain=local needs a catalog to read offers from, " +:+
            "and no catalog backend is available yet (the Redis catalog, internal/catalog, is pending)"))
  else None.

Definition consumer_namespace (o : ConsumerOptions) : string :=
  if decide (cq_Namespace o = "") then "federation-autoscaler-system" else cq_Namespace o.

(** The four registrations, in the order of the code. *)
Definition register_consumer (o : ConsumerOptions) (r : HandlerRegistry) : HandlerRegistry :=
  let ns := consumer_namespace o in
  let r := RegisterReservation ReservationInstructionPeer
             (returning (PeerHandler (mkHandlerConfig (cq_hasLocal o) ns (cq_LiqoctlPath o) 0 "" ""))) r in
  let r := RegisterReservation ReservationInstructionUnpeer
             (returning (UnpeerHandler (mkHandlerConfig (cq_hasLocal o) ns (cq_LiqoctlPath o) 0 "" ""))) r in
  let r := RegisterReservation ReservationInstructionCleanup
             (returning (CleanupHandler (mkHandlerConfig (cq_hasLocal o) ns "" 0 "" ""))) r in
  RegisterReservation ReservationInstructionReconcile
    (returning (ReconcileHandler (mkHandlerConfig (cq_hasLocal o) ns "" 0 "" ""))) r.

(** The local brain, when the placement decision is made here. *)
Definition consumer_brain (o : ConsumerOptions) : Res (option Brain) :=
  if decide (cq_BrainMode o = BrainLocal) then
    match NewBrain (cq_hasCatalog o) (cq_hasClient o) (cq_hasLocal o) (consumer_namespace o) true None with
    | Fail e => Fail (wrapf "consumer: build local brain" e)
    | Ok b => Ok (Some b)
    end
  else Ok None.

(** The optional console, the last thing started. *)
Definition start_consumer_console (o : ConsumerOptions) (prober : Prober) (ps : Process) :
    Process * option Err :=
  if decide (cq_ConsoleAddr o = "") then (ps, None)
  else
    match NewConsole RoleConsumer (cq_ConsoleAddr o) (cq_hasLocal o) (consumer_namespace o)
            (cq_ClusterID o) (cq_LiqoClusterID o) (cq_NodeName o) (cq_AdvertisedIP o)
            (cq_MockGeoURL o) (Some prober) with
    | Fail e => (ps, Some (wrapf "consumer: build config console" e))
    | Ok c => (spawn (GoConsole (cq_ConsoleAddr o) c) ps, None)
    end.

(** [consumer.Run]: what is left running, and the error. *)
Definition consumer_Run (o : ConsumerOptions) (ps : Process) : Process * option Err :=
  match consumer_validate o with
  | Some e => (ps, Some e)
  | None =>
      let ns := consumer_namespace o in
      let ps := registering (register_consumer o) ps in
      let prober := NewProber 0 0 0 in
      match consumer_brain o with
      | Fail e => (ps, Some e)
      | Ok localBrain =>
          match NewHeartbeater (cq_hasClient o) (cq_ClusterID o) (cq_LiqoClusterID o) (cq_hasLocal o) ns
                  (cq_NodeName o) (cq_AdvertisedIP o) (cq_MockGeoURL o) true
                  (match localBrain with Some _ => true | None => false end)
                  (cq_HeartbeatInterval o) true with
          | Fail e => (ps, Some (wrapf "consumer: build heartbeat poster" e))
          | Ok beater =>
              let ps := spawn (GoBeat beater) ps in
              let ollamaClient :=
                if decide (cq_OllamaURL o = "") then None
                else Some (NewWithOptions (cq_OllamaURL o) (cq_OllamaModel o) (cq_OllamaTimeout o) None) in
              match NewLocalServer (cq_LocalAPIAddr o) (cq_hasClient o) (cq_hasLocal o) ns true
                      (match ollamaClient with Some _ => true | None => false end) localBrain with
              | Fail e => (ps, Some (wrapf "consumer: build loopback REST server" e))
              | Ok s => start_consumer_console o prober (spawn (GoLocalApi (cq_LocalAPIAddr o) s ollamaClient) ps)
              end
          end
      end
  end.

(** ** The provider role *)
Record ProviderOptions := mkProviderOptions {
  pq_hasClient : bool;
  pq_hasRegistry : bool;
  pq_hasLocal : bool;
  pq_ClusterID : string;
  pq_LiqoClusterID : string;
  pq_LiqoctlPath : string;
  pq_PriceFile : string;
  pq_RenewableFile : string;
  pq_CapacityFile : string;
  pq_NodeName : string;
  pq_AdvertisedIP : string;
  pq_MockEcoURL : string;
  pq_MockGeoURL : string;
  pq_EcoCacheTTL : Duration;
  pq_ProbeUDPPort : Z;
  pq_AdvertisementInterval : Duration;
  pq_ConsoleAddr : string;
  pq_hasProbe : bool
}.

Definition provider_validate (o : ProviderOptions) : option Err :=
  if negb (pq_hasClient o) then Some (errors_New "provider: Client is required")
  else if negb (pq_hasRegistry o) then Some (errors_New "provider: Registry is required")
  else if negb (pq_hasLocal o) then Some (errors_New "provider: LocalClient is required")
  else if decide (pq_ClusterID o = "") then Some (errors_New "provider: ClusterID is required")
  else if decide (pq_LiqoClusterID o = "") then Some (errors_New "provider: LiqoClusterID is required")
  else if negb (pq_hasProbe o) then Some (errors_New "provider: Probe is required")
  else None.

Definition register_provider (o : ProviderOptions) (r : HandlerRegistry) : HandlerRegistry :=
  let r := RegisterProvider ProviderInstructionGenerateKubeconfig
             (returning (GenerateKubeconfigHandler (mkHandlerConfig false "" (pq_LiqoctlPath o) 0 "" ""))) r in
  let r := RegisterProvider ProviderInstructionCleanup
             (returning (ProviderCleanupHandler (mkHandlerConfig false "" (pq_LiqoctlPath o) 0 "" ""))) r in
  RegisterProvider ProviderInstructionReconcile
    (returning (ProviderReconcileHandler
       (mkHandlerConfig (pq_hasLocal o) "" "" 0 (pq_ClusterID o) (pq_LiqoClusterID o)))) r.

Definition start_provider_console (o : ProviderOptions) (ps : Process) : Process * option Err :=
  if decide (pq_ConsoleAddr o = "") then (ps, None)
  else
    match NewConsole RoleProvider (pq_ConsoleAddr o) (pq_hasLocal o) "" (pq_ClusterID o)
            (pq_LiqoClusterID o) (pq_NodeName o) (pq_AdvertisedIP o) (pq_MockGeoURL o) None with
    | Fail e => (ps, Some (wrapf "provider: build config console" e))
    | Ok c => (spawn (GoConsole (pq_ConsoleAddr o) c) ps, None)
    end.

Definition provider_Run (o : ProviderOptions) (ps : Process) : Process * option Err :=
  match provider_validate o with
  | Some e => (ps, Some e)
  | None =>
      let ps := registering (register_provider o) ps in
      match NewPublisher (pq_hasClient o) (pq_hasLocal o) (pq_ClusterID o) (pq_LiqoClusterID o)
              (pq_PriceFile o) (pq_CapacityFile o) (pq_RenewableFile o) (pq_NodeName o)
              (pq_AdvertisedIP o) (pq_MockEcoURL o) (pq_MockGeoURL o) (pq_EcoCacheTTL o)
              (pq_ProbeUDPPort o) (pq_AdvertisementInterval o) true with
      | Fail e => (ps, Some (wrapf "provider: build advertisement publisher" e))
      | Ok p => start_provider_console o (spawn (GoPublish p) ps)
      end
  end.

(** ** The agent binary (cmd/agent/main.go) *)
Definition roleConsumer : string := "consumer".
Definition roleProvider : string := "provider".
Definition defaultNamespace : string := "federation-autoscaler-system".

Definition envOrDefault (v def : string) : string := if decide (v = "") then def else v.

Record AgentFlags := mkAgentFlags {
  af_role : string;
  af_clusterID : string;
  af_liqoClusterID : string;
  af_brokerURL : string;
  af_clientCert : string;
  af_clientKey : string;
  af_brokerCA : string;
  af_pollInterval : Duration;
  af_heartbeatInterval : Duration;
  af_advertisementInterval : Duration;
  af_localAPIAddr : string;
  af_consoleAddr : string;
  af_healthProbeAddr : string;
  af_namespace : string;
  af_priceFile : string;
  af_capacityFile : string;
  af_renewableFile : string;
  af_advertisedIP : string;
  af_mockEcoURL : string;
  af_ecoCacheTTL : Duration;
  af_mockGeoURL : string;
  af_probeUDPPort : Z;
  af_ollamaURL : string;
  af_ollamaModel : string;
  af_ollamaTimeout : Duration;
  af_brain : string
}.

(** The flags' defaults; [podNamespace] is $POD_NAMESPACE. *)
Definition agent_defaults (podNamespace : string) : AgentFlags :=
  mkAgentFlags "" "" "" "" "" "" "" DefaultInterval DefaultBeatInterval DefaultPublishInterval
    "127.0.0.1:9090" "" ":8081" (envOrDefault podNamespace defaultNamespace) "" "" "" "" "" Hour "" 0
    "" "llama3.2" (120 * Second) BrainCentral.

Definition validateFlags (f : AgentFlags) : option Err :=
  if decide (af_role f ≠ roleConsumer ∧ af_role f ≠ roleProvider) then
    Some (errors_New ("--role must be " +:+ GoStr.fmt_q roleConsumer +:+ " or " +:+
            GoStr.fmt_q roleProvider +:+ ", got " +:+ GoStr.fmt_q (af_role f)))
  else if decide (af_clusterID f = "") then Some (errors_New "--cluster-id is required")
  else if decide (af_liqoClusterID f = "") then Some (errors_New "--liqo-cluster-id is required")
  else if decide (af_brokerURL f = "") then Some (errors_New "--broker-url is required")
  else if decide (af_clientCert f = "" ∨ af_clientKey f = "" ∨ af_brokerCA f = "") then
    Some (errors_New "--client-cert, --client-key and --broker-ca are all required (mTLS is mandatory)")
  else None.

Record AgentEnv := mkAgentEnv {
  en_NODE_NAME : string;
  en_kubeconfig : option Err;                      (* ctrl.GetConfigOrDie *)
  en_client : option Err;                          (* client.New *)
  en_parse : string → Res (string * string)        (* url.Parse: scheme and host *)
}.

Record Agent := mkAgent {
  ag_client : Client;
  ag_probe : Probe;
  ag_poller : Poller;
  ag_process : Process;
  ag_healthAddr : string
}.

(** The process exits with a status and a logged error, or crashes, or runs. *)
Inductive MainOutcome (A : Type) := Exited (code : Z) (e : Err) | Crashed | Running (a : A).
Arguments Exited {A} _ _.
Arguments Crashed {A}.
Arguments Running {A} _.

(** The readiness window, at the width of [time.Duration]. *)
Definition agent_staleAfter (f : AgentFlags) : Duration :=
  if decide (af_role f = roleProvider) then GoInt.to_int64 (3 * af_advertisementInterval f)
  else GoInt.to_int64 (2 * af_heartbeatInterval f).

(** The role's [Run], on the process so far. *)
Definition run_role (f : AgentFlags) (env : AgentEnv) (ps : Process) : Process * option Err :=
  if decide (af_role f = roleConsumer) then
    consumer_Run (mkConsumerOptions true true true (af_clusterID f) (af_liqoClusterID f) ""
      (af_heartbeatInterval f) (en_NODE_NAME env) (af_advertisedIP f) (af_mockGeoURL f)
      (af_localAPIAddr f) (af_consoleAddr f) (af_ollamaURL f) (af_ollamaModel f)
      (af_ollamaTimeout f) (af_namespace f) true (af_brain f) false) ps
  else if decide (af_role f = roleProvider) then
    provider_Run (mkProviderOptions true true true (af_clusterID f) (af_liqoClusterID f) ""
      (af_priceFile f) (af_renewableFile f) (af_capacityFile f) (en_NODE_NAME env)
      (af_advertisedIP f) (af_mockEcoURL f) (af_mockGeoURL f) (af_ecoCacheTTL f)
      (af_probeUDPPort f) (af_advertisementInterval f) (af_consoleAddr f) true) ps
  else (ps, None).

Context `{CertFiles}.

Definition broker_client (f : AgentFlags) (env : AgentEnv) : Res Client :=
  NewClient (af_brokerURL f) (en_parse env (af_brokerURL f))
    (match BuildClientTLSConfig (mkClientTLS (af_clientCert f) (af_clientKey f) (af_brokerCA f) 0 "") with
     | Ok _ => None
     | Fail e => Some e
     end) 0 0 fzero 0.

Definition agent_main (f : AgentFlags) (env : AgentEnv) : MainOutcome Agent :=
  match validateFlags f, en_kubeconfig env, en_client env, broker_client f env with
  | Some e, _, _, _ | None, Some e, _, _ | None, None, Some e, _ | None, None, None, Fail e => Exited 1 e
  | None, None, None, Ok c =>
      match NewPoller true (Some ∅) (af_pollInterval f) true true with
      | Fail e => Exited 1 e
      | Ok p =>
          match run_role f env (mkProcess ∅ []) with
          | (_, Some e) => Exited 1 e
          | (ps, None) =>
              Running (mkAgent c (NewProbe (agent_staleAfter f) 0)
                         (mkPoller (ps_registry ps) (po_interval p) (po_hasOnPollResult p)
                            (po_hasOnHandlerActive p)) ps (af_healthProbeAddr f))
          end
      end
  end.
End Agents.

Arguments Exited {A} _ _.
Arguments Crashed {A}.
Arguments Running {A} _.

(** ** The shared bootstrap of the manager (internal/manager) *)
Record ManagerConfig := mkManagerConfig {
  mc_MetricsAddr : string;
  mc_ProbeAddr : string;
  mc_SecureMetrics : bool;
  mc_EnableLeaderElection : bool;
  mc_EnableHTTP2 : bool;
  mc_WebhookCertPath : string;
  mc_WebhookCertName : string;
  mc_WebhookCertKey : string;
  mc_MetricsCertPath : string;
  mc_MetricsCertName : string;
  mc_MetricsCertKey : string
}.

(** [BindFlags]: the defaults. *)
Definition manager_defaults : ManagerConfig :=
  mkManagerConfig "0" ":8081" true false false "" "tls.crt" "tls.key" "" "tls.crt" "tls.key".

(** What [New] hands to [ctrl.NewManager]; the protocols are those the TLS
    options leave, [None] for the library's choice. *)
Record ManagerSettings := mkManagerSettings {
  ms_NextProtos : option (list string);            (* metrics and webhook servers *)
  ms_webhookCerts : option (string * string * string);
  ms_MetricsAddr : string;
  ms_SecureServing : bool;
  ms_metricsAuth : bool;                           (* WithAuthenticationAndAuthorization *)
  ms_metricsCerts : option (string * string * string);
  ms_ProbeAddr : string;
  ms_LeaderElection : bool;
  ms_LeaderElectionID : string
}.

Record ManagerEnv := mkManagerEnv {
  me_new : option Err;                             (* GetConfigOrDie and NewManager *)
  me_check : string → option Err;                  (* AddHealthzCheck, AddReadyzCheck *)
  me_setup : string → option Err;                  (* SetupWithManager, by controller *)
  me_add : string → option Err                     (* mgr.Add, by runnable *)
}.

Definition manager_New (env : ManagerEnv) (cfg : ManagerConfig) (hasScheme : bool)
    (leaderElectionID : string) : Res ManagerSettings :=
  if negb hasScheme then Fail (errors_New "manager.New: Options.Scheme must not be nil")
  else if decide (leaderElectionID = "") then
    Fail (errors_New "manager.New: Options.LeaderElectionID must not be empty")
  else
    let settings := mkManagerSettings
      (if mc_EnableHTTP2 cfg then None else Some ["http/1.1"])
      (if decide (mc_WebhookCertPath cfg = "") then None
       else Some (mc_WebhookCertPath cfg, mc_WebhookCertName cfg, mc_WebhookCertKey cfg))
      (mc_MetricsAddr cfg) (mc_SecureMetrics cfg) (mc_SecureMetrics cfg)
      (if decide (mc_MetricsCertPath cfg = "") then None
       else Some (mc_MetricsCertPath cfg, mc_MetricsCertName cfg, mc_MetricsCertKey cfg))
      (mc_ProbeAddr cfg) (mc_EnableLeaderElection cfg) leaderElectionID in
    match me_new env, me_check env "healthz", me_check env "readyz" with
    | Some e, _, _ => Fail (wrapf "building controller manager" e)
    | None, Some e, _ => Fail (wrapf "adding /healthz" e)
    | None, None, Some e => Fail (wrapf "adding /readyz" e)
    | None, None, None => Ok settings
    end.

(** Errors in order: the first of a list of steps that fails. *)
Definition first_err (steps : list (option Err)) : option Err := head (omap id steps).

(** ** The Broker binary (cmd/broker/main.go) *)
Section Broker.
Context `{Platform} `{CertFiles} `{!RateLimit} `{!BrokerJson} `{GoRuntime} `{!DashboardPage}.

Record BrokerFlags := mkBrokerFlags {
  bf_manager : ManagerConfig;
  bf_apiBindAddress : string;
  bf_apiTLSCertFile : string;
  bf_apiTLSKeyFile : string;
  bf_apiTLSClientCAFile : string;
  bf_apiShutdownTimeout : Duration;
  bf_namespace : string;
  bf_reservationTimeout : Duration;
  bf_gkResyncInterval : Duration;
  bf_dashboardBindAddress : string
}.

Definition broker_defaults : BrokerFlags :=
  mkBrokerFlags manager_defaults ":8443" "" "" "" (15 * Second) "federation-autoscaler-system"
    (24 * Hour) DefaultGKResyncInterval ":9444".

Record Broker := mkBroker {
  bk_manager : ManagerSettings;
  bk_reservations : ReservationReconciler;
  bk_api : Runnable;
  bk_dashboard : option DashboardRunnable
}.

Definition broker_controllers : list string :=
  ["ClusterAdvertisement"; "Reservation"; "ProviderInstruction"; "ReservationInstruction"].

Definition broker_runnable (f : BrokerFlags) : Built Runnable :=
  NewRunnable (mkRunnableOptions (bf_apiBindAddress f)
    (mkTLS (bf_apiTLSCertFile f) (bf_apiTLSKeyFile f) (bf_apiTLSClientCAFile f) 0)
    (bf_apiShutdownTimeout f) true (bf_namespace f) None (bf_reservationTimeout f)).

(** Everything up to [mgr.Start]. *)
Definition broker_main (f : BrokerFlags) (env : ManagerEnv) : MainOutcome Broker :=
  match manager_New env (bf_manager f) true "broker.federation-autoscaler.io" with
  | Fail e => Exited 1 e
  | Ok mgr =>
      let resv := mkReconciler 0 (bf_gkResyncInterval f) (bf_reservationTimeout f) in
      match first_err (me_setup env <$> broker_controllers) with
      | Some e => Exited 1 e
      | None =>
          match broker_runnable f with
          | Built_panic => Crashed
          | Built_err e => Exited 1 e
          | Built_ok api =>
              match me_add env "api" with
              | Some e => Exited 1 e
              | None =>
                  if decide (bf_dashboardBindAddress f = "") then Running (mkBroker mgr resv api None)
                  else
                    match NewDashboardRunnableFromServer (Some (ru_server api))
                            (bf_dashboardBindAddress f) (bf_apiShutdownTimeout f) with
                    | Fail e => Exited 1 e
                    | Ok d =>
                        match me_add env "dashboard" with
                        | Some e => Exited 1 e
                        | None => Running (mkBroker mgr resv api (Some d))
                        end
                    end
              end
          end
      end
  end.

(** ** The gRPC server's binary (cmd/grpc-server/main.go) *)
Record GrpcFlags := mkGrpcFlags {
  gf_manager : ManagerConfig;
  gf_bindAddress : string;
  gf_certPath : string;
  gf_certName : string;
  gf_keyName : string;
  gf_caName : string;
  gf_agentURL : string;
  gf_reEvalInterval : Duration
}.

Definition grpc_defaults : GrpcFlags :=
  mkGrpcFlags manager_defaults ":8443" "" "tls.crt" "tls.key" "ca.crt" "http://127.0.0.1:9090" Hour.

Record Bridge := mkBridge {
  bd_manager : ManagerSettings;
  bd_agent : string;
  bd_requests : ResourceRequestReconciler;
  bd_listener : GrpcListener
}.

Definition grpc_main (f : GrpcFlags) (env : ManagerEnv) (parse : string → Res (string * string)) :
    MainOutcome Bridge :=
  match manager_New env (gf_manager f) true "grpc-server.federation-autoscaler.io" with
  | Fail e => Exited 1 e
  | Ok mgr =>
      match NewLoopbackClient (gf_agentURL f) (parse (gf_agentURL f)) with
      | Fail e => Exited 1 e
      | Ok agent =>
          match first_err (me_setup env <$> ["VirtualNodeState"; "ResourceRequest"]) with
          | Some e => Exited 1 e
          | None =>
              match NewGrpcServer (gf_bindAddress f)
                      (mkGrpcTLS (gf_certPath f) (gf_certName f) (gf_keyName f) (gf_caName f) 0) true 0 with
              | Fail e => Exited 1 e
              | Ok gs => Running (mkBridge mgr agent (mkRRReconciler true true (gf_reEvalInterval f)) gs)
              end
          end
      end
  end.
End Broker.
