(* ===== verification/BinaryProofs.v ===== *)
(** * The binaries come up whole, and only authenticated callers reach the Broker

    - [agent_starts_complete]: the agent binary starts exactly on the
      configurations [startable] describes, and then every part of its role
      runs, with a handler for every instruction kind of the role.
    - [agent_ready_window]: the readiness gate of a running agent follows the
      cadence of its own reports.
    - [broker_serves_vouched_only]: behind the Broker's API listener a handler
      runs only as a name the configured client CA vouches for.
    - [drains_before_returning]: a listener's loop returns only when its
      listener no longer accepts. *)
From stdpp Require Import base gmap strings list.
From Stdlib Require Import ZArith Lia.
From S2P Require Import Prelude GoText ApiTypes ConsumerTypes Kube MemServer Effects Chunk Wire.
From S2P Require Import AgentClient Catalog Registry Placement Prober Selection Prompt.
From S2P Require Import ReservationApi InstructionsApi AdvertisementApi Brain LocalApi GrpcServer.
From S2P Require Import AgentHandlers Poller PollerProofs Signals Publisher Heartbeater Gateway.
From S2P Require Import GatewayProofs Dashboard ReservationController Console Listeners Binaries.
From S2P Require Import BrokerSafety ReservationProofs EndToEnd.
Import GoFloat.

Open Scope Z_scope.

(** ** The agents *)
Section AgentProofs.
Context `{Platform} `{SignalJson}.

(** The handlers the two roles register are those of the poller's model. *)
Lemma register_consumer_registry o :
  register_consumer o ∅ =
    consumer_registry (mkHandlerConfig (cq_hasLocal o) (consumer_namespace o) (cq_LiqoctlPath o) 0 "" "").
Proof. reflexivity. Qed.

Lemma register_provider_registry o :
  register_provider o ∅ =
    provider_registry (mkHandlerConfig (pq_hasLocal o) "" (pq_LiqoctlPath o) 0
                         (pq_ClusterID o) (pq_LiqoClusterID o)).
Proof. reflexivity. Qed.

Lemma consumer_registry_total cfg k :
  is_Some (Poller.Lookup (reservation_kind_string k) (consumer_registry cfg)).
Proof.
  unfold Poller.Lookup, consumer_registry, RegisterReservation, Register.
  rewrite !lookup_insert_is_Some'. destruct k; auto.
Qed.

Lemma provider_registry_total cfg k :
  is_Some (Poller.Lookup (provider_kind_string k) (provider_registry cfg)).
Proof.
  unfold Poller.Lookup, provider_registry, RegisterProvider, Register.
  rewrite !lookup_insert_is_Some'. destruct k; auto.
Qed.

(** The console goroutine of a role, or none. *)
Definition console_of (addr : string) (c : ConsoleServer) : list Goroutine :=
  if decide (addr = "") then [] else [GoConsole addr c].

(** The parts of a consumer with these options. *)
Definition consumer_parts (o : ConsumerOptions) : list Goroutine :=
  let ns := consumer_namespace o in
  let brain := if decide (cq_BrainMode o = BrainLocal)
               then Some (mkBrain ns true Size NewFullProviders "") else None in
  let ollama := if decide (cq_OllamaURL o = "") then None
                else Some (NewWithOptions (cq_OllamaURL o) (cq_OllamaModel o) (cq_OllamaTimeout o) None) in
  [GoBeat (mkHeartbeater (cq_ClusterID o) (cq_LiqoClusterID o) true ns (cq_NodeName o)
             (cq_AdvertisedIP o) (cq_MockGeoURL o) NewGeoClient true
             (if decide (cq_BrainMode o = BrainLocal) then true else false)
             (nonpos_default (cq_HeartbeatInterval o) DefaultBeatInterval) true None);
   GoLocalApi (cq_LocalAPIAddr o)
     (mkLocalServer ns true (if decide (cq_OllamaURL o = "") then false else true) ai_init brain) ollama] ++
  console_of (cq_ConsoleAddr o)
    (mkConsole RoleConsumer ns (cq_ClusterID o) (cq_LiqoClusterID o) (cq_NodeName o)
       (cq_AdvertisedIP o) (cq_MockGeoURL o) NewGeoClient (Some (NewProber 0 0 0))).

Definition provider_parts (o : ProviderOptions) : list Goroutine :=
  GoPublish (mkPublisher (pq_ClusterID o) (pq_LiqoClusterID o) (pq_PriceFile o) (pq_CapacityFile o)
               (pq_RenewableFile o) (pq_NodeName o) (pq_AdvertisedIP o) (pq_MockEcoURL o)
               (pq_MockGeoURL o) (pq_ProbeUDPPort o) (NewEcoClientWithTTL (pq_EcoCacheTTL o))
               NewGeoClient (nonpos_default (pq_AdvertisementInterval o) DefaultPublishInterval) true) ::
  console_of (pq_ConsoleAddr o)
    (mkConsole RoleProvider "federation-autoscaler-system" (pq_ClusterID o) (pq_LiqoClusterID o)
       (pq_NodeName o) (pq_AdvertisedIP o) (pq_MockGeoURL o) NewGeoClient None).

(** What [validate] accepts. *)
Definition consumer_valid (o : ConsumerOptions) : Prop :=
  cq_hasClient o = true ∧ cq_hasRegistry o = true ∧ cq_hasLocal o = true ∧ cq_ClusterID o ≠ "" ∧
  cq_LiqoClusterID o ≠ "" ∧ cq_LocalAPIAddr o ≠ "" ∧ cq_hasProbe o = true ∧
  (cq_BrainMode o = "" ∨ cq_BrainMode o = BrainCentral ∨
   cq_BrainMode o = BrainLocal ∧ cq_hasCatalog o = true).

Lemma consumer_validate_None o : consumer_validate o = None ↔ consumer_valid o.
Proof.
  unfold consumer_validate, consumer_valid. split.
  - destruct (cq_hasClient o); [|discriminate]. destruct (cq_hasRegistry o); [|discriminate].
    destruct (cq_hasLocal o); [|discriminate]. cbn [negb].
    do 3 (case_decide; [discriminate|]). destruct (cq_hasProbe o); [|discriminate]. cbn [negb].
    do 2 (case_decide; [discriminate|]). intros _. split_and!; try done.
    destruct (decide (cq_BrainMode o = "")) as [|Hm1], (decide (cq_BrainMode o = BrainCentral)) as [|Hm2],
      (decide (cq_BrainMode o = BrainLocal)) as [|Hm3], (cq_hasCatalog o); auto; tauto.
  - intros (-> & -> & -> & Hid & Hlid & Ha & -> & Hm). cbn [negb].
    rewrite !decide_False; [done| |try done|try done..].
    + intros [E Hf]. rewrite E, Hf in Hm. by destruct Hm as [?|[?|[_ ?]]].
    + tauto.
Qed.

Lemma NewConsole_ok role addr ns cid lid node ip url prober :
  role = RoleConsumer ∨ role = RoleProvider → addr ≠ "" →
  NewConsole role addr true ns cid lid node ip url prober =
    Ok (mkConsole role (if decide (ns = "") then "federation-autoscaler-system" else ns) cid lid node
          ip url NewGeoClient prober).
Proof.
  intros Hr Ha. unfold NewConsole. rewrite decide_False by naive_solver. by rewrite decide_False.
Qed.

Lemma consumer_namespace_set o : consumer_namespace o ≠ "".
Proof. unfold consumer_namespace. by case_decide. Qed.

(** [Run] is all or nothing: options that do not validate touch nothing, and
    on the others no constructor fails. *)
Lemma consumer_Run_all_or_nothing o ps :
  consumer_Run o ps =
    match consumer_validate o with
    | Some e => (ps, Some e)
    | None => (mkProcess (register_consumer o (ps_registry ps))
                 (ps_goroutines ps ++ consumer_parts o), None)
    end.
Proof.
  unfold consumer_Run. destruct (consumer_validate o) as [e|] eqn:Hv; [done|].
  apply consumer_validate_None in Hv as (Hc & _ & Hl & Hid & Hlid & Ha & _ & Hbr).
  pose proof (consumer_namespace_set o) as Hns.
  assert (consumer_brain o = Ok (if decide (cq_BrainMode o = BrainLocal)
    then Some (mkBrain (consumer_namespace o) true Size NewFullProviders "") else None)) as ->.
  { unfold consumer_brain, NewBrain. rewrite Hc, Hl. case_decide as Hm; [|done].
    rewrite Hm in Hbr. by destruct Hbr as [?|[?|[_ ->]]]. }
  unfold NewHeartbeater, NewLocalServer, start_consumer_console. rewrite Hc, Hl. cbn [negb].
  rewrite (decide_False (P := cq_ClusterID o = "")), (decide_False (P := cq_LiqoClusterID o = "")),
    (decide_False (P := cq_LocalAPIAddr o = "")) by done.
  unfold consumer_parts, console_of, spawn, registering, nonpos_default.
  destruct (decide (cq_ConsoleAddr o = "")) as [Hco|Hco].
  - cbn [ps_registry ps_goroutines]. rewrite <- app_assoc.
    by destruct (decide (cq_BrainMode o = BrainLocal)), (decide (cq_OllamaURL o = "")).
  - rewrite NewConsole_ok by auto. rewrite (decide_False (P := consumer_namespace o = "")) by done.
    cbn [ps_registry ps_goroutines]. rewrite <- !app_assoc.
    by destruct (decide (cq_BrainMode o = BrainLocal)), (decide (cq_OllamaURL o = "")).
Qed.

Lemma provider_Run_all_or_nothing o ps :
  provider_Run o ps =
    match provider_validate o with
    | Some e => (ps, Some e)
    | None => (mkProcess (register_provider o (ps_registry ps))
                 (ps_goroutines ps ++ provider_parts o), None)
    end.
Proof.
  unfold provider_Run. destruct (provider_validate o) as [e|] eqn:Hv; [done|].
  unfold provider_validate in Hv. unfold NewPublisher, start_provider_console.
  destruct (pq_hasClient o), (pq_hasRegistry o), (pq_hasLocal o); try discriminate Hv.
  cbn [negb] in *. repeat case_decide; try discriminate Hv.
  - unfold provider_parts, console_of, nonpos_default. by rewrite decide_True.
  - rewrite NewConsole_ok by auto. unfold provider_parts, console_of, nonpos_default.
    rewrite (decide_False (P := pq_ConsoleAddr o = "")) by done.
    unfold spawn, registering. cbn [ps_registry ps_goroutines]. by rewrite <- app_assoc.
Qed.

(** ** The agent binary *)
Context `{CertFiles}.

(** The configurations the agent starts on: no catalog backend exists yet, so
    a consumer that would decide by itself is not one of them. *)
Definition startable (f : AgentFlags) (env : AgentEnv) : Prop :=
  validateFlags f = None ∧ en_kubeconfig env = None ∧ en_client env = None ∧
  (∃ c, broker_client f env = Ok c) ∧
  (af_role f = roleConsumer →
   af_localAPIAddr f ≠ "" ∧ (af_brain f = "" ∨ af_brain f = BrainCentral)).

(** A running agent, whole: its poller resolves every kind of instruction of
    its role, its role's reports go out under the configured identity, and the
    console and, for a consumer, the loopback API run where configured. *)
Definition complete (f : AgentFlags) (a : Agent) : Prop :=
  if decide (af_role f = roleConsumer) then
    (∀ k, is_Some (Poller.Lookup (reservation_kind_string k) (po_registry (ag_poller a)))) ∧
    ∃ h s ollama console,
      ps_goroutines (ag_process a) =
        [GoBeat h; GoLocalApi (af_localAPIAddr f) s ollama] ++ console_of (af_consoleAddr f) console ∧
      he_clusterID h = af_clusterID f ∧ he_liqoClusterID h = af_liqoClusterID f ∧
      he_onResult h = true ∧ ls_brain s = None ∧ (is_Some ollama ↔ af_ollamaURL f ≠ "") ∧
      co_role console = RoleConsumer
  else
    (∀ k, is_Some (Poller.Lookup (provider_kind_string k) (po_registry (ag_poller a)))) ∧
    ∃ p console,
      ps_goroutines (ag_process a) = GoPublish p :: console_of (af_consoleAddr f) console ∧
      pub_clusterID p = af_clusterID f ∧ pub_liqoClusterID p = af_liqoClusterID f ∧
      pub_onResult p = true ∧ co_role console = RoleProvider.

Lemma validateFlags_None f : validateFlags f = None →
  (af_role f = roleConsumer ∨ af_role f = roleProvider) ∧ af_clusterID f ≠ "" ∧ af_liqoClusterID f ≠ "".
Proof.
  unfold validateFlags. do 3 (case_decide; [discriminate|]). intros _.
  split; [|done]. destruct (decide (af_role f = roleConsumer)), (decide (af_role f = roleProvider)); tauto.
Qed.

Lemma run_role_consumer f env :
  validateFlags f = None → af_role f = roleConsumer →
  ∃ o, run_role f env (mkProcess ∅ []) = consumer_Run o (mkProcess ∅ []) ∧
    (consumer_valid o ↔ af_localAPIAddr f ≠ "" ∧ (af_brain f = "" ∨ af_brain f = BrainCentral)) ∧
    cq_ClusterID o = af_clusterID f ∧ cq_LiqoClusterID o = af_liqoClusterID f ∧
    cq_LocalAPIAddr o = af_localAPIAddr f ∧ cq_ConsoleAddr o = af_consoleAddr f ∧
    cq_OllamaURL o = af_ollamaURL f ∧ cq_HeartbeatInterval o = af_heartbeatInterval f ∧
    cq_BrainMode o = af_brain f.
Proof.
  intros (_ & Hid & Hlid)%validateFlags_None Hr. unfold run_role. rewrite decide_True by done.
  eexists. split; [reflexivity|]. unfold consumer_valid. cbn. split_and!; [|done..].
  split; [|naive_solver]. intros (_ & _ & _ & _ & _ & Ha & _ & [?|[?|[_ ?]]]); [auto..|done].
Qed.

(** The provider's options of a validated configuration. *)
Definition provider_options (f : AgentFlags) (env : AgentEnv) : ProviderOptions :=
  mkProviderOptions true true true (af_clusterID f) (af_liqoClusterID f) "" (af_priceFile f)
    (af_renewableFile f) (af_capacityFile f) (en_NODE_NAME env) (af_advertisedIP f) (af_mockEcoURL f)
    (af_mockGeoURL f) (af_ecoCacheTTL f) (af_probeUDPPort f) (af_advertisementInterval f)
    (af_consoleAddr f) true.

Lemma run_role_provider f env ps :
  validateFlags f = None → af_role f ≠ roleConsumer →
  run_role f env ps =
    (mkProcess (register_provider (provider_options f env) (ps_registry ps))
       (ps_goroutines ps ++ provider_parts (provider_options f env)), None).
Proof.
  intros ([?|Hr] & Hid & Hlid)%validateFlags_None Hne; [done|]. unfold run_role.
  rewrite decide_False, decide_True by done. fold (provider_options f env).
  rewrite provider_Run_all_or_nothing. unfold provider_validate. cbn [provider_options
    pq_hasClient pq_hasRegistry pq_hasLocal pq_hasProbe pq_ClusterID pq_LiqoClusterID negb].
  by rewrite !decide_False.
Qed.

(** What a consumer with validated options runs is [complete]. *)
Lemma consumer_parts_complete f o c p q addr :
  af_role f = roleConsumer → consumer_valid o → cq_BrainMode o ≠ BrainLocal →
  cq_ClusterID o = af_clusterID f → cq_LiqoClusterID o = af_liqoClusterID f →
  cq_LocalAPIAddr o = af_localAPIAddr f → cq_ConsoleAddr o = af_consoleAddr f →
  cq_OllamaURL o = af_ollamaURL f →
  complete f (mkAgent c p (mkPoller (register_consumer o ∅) (po_interval q) (po_hasOnPollResult q)
                (po_hasOnHandlerActive q)) (mkProcess (register_consumer o ∅) (consumer_parts o)) addr).
Proof.
  intros Hr Ho Hb E1 E2 E3 E4 E5. unfold complete. rewrite decide_True by done.
  cbn [ag_poller po_registry]. rewrite register_consumer_registry.
  split; [intros k; apply consumer_registry_total|].
  cbn [ag_process ps_goroutines]. unfold consumer_parts.
  rewrite !(decide_False (P := cq_BrainMode o = BrainLocal)) by done.
  rewrite E1, E2, E3, E4, E5. do 4 eexists. split; [reflexivity|]. split_and!; try done.
  case_decide; split; [by intros [? ?]|done|done|eauto].
Qed.

(** C23: The agent binary exits with status 1 on every configuration that is
    not startable (a missing flag or file, no cluster, a broker URL that is not
    https, a consumer without a loopback address or one asked to decide by
    itself) and never crashes.  On every other one it runs, and whole: each
    instruction kind of its role has its handler in the registry its poller
    uses, the heartbeat or the advertisement goes out under the configured
    identity and feeds the readiness gate, the loopback API, the console and
    the language model are there exactly when configured. *)
Theorem agent_starts_complete f env :
  match agent_main f env with
  | Running a => startable f env ∧ complete f a
  | Exited code _ => code = 1 ∧ ¬ startable f env
  | Crashed => False
  end.
Proof.
  unfold agent_main, startable.
  destruct (validateFlags f) eqn:Hv; [split; [done|naive_solver]|].
  destruct (en_kubeconfig env); [split; [done|naive_solver]|].
  destruct (en_client env); [split; [done|naive_solver]|].
  destruct (broker_client f env) as [c|e]; [|split; [done|naive_solver]]. cbn [NewPoller negb].
  destruct (decide (af_role f = roleConsumer)) as [Hr|Hr].
  - destruct (run_role_consumer f env Hv Hr) as (o & -> & Hval & E1 & E2 & E3 & E4 & E5 & _ & E6).
    rewrite consumer_Run_all_or_nothing. destruct (consumer_validate o) as [e|] eqn:Ho.
    + split; [done|]. intros (_ & _ & _ & _ & Hs). apply Hs, Hval, consumer_validate_None in Hr. congruence.
    + apply consumer_validate_None in Ho. cbn [ps_registry ps_goroutines app].
      pose proof (proj1 Hval Ho) as Hs. split; [by split_and!; eauto|].
      apply consumer_parts_complete; try done. rewrite E6. by destruct Hs as [_ [->| ->]].
  - rewrite run_role_provider by done. split; [by split_and!; eauto|].
    unfold complete. rewrite decide_False by done. cbn [ag_poller po_registry ps_registry ag_process].
    rewrite register_provider_registry.
    split; [intros k; apply provider_registry_total|]. do 2 eexists. split; [reflexivity|]. done.
Qed.

Lemma agent_main_Running f env a :
  agent_main f env = Running a →
  validateFlags f = None ∧ ag_probe a = NewProbe (agent_staleAfter f) 0 ∧
  run_role f env (mkProcess ∅ []) = (ag_process a, None).
Proof.
  unfold agent_main. destruct (validateFlags f), (en_kubeconfig env), (en_client env),
    (broker_client f env); try discriminate. cbn [NewPoller negb].
  destruct (run_role f env (mkProcess ∅ [])) as [ps [e|]]; [discriminate|]. by intros [= <-].
Qed.

(** The window in units of the role's own report. *)
Definition window (f : AgentFlags) (g : Goroutine) : option Duration :=
  match g with
  | GoBeat b => Some (2 * he_interval b)
  | GoPublish p => Some ((if 0 <? af_advertisementInterval f then 3 else 1) * pub_interval p)
  | _ => None
  end.

Lemma staleAfter_window f env ps g w :
  validateFlags f = None → run_role f env (mkProcess ∅ []) = (ps, None) →
  GoInt.is_int64 (2 * af_heartbeatInterval f) → GoInt.is_int64 (3 * af_advertisementInterval f) →
  g ∈ ps_goroutines ps → window f g = Some w → pr_pollStaleAfter (NewProbe (agent_staleAfter f) 0) = w.
Proof.
  intros Hv Hrun Hb Ha Hg Hw. unfold NewProbe, agent_staleAfter. cbn [pr_pollStaleAfter].
  assert (∀ addr c, g ∈ console_of addr c → False) as Hcon.
  { intros addr c. unfold console_of. case_decide; [set_solver|].
    intros ->%list_elem_of_singleton. discriminate Hw. }
  destruct (decide (af_role f = roleConsumer)) as [Hr|Hr].
  - rewrite decide_False, GoInt.to_int64_id by (by rewrite ?Hr).
    destruct (run_role_consumer f env Hv Hr) as (o & Eo & _ & _ & _ & _ & _ & _ & Ei & _).
    rewrite Eo, consumer_Run_all_or_nothing in Hrun. destruct (consumer_validate o); [done|].
    injection Hrun as <-. cbn [ps_goroutines app] in Hg. unfold consumer_parts in Hg.
    apply elem_of_app in Hg as [[->|[->|[]%not_elem_of_nil]%elem_of_cons]%elem_of_cons|Hg];
      [|discriminate Hw|by apply Hcon in Hg].
    injection Hw as <-. cbn [he_interval]. rewrite Ei. unfold nonpos_default.
    destruct (Z.leb_spec (af_heartbeatInterval f) 0), (Z.leb_spec (2 * af_heartbeatInterval f) 0); lia || done.
  - destruct (validateFlags_None f Hv) as [[?|Hp] _]; [done|].
    rewrite decide_True, GoInt.to_int64_id by done.
    rewrite run_role_provider in Hrun by done. injection Hrun as <-.
    cbn [ps_goroutines app] in Hg. unfold provider_parts in Hg.
    apply elem_of_cons in Hg as [->|Hg]; [|by apply Hcon in Hg].
    injection Hw as <-. cbn [pub_interval provider_options pq_AdvertisementInterval].
    unfold nonpos_default.
    destruct (Z.leb_spec (af_advertisementInterval f) 0), (Z.leb_spec (3 * af_advertisementInterval f) 0),
      (Z.ltb_spec 0 (af_advertisementInterval f)); lia || done.
Qed.

(** The readiness gate of a running agent follows its own cadence.  After
    the last successful contact it stays open for exactly two heartbeats of a
    consumer and three advertisements of a provider (as configured, the package
    default where the flag is not positive), or while a handler has been running
    for at most fifteen minutes.  A provider whose interval flag is not positive
    is the exception: its window is a single advertisement. *)
Theorem agent_ready_window f env a h t r now g w :
  agent_main f env = Running a →
  GoInt.is_int64 (2 * af_heartbeatInterval f) → GoInt.is_int64 (3 * af_advertisementInterval f) →
  serial_history h (Some t) r →
  g ∈ ps_goroutines (ag_process a) → window f g = Some w →
  Ready now (foldl probe_step (ag_probe a) h) = None ↔
  now - t ≤ w ∨ ∃ s, r = Some s ∧ now - s ≤ 15 * Minute.
Proof.
  intros (Hv & -> & Hrun)%agent_main_Running Hb Ha Hh Hg Hw.
  rewrite (Ready_iff_alive _ _ _ _ _ now Hh).
  destruct (probe_tracks (agent_staleAfter f) 0 h (Some t) r Hh) as (-> & _ & _).
  cbn [pr_pollStaleAfter pr_maxHandlerInFlight].
  rewrite (staleAfter_window f env (ag_process a) g w) by done.
  split; [by intros (? & [= <-] & ?)|]. intros. by exists t.
Qed.
End AgentProofs.

(** ** The Broker's listeners *)

(** The handshake of crypto/tls: [accepts] is a completed handshake with the
    state it leaves, [vouches] that a pool verifies a chain whose leaf has this
    common name.  The law is the documented meaning of
    [RequireAndVerifyClientCert]. *)
Class Handshake `{CertFiles} := {
  accepts : tls_Config → ConnectionState → Prop;
  vouches : CertPool → string → Prop
}.

Class HandshakeLaws `{Handshake} : Prop := {
  client_verified cfg pool st :
    tl_ClientAuth cfg = RequireAndVerifyClientCert → tl_ClientCAs cfg = Some pool → accepts cfg st →
    ∃ cn rest chains, VerifiedChains st = (cn :: rest) :: chains ∧ vouches pool cn
}.

Section TlsProofs.
Context `{CertFiles}.

(** Whatever server configuration is built verifies clients against the pool of
    the configured file, with TLS 1.3 unless the caller lowered it. *)
Lemma BuildServerTLSConfig_ok c cfg :
  BuildServerTLSConfig c = Ok cfg →
  ∃ pem pool, os_ReadFile (tls_ClientCAFile c) = Ok pem ∧ AppendCertsFromPEM pem = Some pool ∧
    tl_ClientAuth cfg = RequireAndVerifyClientCert ∧ tl_ClientCAs cfg = Some pool ∧
    tl_MinVersion cfg = min_version (tls_MinVersion c).
Proof.
  unfold BuildServerTLSConfig. destruct (Validate c); [discriminate|].
  destruct (LoadX509KeyPair _ _); [|discriminate].
  destruct (os_ReadFile _) as [pem|] eqn:Er; [|discriminate].
  destruct (AppendCertsFromPEM pem) as [pool|] eqn:Ep; [|discriminate].
  intros [= <-]. by exists pem, pool.
Qed.

(** The gRPC server accepts clients in the same way. *)
Lemma grpc_Build_ok c cfg :
  grpc_Build c = Ok cfg →
  ∃ pem pool, os_ReadFile (filepath_Join (gt_CertDir c) (grpc_orDefault (gt_CAName c) "ca.crt")) = Ok pem ∧
    AppendCertsFromPEM pem = Some pool ∧ tl_ClientAuth cfg = RequireAndVerifyClientCert ∧
    tl_ClientCAs cfg = Some pool ∧ tl_MinVersion cfg = min_version (gt_MinVersion c).
Proof.
  unfold grpc_Build. destruct (grpc_Validate c); [discriminate|].
  destruct (LoadX509KeyPair _ _); [|discriminate].
  destruct (os_ReadFile _) as [pem|] eqn:Er; [|discriminate].
  destruct (AppendCertsFromPEM pem) as [pool|] eqn:Ep; [|discriminate].
  intros [= <-]. by exists pem, pool.
Qed.
End TlsProofs.

Section BrokerProofs.
Context `{Platform} `{HandshakeLaws} `{!RateLimit} `{!BrokerJson} `{GoRuntime} `{!DashboardPage}.

Lemma broker_main_Running f env b :
  broker_main f env = Running b →
  broker_runnable f = Built_ok (bk_api b) ∧
  match bk_dashboard b with
  | Some d => bf_dashboardBindAddress f ≠ "" ∧
      hs_Handler (dr_httpSrv d) = dashboard_serve (ru_server (bk_api b)) ∧
      hs_TLSConfig (dr_httpSrv d) = None
  | None => bf_dashboardBindAddress f = ""
  end.
Proof.
  unfold broker_main. destruct (manager_New _ _ _ _); [|discriminate].
  destruct (first_err _); [discriminate|].
  destruct (broker_runnable f) as [api| |]; [|discriminate..].
  destruct (me_add env "api"); [discriminate|]. case_decide; [by intros [= <-]|].
  destruct (NewDashboardRunnableFromServer _ _ _) as [d|] eqn:Ed; [|discriminate].
  destruct (me_add env "dashboard"); [discriminate|]. injection Ed as <-. by intros [= <-].
Qed.

Lemma broker_runnable_ok f api :
  broker_runnable f = Built_ok api →
  ∃ cfg, hs_TLSConfig (ru_httpSrv api) = Some cfg ∧
    BuildServerTLSConfig (mkTLS (bf_apiTLSCertFile f) (bf_apiTLSKeyFile f) (bf_apiTLSClientCAFile f) 0)
      = Ok cfg ∧
    hs_Handler (ru_httpSrv api) = broker_serve (ru_server api) ∧
    sv_namespace (ru_server api) = bf_namespace f ∧ bf_namespace f ≠ "" ∧
    0 < sv_reservationTimeout (ru_server api).
Proof.
  unfold broker_runnable, NewRunnable. cbn [ro_TLS ro_BindAddress ro_ShutdownTimeout ro_hasClient
    ro_Namespace ro_Sizer ro_ReservationTimeout negb].
  destruct (BuildServerTLSConfig _) as [cfg|]; [|discriminate].
  unfold NewServer. case_decide; [discriminate|]. intros [= <-]. exists cfg. split_and!; try done.
  cbn. destruct (Z.leb_spec (bf_reservationTimeout f) 0); [done|lia].
Qed.

(** C16: The Broker binary, when it comes up, serves its API to nobody the
    configured client CA does not vouch for.  A connection its TLS configuration
    accepts (TLS 1.3) carries a certificate verified against that CA; a request
    on it is answered 401 if the certificate has no common name, and otherwise
    the API's routes run it exactly under that name, after the rate limiter,
    their reply being relayed.  The namespace and the reservation deadline they
    use are set. *)
Theorem broker_serves_vouched_only C f env b cfg st rq g m
    (P : string → Gateway * HttpOutcome → store → Prop) :
  clock_still C → broker_main f env = Running b →
  hs_TLSConfig (ru_httpSrv (bk_api b)) = Some cfg → accepts cfg st → hq_TLS rq = Some st →
  let srv := ru_server (bk_api b) in
  tl_MinVersion cfg = VersionTLS13 ∧ sv_namespace srv = bf_namespace f ∧ bf_namespace f ≠ "" ∧
  0 < sv_reservationTimeout srv ∧
  ∃ pem pool cn, os_ReadFile (bf_apiTLSClientCAFile f) = Ok pem ∧ AppendCertsFromPEM pem = Some pool ∧
    vouches pool cn ∧
    if decide (cn = "") then
      wp C (hs_Handler (ru_httpSrv (bk_api b)) g rq)
        (λ x m', m' = m ∧ gw_registry x.1 = gw_registry g ∧ status_of x.2 = Some StatusUnauthorized) m
    else
      (∀ rid l, (hq_RequestID rq ≠ "" → rid = hq_RequestID rq) →
         wp C (mux srv (mkGateway (gw_registry g) (<[cn := l]> (gw_limiters g)) (gw_log g))
                 (authenticated cn rid rq)) (P rid) m) →
      wp C (hs_Handler (ru_httpSrv (bk_api b)) g rq)
        (λ x m', (m' = m ∧ gw_registry x.1 = gw_registry g ∧
                  status_of x.2 = Some StatusTooManyRequests) ∨
                 ∃ rid x0, P rid x0 m' ∧ relayed x0 x rid) m.
Proof.
  intros HC (Hapi & _)%broker_main_Running Hcfg Hacc Htls srv.
  destruct (broker_runnable_ok f _ Hapi) as (cfg' & E & Hb & Hh & Hns & Hne & Ht).
  rewrite E in Hcfg. injection Hcfg as ->.
  destruct (BuildServerTLSConfig_ok _ _ Hb) as (pem & pool & Hr & Hp & Hauth & Hcas & Hmin).
  destruct (client_verified cfg pool st Hauth Hcas Hacc) as (cn & rest & chains & Hch & Hv).
  split_and!; [exact Hmin|done..|]. exists pem, pool, cn. split_and!; [done..|].
  rewrite Hh. unfold broker_serve.
  assert (ExtractClusterID (hq_TLS rq) =
    if decide (cn = "") then Fail (errors_New "tls: peer certificate Subject.CN is empty") else Ok cn) as Ecn
    by (rewrite Htls; unfold ExtractClusterID; by rewrite Hch).
  destruct (decide (cn = "")) as [->|Hcn].
  - eapply wp_mono; [|by eapply wp_refused]. by intros x m' (-> & -> & _ & ->).
  - intros Hmux. eapply wp_mono; [|by eapply (wp_passed C _ _ _ _ _ P)].
    intros x m' [(-> & -> & _ & ->)|Hx]; [by left|by right].
Qed.
End BrokerProofs.

(** ** Draining *)
Section Draining.
Context `{Platform} `{CertFiles}.

Definition any_listen : list (event listen_answer) → ∀ e : listen_call, listen_answer e →
    list (event listen_answer) → Prop := traced (λ _ _ _, True).

(** The events after which a listener accepts no more, and those that report a
    failure. *)
Definition ends_listening (ev : event listen_answer) : Prop :=
  match ev with
  | existT SelectStop (Some _) | existT (Shutdown _) _ | existT (GracefulStop _) true
  | existT StopServer _ | existT AwaitServe _ => True
  | _ => False
  end.

Definition reports_failure (ev : event listen_answer) : Prop :=
  match ev with
  | existT (NetListen _) (Some _) | existT (Shutdown _) (Some _) | existT (AwaitShutdown _) (Some _)
  | existT SelectStop (Some (ServeError _)) | existT AwaitServe (ServeError _) => True
  | _ => False
  end.

Definition drained (t : list (event listen_answer)) (res : option Err) : Prop :=
  ((∃ addr tls, existT (GoServe addr tls) tt ∈ t) → Exists ends_listening t) ∧
  (res = None → Forall (λ ev, ¬ reports_failure ev) t).

Lemma ewp_listen C e Q m t :
  (∀ x, Q x m (t ++ [existT e x])) → ewp C any_listen (listen_ask e) Q m t.
Proof. intros HQ x t' [_ ->]. apply HQ. Qed.

Ltac listen_step := apply ewp_bind, ewp_listen; intros ?; cbn [app].
Ltac listen_leaf :=
  apply ewp_ret; split; [intros _; repeat ((apply Exists_cons_hd; exact I) || apply Exists_cons_tl)
                        |intros E; try discriminate E;
                         repeat (apply Forall_cons_2; [intros []|]); try apply Forall_nil_2].

(** A listener that was started no longer accepts when its loop returns, and a
    loop that returns nil met no failure on its way. *)
Lemma serve_until_done_drains C name bind tls d m :
  ewp C any_listen (serve_until_done name bind tls d) (λ res _ t, drained t res) m [].
Proof.
  unfold serve_until_done. do 2 listen_step. destruct x0 as [y|]; [by listen_leaf|].
  listen_step. destruct x0 as [e|]; [by listen_step; listen_leaf|].
  listen_step. destruct x0; by listen_leaf.
Qed.

Lemma serve_plain_drains C bind d m :
  ewp C any_listen (serve_plain bind d) (λ res _ t, drained t res) m [].
Proof.
  unfold serve_plain. do 2 listen_step. destruct x0; try (cbn [serve_err]; by listen_leaf).
  apply ewp_listen. intros e. split; [intros _; by do 1 apply Exists_cons_tl; apply Exists_cons_hd|].
  intros ->. by repeat (apply Forall_cons_2; [intros []|]).
Qed.

Theorem drains_before_returning `{!RateLimit} `{!BrokerJson} `{GoRuntime} `{!DashboardPage}
    C r d s bind timeout m :
  let ok p := ewp C any_listen p (λ res _ t, drained t res) m [] in
  ok (Start r) ∧ ok (dashboard_Start d) ∧ ok (grpc_Run s) ∧ ok (localapi_Run bind timeout) ∧
  ok (console_Run bind timeout) ∧ ok (probe_Serve bind).
Proof.
  cbv zeta. split_and!; try apply serve_until_done_drains; try apply serve_plain_drains.
  unfold grpc_Run. listen_step. destruct x as [e|].
  { apply ewp_ret. split; [|discriminate]. intros (addr & tls & Hin).
    apply list_elem_of_singleton in Hin. discriminate Hin. }
  do 2 listen_step. destruct x0 as [y|]; [destruct y; by listen_leaf|].
  listen_step. destruct x0.
  - apply ewp_bind, ewp_ret. listen_step. destruct x0; by listen_leaf.
  - do 2 listen_step. destruct x1; by listen_leaf.
Qed.
End Draining.

(** ** A concrete federation *)
Module BinaryWitness.
Import SafetyWitness ReservationWitness EndToEndWitness.
#[local] Existing Instance MilliPlatform.platform.
#[local] Existing Instances EndToEndWitness.runtime countdown broker_json.
#[local] Instance signal_json : SignalJson :=
  {| decode_geo := λ _, Fail (errors_New "EOF"); decode_carbon := λ _, Fail (errors_New "EOF");
     decode_forecast := λ _, Fail (errors_New "EOF") |}.
#[local] Instance page : DashboardPage :=
  {| dashboardIndexHTML := "<html>"; encode_overview := λ _, "{}" |}.

(** Files whose contents are their names; the CA "ca.pem" has issued two
    certificates. *)
#[local] Instance cert_files : CertFiles :=
  {| Certificate := string; CertPool := string; LoadX509KeyPair := λ c _, Ok c;
     os_ReadFile := Ok; AppendCertsFromPEM := Some |}.

#[local] Instance handshake : Handshake :=
  {| accepts := λ cfg st,
       match tl_ClientAuth cfg, tl_ClientCAs cfg with
       | RequireAndVerifyClientCert, Some pool =>
           ∃ cn, VerifiedChains st = [[cn; pool]] ∧ pool = "ca.pem" ∧ cn ∈ ["cons"; "prov"]
       | _, _ => True
       end;
     vouches := λ pool cn, pool = "ca.pem" ∧ cn ∈ ["cons"; "prov"] |}.

#[local] Instance handshake_laws : HandshakeLaws.
Proof. split. intros cfg pool st Ha Hp. simpl. rewrite Ha, Hp. intros (cn & -> & -> & Hin). eauto 6. Qed.

Definition broker_flags : BrokerFlags :=
  mkBrokerFlags manager_defaults ":8443" "srv.pem" "srv.key" "ca.pem" (15 * Second) "fed" (24 * Hour)
    DefaultGKResyncInterval ":9444".
Definition manager_env : ManagerEnv :=
  mkManagerEnv None (λ _, None) (λ _, None) (λ _, None).
Definition ca_signed : ConnectionState := mkConnectionState [["cons"; "ca.pem"]].
Definition health : Request := mkRequest "GET" "/healthz" ∅ "rid" "" "" (Some ca_signed) "".

Lemma broker_serves_vouched_only_witness :
  ∃ b, broker_main broker_flags manager_env = Running b ∧
    wp reliable (hs_Handler (ru_httpSrv (bk_api b)) gw1 health)
      (λ x m', m' = m9 ∧ (status_of x.2 = Some StatusTooManyRequests ∨ status_of x.2 = Some 200)) m9.
Proof.
  eexists. split; [reflexivity|].
  pose proof (λ b cfg, broker_serves_vouched_only reliable broker_flags manager_env b cfg ca_signed
    health gw1 m9 (λ rid x m', m' = m9 ∧ status_of x.2 = Some 200) clock_still_reliable) as Hthm.
  edestruct Hthm as (_ & _ & _ & _ & pem & pool & cn & Hr & Hp & (_ & Hcn) & Hrun); [reflexivity|reflexivity| |reflexivity|].
  - exists "cons". split_and!; [reflexivity..|]. set_solver.
  - assert (cn ≠ "") as Hne by (intros ->; set_solver). rewrite decide_False in Hrun by exact Hne.
    eapply wp_mono; [|apply Hrun].
    + intros x m' [(-> & _ & ?)|(rid & x0 & (-> & Hs) & (_ & _ & _ & Hw))]; [by split; [|left]|].
      split; [done|right]. unfold status_of in *. destruct (ou_Written x0.2); [by rewrite Hw|discriminate].
    + intros rid l _. by apply wp_ret.
Defined.

Definition agent_flags : AgentFlags :=
  mkAgentFlags "provider" "prov" "liqo-prov" "https://broker:8443" "c.pem" "c.key" "ca.pem" Second
    (15 * Second) (20 * Second) "" "" ":8081" "fed" "" "" "" "" "" Hour "" 0 "" "" 0 "".
Definition agent_env : AgentEnv := mkAgentEnv "node-1" None None (λ _, Ok ("https", "broker:8443")).

(** A provider that advertises every 20 seconds is ready for one minute. *)
Lemma agent_ready_window_witness :
  ∃ a, agent_main agent_flags agent_env = Running a ∧
    Ready (1000 + 60 * Second) (foldl probe_step (ag_probe a) [(1000, ContactEvent true)]) = None.
Proof.
  eexists. split; [reflexivity|].
  pose proof (λ a g, agent_ready_window agent_flags agent_env a [(1000, ContactEvent true)] 1000 None
    (1000 + 60 * Second) g (60 * Second)) as Hthm.
  eapply Hthm;
    [reflexivity|split; vm_compute; discriminate|split; vm_compute; discriminate| | | |].
  - apply (history_contact [] None None 1000); [done|constructor].
  - apply elem_of_cons. left. reflexivity.
  - reflexivity.
  - left. vm_compute. discriminate.
Defined.

(** With the interval left to the package, the provider's window is one
    advertisement. *)
Example default_interval_no_slack :
  window (mkAgentFlags "provider" "prov" "liqo-prov" "https://broker:8443" "c.pem" "c.key" "ca.pem" Second
            (15 * Second) 0 "" "" ":8081" "fed" "" "" "" "" "" Hour "" 0 "" "" 0 "")
    (GoPublish (mkPublisher "prov" "liqo-prov" "" "" "" "" "" "" "" 0 (NewEcoClientWithTTL Hour)
                  NewGeoClient DefaultPublishInterval true)) = Some DefaultPublishInterval.
Proof. reflexivity. Qed.
End BinaryWitness.
