(* ===== verification/AgentWitnesses.v ===== *)
(** * Concrete instances of the agents' theorems

    Each lemma applies one theorem about the consumer side of the federation to
    concrete inputs that meet its hypotheses. *)
From stdpp Require Import base gmap strings list relations.
From Stdlib Require Import ZArith Lia Sorted.
From S2P Require Import Prelude GoText ApiTypes ConsumerTypes Kube MemServer Effects Chunk Wire.
From S2P Require Import AgentClient Catalog Registry Placement PlacementProofs Prober Selection.
From S2P Require Import ReservationApi InstructionsApi AdvertisementApi Brain LocalApi GrpcServer.
From S2P Require Import LoopbackClient AgentHandlers Poller ReservationController.
From S2P Require Import ResourceRequestController VirtualNodeStateController BrainProofs.
From S2P Require Import LocalApiProofs GrpcProofs ResourceRequestProofs VirtualNodeStateProofs.
From S2P Require Import PollerProofs HandlerProofs Signals Publisher Heartbeater ReportingProofs.
Import GoFloat.

Open Scope Z_scope.

Module AgentWitness.
#[local] Existing Instance MilliPlatform.platform.
#[local] Existing Instance MilliPlatform.platform_laws.
#[local] Instance runtime : GoRuntime :=
  {| range_keys := λ _ l, reverse l; rand_Intn := λ _ _, 0%nat |}.
#[local] Instance runtime_laws : RuntimeLaws.
Proof. split; simpl; [intros; apply reverse_Permutation|auto]. Defined.

(** ** Decision brain *)
Definition no_room : CallError :=
  of_agent_error (mkAgentError CategoryConflict (error_code_string ErrCodeInsufficientCapacity)
                    "0 chunks available" 409 "" None).

(** Refused at 5 s, looked at 20 s later. *)
Definition refusals : list (Time * full_op) :=
  [(5 * Second, FObserve "prov" no_room); (6 * Second, FSnapshot)].

Lemma refusals_ordered : ordered refusals (25 * Second).
Proof.
  unfold ordered, refusals, Second. cbn [fmap list_fmap fst].
  split; repeat (constructor; try (cbn [fst]; lia)).
Qed.

Lemma FullProviders_refines_witness : "prov" ∈ (FullSnapshot (25 * Second) (run_full refusals)).1.
Proof.
  apply (FullProviders_refines refusals (25 * Second) "prov" refusals_ordered).
  exists (5 * Second), no_room. split_and!; [by constructor|reflexivity|reflexivity].
Defined.

Definition chunk8 : ResourceList :=
  <[ResourceCPU := 8000]> (<[ResourceMemory := 32 * 1024 * 1024 * 1024 * 1000]> ∅).
Definition offer (p : string) : Offer :=
  mkOffer 1 p ("liqo-" +:+ p) "site" (mkLocation "" "" None None) chunk8 ∅ "" None
    None [] false (p +:+ ":7") ∅ [] 0.
Definition brain_input : Input :=
  mkInput [offer "far"; offer "near"] ∅ ∅
    (mkEntry "cons" "liqo" 0 (mkPolicy "") "" "" ∅ "" "" fzero fzero false)
    (Some (mkBound 10)) (<["far:7" := fof_Z 80]> (<["near:7" := fof_Z 4]> ∅)) ∅ None.

(** Only the provider within the 10 ms bound can grow. *)
Lemma NodeGroups_bound_witness :
  (λ v, (ng_ProviderClusterID v, growable v)) <$> nl_NodeGroups (NodeGroups brain_input 0) =
    [("near", true)] ∧
  ∀ v, v ∈ nl_NodeGroups (NodeGroups brain_input 0) → growable v = true →
    ∃ o, o ∈ bi_Offers brain_input ∧ of_ProviderID o = ng_ProviderClusterID v ∧ in_bound brain_input o.
Proof.
  split; [vm_compute; reflexivity|]. intros v Hv Hg.
  exact (proj2 (proj1 (NodeGroups_bound brain_input 0) v Hv Hg)).
Defined.

Definition srv1 : Server := mkServer "broker" Size (24 * Hour).
Definition resv (name : string) (phase : ReservationPhase) : Reservation :=
  mkCR (meta_set_version 3 name (meta_named name "broker"))
    (mkResvSpec "cons" "liqo-cons" "prov" "liqo-prov" 1 ChunkTypeStandard ∅ [])
    (mkResvStatus 1 phase (Some 0) (Some (24 * Hour)) [] None "" []).
Definition booked : store :=
  store_of [OResv (resv "res-1" ReservationPhasePeered); OResv (resv "res-2" ReservationPhasePending)] 3.

Lemma booked_wf : store_wf booked.
Proof.
  apply store_of_wf; [repeat constructor; vm_compute; discriminate|].
  apply NoDup_cons; split; [|apply NoDup_singleton]. by intros ?%list_elem_of_singleton.
Qed.

Lemma booked_named r : r ∈ typed_list (S:=ReservationSpec) (T:=ReservationStatus) "broker" booked →
  rs_ProviderClusterID (cr_spec r) ≠ "".
Proof.
  intros [_ Hl]%elem_of_typed_list; [|apply booked_wf].
  apply elem_of_list_to_map_2, list_elem_of_fmap in Hl as (o & E & Ho).
  apply elem_of_cons in Ho as [->|[->|?%elem_of_nil]%elem_of_cons]; [..|done];
    apply (f_equal snd) in E; cbn [snd] in E; injection E as ->; discriminate.
Qed.

Lemma FromReservations_agrees_witness :
  ∃ l own fl, (run (x ← handleReservationList srv1 "rid" "cons"; o ← ownByProvider "broker" "cons";
                    mret (x, o)) (mem_init booked)).1 = (JSON StatusOK l, Ok (own, fl)) ∧
    own_of (FromReservations l).1 "prov" = own_of own "prov".
Proof.
  pose proof (mem_run _ _ booked 0 (FromReservations_agrees srv1 "rid" "cons" booked booked_named))
    as [_ (l & own & fl & E & Hp)].
  exists l, own, fl. split; [exact E|]. apply Hp.
Defined.

(** ** Language model *)
Definition group (p : string) (reserved : Z) : NodeGroupView :=
  mkView (nodeGroupID p ChunkTypeStandard) p ("liqo-" +:+ p) ChunkTypeStandard 0 2 reserved chunk8
    None None "" fzero false ∅ [] None ∅.
Definition groups : list NodeGroupView := [group "a" 1; group "b" 2; group "c" 0].

Lemma groups_sized : Forall sized groups.
Proof. repeat constructor; vm_compute; discriminate. Qed.

(** A decoder that always reads a provider twice and one that does not exist. *)
Definition confused_reply : string → option SelectionResponse :=
  λ _, Some (mkSelection "nobody" ["c"; "c"; "nobody"]).
Definition any_model {V} : V → ∀ c, llm_answer c → V → Prop := λ _ _ _ _, True.

Lemma SelectDetailed_sound_witness :
  ewp reliable (V:=unit) any_model (SelectDetailed confused_reply "cheapest" groups)
    (λ t _ _, sound_trace groups t) booked tt.
Proof. apply SelectDetailed_sound. apply groups_sized. Defined.

Lemma LatencyBound_roundtrip_witness :
  DecodeLatencyBound (EncodeLatencyBound (Some (mkBound 25))) = Ok (Some (mkBound 25)).
Proof. apply (proj1 (proj2 LatencyBound_roundtrip)). vm_compute. split; discriminate. Defined.

(** One poll starts a call. *)
Lemma ai_cache_invariant_witness :
  ∃ c, rtc ai_step (mkAIConfig ai_init [] []) c ∧ length (cf_tasks c) = 1%nat ∧ ai_inv c.
Proof.
  pose (c := mkAIConfig (ai_poll ai_init "cheapest" 0).1 [("cheapest", groups)] []).
  assert (rtc ai_step (mkAIConfig ai_init [] []) c) as Hr
    by (eapply rtc_l; [apply (step_poll ai_init [] [] "cheapest" groups 0)|apply rtc_refl]).
  exists c. split_and!; [exact Hr|reflexivity|]. apply ai_cache_invariant, Hr.
Defined.

(** ** Cluster Autoscaler *)
Lemma NodeGroupDeleteNodes_releases_witness :
  ewp reliable any_agent (NodeGroupDeleteNodes (mkGrpcServer true None 0) "ng-prov-standard" [Some "rs-res-1"])
    (λ o _ t, NoDup (deletes t).*1) booked [].
Proof.
  eapply ewp_mono; [|exact (NodeGroupDeleteNodes_releases reliable (mkGrpcServer true None 0)
    "ng-prov-standard" [Some "rs-res-1"] booked)].
  intros o m t [[-> _]|(vns & ids & _ & _ & _ & _ & Hnd & _)]; [constructor|exact Hnd].
Defined.

#[local] Instance no_json : Json :=
  {| unmarshal_error := λ _, None; http_StatusText := λ _, "error" |}.


(** ** Manual requests *)

(** 12 cpu in chunks of 8 cpu: two chunks. *)
Definition wanted (cpu : Z) : ResourceList := {[ ResourceCPU := 1000 * cpu ]}.

Lemma wanted_small cpu : 0 < cpu ≤ 1000 → small_enough (wanted cpu) chunk8.
Proof.
  intros Hc name q Hq _ _. unfold wanted in Hq. apply lookup_singleton_Some in Hq as [<- <-].
  unfold rl_get, chunk8. rewrite lookup_insert_eq. cbn.
  unfold MilliPlatform.saturate, GoInt.int64_min, GoInt.int64_max, GoInt.int32_max. lia.
Qed.

Lemma chunksFor_least_witness :
  chunksFor (wanted 12) chunk8 = 2 ∧ covers (wanted 12) chunk8 2 ∧ ¬ covers (wanted 12) chunk8 1.
Proof.
  assert (chunksFor (wanted 12) chunk8 = 2) as E by (vm_compute; reflexivity).
  destruct (chunksFor_least (wanted 12) chunk8 (wanted_small 12 ltac:(lia))) as (_ & Hc & _).
  cbv zeta in Hc. rewrite E in Hc. split; [exact E|].
  split; [apply Hc; lia|]. intros Hcov. apply Hc in Hcov; lia.
Defined.

Definition request (finalizers : list string) (deleted : option Time) (status : ResourceRequestStatus) :
    ResourceRequest :=
  mkCR (mkMeta "job" "default" "u1" 4 1 0 deleted finalizers ∅ ∅ None)
    (mkRRSpec (wanted 4) "" 0 None) status.

Definition fresh_request : ResourceRequest := request [resourceRequestFinalizer] None rr_status_zero.
Definition requested : store := store_of [ORR fresh_request] 4.

Lemma requested_wf : store_wf requested.
Proof.
  apply store_of_wf; [repeat constructor; vm_compute; discriminate|apply NoDup_singleton].
Qed.

Definition rec1 : ResourceRequestReconciler := mkRRReconciler true true (10 * Minute).


(** A first round whose fetch fails and whose status write is refused. *)
Lemma one_reservation_per_request_witness :
  ∃ t, rtc (rr_step rec1 "default" "job") (requested, []) (requested, t) ∧ length t = 1%nat ∧
    outstanding t ⊆ {["mr-u1"]}.
Proof.
  pose (t := [existT (AgentNodeGroups None) (inr (plain_error "agent down"))] : list (event agent_answer)).
  assert (rtc (rr_step rec1 "default" "job") (requested, []) (requested, t)) as Hr.
  { eapply rtc_l; [|apply rtc_refl].
    apply (rr_round rec1 "default" "job" requested []
      (no_requeue, Some (errors_New "etcd unavailable")) requested t).
    exists (Ok (ORR fresh_request)), requested. split; [split; [reflexivity|reflexivity]|].
    exists (inr (plain_error "agent down")), t. split; [split; [exact I|reflexivity]|].
    exists 0, requested. split; [reflexivity|].
    exists (Fail (errors_New "etcd unavailable")), requested.
    split; [split_and!; [reflexivity|intros E; discriminate E|intros E; discriminate E]|].
    split_and!; reflexivity. }
  exists t. split_and!; [exact Hr|reflexivity|].
  exact (proj1 (one_reservation_per_request rec1 "default" "job" requested requested t requested_wf Hr)
    fresh_request eq_refl).
Defined.

(** ** Virtual nodes *)
Definition vns1 : VirtualNodeState :=
  mkCR (meta_set_version 5 "u5" (meta_named "vns-res-1" "agent"))
    (mkVNSSpec "prov" "liqo-prov" "rs-res-1" "ng-prov-standard" 0 "res-1" ∅) vns_status_zero.
Definition node1 : Node :=
  mkCR (meta_set_version 6 "u6" (meta_named "rs-res-1" ""))
    (mkNodeSpec "liqo://rs-res-1" false [])
    (mkNodeStatus chunk8 chunk8 [mkNodeCondition NodeReady ConditionTrue ""] [] "linux" "amd64").
Definition node_up : store := store_of [OVNS vns1; ONode node1] 6.

Lemma node_up_wf : store_wf node_up.
Proof.
  apply store_of_wf; [repeat constructor; vm_compute; discriminate|].
  apply NoDup_cons; split; [|apply NoDup_singleton]. by intros ?%list_elem_of_singleton.
Qed.

Lemma vns1_distinct : distinct_conditions vns1.
Proof. constructor. Qed.

Lemma node_up_projection :
  current_projection node_up vns1 =
    mkProjection VirtualNodeStatePhaseRunning "rs-res-1" "liqo://rs-res-1" chunk8 "Liqo virtual node is ready".
Proof. reflexivity. Qed.

Definition vrec : VirtualNodeStateReconciler := mkVNSReconciler 0.

Lemma Reconcile_VirtualNodeState_shows_witness :
  ∃ vns', objs (mem_store (run (Reconcile_VirtualNodeState vrec "agent" "vns-res-1") (mem_init node_up)).2)
            !! cr_key vns1 = Some (OVNS vns') ∧
    vt_Phase (cr_status vns') = VirtualNodeStatePhaseRunning ∧
    vt_ProviderID (cr_status vns') = "liqo://rs-res-1".
Proof.
  pose proof (mem_run _ _ node_up 0 (Reconcile_VirtualNodeState_shows vrec vns1 node_up node_up_wf
    eq_refl eq_refl vns1_distinct)) as (_ & _ & vns' & Hl & _ & _ & Hs).
  rewrite node_up_projection in Hs. destruct Hs as (Hp & _ & Hpid & _).
  exists vns'. split_and!; [exact Hl|exact Hp|exact Hpid].
Defined.

Lemma Reconcile_VirtualNodeState_quiet_witness :
  wp reliable (Reconcile_VirtualNodeState vrec "agent" "vns-res-1")
    (λ _ m', wp reliable (Reconcile_VirtualNodeState vrec "agent" "vns-res-1") (λ _ m'', m'' = m') m')
    node_up.
Proof.
  eapply wp_mono; [|exact (Reconcile_VirtualNodeState_quiet vrec vns1 node_up node_up_wf
    eq_refl eq_refl vns1_distinct)].
  intros o m Hq. eapply wp_mono; [|exact Hq]. intros o' m' [_ E]. exact E.
Defined.

(** ** Instruction handlers *)
Definition cfg1 : HandlerConfig := mkHandlerConfig true "agent" "" 0 "cons" "liqo-cons".
Definition instruction (kind : ReservationInstructionKind) (last : bool) : InstructionView :=
  mkInstrView "i-1" (reservation_kind_string kind) "res-1" 1 last "cons" "liqo-cons" "prov" "liqo-prov"
    "kind: Config" chunk8 [] [] 0 None.

Lemma consumer_handlers_isolated_witness :
  ewp serves any_tool (UnpeerHandler cfg1 (Some (instruction ReservationInstructionUnpeer false)))
    (λ _ m' t, objs m' !! ((KNode, "", "rs-res-1") : Key) = Some (ONode node1) ∧
       ∀ args, args ∈ commands t → ¬ tears_down args) node_up [].
Proof.
  eapply ewp_mono; [|exact (consumer_handlers_isolated ReservationInstructionUnpeer cfg1
    (instruction ReservationInstructionUnpeer false) node_up node_up_wf)].
  intros r m t [Hsame Hlast]. split.
  - rewrite Hsame; [reflexivity|]. intros [[E|[E|[tn E]]]|(_ & E & _)]; discriminate E.
  - intros args Hin Ht. destruct (Hlast args Hin Ht) as [_ E]. discriminate E.
Defined.

Definition empty_cluster : store := store_of [] 0.

Lemma empty_cluster_wf : store_wf empty_cluster.
Proof. apply store_of_wf; constructor. Qed.


(** ** Readiness *)
Definition probe_history : list (Time * ProbeEvent) :=
  [] ++ [(Second, ContactEvent true)] ++ [(2 * Second, HandlerEvent true)].

(** Five minutes into a handler the agent still counts as alive. *)
Lemma Ready_iff_alive_witness :
  Ready (302 * Second) (foldl probe_step (NewProbe 0 0) probe_history) = None.
Proof.
  assert (serial_history probe_history (Some Second) (Some (2 * Second))) as Hh.
  { apply (history_start ([] ++ [(Second, ContactEvent true)])); [discriminate|].
    apply (history_contact [] None); [discriminate|constructor]. }
  apply (Ready_iff_alive 0 0 probe_history (Some Second) (Some (2 * Second)) (302 * Second) Hh).
  exists Second. split; [reflexivity|]. right. exists (2 * Second). split; [reflexivity|].
  vm_compute. discriminate.
Defined.
(** ** Reports *)
#[local] Instance signal_json : SignalJson :=
  {| decode_carbon := λ _, Ok (fof_Z 120); decode_forecast := λ _, Ok [110; 130];
     decode_geo := λ _, Ok (mkGeoResponse "success" (mkGeoLocation (fof_Z 45) (fof_Z 7) "PIE" "" "Turin" "IT" "EU")) |}.
#[local] Instance publisher_files : PublisherFiles :=
  {| unmarshal_prices := λ _, Ok ∅; unmarshal_caps := λ _, Ok {[ResourceCPU := "50%"]};
     unmarshal_renewable := λ _, Ok true; ParseQuantity := λ _, Fail (errors_New "quantity") |}.

Definition publisher1 : Publisher :=
  mkPublisher "prov" "liqo-prov" "" "caps.yaml" "" "" "10.0.0.1" "http://eco" "http://geo" 30777
    (NewEcoClientWithTTL 0) NewGeoClient DefaultPublishInterval true.


Definition beater1 : Heartbeater :=
  mkHeartbeater "cons" "liqo-cons" true "agent" "" "10.0.0.2" "http://geo" NewGeoClient false true
    DefaultBeatInterval true None.

End AgentWitness.
