(* ===== verification/Experiment.v ===== *)
(** * The ConsumerChoice experiment's decisions
    (federation-tests/consumerchoice/decision.go, federation-tests/testlib/selection.go)

    The experiment asks the agent's own selector for a provider, treats the
    model's answer as untrusted input, checks it against the list the model was
    given and against a fresh read of the Broker, and falls back to a
    deterministic choice when a check fails.  The model and the Broker are
    outside calls; the decision latency is not modelled. *)
From stdpp Require Import base gmap strings list.
From Stdlib Require Import ZArith Lia.
From S2P Require Import Prelude GoText ApiTypes Chunk Wire Kube Effects AgentClient Registry Placement.
From S2P Require Import PlacementProofs Selection.
Import GoFloat.

Open Scope Z_scope.

(** ** Node-group helpers (testlib/selection.go) *)
Section Choice.
Context `{Platform}.

Definition GrowableNodeGroups (ngs : list NodeGroupView) : list NodeGroupView :=
  filter (λ ng, ng_CurrentReserved ng < ng_MaxSize ng) ngs.

Definition FindWinner (ngs : list NodeGroupView) : option NodeGroupView :=
  match GrowableNodeGroups ngs with [ng] => Some ng | _ => None end.

Definition FindShortlist (ngs : list NodeGroupView) : list NodeGroupView := GrowableNodeGroups ngs.

(** The loop of [UniqueProviderIDs], [seen] being its set. *)
Fixpoint unique_loop (ngs : list NodeGroupView) (seen : gset string) : list string :=
  match ngs with
  | [] => []
  | ng :: ngs' =>
      let id := ng_ProviderClusterID ng in
      if decide (id ∈ seen) then unique_loop ngs' seen else id :: unique_loop ngs' ({[id]} ∪ seen)
  end.

Definition UniqueProviderIDs (ngs : list NodeGroupView) : list string := unique_loop ngs ∅.

Definition NodeGroupsByProvider (ngs : list NodeGroupView) : gmap string (list NodeGroupView) :=
  foldl (λ out ng, <[ng_ProviderClusterID ng :=
                       default [] (out !! ng_ProviderClusterID ng) ++ [ng]]> out) ∅ ngs.

(** [FindNodeGroupByProvider] and [standardGroup]: the first standard node group
    of a provider. *)
Definition standardGroup (ngs : list NodeGroupView) (providerID : string) : option NodeGroupView :=
  snd <$> list_find (λ ng, ng_ProviderClusterID ng = providerID ∧ ng_Type ng = ChunkTypeStandard) ngs.
Definition FindNodeGroupByProvider : list NodeGroupView → string → option NodeGroupView := standardGroup.

Definition eligibleCandidates (resp : NodeGroupListResponse) : list NodeGroupView :=
  filter (λ ng, ng_Type ng = ChunkTypeStandard) (GrowableNodeGroups (nl_NodeGroups resp)).

(** ** Categories *)
Definition sourceAI : string := "ai".
Definition sourceFallback : string := "fallback".
Definition sourceSingleCandidate : string := "single-candidate".
Definition sourceNone : string := "none".

Definition failProviderNotListed : string := "provider_no_longer_listed".
Definition failProviderNoCapacity : string := "provider_no_capacity".
Definition failMissingReservation : string := "missing_reservation_fields".
Definition failPolicyChanged : string := "policy_changed_before_reservation".
Definition failFallbackNoCandidate : string := "fallback_no_eligible_provider".
Definition failBrokerUnavailable : string := "broker_unavailable".

Definition kind_string (k : ErrorKind) : string :=
  match k with
  | ErrKindNone => "" | ErrKindNoCapacity => "no_capacity" | ErrKindUnreachable => "unreachable"
  | ErrKindTimeout => "timeout" | ErrKindHTTPStatus => "http_status"
  | ErrKindEnvelopeDecode => "envelope_decode" | ErrKindInvalidJSON => "invalid_json"
  | ErrKindEmptyProviderID => "empty_provider_id" | ErrKindUnknownProviderID => "unknown_provider_id"
  end.

Definition isModelAnswerKind (kind : string) : bool :=
  bool_decide (kind ∈ kind_string <$>
    [ErrKindTimeout; ErrKindInvalidJSON; ErrKindEmptyProviderID; ErrKindUnknownProviderID]).

(** ** One decision *)
Record Validation := mkValidation {
  va_SelectedProviderID : string;
  va_ModelProviderIDField : string;
  va_RankingConsistent : option bool;
  va_UnknownIDsInRanking : list string;
  va_ValidJSON : bool;
  va_NonEmpty : bool;
  va_InCandidateList : bool;
  va_StillListed : bool;
  va_StillHasCapacity : bool;
  va_PolicyStillConsumerChoice : bool;
  va_ReservationFieldsPresent : bool;
  va_Valid : bool;
  va_Errors : list string;
  va_FallbackApplied : bool;
  va_FallbackMode : string;
  va_FallbackProviderID : string
}.

(** [Decision]; [dc_Parsed] is the field [Parsed] of its trace. *)
Record DecisionRecord := mkDecision {
  dc_Trace : Trace;
  dc_Parsed : option SelectionResponse;
  dc_Validation : Validation;
  dc_Source : string;
  dc_FinalProviderID : string;
  dc_FinalNodeGroup : option NodeGroupView;
  dc_Failures : list string;
  dc_FreshSnapshot : option NodeGroupListResponse
}.

Definition AICalled (d : DecisionRecord) : bool := negb (tr_SingleCandidate (dc_Trace d)).

Definition ModelAnswerFailure (d : DecisionRecord) : bool :=
  if negb (AICalled d) || va_Valid (dc_Validation d) || bool_decide (dc_Failures d = []) then false
  else forallb isModelAnswerKind (dc_Failures d).

(** The model's selection: the head of its ranking as the model wrote it. *)
Definition selected_by (t : Trace) (parsed : option SelectionResponse) : string * option bool :=
  match parsed with
  | Some p =>
      match sr_RankedList p with
      | h :: _ => (h, if decide (sr_ProviderID p = "") then None
                      else Some (bool_decide (sr_ProviderID p = h)))
      | [] => (sr_ProviderID p, None)
      end
  | None => (if tr_SingleCandidate t then default "" (head (tr_Ranked t)) else "", None)
  end.

(** [validateAnswer]; the failed checks are pairs of a category and a message. *)
Definition validateAnswer (t : Trace) (parsed : option SelectionResponse) : Validation * list string :=
  let '(sel, consistent) := selected_by t parsed in
  let nonEmpty := negb (bool_decide (sel = "")) in
  let inList := bool_decide (sel ∈ ng_ProviderClusterID <$> tr_Providers t) in
  let fails : list (string * string) :=
    match tr_Err t with
    | Some e => [(kind_string (se_Kind e), se_Err e)]
    | None =>
        (if nonEmpty then [] else
           [(kind_string ErrKindEmptyProviderID, "the model's ranking starts with an empty provider ID")])
        ++ (if nonEmpty && negb inList then
              [(kind_string ErrKindUnknownProviderID,
                "the model ranked " +:+ GoStr.fmt_q sel +:+
                " first, which is not in the candidate list sent to it")] else [])
    end in
  (mkValidation sel (from_option sr_ProviderID "" parsed) consistent (tr_UnknownIDs t)
     (bool_decide (is_Some parsed)) nonEmpty inList false false false false false
     fails.*2 false "" "", fails.*1).

(** [fail]: one more failed check. *)
Definition dc_fail (category msg : string) (d : DecisionRecord) : DecisionRecord :=
  let v := dc_Validation d in
  mkDecision (dc_Trace d) (dc_Parsed d)
    (mkValidation (va_SelectedProviderID v) (va_ModelProviderIDField v) (va_RankingConsistent v)
       (va_UnknownIDsInRanking v) (va_ValidJSON v) (va_NonEmpty v) (va_InCandidateList v)
       (va_StillListed v) (va_StillHasCapacity v) (va_PolicyStillConsumerChoice v)
       (va_ReservationFieldsPresent v) (va_Valid v) (va_Errors v ++ [msg]) (va_FallbackApplied v)
       (va_FallbackMode v) (va_FallbackProviderID v))
    (dc_Source d) (dc_FinalProviderID d) (dc_FinalNodeGroup d) (dc_Failures d ++ [category])
    (dc_FreshSnapshot d).

(** The assignments of [checkAgainstBroker] after the fresh read. *)
Definition dc_checked (fresh : NodeGroupListResponse) (policy listed capacity fields : bool)
    (ng : option NodeGroupView) (d : DecisionRecord) : DecisionRecord :=
  let v := dc_Validation d in
  mkDecision (dc_Trace d) (dc_Parsed d)
    (mkValidation (va_SelectedProviderID v) (va_ModelProviderIDField v) (va_RankingConsistent v)
       (va_UnknownIDsInRanking v) (va_ValidJSON v) (va_NonEmpty v) (va_InCandidateList v)
       listed capacity policy fields (va_Valid v) (va_Errors v) (va_FallbackApplied v)
       (va_FallbackMode v) (va_FallbackProviderID v))
    (dc_Source d) (dc_FinalProviderID d) ng (dc_Failures d) (Some fresh).

Definition checkAgainstBroker (d : DecisionRecord) (read : NodeGroupListResponse + CallError) :
    DecisionRecord :=
  match read with
  | inr err => dc_fail failBrokerUnavailable ("re-read Broker node groups: " +:+ ce_text err) d
  | inl fresh =>
      let sel := va_SelectedProviderID (dc_Validation d) in
      let policy := bool_decide (nl_AppliedPlacement fresh = PlacementStrategyConsumerChoice) in
      let flag d := if policy then d
                    else dc_fail failPolicyChanged
                           ("Broker now applies " +:+ GoStr.fmt_q (nl_AppliedPlacement fresh)) d in
      if negb (va_InCandidateList (dc_Validation d)) then
        flag (dc_checked fresh policy false false false None d)
      else
        match standardGroup (nl_NodeGroups fresh) sel with
        | None =>
            dc_fail failProviderNotListed (sel +:+ " is no longer listed by the Broker")
              (flag (dc_checked fresh policy false false false None d))
        | Some ng =>
            let capacity := ng_CurrentReserved ng <? ng_MaxSize ng in
            let fields := negb (bool_decide (ng_ID ng = "")) &&
                          negb (bool_decide (ng_ProviderClusterID ng = "")) &&
                          negb (bool_decide (ng_Type ng = "")) in
            let d := flag (dc_checked fresh policy true capacity fields
                             (if capacity && fields then Some ng else None) d) in
            let d := if capacity then d
                     else dc_fail failProviderNoCapacity (sel +:+ " has no free capacity any more") d in
            if fields then d
            else dc_fail failMissingReservation (sel +:+ " lacks a field needed to reserve it") d
        end
  end.

(** ** The fallback *)
Definition fallbackFail : string := "fail".
Definition fallbackAgentDefault : string := "agent-default".
Definition fallbackCheapest : string := "cheapest-eligible".
Definition fallbackLowestCarbon : string := "lowest-carbon-eligible".

(** The closure [less] of [pickLowest]: [None] when the values do not decide. *)
Definition metric_less (a b : option float64) : option bool :=
  match a, b with
  | Some _, None => Some true
  | None, Some _ => Some false
  | Some x, Some y => if feq x y then None else Some (flt x y)
  | None, None => None
  end.

Definition pick_less (primary secondary : NodeGroupView → option float64) (a b : NodeGroupView) : bool :=
  match metric_less (primary a) (primary b) with
  | Some r => r
  | None =>
      match metric_less (secondary a) (secondary b) with
      | Some r => r
      | None => GoStr.str_lt (ng_ProviderClusterID a) (ng_ProviderClusterID b)
      end
  end.

Definition pickLowest (ngs : list NodeGroupView) (primary secondary : NodeGroupView → option float64) :
    string :=
  match GoSort.SliceStable (pick_less primary secondary) ngs with
  | [] => ""
  | ng :: _ => match primary ng with None => "" | Some _ => ng_ProviderClusterID ng end
  end.

Definition cost_of (ng : NodeGroupView) : option float64 := q_AsApproximateFloat64 <$> ng_Cost ng.

(** The switch on the mode. *)
Definition fallback_choice (mode : string) (standard : list NodeGroupView) : string :=
  if decide (mode = fallbackAgentDefault) then
    default "" (DeterministicFallback standard ≫= head)
  else if decide (mode = fallbackCheapest) then pickLowest standard cost_of ng_CarbonIntensity
  else if decide (mode = fallbackLowestCarbon) then pickLowest standard ng_CarbonIntensity cost_of
  else "".

Definition set_fallback (id : string) (v : Validation) : Validation :=
  mkValidation (va_SelectedProviderID v) (va_ModelProviderIDField v) (va_RankingConsistent v)
    (va_UnknownIDsInRanking v) (va_ValidJSON v) (va_NonEmpty v) (va_InCandidateList v)
    (va_StillListed v) (va_StillHasCapacity v) (va_PolicyStillConsumerChoice v)
    (va_ReservationFieldsPresent v) (va_Valid v) (va_Errors v) true (va_FallbackMode v) id.

Definition applyFallback (d : DecisionRecord) (mode : string) : DecisionRecord :=
  match dc_FreshSnapshot d with
  | None => d
  | Some fresh =>
      if decide (mode = fallbackFail ∨ nl_AppliedPlacement fresh ≠ PlacementStrategyConsumerChoice)
      then d
      else
        let id := fallback_choice mode (eligibleCandidates fresh) in
        let v := dc_Validation d in
        if decide (id = "") then
          mkDecision (dc_Trace d) (dc_Parsed d) (set_fallback (va_FallbackProviderID v) v) (dc_Source d)
            (dc_FinalProviderID d) (dc_FinalNodeGroup d) (dc_Failures d ++ [failFallbackNoCandidate])
            (dc_FreshSnapshot d)
        else
          mkDecision (dc_Trace d) (dc_Parsed d) (set_fallback id v) sourceFallback id
            (standardGroup (nl_NodeGroups fresh) id) (dc_Failures d) (dc_FreshSnapshot d)
  end.

(** The end of [decide], once every check was made. *)
Definition answer_valid (t : Trace) (v : Validation) : bool :=
  bool_decide (tr_Err t = None) && (va_ValidJSON v || tr_SingleCandidate t) && va_NonEmpty v &&
  va_InCandidateList v && va_StillListed v && va_StillHasCapacity v &&
  va_ReservationFieldsPresent v && va_PolicyStillConsumerChoice v.

Definition set_valid (b : bool) (v : Validation) : Validation :=
  mkValidation (va_SelectedProviderID v) (va_ModelProviderIDField v) (va_RankingConsistent v)
    (va_UnknownIDsInRanking v) (va_ValidJSON v) (va_NonEmpty v) (va_InCandidateList v)
    (va_StillListed v) (va_StillHasCapacity v) (va_PolicyStillConsumerChoice v)
    (va_ReservationFieldsPresent v) b (va_Errors v) (va_FallbackApplied v) (va_FallbackMode v)
    (va_FallbackProviderID v).

Definition settle (d : DecisionRecord) (mode : string) : DecisionRecord :=
  let t := dc_Trace d in
  let v := dc_Validation d in
  let ok := answer_valid t v in
  let with_choice source id ng :=
    mkDecision t (dc_Parsed d) (set_valid ok v) source id ng (dc_Failures d) (dc_FreshSnapshot d) in
  if ok then
    with_choice (if tr_SingleCandidate t then sourceSingleCandidate else sourceAI)
      (va_SelectedProviderID v) (dc_FinalNodeGroup d)
  else applyFallback (with_choice (dc_Source d) (dc_FinalProviderID d) None) mode.

(** The outside calls of a decision. *)
Inductive choice_call := ChoiceModel (c : llm_call) | ChoiceNodeGroups.

Definition choice_answer (c : choice_call) : Type :=
  match c with
  | ChoiceModel c => llm_answer c
  | ChoiceNodeGroups => NodeGroupListResponse + CallError
  end.

Definition set_mode (mode : string) (v : Validation) : Validation :=
  mkValidation (va_SelectedProviderID v) (va_ModelProviderIDField v) (va_RankingConsistent v)
    (va_UnknownIDsInRanking v) (va_ValidJSON v) (va_NonEmpty v) (va_InCandidateList v)
    (va_StillListed v) (va_StillHasCapacity v) (va_PolicyStillConsumerChoice v)
    (va_ReservationFieldsPresent v) (va_Valid v) (va_Errors v) (va_FallbackApplied v) mode
    (va_FallbackProviderID v).

Definition decideChoice (unmarshal_selection : string → option SelectionResponse) (mode : string)
    (userRequest : string) (candidates : list NodeGroupView) :
    eff choice_call choice_answer DecisionRecord :=
  t ← hoist (λ c, ask (R:=choice_answer) (ChoiceModel c))
        (SelectDetailed unmarshal_selection userRequest candidates);
  let parsed := if decide (tr_RawResponse t = "") then None
                else unmarshal_selection (tr_RawResponse t) in
  let '(v, failures) := validateAnswer t parsed in
  let d := mkDecision t parsed (set_mode mode v) sourceNone "" None failures None in
  read ← ask (R:=choice_answer) ChoiceNodeGroups;
  mret (settle (checkAgainstBroker d read) mode).

(** ** What a decision may hand on *)
Lemma leaves_hoist {E1 E2} {R1 : E1 → Type} {R2 : E2 → Type} (f : ∀ e, eff E2 R2 (R1 e)) {A}
    (P : A → Prop) (p : eff E1 R1 A) : leaves P p → leaves P (hoist f p).
Proof.
  induction p as [a|r k IH|e k IH]; simpl; intros Hp; [done|by intros x; apply IH|].
  apply (leaves_bind (λ _, True) P (f e)); [apply leaves_any|]. intros x _. by apply IH.
Qed.

Lemma SelectDetailed_providers unmarshal_selection request groups :
  leaves (λ t, tr_Providers t = offered groups) (SelectDetailed unmarshal_selection request groups).
Proof.
  unfold SelectDetailed. destruct (offered groups) as [|p [|q l]] eqn:E; [done..|].
  apply (leaves_bind (λ _, True)); [apply leaves_any|]. intros [resp|err] _; [|done].
  apply leaves_ret. unfold judge_selection. destruct (unmarshal_selection resp) as [sel|]; [|done].
  destruct (sr_RankedList sel) as [|h t]; [by repeat case_decide|].
  by destruct (foldl _ _ _) as [[|r ranked] unknown].
Qed.

Lemma pickLowest_eligible ngs primary secondary :
  pickLowest ngs primary secondary ≠ "" →
  ∃ ng, ng ∈ ngs ∧ ng_ProviderClusterID ng = pickLowest ngs primary secondary ∧ is_Some (primary ng).
Proof.
  unfold pickLowest. destruct (GoSort.SliceStable _ ngs) as [|ng l] eqn:E; [done|].
  destruct (primary ng) eqn:Ep; [|done]. intros _. exists ng. split_and!; [|done|done].
  rewrite <-(GoSort.SliceStable_perm (pick_less primary secondary) ngs), E. constructor.
Qed.

Lemma fallback_choice_eligible mode ngs :
  fallback_choice mode ngs ≠ "" →
  ∃ ng, ng ∈ ngs ∧ ng_ProviderClusterID ng = fallback_choice mode ngs.
Proof.
  unfold fallback_choice. intros Hne. repeat case_decide; [..|done].
  - unfold DeterministicFallback in *.
    destruct (filter _ (candidate_of <$> ngs)) as [|c0 l0] eqn:Ef; [done|].
    destruct (GoSort.SliceStable candidate_less (c0 :: l0)) as [|c1 l1] eqn:E; [done|]. simpl in *.
    assert (c1 ∈ filter (λ c, 0 < ca_available c) (candidate_of <$> ngs)) as [_ Hc]%list_elem_of_filter.
    { rewrite Ef, <-(GoSort.SliceStable_perm candidate_less), E. constructor. }
    apply list_elem_of_fmap in Hc as (ng & -> & Hng). exists ng. split; [done|].
    symmetry. apply candidate_of_facts.
  - destruct (pickLowest_eligible _ _ _ Hne) as (ng & ? & ? & _). by exists ng.
  - destruct (pickLowest_eligible _ _ _ Hne) as (ng & ? & ? & _). by exists ng.
Qed.

(** A provider of the fresh list that can be reserved, and the group that will
    be. *)
Definition reservable (fresh : NodeGroupListResponse) (id : string) (ng : NodeGroupView) : Prop :=
  nl_AppliedPlacement fresh = PlacementStrategyConsumerChoice ∧
  standardGroup (nl_NodeGroups fresh) id = Some ng ∧
  ∃ ng', ng' ∈ eligibleCandidates fresh ∧ ng_ProviderClusterID ng' = id.

Definition sound_decision (mode : string) (candidates : list NodeGroupView) (d : DecisionRecord) : Prop :=
  let id := dc_FinalProviderID d in
  (dc_Source d = sourceNone ∧ id = "" ∧ dc_FinalNodeGroup d = None ∧
     va_Valid (dc_Validation d) = false) ∨
  ∃ fresh ng, dc_FreshSnapshot d = Some fresh ∧ dc_FinalNodeGroup d = Some ng ∧ reservable fresh id ng ∧
    ((dc_Source d = (if tr_SingleCandidate (dc_Trace d) then sourceSingleCandidate else sourceAI) ∧
      va_Valid (dc_Validation d) = true ∧ ng ∈ eligibleCandidates fresh ∧
      id ∈ ng_ProviderClusterID <$> offered candidates) ∨
     (dc_Source d = sourceFallback ∧ va_Valid (dc_Validation d) = false ∧ mode ≠ fallbackFail ∧
      va_FallbackApplied (dc_Validation d) = true)).

Lemma standardGroup_spec ngs id ng :
  standardGroup ngs id = Some ng →
  ng ∈ ngs ∧ ng_ProviderClusterID ng = id ∧ ng_Type ng = ChunkTypeStandard.
Proof.
  unfold standardGroup. destruct (list_find _ ngs) as [[i x]|] eqn:E; [|done]. intros [= <-].
  apply list_find_Some in E as (Hi & [? ?] & _). split_and!; [by eapply list_elem_of_lookup_2|done..].
Qed.

Lemma standardGroup_found ngs ng :
  ng ∈ ngs → ng_Type ng = ChunkTypeStandard →
  ∃ ng', standardGroup ngs (ng_ProviderClusterID ng) = Some ng'.
Proof.
  intros Hin Ht. unfold standardGroup. destruct (list_find _ ngs) as [[i x]|] eqn:E; [by exists x|].
  apply list_find_None in E. rewrite Forall_forall in E. by destruct (E ng Hin).
Qed.

(** What the checks leave: the fields the end of [decide] reads. *)
Lemma checkAgainstBroker_spec d read :
  let d' := checkAgainstBroker d read in
  let v' := dc_Validation d' in
  dc_Trace d' = dc_Trace d ∧ dc_Source d' = dc_Source d ∧ dc_FinalProviderID d' = dc_FinalProviderID d ∧
  va_SelectedProviderID v' = va_SelectedProviderID (dc_Validation d) ∧
  va_InCandidateList v' = va_InCandidateList (dc_Validation d) ∧
  (va_StillListed (dc_Validation d) = false → va_StillListed v' = true →
   va_StillHasCapacity v' = true → va_ReservationFieldsPresent v' = true →
   va_PolicyStillConsumerChoice v' = true →
   ∃ fresh ng, dc_FreshSnapshot d' = Some fresh ∧ dc_FinalNodeGroup d' = Some ng ∧
     nl_AppliedPlacement fresh = PlacementStrategyConsumerChoice ∧
     standardGroup (nl_NodeGroups fresh) (va_SelectedProviderID (dc_Validation d)) = Some ng ∧
     ng_CurrentReserved ng < ng_MaxSize ng).
Proof.
  destruct read as [fresh|err]; simpl; [|split_and!; try done; congruence].
  set (policy := bool_decide _).
  destruct (va_InCandidateList (dc_Validation d)) eqn:Hin; simpl.
  2: { destruct policy; split_and!; simpl; try done; congruence. }
  destruct (standardGroup _ _) as [ng|] eqn:Hg.
  2: { destruct policy; split_and!; simpl; try done; congruence. }
  destruct (Z.ltb_spec (ng_CurrentReserved ng) (ng_MaxSize ng)), (negb _ && _ && _);
    destruct policy eqn:Hp; split_and!; simpl; try done; intros; try congruence.
  exists fresh, ng. split_and!; try done. by apply bool_decide_eq_true in Hp.
Qed.

Lemma applyFallback_sound d mode candidates :
  dc_Source d = sourceNone → dc_FinalProviderID d = "" → dc_FinalNodeGroup d = None →
  va_Valid (dc_Validation d) = false → sound_decision mode candidates (applyFallback d mode).
Proof.
  intros Hs Hid Hng Hv. unfold applyFallback, sound_decision.
  destruct (dc_FreshSnapshot d) as [fresh|] eqn:Hf; [|by left].
  destruct (decide _) as [_|Hmode]; [by left|].
  destruct (decide (fallback_choice mode (eligibleCandidates fresh) = "")) as [E|Hne]; [by left|].
  right. destruct (fallback_choice_eligible _ _ Hne) as (ng & Hin & Hp).
  assert (ng ∈ nl_NodeGroups fresh ∧ ng_Type ng = ChunkTypeStandard) as [Hl Ht].
  { apply list_elem_of_filter in Hin as [? [_ ?]%list_elem_of_filter]. done. }
  destruct (standardGroup_found _ _ Hl Ht) as [ng' Hg]. rewrite Hp in Hg.
  exists fresh, ng'. split_and!; [done|exact Hg| |right].
  - split_and!; [destruct (decide (nl_AppliedPlacement fresh = PlacementStrategyConsumerChoice)); [done|]; tauto
      |exact Hg|by exists ng].
  - split_and!; [done|done|tauto|done].
Qed.

(** The experiment never acts on an answer it cannot justify: whatever the
    model and the Broker answer, a decision either hands on nothing, or a
    provider that the fresh read of the Broker lists under ConsumerChoice with a
    standard node group and free capacity.  It is attributed to the model only
    when the model ranked exactly that provider first among the candidates it was
    given and every check passed; otherwise the fallback chose it, which the
    configuration must allow, and the decision says so. *)
Theorem decideChoice_sound unmarshal_selection mode request candidates :
  leaves (sound_decision mode candidates)
    (decideChoice unmarshal_selection mode request candidates).
Proof.
  unfold decideChoice.
  apply (leaves_bind (λ t, tr_Providers t = offered candidates));
    [apply leaves_hoist, SelectDetailed_providers|].
  intros t Ht. set (parsed := if decide _ then _ else _). clearbody parsed.
  destruct (validateAnswer t parsed) as [v failures] eqn:Ev.
  apply (leaves_bind (λ _, True)); [apply leaves_any|]. intros read _. apply leaves_ret.
  assert (va_InCandidateList v = bool_decide (va_SelectedProviderID v ∈
            ng_ProviderClusterID <$> tr_Providers t) ∧ va_StillListed v = false) as [Hin Hsl].
  { unfold validateAnswer in Ev. destruct (selected_by t parsed). by simplify_eq. }
  set (d := mkDecision t parsed (set_mode mode v) sourceNone "" None failures None).
  destruct (checkAgainstBroker_spec d read) as (Etr & Eso & Eid & Esel & Ein & Hok).
  set (d' := checkAgainstBroker d read) in *. unfold settle.
  destruct (answer_valid (dc_Trace d') (dc_Validation d')) eqn:Hval.
  2: { by apply applyFallback_sound. }
  unfold answer_valid in Hval. rewrite !andb_true_iff in Hval.
  destruct Hval as (((((((_ & _) & Hne) & Hcl) & Hl) & Hc) & Hf) & Hp).
  destruct Hok as (fresh & ng & Efr & Eng & Hcc & Hg & Hcap); try done.
  right. exists fresh, ng. cbn [dc_FinalProviderID dc_FreshSnapshot dc_FinalNodeGroup dc_Source dc_Trace dc_Validation].
  destruct (standardGroup_spec _ _ _ Hg) as (Hgin & Hgp & Hgt).
  assert (ng ∈ eligibleCandidates fresh) as Hel.
  { apply list_elem_of_filter. split; [done|]. by apply list_elem_of_filter. }
  split_and!; [done..| |left].
  - rewrite Esel. split_and!; [done..|]. by exists ng.
  - split_and!; [done|done|done|]. rewrite Ein in Hcl. rewrite Esel.
    change (va_InCandidateList v = true) in Hcl. rewrite Hin in Hcl.
    apply bool_decide_eq_true in Hcl. by rewrite <-Ht.
Qed.
End Choice.
