(* ===== verification/Evaluation.v ===== *)
(** * How the experiments judge what they measured
    (federation-tests/consumerchoice: evaluate.go, metrics.go;
    federation-tests/scalability: summary.go, metrics.go)

    The ranks a choice is judged by, the verdict of a scenario, the rates and
    the latency summaries of a run.  The explanatory strings of a verdict are
    not modelled. *)
From stdpp Require Import base gmap strings list sorting.
From Stdlib Require Import ZArith Lia SpecFloat.
From S2P Require Import Prelude GoText ApiTypes Chunk Wire Kube Effects AgentClient Registry Placement.
From S2P Require Import PlacementProofs Prober Selection Prompt Experiment.
Import GoFloat.

Open Scope Z_scope.

(** ** The mathematics of package math *)
Module GoMath.

(** The integer part of a finite non-integer's magnitude, and the rest over
    [2 ^ -e]. *)
Definition split (m : positive) (e : Z) : Z * Z := (Z.pos m / 2 ^ (- e), Z.pos m mod 2 ^ (- e)).

(** A magnitude with a sign, zero keeping it. *)
Definition signed (s : bool) (n : Z) : float64 :=
  if n =? 0 then S754_zero s else fof_Z (if s then - n else n).

(** [math.Round]: half away from zero. *)
Definition Round (x : float64) : float64 :=
  match x with
  | S754_finite s m e =>
      if 0 <=? e then x
      else let '(q, r) := split m e in signed s (if 2 ^ (- e) <=? 2 * r then q + 1 else q)
  | _ => x
  end.

(** [math.Ceil]. *)
Definition Ceil (x : float64) : float64 :=
  match x with
  | S754_finite s m e =>
      if 0 <=? e then x
      else let '(q, r) := split m e in signed s (if negb s && (0 <? r) then q + 1 else q)
  | _ => x
  end.

Definition Inf (negative : bool) : float64 := S754_infinity negative.

Definition Min (x y : float64) : float64 :=
  if feq x (Inf true) || feq y (Inf true) then Inf true
  else if is_nan x || is_nan y then S754_nan
  else match x, y with
       | S754_zero s, S754_zero _ => if s then x else y
       | _, _ => if flt x y then x else y
       end.

Definition Max (x y : float64) : float64 :=
  if feq x (Inf false) || feq y (Inf false) then Inf false
  else if is_nan x || is_nan y then S754_nan
  else match x, y with
       | S754_zero s, S754_zero _ => if s then y else x
       | _, _ => if flt y x then x else y
       end.

(** [sort.Float64s]: NaN first. *)
Definition Float64s (l : list float64) : list float64 :=
  GoSort.SliceStable (λ a b, flt a b || (is_nan a && negb (is_nan b))) l.

Lemma Float64s_perm l : Float64s l ≡ₚ l.
Proof. apply GoSort.SliceStable_perm. Qed.
End GoMath.

(** ** Ranks (evaluate.go) *)

(** The values that are there, with their positions. *)
Definition present (values : list (option float64)) : list (nat * float64) :=
  omap (λ p : nat * option float64, (p.1,.) <$> p.2) (imap pair values).

(** The ranking loop over the sorted values, [prev] being the value before and
    its rank. *)
Fixpoint assign_ranks (pos : nat) (prev : option (float64 * nat)) (l : list (nat * float64)) :
    list (nat * nat) :=
  match l with
  | [] => []
  | (i, v) :: l' =>
      let r := match prev with
               | Some (w, rw) => if feq v w then rw else S pos
               | None => S pos
               end in
      (i, r) :: assign_ranks (S pos) (Some (v, r)) l'
  end.

Definition by_value (a b : nat * float64) : bool := flt a.2 b.2.

Definition rankAscending (values : list (option float64)) : list nat :=
  foldl (λ ranks p, <[p.1 := p.2]> ranks) (replicate (length values) 0%nat)
    (assign_ranks 0 None (GoSort.SliceStable by_value (present values))).

(** How many values are below [v]. *)
Definition below (v : float64) (l : list (nat * float64)) : nat :=
  length (filter (λ p, flt p.2 v = true) l).

Definition numbers (l : list (nat * float64)) : Prop := Forall (λ p, is_nan p.2 = false) l.

Lemma flt_total x y :
  is_nan x = false → is_nan y = false → feq x y = false → flt x y = false → flt y x = true.
Proof.
  intros Hx Hy. rewrite feq_key, !flt_key by done.
  destruct (fkey x) as [[a1 a2] a3], (fkey y) as [[b1 b2] b3]. unfold lex_eqb, lex_ltb. lia.
Qed.

Lemma flt_le_trans x y z :
  is_nan x = false → is_nan y = false → is_nan z = false →
  flt y x = false → flt y z = true → flt x z = true.
Proof.
  intros Hx Hy Hz. rewrite !flt_key by done.
  destruct (fkey x) as [[a1 a2] a3], (fkey y) as [[b1 b2] b3], (fkey z) as [[c1 c2] c3].
  unfold lex_ltb. lia.
Qed.

Lemma feq_flt x y z :
  is_nan x = false → is_nan y = false → is_nan z = false → feq x y = true → flt z x = flt z y.
Proof.
  intros Hx Hy Hz. rewrite feq_key, !flt_key by done.
  destruct (fkey x) as [[a1 a2] a3], (fkey y) as [[b1 b2] b3], (fkey z) as [[c1 c2] c3].
  unfold lex_eqb, lex_ltb. intros. f_equal; [|repeat f_equal]; lia.
Qed.

Lemma below_eq v w l :
  numbers l → is_nan v = false → is_nan w = false → feq v w = true → below v l = below w l.
Proof.
  intros Hl Hv Hw He. unfold below. induction Hl as [|p l Hp Hl IH]; [done|].
  pose proof (feq_flt v w p.2 Hv Hw Hp He). rewrite !filter_cons. repeat case_decide; simpl; congruence.
Qed.

Lemma below_all v l : Forall (λ p, flt p.2 v = true) l → below v l = length l.
Proof.
  unfold below. induction 1 as [|p l Hp Hl IH]; [done|]. rewrite filter_cons_True by done. simpl. lia.
Qed.

Lemma below_none v l : Forall (λ p, flt p.2 v = false) l → below v l = 0%nat.
Proof.
  unfold below. induction 1 as [|p l Hp Hl IH]; [done|]. rewrite filter_cons_False by congruence. done.
Qed.

Lemma below_app v l1 l2 : below v (l1 ++ l2) = (below v l1 + below v l2)%nat.
Proof. unfold below. by rewrite filter_app, length_app. Qed.

Lemma assign_keys pos prev l : (assign_ranks pos prev l).*1 = l.*1.
Proof. revert pos prev. induction l as [|[i v] l IH]; intros pos prev; [done|]. simpl. by rewrite IH. Qed.

(** Each value's rank is one more than the number of values below it. *)
Lemma assign_spec pre prev l :
  GoSort.sorted_by by_value (pre ++ l) → numbers (pre ++ l) →
  (match last pre with
   | None => prev = None
   | Some (_, w) => prev = Some (w, S (below w (pre ++ l)))
   end) →
  ∀ i v, (i, v) ∈ l → (i, S (below v (pre ++ l))) ∈ assign_ranks (length pre) prev l.
Proof.
  revert pre prev. induction l as [|[j u] l IH]; intros pre prev Hs Hn Hprev i v; [by intros ?%elem_of_nil|].
  assert (numbers pre ∧ is_nan u = false ∧ numbers l) as (Hnp & Hnu & Hnl).
  { apply Forall_app in Hn as [? [? ?]%Forall_cons]. done. }
  assert (Forall (λ p, flt p.2 u = false) l) as Hge.
  { unfold GoSort.sorted_by in Hs. apply StronglySorted_app in Hs as (_ & _ & Hs).
    by apply StronglySorted_inv in Hs as [_ Hs]. }
  assert (below u (pre ++ (j, u) :: l) = below u pre) as Htail.
  { rewrite below_app. change ((j, u) :: l) with ([(j, u)] ++ l). rewrite below_app.
    rewrite (below_none u [_]) by (repeat constructor; by apply flt_irrefl).
    rewrite (below_none u l) by done. lia. }
  cbn [assign_ranks]. set (r := match prev with Some _ => _ | None => _ end).
  assert (r = S (below u (pre ++ (j, u) :: l))) as Hr.
  { rewrite Htail. unfold r. destruct (last pre) as [[j0 w]|] eqn:Hlast.
    - apply last_Some in Hlast as [pre0 ->]. rewrite Hprev.
      assert (is_nan w = false) as Hnw by (by apply Forall_app in Hnp as [_ [? _]%Forall_cons]).
      assert (flt u w = false) as Hwu.
      { unfold GoSort.sorted_by in Hs. apply StronglySorted_app in Hs as (Hs & _ & _).
        apply (Hs (j0, w) (j, u)); [apply elem_of_app; right|]; constructor. }
      destruct (feq u w) eqn:He.
      + f_equal. rewrite <-Htail. symmetry. by apply below_eq.
      + f_equal. symmetry. rewrite <-(below_all u (pre0 ++ [(j0, w)])); [done|].
        assert (flt w u = true) as Hlt by (by apply flt_total).
        apply Forall_app. split; [|by repeat constructor]. apply Forall_forall. intros p Hp.
        assert (is_nan p.2 = false) as Hnp'.
        { apply Forall_app in Hnp as [Hnp _]. rewrite Forall_forall in Hnp. by apply Hnp. }
        apply (flt_le_trans p.2 w u); try done.
        unfold GoSort.sorted_by in Hs. rewrite <-app_assoc in Hs.
        apply StronglySorted_app in Hs as (Hs & _ & _). apply (Hs p (j0, w)); [done|constructor].
    - apply last_None in Hlast as ->. by rewrite Hprev. }
  intros [[= -> ->]|Hin]%elem_of_cons; [rewrite Hr; constructor|]. constructor.
  assert (S (length pre) = length (pre ++ [(j, u)])) as -> by (rewrite length_app; simpl; lia).
  replace (pre ++ (j, u) :: l) with ((pre ++ [(j, u)]) ++ l) in * by (by rewrite <-app_assoc).
  apply IH; [done..| |done]. rewrite last_snoc. by rewrite Hr.
Qed.

Lemma write_ranks (l : list (nat * nat)) (base : list nat) i :
  NoDup l.*1 →
  foldl (λ ranks p, <[p.1 := p.2]> ranks) base l !! i =
  match list_find (λ p, p.1 = i) l with
  | Some (_, p) => if decide (i < length base)%nat then Some p.2 else None
  | None => base !! i
  end.
Proof.
  revert base. induction l as [|[j r] l IH]; intros base Hnd; [done|].
  rewrite fmap_cons in Hnd. apply NoDup_cons in Hnd as [Hj Hnd]. cbn [foldl fst snd list_find].
  rewrite IH, length_insert by done. destruct (decide (j = i)) as [->|Hne].
  - assert (list_find (λ p : nat * nat, p.1 = i) l = None) as ->.
    { apply list_find_None, Forall_forall. intros p Hp E. apply Hj. cbn [fst]. rewrite <-E. by apply (list_elem_of_fmap_2 fst). }
    destruct (decide _); [by rewrite list_lookup_insert_eq|].
    apply lookup_ge_None. rewrite length_insert. lia.
  - destruct (list_find _ l) as [[k p]|]; [done|]. by rewrite list_lookup_insert_ne.
Qed.

Lemma present_lookup values i v : (i, v) ∈ present values ↔ values !! i = Some (Some v).
Proof.
  unfold present. rewrite list_elem_of_omap. split.
  - intros ([j o] & (k & Hk)%list_elem_of_lookup & Ho). rewrite list_lookup_imap in Hk.
    destruct (values !! k) as [o'|] eqn:E; simplify_eq/=. destruct o; by simplify_eq/=.
  - intros E. exists (i, Some v). split; [|done].
    apply list_elem_of_lookup. exists i. by rewrite list_lookup_imap, E.
Qed.

Lemma present_keys values : NoDup (present values).*1.
Proof.
  unfold present. assert (∀ n, NoDup ((omap (λ p : nat * option float64, (p.1,.) <$> p.2)
    (imap (λ i, pair (n + i)%nat) values)).*1) ∧ ∀ j, j ∈ (omap (λ p : nat * option float64, (p.1,.) <$> p.2)
    (imap (λ i, pair (n + i)%nat) values)).*1 → (n ≤ j)%nat) as Hall; [|exact (proj1 (Hall 0%nat))].
  induction values as [|o values IH]; intros n; [split; [constructor|by intros j ?%elem_of_nil]|].
  rewrite imap_cons. simpl.
  assert (imap ((λ i, pair (n + i)%nat) ∘ S) values = imap (λ i, pair (S n + i)%nat) values) as ->
    by (apply imap_ext; intros; unfold compose; f_equal; lia).
  destruct (IH (S n)) as [Hnd Hge]. destruct o as [v|]; simpl.
  - split; [apply NoDup_cons; split; [intros H%Hge; lia|done]|].
    intros j [->|Hj]%elem_of_cons; [lia|]. apply Hge in Hj. lia.
  - split; [done|]. intros j Hj%Hge. lia.
Qed.

#[local] Instance by_value_weak : GoSort.StrictWeak by_value (λ p, is_nan p.2 = false).
Proof.
  split.
  - intros a b Ha Hb. unfold by_value. rewrite !flt_key by done.
    destruct (fkey a.2) as [[a1 a2] a3], (fkey b.2) as [[b1 b2] b3]. unfold lex_ltb. lia.
  - intros a b c Ha Hb Hc. unfold by_value. rewrite !flt_key by done.
    destruct (fkey a.2) as [[a1 a2] a3], (fkey b.2) as [[b1 b2] b3], (fkey c.2) as [[c1 c2] c3].
    unfold lex_ltb. lia.
Qed.

(** The ranks a choice is judged by are competition ranks: of any list of
    metrics without NaN, a provider that advertises the metric is ranked one more
    than the number of providers strictly better on it, so equal values share a
    rank and the next one skips, and a provider that does not advertise it is
    ranked 0 and takes no rank from the others. *)
Theorem rankAscending_correct values :
  numbers (present values) →
  length (rankAscending values) = length values ∧
  ∀ i, rankAscending values !! i =
    (λ o, match o with None => 0%nat | Some v => S (below v (present values)) end) <$> values !! i.
Proof.
  intros Hn. set (l := GoSort.SliceStable by_value (present values)).
  assert (l ≡ₚ present values) as Hp by apply GoSort.SliceStable_perm.
  assert (∀ i, rankAscending values !! i =
    (λ o, match o with None => 0%nat | Some v => S (below v (present values)) end) <$> values !! i) as Hall.
  2: { split; [|done]. unfold rankAscending. clear.
       assert (∀ l base, length (foldl (λ ranks (p : nat * nat), <[p.1 := p.2]> ranks) base l) = length base)
         as Hlen; [|rewrite Hlen; apply length_replicate].
       induction l as [|p l IH]; intros base; [done|]. cbn [foldl]. by rewrite IH, length_insert. }
  intros i. unfold rankAscending. fold l.
  assert (numbers l) as Hnl by (unfold numbers; by rewrite Hp).
  assert (NoDup (assign_ranks 0 None l).*1) as Hnd by (rewrite assign_keys, Hp; apply present_keys).
  rewrite write_ranks, length_replicate by done.
  assert (GoSort.sorted_by by_value l) as Hs by (apply (GoSort.SliceStable_sorted by_value (λ p, is_nan p.2 = false)), Hn).
  destruct (values !! i) as [[v|]|] eqn:Ei; cbn [fmap option_fmap option_map].
  - assert (i < length values)%nat as Hi by (by apply lookup_lt_Some in Ei).
    assert ((i, S (below v l)) ∈ assign_ranks 0 None l) as Hin.
    { apply (assign_spec [] None l); [done..|]. rewrite Hp. by apply present_lookup. }
    destruct (list_find _ _) as [[k [j r]]|] eqn:Ef.
    2: { apply list_find_None in Ef. rewrite Forall_forall in Ef. by destruct (Ef _ Hin). }
    apply list_find_Some in Ef as (Hk & Hj & _). simpl in Hj. subst j. rewrite decide_True by done.
    assert (r = S (below v l)) as ->.
    { apply list_elem_of_lookup in Hin as [k' Hk'].
      assert (k = k') as <-; [|by simplify_eq].
      apply (NoDup_lookup (assign_ranks 0 None l).*1 k k' i); [done|by rewrite list_lookup_fmap, Hk|
        by rewrite list_lookup_fmap, Hk']. }
    cbn [snd]. do 2 f_equal. unfold below. by rewrite Hp.
  - destruct (list_find _ _) as [[k [j r]]|] eqn:Ef.
    2: { rewrite lookup_replicate. split; [done|]. by apply lookup_lt_Some in Ei. }
    exfalso. apply list_find_Some in Ef as (Hk & Hj & _). simpl in Hj. subst j.
    assert (i ∈ (present values).*1) as Hin.
    { rewrite <-Hp, <-(assign_keys 0 None l). apply list_elem_of_lookup. exists k.
      by rewrite list_lookup_fmap, Hk. }
    apply list_elem_of_fmap in Hin as ([j v] & [= ->] & Hin). apply present_lookup in Hin. congruence.
  - apply lookup_ge_None in Ei. destruct (list_find _ _) as [[k [j r]]|]; [by rewrite decide_False by lia|].
    apply lookup_ge_None. by rewrite length_replicate.
Qed.

(** ** Candidate metrics (evaluate.go) *)
Record Weights := mkWeights { we_Carbon : float64; we_Distance : float64; we_Cost : float64 }.

Record CandidateMetrics := mkCandidateMetrics {
  cm_ProviderID : string;
  cm_NodeGroupID : string;
  cm_ChunkType : string;
  cm_Region : string;
  cm_Latitude : float64;
  cm_Longitude : float64;
  cm_AvailableChunks : Z;
  cm_AvailableCPUMillicores : Z;
  cm_AvailableMemoryMiB : Z;
  cm_CostPerChunk : option float64;
  cm_CarbonIntensity : option float64;
  cm_DistanceKm : option float64;
  cm_CarbonRank : nat;
  cm_DistanceRank : nat;
  cm_CostRank : nat;
  cm_ReferenceRank : nat;
  cm_Reference : option float64
}.

Section Evaluation.
Context `{Platform}.

Definition round_to (digits : Z) (x : float64) : float64 :=
  fdiv (GoMath.Round (fmul x (fof_Z digits))) (fof_Z digits).

Definition distancesFrom (consumer : option PromptLocation) (providers : list ProviderInfo) :
    list (option float64) :=
  match consumer with
  | None => replicate (length providers) None
  | Some c =>
      (λ p, if feq (pf_Latitude p) fzero && feq (pf_Longitude p) fzero then None
            else Some (round_to 10 (HaversineKm (pl_Latitude c) (pl_Longitude c)
                                      (pf_Latitude p) (pf_Longitude p)))) <$> providers
  end.

(** The closure [norm] of [referenceScores]. *)
Definition norm_bounds (vals : list (option float64)) : float64 * float64 :=
  foldl (λ b v, match v with
                | Some x => (GoMath.Min b.1 x, GoMath.Max b.2 x)
                | None => b
                end) (GoMath.Inf false, GoMath.Inf true) vals.

Definition norm (vals : list (option float64)) : list float64 :=
  let '(lo, hi) := norm_bounds vals in
  (λ v, match v with
        | None => fof_Z 1
        | Some x => if feq hi lo then fzero else fdiv (fsub x lo) (fsub hi lo)
        end) <$> vals.

Definition referenceScores (carbon distance cost : list (option float64)) (w : Weights) :
    list (option float64) :=
  let total := fadd (fadd (we_Carbon w) (we_Distance w)) (we_Cost w) in
  zip_with (λ ncd k, Some (round_to 10000
      (fdiv (fadd (fadd (fmul (we_Carbon w) ncd.1) (fmul (we_Distance w) ncd.2)) (fmul (we_Cost w) k))
         total)))
    (zip (norm carbon) (norm distance)) (norm cost).

Definition metrics_of (p : ProviderInfo) (distance : option float64) (carbonRank distanceRank costRank : nat)
    (reference : option float64 * nat) : CandidateMetrics :=
  mkCandidateMetrics (pf_ProviderID p) (pf_NodeGroupID p) (pf_ClusterType p) (pf_Region p)
    (pf_Latitude p) (pf_Longitude p) (pf_AvailableChunks p) (pf_AvailableCPUMillicores p)
    (pf_AvailableMemoryMiB p) (pf_CostPerChunk p) (pf_CarbonIntensity p) distance
    carbonRank distanceRank costRank reference.2 reference.1.

Definition candidateMetrics (providers : list ProviderInfo) (distances : list (option float64))
    (weights : option Weights) : list CandidateMetrics :=
  let carbon := pf_CarbonIntensity <$> providers in
  let cost := pf_CostPerChunk <$> providers in
  let reference :=
    match weights with
    | Some w =>
        let scores := referenceScores carbon distances cost w in zip scores (rankAscending scores)
    | None => replicate (length providers) (None, 0%nat)
    end in
  zip_with (λ pd rr, metrics_of pd.1 pd.2 rr.1.1.1 rr.1.1.2 rr.1.2 rr.2)
    (zip providers distances)
    (zip (zip (zip (rankAscending carbon) (rankAscending distances)) (rankAscending cost)) reference).

Definition buildCandidateMetrics (providers : list ProviderInfo) (consumer : option PromptLocation)
    (weights : option Weights) : list CandidateMetrics :=
  candidateMetrics providers (distancesFrom consumer providers) weights.

(** [inWorstQuantile]; [int(x)] is the conversion of a float. *)
Definition inWorstQuantile (rank n : Z) (q : float64) : bool :=
  if (rank <=? 0) || (n <=? 0) then false
  else n - float_to_int64 (GoMath.Ceil (fmul q (fof_Z n))) <? rank.

(** ** The verdict *)
Definition criterionEco : string := "eco".
Definition criterionProximity : string := "proximity".
Definition criterionBalanced : string := "balanced".
Definition criterionNone : string := "none".

Record Criterion := mkCriterion {
  ct_Type : string;
  ct_MaxCarbonRank : Z;
  ct_MaxDistanceRank : Z;
  ct_WorstQuantile : float64
}.

(** A cleaner candidate that is near too. *)
Definition cleaner_nearby (c : Criterion) (sel other : CandidateMetrics) : bool :=
  negb (bool_decide (cm_ProviderID other = cm_ProviderID sel)) &&
  bool_decide (0 < cm_DistanceRank other)%nat && (Z.of_nat (cm_DistanceRank other) <=? ct_MaxDistanceRank c) &&
  bool_decide (0 < cm_CarbonRank other)%nat && bool_decide (cm_CarbonRank other < cm_CarbonRank sel)%nat.

(** [evaluateCriterion]: [Passed], [None] when it could not be judged. *)
Definition evaluateCriterion (c : Criterion) (candidates : list CandidateMetrics) (selectedID : string) :
    option bool :=
  match list_find (λ m, cm_ProviderID m = selectedID) candidates with
  | None => Some false
  | Some (_, sel) =>
      let n := Z.of_nat (length candidates) in
      let carbon := Z.of_nat (cm_CarbonRank sel) in
      let distance := Z.of_nat (cm_DistanceRank sel) in
      if decide (ct_Type c = criterionEco) then
        if carbon =? 0 then None else Some (carbon <=? ct_MaxCarbonRank c)
      else if decide (ct_Type c = criterionProximity) then
        if (distance =? 0) || (carbon =? 0) then None
        else
          let outlier := inWorstQuantile carbon n (ct_WorstQuantile c) &&
                         existsb (cleaner_nearby c sel) candidates in
          Some ((distance <=? ct_MaxDistanceRank c) && negb outlier)
      else if decide (ct_Type c = criterionBalanced) then
        if (distance =? 0) || (carbon =? 0) then None
        else Some (negb (inWorstQuantile carbon n (ct_WorstQuantile c)) &&
                   negb (inWorstQuantile distance n (ct_WorstQuantile c)))
      else Some true
  end.

(** ** Rates and latencies (metrics.go) *)
Definition ratio (num den : Z) : option float64 :=
  if den =? 0 then None else Some (round_to 10000 (fdiv (fof_Z num) (fof_Z den))).

Record LatencyStats := mkLatencyStats {
  lt_N : nat; lt_MeanMs : option float64; lt_P95Ms : option float64; lt_MaxMs : option float64
}.

(** An index out of range would be a panic; [!!] gives [None] there. *)
Definition latencyStats (samples : list float64) : LatencyStats :=
  match samples with
  | [] => mkLatencyStats 0 None None None
  | _ =>
      let sorted := GoMath.Float64s samples in
      let n := length sorted in
      let sum := foldl fadd fzero sorted in
      let rank := float_to_int64 (GoMath.Ceil (fmul (flit 95 100) (fof_Z (Z.of_nat n)))) in
      mkLatencyStats (length samples) (Some (round_to 10 (fdiv sum (fof_Z (Z.of_nat n)))))
        (if 1 <=? rank then sorted !! Z.to_nat (rank - 1) else None) (last sorted)
  end.

(** [mostFrequent]: the IDs in order, a later one only with a larger count. *)
Definition mostFrequent (dist : gmap string nat) : string * nat :=
  foldl (λ best id, let n := default 0%nat (dist !! id) in
           if decide (best.2 < n)%nat then (id, n) else best) ("", 0%nat)
    (GoSort.SliceStable GoStr.str_lt (map_to_list dist).*1).

(** ** A run's metrics (metrics.go) *)
Record RepetitionOutcome := mkOutcome {
  ro_Scenario : string;
  ro_Repetition : Z;
  ro_AICalled : bool;
  ro_SingleCandidate : bool;
  ro_AIValid : bool;
  ro_ModelAnswerFailure : bool;
  ro_AISelectedID : string;
  ro_Source : string;
  ro_FinalProviderID : string;
  ro_FallbackUsed : bool;
  ro_DecisionLatencyMs : float64;
  ro_ReservationAttempt : bool;
  ro_Peered : bool;
  ro_PeeringLatencyMs : float64;
  ro_CriterionPassed : option bool;
  ro_CarbonRank : Z;
  ro_DistanceRank : Z;
  ro_CostRank : Z;
  ro_ReferenceRank : Z;
  ro_CandidateCount : Z;
  ro_ReleasedAndSettled : bool;
  ro_FailureCategories : list string
}.

(** [ScenarioMetrics] while it is counted, with the scenario's latencies. *)
Record ScenarioCount := mkScenarioCount {
  sc_Repetitions : nat;
  sc_AICalls : nat;
  sc_Distribution : gmap string nat;
  sc_CriterionPassed : nat;
  sc_CriterionTotal : nat;
  sc_Latencies : list float64
}.
Definition scenario_zero : ScenarioCount := mkScenarioCount 0 0 ∅ 0 0 [].

(** The counters of [RunMetrics], the samples and the scenarios in order. *)
Record RunCount := mkRunCount {
  rm_AICalls : nat;
  rm_ValidAIIDs : nat;
  rm_ModelAnswerFailures : nat;
  rm_PeeredFromValidAI : nat;
  rm_Reservations : nat;
  rm_Peered : nat;
  rm_AlignmentEvaluated : nat;
  rm_AlignmentPassed : nat;
  rm_FallbackActivations : nat;
  rm_SingleCandidateShortcuts : nat;
  rm_FailureBreakdown : gmap string nat;
  rm_decisions : list float64;
  rm_peerings : list float64;
  rm_scenarios : gmap string ScenarioCount;
  rm_order : list string
}.

Definition bump (b : bool) (n : nat) : nat := if b then S n else n.
Definition keep (b : bool) (x : float64) (l : list float64) : list float64 := if b then l ++ [x] else l.
Definition bump_key (k : string) (m : gmap string nat) : gmap string nat :=
  <[k := S (default 0%nat (m !! k))]> m.

Definition aligned (o : RepetitionOutcome) : bool :=
  bool_decide (ro_Source o = sourceAI) && bool_decide (is_Some (ro_CriterionPassed o)).
Definition passed (o : RepetitionOutcome) : bool := bool_decide (ro_CriterionPassed o = Some true).

Definition count_scenario (o : RepetitionOutcome) (c : ScenarioCount) : ScenarioCount :=
  mkScenarioCount (S (sc_Repetitions c)) (bump (ro_AICalled o) (sc_AICalls c))
    (if decide (ro_AISelectedID o = "") then sc_Distribution c
     else bump_key (ro_AISelectedID o) (sc_Distribution c))
    (bump (aligned o && passed o) (sc_CriterionPassed c)) (bump (aligned o) (sc_CriterionTotal c))
    (keep (ro_AICalled o) (ro_DecisionLatencyMs o) (sc_Latencies c)).

(** One iteration of the loop of [computeMetrics]. *)
Definition count_outcome (m : RunCount) (o : RepetitionOutcome) : RunCount :=
  let ai := ro_AICalled o in
  let reserved := ro_ReservationAttempt o in
  let name := ro_Scenario o in
  mkRunCount (bump ai (rm_AICalls m)) (bump (ai && ro_AIValid o) (rm_ValidAIIDs m))
    (bump (ai && ro_ModelAnswerFailure o) (rm_ModelAnswerFailures m))
    (bump (ai && ro_AIValid o && ro_Peered o) (rm_PeeredFromValidAI m))
    (bump reserved (rm_Reservations m)) (bump (reserved && ro_Peered o) (rm_Peered m))
    (bump (aligned o) (rm_AlignmentEvaluated m)) (bump (aligned o && passed o) (rm_AlignmentPassed m))
    (bump (ai && ro_FallbackUsed o) (rm_FallbackActivations m))
    (bump (ro_SingleCandidate o) (rm_SingleCandidateShortcuts m))
    (foldl (λ b f, bump_key f b) (rm_FailureBreakdown m) (ro_FailureCategories o))
    (keep ai (ro_DecisionLatencyMs o) (rm_decisions m))
    (keep (reserved && ro_Peered o) (ro_PeeringLatencyMs o) (rm_peerings m))
    (<[name := count_scenario o (default scenario_zero (rm_scenarios m !! name))]> (rm_scenarios m))
    (if decide (is_Some (rm_scenarios m !! name)) then rm_order m else rm_order m ++ [name]).

Definition run_zero (scenarioOrder : list string) : RunCount :=
  mkRunCount 0 0 0 0 0 0 0 0 0 0 ∅ [] [] (list_to_map ((λ n, (n, scenario_zero)) <$> scenarioOrder))
    scenarioOrder.

Record ScenarioMetrics := mkScenarioMetrics {
  sm_Scenario : string;
  sm_Count : ScenarioCount;
  sm_MostFrequent : string;
  sm_Repeatability : option float64;
  sm_DecisionLatency : LatencyStats
}.

Record RunMetrics := mkRunMetrics {
  rn_Count : RunCount;
  rn_ValidIDRate : option float64;
  rn_ReservationSuccessRate : option float64;
  rn_OverallReservationSuccessRate : option float64;
  rn_PromptAlignmentRate : option float64;
  rn_FallbackRate : option float64;
  rn_DecisionLatency : LatencyStats;
  rn_PeeringLatency : LatencyStats;
  rn_Scenarios : list ScenarioMetrics
}.

Definition scenario_metrics (m : RunCount) (name : string) : ScenarioMetrics :=
  let c := default scenario_zero (rm_scenarios m !! name) in
  let '(best, count) := mostFrequent (sc_Distribution c) in
  mkScenarioMetrics name c (if decide (0 < count)%nat then best else "")
    (if decide (0 < count)%nat then ratio (Z.of_nat count) (Z.of_nat (sc_AICalls c)) else None)
    (latencyStats (sc_Latencies c)).

Definition rate (num den : nat) : option float64 := ratio (Z.of_nat num) (Z.of_nat den).

Definition computeMetrics (outcomes : list RepetitionOutcome) (scenarioOrder : list string) : RunMetrics :=
  let m := foldl count_outcome (run_zero scenarioOrder) outcomes in
  mkRunMetrics m (rate (rm_ValidAIIDs m) (rm_AICalls m)) (rate (rm_PeeredFromValidAI m) (rm_ValidAIIDs m))
    (rate (rm_Peered m) (rm_Reservations m)) (rate (rm_AlignmentPassed m) (rm_AlignmentEvaluated m))
    (rate (rm_FallbackActivations m) (rm_AICalls m)) (latencyStats (rm_decisions m))
    (latencyStats (rm_peerings m)) (scenario_metrics m <$> rm_order m).

(** *** The counts are honest *)

(** How many outcomes satisfy [f]. *)
Definition count_if {A} (f : A → bool) (l : list A) : nat := length (filter (λ o, f o = true) l).

Lemma count_if_snoc {A} (f : A → bool) l o : count_if f (l ++ [o]) = bump (f o) (count_if f l).
Proof.
  unfold count_if, bump. rewrite filter_app, length_app.
  destruct (f o) eqn:E; [rewrite filter_cons_True by done|rewrite filter_cons_False by congruence];
    simpl; lia.
Qed.

Lemma count_if_mono {A} (f g : A → bool) l : (∀ o, f o = true → g o = true) → (count_if f l ≤ count_if g l)%nat.
Proof.
  intros Hfg. induction l as [|o l IH] using rev_ind; [done|]. rewrite !count_if_snoc. unfold bump.
  pose proof (Hfg o) as Hi. destruct (f o), (g o); simpl; (lia || discriminate (Hi eq_refl)).
Qed.

(** Every rate the experiment reports is a ratio of two counts of the recorded
    repetitions, the counted ones among the considered ones: valid answers and
    fallbacks among the repetitions that asked the model, peered reservations
    among the valid answers and among the reservations made, met criteria among
    the model's judged choices.  Nothing is reported for an empty denominator,
    and each latency summary is over exactly as many samples as it claims. *)
Theorem computeMetrics_honest outcomes order :
  let m := rn_Count (computeMetrics outcomes order) in
  let n f := count_if f outcomes in
  rm_AICalls m = n ro_AICalled ∧
  rm_ValidAIIDs m = n (λ o, ro_AICalled o && ro_AIValid o) ∧
  rm_PeeredFromValidAI m = n (λ o, ro_AICalled o && ro_AIValid o && ro_Peered o) ∧
  rm_Reservations m = n ro_ReservationAttempt ∧
  rm_Peered m = n (λ o, ro_ReservationAttempt o && ro_Peered o) ∧
  rm_AlignmentEvaluated m = n aligned ∧ rm_AlignmentPassed m = n (λ o, aligned o && passed o) ∧
  rm_FallbackActivations m = n (λ o, ro_AICalled o && ro_FallbackUsed o) ∧
  length (rm_decisions m) = rm_AICalls m ∧ length (rm_peerings m) = rm_Peered m.
Proof.
  simpl. induction outcomes as [|o l IH] using rev_ind; [done|].
  rewrite foldl_app. cbn [foldl]. rewrite !count_if_snoc.
  set (m := foldl count_outcome (run_zero order) l) in *. clearbody m.
  destruct IH as (<- & <- & <- & <- & <- & <- & <- & <- & Hd & Hp).
  assert (∀ b x l, length (keep b x l) = bump b (length l)) as Hk
    by (intros [] x l'; simpl; [rewrite length_app; simpl; lia|done]).
  split_and!; try done; simpl; by rewrite Hk, ?Hd, ?Hp.
Qed.

(** ** The load test's statistics (scalability: metrics.go, summary.go) *)
Inductive LoadOutcome := OutcomeSuccess | OutcomeFailure | OutcomeTimeout | OutcomeCancelled.
Inductive Operation := OpEvaluation | OpAdvertisement | OpHeartbeat | OpInstructions.
Inductive LoadPhase := PhaseWarmup | PhaseMeasurement.

#[global] Instance Operation_eq_dec : EqDecision Operation.
Proof. solve_decision. Defined.
#[global] Instance LoadPhase_eq_dec : EqDecision LoadPhase.
Proof. solve_decision. Defined.

(** An error of a call: the client's [Error] in its chain, its text, and what
    [errors.Is] finds in the chain and, for the client's error, in its cause. *)
Record LoadError := mkLoadError {
  xe_agent : option AgentError;
  xe_text : string;
  xe_canceled : bool;              (* errors.Is(err, context.Canceled) *)
  xe_causeCanceled : bool;         (* errors.Is(cerr.Cause, context.Canceled) *)
  xe_causeDeadline : bool;         (* errors.Is(cerr.Cause, context.DeadlineExceeded) *)
  xe_causeNetTimeout : bool        (* the cause is a net.Error with Timeout() *)
}.

Definition categoryName (c : Category) : string :=
  match c with
  | CategoryTransient => "Transient" | CategoryBadRequest => "BadRequest"
  | CategoryUnauthenticated => "Unauthenticated" | CategoryForbidden => "Forbidden"
  | CategoryNotFound => "NotFound" | CategoryConflict => "Conflict"
  | CategoryPreconditionFailed => "PreconditionFailed" | CategoryTooManyRequests => "TooManyRequests"
  | CategoryUnknown => "Unknown"
  end.

Definition isTimeout (e : LoadError) (cerr : AgentError) : bool :=
  if negb (ae_Status cerr =? 0) then false else xe_causeDeadline e || xe_causeNetTimeout e.

Definition classifyLoad (e : LoadError) : LoadOutcome * Z * string * string :=
  match xe_agent e with
  | None =>
      if xe_canceled e then (OutcomeCancelled, 0, "Cancelled", xe_text e)
      else (OutcomeFailure, 0, "unknown", xe_text e)
  | Some cerr =>
      if (ae_Status cerr =? 0) && xe_causeCanceled e then
        (OutcomeCancelled, 0, "Cancelled", ae_Message cerr)
      else if isTimeout e cerr then
        (OutcomeTimeout, ae_Status cerr, categoryName (ae_Category cerr), ae_Message cerr)
      else (OutcomeFailure, ae_Status cerr, categoryName (ae_Category cerr), ae_Message cerr)
  end.

Record LoadRecord := mkLoadRecord {
  lr_Timestamp : Time;
  lr_AgentRole : string;
  lr_AgentID : string;
  lr_Operation : Operation;
  lr_Phase : LoadPhase;
  lr_LatencyMS : float64;
  lr_StatusCode : Z;
  lr_Outcome : LoadOutcome;
  lr_ErrorCategory : string;
  lr_ErrorMessage : string
}.

Definition recordFor (role agentID : string) (op : Operation) (start : Time) (latency : Duration)
    (err : option LoadError) (phase : LoadPhase) : LoadRecord :=
  let ms := fdiv (fof_Z latency) (fof_Z Millisecond) in
  match err with
  | None => mkLoadRecord start role agentID op phase ms 200 OutcomeSuccess "" ""
  | Some e =>
      let '(outcome, status, category, message) := classifyLoad e in
      mkLoadRecord start role agentID op phase ms status outcome category message
  end.

Definition mean (sorted : list float64) : float64 :=
  match sorted with
  | [] => fzero
  | _ => fdiv (foldl fadd fzero sorted) (fof_Z (Z.of_nat (length sorted)))
  end.

(** [percentile]: nearest rank, clamped into range. *)
Definition percentile (sorted : list float64) (p : Z) : float64 :=
  let n := Z.of_nat (length sorted) in
  if n =? 0 then fzero
  else
    let rank := float_to_int64 (GoMath.Ceil (fmul (fdiv (fof_Z p) (fof_Z 100)) (fof_Z n))) in
    let rank := if rank <? 1 then 1 else rank in
    let rank := if n <? rank then n else rank in
    default fzero (sorted !! Z.to_nat (rank - 1)).

Record OperationStats := mkStats {
  os_Attempts : nat;
  os_Successes : nat;
  os_Failures : nat;
  os_Timeouts : nat;
  os_Cancelled : nat;
  os_latencies : list float64
}.

(** One iteration of the loop of [computeStats]. *)
Definition count_record (op : Operation) (st : OperationStats) (r : LoadRecord) : OperationStats :=
  let 'mkStats a s f t c l := st in
  if negb (bool_decide (lr_Operation r = op)) || negb (bool_decide (lr_Phase r = PhaseMeasurement)) then st
  else
    match lr_Outcome r with
    | OutcomeCancelled => mkStats a s f t (S c) l
    | OutcomeSuccess => mkStats (S a) (S s) f t c (l ++ [lr_LatencyMS r])
    | OutcomeTimeout => mkStats (S a) s f (S t) c l
    | OutcomeFailure => mkStats (S a) s (S f) t c l
    end.

Definition stats_zero : OperationStats := mkStats 0 0 0 0 0 [].

(** The summary over the counts: the mean, percentiles and extremes of the
    successful latencies, the throughput and the error rate. *)
Record OperationSummary := mkSummaryStats {
  ou_Counts : OperationStats;
  ou_MeanMS : float64; ou_P50MS : float64; ou_P90MS : float64; ou_P95MS : float64; ou_P99MS : float64;
  ou_MinMS : float64; ou_MaxMS : float64;
  ou_SuccessPerSecond : float64; ou_SuccessPerMinute : float64; ou_ErrorRate : float64
}.

(** [d.Seconds()]. *)
Definition dur_Seconds (d : Duration) : float64 :=
  fadd (fof_Z (Z.quot d Second)) (fdiv (fof_Z (Z.rem d Second)) (fof_Z Second)).

Definition computeStats (records : list LoadRecord) (op : Operation) (duration : Duration) : OperationSummary :=
  let st := foldl (count_record op) stats_zero records in
  let sorted := GoMath.Float64s (os_latencies st) in
  let secs := dur_Seconds duration in
  let successes := fof_Z (Z.of_nat (os_Successes st)) in
  mkSummaryStats st (mean sorted) (percentile sorted 50) (percentile sorted 90) (percentile sorted 95)
    (percentile sorted 99) (default fzero (head sorted)) (default fzero (last sorted))
    (if flt fzero secs then fdiv successes secs else fzero)
    (if flt fzero secs then fdiv successes (fdiv secs (fof_Z 60)) else fzero)
    (if decide (0 < os_Attempts st)%nat then
       fdiv (fof_Z (Z.of_nat (os_Failures st + os_Timeouts st))) (fof_Z (Z.of_nat (os_Attempts st)))
     else fzero).

(** A percentile is a value that was measured. *)
Lemma percentile_observed sorted p : sorted ≠ [] → percentile sorted p ∈ sorted.
Proof.
  intros Hne. unfold percentile. destruct (Z.eqb_spec (Z.of_nat (length sorted)) 0) as [E|E].
  { destruct sorted; [done|simpl in E; lia]. }
  set (rank := float_to_int64 _). clearbody rank.
  set (r := if Z.of_nat (length sorted) <? _ then _ else _).
  assert (1 ≤ r ≤ Z.of_nat (length sorted)) as Hr
    by (unfold r; repeat case_match; fed_bools; lia).
  destruct (lookup_lt_is_Some_2 sorted (Z.to_nat (r - 1))) as [x Hx]; [lia|].
  rewrite Hx. by eapply list_elem_of_lookup_2.
Qed.

Definition measured_op (op : Operation) (r : LoadRecord) : bool :=
  bool_decide (lr_Operation r = op) && bool_decide (lr_Phase r = PhaseMeasurement).
Definition outcome_eqb (a b : LoadOutcome) : bool :=
  match a, b with
  | OutcomeSuccess, OutcomeSuccess | OutcomeFailure, OutcomeFailure
  | OutcomeTimeout, OutcomeTimeout | OutcomeCancelled, OutcomeCancelled => true
  | _, _ => false
  end.
Definition measured_as (op : Operation) (out : LoadOutcome) (r : LoadRecord) : bool :=
  measured_op op r && outcome_eqb (lr_Outcome r) out.

(** The load test counts every measured request once: each record of the
    operation in the measurement phase is a success, a failure, a timeout or a
    cancellation by the harness, the first three make up the attempts, and the
    latencies summarised are those of the successes, so every percentile is a
    latency of a successful request. *)
Theorem computeStats_partition records op duration :
  let s := computeStats records op duration in
  let st := ou_Counts s in
  let n out := count_if (measured_as op out) records in
  os_Successes st = n OutcomeSuccess ∧ os_Failures st = n OutcomeFailure ∧
  os_Timeouts st = n OutcomeTimeout ∧ os_Cancelled st = n OutcomeCancelled ∧
  os_Attempts st = (os_Successes st + os_Failures st + os_Timeouts st)%nat ∧
  (os_Attempts st + os_Cancelled st)%nat = count_if (measured_op op) records ∧
  length (os_latencies st) = os_Successes st ∧
  (∀ x, x ∈ os_latencies st → ∃ r, r ∈ records ∧ measured_as op OutcomeSuccess r = true ∧ lr_LatencyMS r = x) ∧
  (os_Successes st ≠ 0%nat → ou_P95MS s ∈ os_latencies st ∧ ou_P50MS s ∈ os_latencies st).
Proof.
  intros s st n.
  assert (∀ p, os_Successes st ≠ 0%nat → length (os_latencies st) = os_Successes st →
    percentile (GoMath.Float64s (os_latencies st)) p ∈ os_latencies st) as Hperc.
  { intros p Hs Hl. pose proof (GoMath.Float64s_perm (os_latencies st)) as Hp.
    assert (∀ x, x ∈ GoMath.Float64s (os_latencies st) → x ∈ os_latencies st) as Hin
      by (intros x; by rewrite Hp).
    apply Hin, percentile_observed. intros E. rewrite E in Hp.
    apply Permutation_length in Hp. simpl in Hp. lia. }
  assert (os_Successes st = n OutcomeSuccess ∧ os_Failures st = n OutcomeFailure ∧
    os_Timeouts st = n OutcomeTimeout ∧ os_Cancelled st = n OutcomeCancelled ∧
    os_Attempts st = (os_Successes st + os_Failures st + os_Timeouts st)%nat ∧
    (os_Attempts st + os_Cancelled st)%nat = count_if (measured_op op) records ∧
    length (os_latencies st) = os_Successes st ∧
    (∀ x, x ∈ os_latencies st → ∃ r, r ∈ records ∧ measured_as op OutcomeSuccess r = true ∧ lr_LatencyMS r = x))
    as Hcounts.
  { clear Hperc. unfold st, s, n, computeStats. cbn [ou_Counts]. clear. induction records as [|r l IH] using rev_ind.
    - split_and!; try done. by intros x ?%elem_of_nil.
    - rewrite foldl_app. cbn [foldl]. rewrite !count_if_snoc.
      destruct (foldl (count_record op) stats_zero l) as [a su f t c ls].
      destruct IH as (H1 & H2 & H3 & H4 & H5 & H6 & H7 & H8).
      cbn [os_Attempts os_Successes os_Failures os_Timeouts os_Cancelled os_latencies] in *.
      assert (∀ x, x ∈ ls → ∃ r0, r0 ∈ l ++ [r] ∧ measured_as op OutcomeSuccess r0 = true ∧ lr_LatencyMS r0 = x)
        as H8'.
      { intros x Hx. destruct (H8 x Hx) as (r0 & ? & ?). exists r0. split; [|done]. apply elem_of_app. by left. }
      unfold count_record, measured_as, measured_op, bump in *.
      destruct (bool_decide (lr_Operation r = op)) eqn:Eo, (bool_decide (lr_Phase r = PhaseMeasurement)) eqn:Ep;
        cbn [negb orb andb]; [|split_and!; done..].
      destruct (lr_Outcome r) eqn:Er;
        cbn [os_Attempts os_Successes os_Failures os_Timeouts os_Cancelled os_latencies outcome_eqb];
        split_and!; try lia; try done.
      + rewrite length_app. simpl. lia.
      + intros x [Hx|Hx%list_elem_of_singleton]%elem_of_app; [by apply H8'|]. exists r.
        split; [apply elem_of_app; right; constructor|].
        by rewrite Eo, Ep, Er. }
  destruct Hcounts as (? & ? & ? & ? & ? & ? & Hl & ?). split_and!; try done.
  intros Hs. split; by apply Hperc.
Qed.
End Evaluation.

(** ** On concrete numbers *)
Module EvaluationWitness.
#[local] Existing Instance MilliPlatform.platform.

Definition metrics1 : list (option float64) :=
  [Some (fof_Z 30); Some (fof_Z 10); None; Some (fof_Z 30); Some (fof_Z 50)].

Lemma rankAscending_correct_witness : rankAscending metrics1 = [2; 1; 0; 2; 4]%nat.
Proof.
  destruct (rankAscending_correct metrics1) as [Hl Hr]; [repeat constructor|].
  apply list_eq. intros i. rewrite Hr.
  do 5 (destruct i as [|i]; [reflexivity|]). reflexivity.
Defined.

(** Rounding and ceilings: 2.5, -0.4 and 0.95 * 20. *)
Example math_values :
  GoMath.Round (flit 5 2) = fof_Z 3 ∧ GoMath.Round (flit (-2) 5) = SpecFloat.S754_zero true ∧
  float_to_int64 (GoMath.Ceil (fmul (flit 95 100) (fof_Z 20))) = 19 ∧
  inWorstQuantile 7 9 (flit 1 4) = true ∧ inWorstQuantile 6 9 (flit 1 4) = false.
Proof. vm_compute. done. Qed.
End EvaluationWitness.
